(* ===== verification/_CoqProject ===== *)
-Q . S2P
Prelude.v
Bitmap.v
Buffer.v
Types.v
Encode.v
Decode.v
CodecSafety.v
Wire.v
CodecRoundtrip.v
ValueRoundtrip.v
FieldRoundtrip.v
Frames.v
Parsing.v
FrameRoundtrip.v
FrameTyping.v
Message.v
MessageRoundtrip.v
EncodeSafety.v
Link.v
Creditor.v
Receiver.v
ReceiverSpec.v
Sender.v
SenderSpec.v
Delivery.v
Cancel.v
Broken.v
LinkOptions.v
Session.v
SessionSpec.v
SessionTyping.v
Confirm.v
Settle.v
Batched.v
Second.v
Fifo.v
Sasl.v
Conn.v
ConnSpec.v
Establish.v
Transport.v
Dial.v
Lifecycle.v
TestConn.v
Printing.v
Texts.v
