(* ===== verification/Prelude.v ===== *)
(** * A verification of go-amqp

    go-amqp is an AMQP 1.0 client.  The application dials a connection, creates
    sessions on it and senders and receivers on these.  A connection runs a
    reader and a writer, every session and every link a "mux" goroutine; they
    talk over channels.  This library models the client in executable Gallina
    and proves what makes the parts, and the chain of them, correct.

    ** The program's parts and the files that model them

    Codec (internal/):
    - internal/bitmap -> [Bitmap]: allocator of channels and handles; class
      [IdAllocator] states what its clients (Session, Conn) rely on, and
      [Bitmap_allocator] is its instance.
    - internal/buffer -> [Buffer]: the byte buffer with its read position.  Also
      the three specifications the codec proofs use: [Encodes m l] ([m] appends
      exactly [l]), [Decodes d l a] ([d] consumes exactly [l] and returns [a]),
      [Safe n min post d] (on any input [d] stays in range and returns).
    - internal/encoding/types.go -> [Types]; encode.go and the Marshal methods ->
      [Encode]; decode.go and the Unmarshal methods -> [Decode].
    - internal/frames/frames.go -> [Frames]; parsing.go -> [Parsing].
    - message.go -> [Message].
    - the String methods of types.go and frames.go and the Error methods of errors.go ->
      [Printing] and [Texts].
    - internal/testconn, the network of the tests -> [TestConn].

    Client:
    - errors.go, const.go and link.go -> [Link] (modules Errors and Link).
    - creditor.go -> [Creditor]; receiver.go -> [Receiver]; sender.go -> [Sender].
    - link_options.go, the constructors newReceiver, newSender, Session.NewReceiver
      and Session.NewSender, the attach closures, and internal/shared ->
      [LinkOptions].
    - session.go -> [Session].
    - sasl.go -> [Sasl] (the options, SASLType as a function on the connection) and
      the handler part of [Conn]; conn.go -> [Conn] and, for Dial, dialConn and
      NewConn, [Dial], and, for Conn.NewSession, [Lifecycle].

    ** How code becomes definitions

    Fixed-width integers are [Z] with their wrap-around written out ([u32] and
    the like).  Bytes and strings are [list Z].  A function that works on a shared
    object through a pointer is in the monad [M S A] of this file: it returns
    [Ok], [Err], [Panic] (an index out of range, a nil dereference, a send on a
    closed channel, an unhashable map key) or [OutOfFuel], with the object as it is left.
    Go maps that are only iterated or encoded are association lists (theorems
    that hold for every list hold for every iteration order); maps that are
    looked up are [gmap].

    A goroutine that waits in a [select] is a step function: its argument is the
    event that the [select] takes, its result the new state, the frames it sends
    and the channels it completes ([mux_step] of Session, [sender_mux_step],
    [mux_step] and [batch_step] of Receiver, [attach_step] and [muxDetach_step] of
    Link, [connReader_step] and [connWriter_step] of Conn).  [connReader] and
    [connWriter] are the whole goroutines, their loops run over a list of events.
    A call of the application that waits for a goroutine is a definition on
    the event that ends its wait ([Send_wait] of Sender, [DrainCredit_wait] and
    [messageDisposition_wait] of Receiver, [closeLink_wait] of Link, [Close_wait] and
    [begin_wait] of Session).  Every order of events is a
    sequence of steps, so that a theorem over all sequences covers every
    interleaving that the channels allow.  A send on a channel inside a step that
    can lose against another case of its [select] is a choice of the event: the
    [skip] of [ERxSelect] in Session says which links do not take the frame, because
    they are detached or the connection is done ([ERx] is the event in which all
    do); [SDetached] of Sender carries the link's error at that time.  What other
    goroutines do to a session while its mux runs, creating, attaching and detaching
    links, is the relation [link_step] of SessionSpec, and [life_step] interleaves it
    with the events of the mux: the theorems on sessions are about its runs from
    [new_state], the state after Begin.  The network of a connection is the list of
    the results of its reads, after which it is at its end, so that a theorem over
    all lists covers every way of splitting and every failure.

    ** What is shown

    - Codec.  [Wire]: the encoder with its patched sizes writes the direct AMQP
      encoding.  [EncodeSafety]: it returns and only appends, for any value, and panics
      only on a nil filter.
      [CodecSafety], [FrameRoundtrip], [MessageRoundtrip]: the decoders return on
      any input and never index out of range; their only panic is an unhashable map key.  [ValueRoundtrip], [FrameRoundtrip],
      [MessageRoundtrip]: decoding inverts encoding for values, performatives,
      frames and messages, up to the normal form that the wire imposes ([norm]:
      for example timestamps in milliseconds, nil and empty).
    - Transport.  [ConnSpec]: frames are read back whatever way the bytes
      arrive, and readFrame returns.  [Establish]: what one connection writes the
      other reads; start returns, and succeeds only after the peer has
      accepted the configured authentication; channels are unique; what Close reports.  [Transport]: the
      writer of one connection and the reader of the other form a channel that hands
      every frame, in order, to the session it is for, which only the frames on its own
      channel decide.  [Dial]: the address is respected.
    - Sessions.  [SessionSpec]: handles are unique, transfers stay within the
      peer's window, dispositions resolve exactly the deliveries they name, the
      peer gets its window back, the mux ends once and with the error of the event that
      ended it; all this while links come and go.
      [FrameTyping], [SessionTyping]: what the parser returns is in the ranges of
      its Go types, and the session keeps its state and the frames it sends in them.
      [Lifecycle]: a session that is created, begun, closed and ended by the peer
      returns from Close without error and gives its channel back.
    - Links.  [Link], [LinkOptions]: attach agrees settlement modes and puts the
      options on the wire; detach handshake.  [Creditor], [ReceiverSpec]: credit
      stays within its maximum, batched dispositions are sent exactly once.
      [SenderSpec]: messages are split into frames that fit, and sent only with credit.
      [Lifecycle]: closing a link detaches it and Close returns when the peer answers.
    - Composition.  [Delivery]: the message that Send splits is the message that
      Receive delivers.  [Confirm]: the peer's disposition completes the Send that
      waits for it.  [Fifo]: sender, session, network, peer's session and receiver
      together refine a queue of messages: whatever the interleaving, what
      the receiving application takes is what was sent, in order, once.  [Settle]: the
      way back too: what the receiving application decides on a message is what the
      Send at the other end returns; [Batched] the same for verdicts that are sent in
      batches; [Second] the exchange with a receiver that settles second.  [Cancel]: a
      Send that is cancelled in the middle of a message.  [Broken]: a message that
      cannot be decoded.  Client theorems on handles and channels are proved against the
      [IdAllocator] interface.
    - Behaviour that looks unintended is stated as theorems too, next to the
      component ([inFlight_remove_diverges], [disposition_wrong_link],
      [small_frame_stalls], [sender_credit_underflow], [size_limit_dropped],
      [DrainCredit_loses_error], [cancelled_send_detaches], [cancelled_send_corrupts],
      [broken_message_leaks], ...).
    - Support.  [Printing]: the text of a UUID determines it, names of enumerations are
      distinct, SASL texts hide the credentials.  [Texts]: errors print as their cause,
      transfers do not print their payload.  [TestConn]: canned data arrives
      complete, and a recording is replayed as it was recorded.

    ** Bounds and fuel

    [ReadAny] and the map loops have as fuel one more than the bytes that are
    left ([Safe] proves this enough: every level reads a byte).  [readFrame_fuel]
    and [readProtoHeader] count reads and bytes that are left.  [start_fuel] is ten, more than the
    longest path of the state machine ([start_ends]).  [send_loop] has the encoded bytes as
    fuel.  The disposition loops have explicit fuel because with the last id
    2^32-1 they do not end.

    ** Not modelled

    Networks that deliver reads for ever: on an endless stream of keepalives readFrame
    does not return, while the theorems on termination are about streams that end;
    internal/debug (logging), the mocks of the tests, the TCP and TLS dialers,
    the TLS handshake and url.Parse (parameters of [Dial] and [Conn]), time: deadlines and
    time-outs appear as errors of the network or as events; channel capacities,
    except where a full channel would change the order of steps; what fmt prints for
    values of open types (the class [Fmt] of [Texts]); the mutexes, which only make the operations they protect atomic. *)

From stdpp Require Export base tactics list numbers option gmap strings.
From Stdlib Require Export ZArith Lia.

#[global] Open Scope Z_scope.

(** ** Machine integers

    Go's fixed-width integers are [Z] kept in range by an explicit wrap:
    [uN z] is the conversion [uintN(z)], [iN z] the conversion [intN(z)]. *)

Definition u8 (z : Z) : Z := z mod 2 ^ 8.
Definition u16 (z : Z) : Z := z mod 2 ^ 16.
Definition u32 (z : Z) : Z := z mod 2 ^ 32.
Definition u64 (z : Z) : Z := z mod 2 ^ 64.
Definition i8 (z : Z) : Z := (z + 2 ^ 7) mod 2 ^ 8 - 2 ^ 7.
Definition i16 (z : Z) : Z := (z + 2 ^ 15) mod 2 ^ 16 - 2 ^ 15.
Definition i32 (z : Z) : Z := (z + 2 ^ 31) mod 2 ^ 32 - 2 ^ 31.
Definition i64 (z : Z) : Z := (z + 2 ^ 63) mod 2 ^ 64 - 2 ^ 63.

(** Ranges of the unsigned and signed types. *)
Definition is_u (w : Z) (z : Z) : Prop := 0 <= z < 2 ^ w.
Definition is_i (w : Z) (z : Z) : Prop := - 2 ^ (w - 1) <= z < 2 ^ (w - 1).

Ltac unfold_ints :=
  unfold is_u, is_i, u8, u16, u32, u64, i8, i16, i32, i64 in *;
  change (2 ^ 7) with 128 in *; change (2 ^ 8) with 256 in *;
  change (2 ^ 15) with 32768 in *; change (2 ^ 16) with 65536 in *;
  change (2 ^ 31) with 2147483648 in *; change (2 ^ 32) with 4294967296 in *;
  change (2 ^ 63) with 9223372036854775808 in *;
  change (2 ^ 64) with 18446744073709551616 in *;
  change (2 ^ (8 - 1)) with 128 in *; change (2 ^ (16 - 1)) with 32768 in *;
  change (2 ^ (32 - 1)) with 2147483648 in *;
  change (2 ^ (64 - 1)) with 9223372036854775808 in *.

(** Linear arithmetic over the machine-integer conversions. *)
Ltac ilia := unfold_ints; Z.to_euclidean_division_equations; lia.

Lemma u8_small z : is_u 8 z -> u8 z = z.
Proof. intros; unfold_ints; apply Z.mod_small; lia. Qed.
Lemma u16_small z : is_u 16 z -> u16 z = z.
Proof. intros; unfold_ints; apply Z.mod_small; lia. Qed.
Lemma u32_small z : is_u 32 z -> u32 z = z.
Proof. intros; unfold_ints; apply Z.mod_small; lia. Qed.
Lemma u64_small z : is_u 64 z -> u64 z = z.
Proof. intros; unfold_ints; apply Z.mod_small; lia. Qed.
Lemma u8_range z : is_u 8 (u8 z).
Proof. unfold is_u, u8. apply Z.mod_pos_bound. lia. Qed.
Lemma u16_range z : is_u 16 (u16 z).
Proof. unfold is_u, u16. apply Z.mod_pos_bound. lia. Qed.
Lemma u32_range z : is_u 32 (u32 z).
Proof. unfold is_u, u32. apply Z.mod_pos_bound. lia. Qed.
Lemma u64_range z : is_u 64 (u64 z).
Proof. unfold is_u, u64. apply Z.mod_pos_bound. lia. Qed.
Lemma u32_add_l a b : u32 (u32 a + b) = u32 (a + b).
Proof. unfold u32. apply Zplus_mod_idemp_l. Qed.
Lemma u32_add_r a b : u32 (a + u32 b) = u32 (a + b).
Proof. unfold u32. apply Zplus_mod_idemp_r. Qed.
Lemma u32_sub_r a b : u32 (a - u32 b) = u32 (a - b).
Proof. unfold u32. apply Zminus_mod_idemp_r. Qed.

(** ** Byte sequences

    A Go [[]byte] or [string] is a [list Z] of bytes (a Go string is an
    arbitrary byte sequence). [zlen] is Go's [len]. *)

Abbreviation bytes := (list Z).

Definition zlen {A} (l : list A) : Z := Z.of_nat (length l).

Definition is_byte (z : Z) : Prop := is_u 8 z.
Definition bytes_ok (l : bytes) : Prop := Forall is_byte l.

Definition bytes_okb (l : bytes) : bool := forallb (fun c => (0 <=? c) && (c <? 256)) l.
Lemma bytes_okb_ok l : bytes_okb l = true -> bytes_ok l.
Proof.
  unfold bytes_okb, bytes_ok. rewrite forallb_forall, List.Forall_forall.
  intros H c Hc. specialize (H c Hc). unfold is_byte, is_u. lia.
Qed.

(** The bytes of an ASCII literal of the source. *)
Fixpoint bytes_of_string (s : String.string) : bytes :=
  match s with
  | String.EmptyString => []
  | String.String a s' => Z.of_N (Ascii.N_of_ascii a) :: bytes_of_string s'
  end.

Lemma zlen_nil {A} : zlen (@nil A) = 0.
Proof. reflexivity. Qed.
Lemma zlen_cons {A} (x : A) l : zlen (x :: l) = 1 + zlen l.
Proof. unfold zlen; cbn [length]; lia. Qed.
Lemma zlen_app {A} (l k : list A) : zlen (l ++ k) = zlen l + zlen k.
Proof. unfold zlen; rewrite length_app; lia. Qed.
Lemma zlen_nonneg {A} (l : list A) : 0 <= zlen l.
Proof. unfold zlen; lia. Qed.
Lemma zlen_replicate {A} n (x : A) : zlen (replicate n x) = Z.of_nat n.
Proof. unfold zlen; by rewrite length_replicate. Qed.
Lemma zlen_map {A B} (f : A -> B) l : zlen (map f l) = zlen l.
Proof. unfold zlen. by rewrite length_map. Qed.
Lemma zlen_0_nil {A} (l : list A) : zlen l = 0 -> l = [].
Proof. destruct l; [done|]. rewrite zlen_cons. pose proof (zlen_nonneg l). lia. Qed.
Lemma to_nat_zlen {A} (l : list A) : Z.to_nat (zlen l) = length l.
Proof. unfold zlen; lia. Qed.

Create Rewrite HintDb zlen.
#[export] Hint Rewrite @zlen_nil @zlen_cons @zlen_app @zlen_replicate @zlen_map : zlen.

(** Normalise lengths, add non-negativity of every length in sight, then
    linear arithmetic. *)
Ltac pose_zlen :=
  repeat match goal with
    | |- context [zlen ?l] => lazymatch goal with
        | _ : 0 <= zlen l |- _ => fail | _ => pose proof (zlen_nonneg l) end
    | _ : context [zlen ?l] |- _ => lazymatch goal with
        | _ : 0 <= zlen l |- _ => fail | _ => pose proof (zlen_nonneg l) end
    end.
Ltac zlia := autorewrite with zlen in *; pose_zlen; lia.

(** Slices [l[i:j]], with the indices in range. *)
Definition slice (l : bytes) (i j : Z) : bytes :=
  take (Z.to_nat (j - i)) (drop (Z.to_nat i) l).

Lemma take_app_zlen {A} (l k : list A) : take (Z.to_nat (zlen l)) (l ++ k) = l.
Proof. rewrite to_nat_zlen. by rewrite take_app_length. Qed.
Lemma drop_app_zlen {A} (l k : list A) : drop (Z.to_nat (zlen l)) (l ++ k) = k.
Proof. rewrite to_nat_zlen. by rewrite drop_app_length. Qed.

Lemma slice_app l m r : slice (l ++ m ++ r) (zlen l) (zlen l + zlen m) = m.
Proof.
  unfold slice. rewrite drop_app_zlen.
  replace (zlen l + zlen m - zlen l) with (zlen m) by lia. apply take_app_zlen.
Qed.

Lemma bytes_ok_app l k : bytes_ok (l ++ k) <-> bytes_ok l /\ bytes_ok k.
Proof. apply Forall_app. Qed.

(** *** Big-endian integers

    [be_bytes k n] is the [k]-byte big-endian encoding of [n]; [be_val] the
    value of a big-endian byte sequence. *)

Fixpoint be_bytes (k : nat) (n : Z) : bytes :=
  match k with
  | O => []
  | S k' => u8 (Z.shiftr n (8 * Z.of_nat k')) :: be_bytes k' n
  end.

Definition be_val (l : bytes) : Z := fold_left (fun acc b => acc * 256 + b) l 0.

Lemma length_be_bytes k n : length (be_bytes k n) = k.
Proof. induction k; cbn; congruence. Qed.
Lemma zlen_be_bytes k n : zlen (be_bytes k n) = Z.of_nat k.
Proof. unfold zlen. by rewrite length_be_bytes. Qed.
Lemma zlen_be_bytes2 n : zlen (be_bytes 2 n) = 2.
Proof. reflexivity. Qed.
Lemma zlen_be_bytes4 n : zlen (be_bytes 4 n) = 4.
Proof. reflexivity. Qed.
Lemma zlen_be_bytes8 n : zlen (be_bytes 8 n) = 8.
Proof. reflexivity. Qed.
#[export] Hint Rewrite zlen_be_bytes2 zlen_be_bytes4 zlen_be_bytes8 : zlen.
Lemma bytes_ok_be_bytes k n : bytes_ok (be_bytes k n).
Proof. induction k; cbn; constructor; auto. apply u8_range. Qed.

Lemma be_val_acc l a :
  fold_left (fun acc b => acc * 256 + b) l a = a * 256 ^ zlen l + be_val l.
Proof.
  unfold be_val. revert a. induction l as [|x l IH]; intros a; cbn [fold_left].
  - rewrite zlen_nil. lia.
  - rewrite IH, (IH (0 * 256 + x)), zlen_cons, Z.pow_add_r by (pose_zlen; lia). ring.
Qed.

Lemma be_val_cons x l : be_val (x :: l) = x * 256 ^ zlen l + be_val l.
Proof. unfold be_val at 1. cbn [fold_left]. rewrite be_val_acc. ring. Qed.

Lemma be_val_range l : bytes_ok l -> 0 <= be_val l < 256 ^ zlen l.
Proof.
  induction 1 as [|x l Hx Hl IH]; [by cbn|].
  rewrite be_val_cons, zlen_cons, Z.pow_add_r by (pose_zlen; lia).
  unfold is_byte, is_u in Hx. change (2 ^ 8) with 256 in Hx.
  change (256 ^ 1) with 256. nia.
Qed.

Lemma be_val_be_bytes k n : be_val (be_bytes k n) = n mod 256 ^ Z.of_nat k.
Proof.
  induction k as [|k IH]; cbn [be_bytes].
  - cbn. by rewrite Z.mod_1_r.
  - rewrite be_val_cons, IH, zlen_be_bytes, Nat2Z.inj_succ, <- Z.add_1_r.
    rewrite Z.pow_add_r by lia. change (256 ^ 1) with 256.
    rewrite Z.shiftr_div_pow2 by lia.
    replace (2 ^ (8 * Z.of_nat k)) with (256 ^ Z.of_nat k)
      by (change 256 with (2 ^ 8); rewrite <- Z.pow_mul_r by lia; f_equal; lia).
    set (p := 256 ^ Z.of_nat k). assert (0 < p) by (apply Z.pow_pos_nonneg; lia).
    unfold u8. change (2 ^ 8) with 256.
    rewrite (Z.rem_mul_r n p 256) by lia. ring.
Qed.

(** [binary.BigEndian.Uint16/32/64] on a slice of sufficient length. *)
Definition Uint16 (l : bytes) : Z :=
  match l with
  | b0 :: b1 :: _ => Z.lor b1 (Z.shiftl b0 8)
  | _ => 0
  end.
Definition Uint32 (l : bytes) : Z :=
  match l with
  | b0 :: b1 :: b2 :: b3 :: _ =>
      Z.lor b3 (Z.lor (Z.shiftl b2 8) (Z.lor (Z.shiftl b1 16) (Z.shiftl b0 24)))
  | _ => 0
  end.
Definition Uint64 (l : bytes) : Z :=
  match l with
  | b0 :: b1 :: b2 :: b3 :: b4 :: b5 :: b6 :: b7 :: _ =>
      Z.lor b7 (Z.lor (Z.shiftl b6 8) (Z.lor (Z.shiftl b5 16) (Z.lor (Z.shiftl b4 24)
        (Z.lor (Z.shiftl b3 32) (Z.lor (Z.shiftl b2 40)
           (Z.lor (Z.shiftl b1 48) (Z.shiftl b0 56)))))))
  | _ => 0
  end.

(** Disjoint bits: [lor] of a low part and a shifted high part is a sum. *)
Lemma lor_shiftl_add a k c :
  0 <= k -> 0 <= a < 2 ^ k -> Z.lor a (Z.shiftl c k) = a + c * 2 ^ k.
Proof.
  intros Hk Ha. rewrite <- Z.shiftl_mul_pow2 by lia.
  rewrite Z.add_nocarry_lxor; [symmetry; apply Z.lxor_lor|];
    apply Z.bits_inj'; intros n Hn; rewrite Z.land_spec, Z.bits_0;
    (destruct (Z.ltb_spec n k);
     [rewrite Z.shiftl_spec_low by lia; by rewrite andb_false_r
     |rewrite <- (Z.mod_small a (2 ^ k)), Z.mod_pow2_bits_high by lia; done]).
Qed.

Lemma lor_step a c j k :
  0 <= j -> 0 <= k -> 0 <= a < 2 ^ k ->
  Z.lor (Z.shiftl a j) (Z.shiftl c (k + j)) = Z.shiftl (a + c * 2 ^ k) j.
Proof.
  intros. rewrite <- (lor_shiftl_add a k c) by lia.
  rewrite Z.shiftl_lor, Z.shiftl_shiftl by lia. f_equal; f_equal; lia.
Qed.

Lemma lor_byte a c j :
  0 <= j -> is_byte a -> Z.lor (Z.shiftl a j) (Z.shiftl c (8 + j)) = Z.shiftl (a + c * 256) j.
Proof. intros. by apply lor_step; unfold is_byte, is_u in *. Qed.

Lemma lor_byte_low a c : is_byte a -> Z.lor a (Z.shiftl c 8) = a + c * 256.
Proof. intros. by apply lor_shiftl_add. Qed.

Lemma Uint16_be_val b0 b1 l :
  bytes_ok [b0; b1] -> Uint16 (b0 :: b1 :: l) = be_val [b0; b1].
Proof.
  intros H. repeat (apply Forall_cons in H as [? H]). cbn [Uint16].
  rewrite lor_byte_low by done. cbn. ring.
Qed.

Lemma Uint32_be_val b0 b1 b2 b3 l :
  bytes_ok [b0; b1; b2; b3] -> Uint32 (b0 :: b1 :: b2 :: b3 :: l) = be_val [b0; b1; b2; b3].
Proof.
  intros H. repeat (apply Forall_cons in H as [? H]). cbn [Uint32].
  change 24 with (8 + 16); rewrite lor_byte by (done || lia).
  change 16 with (8 + 8); rewrite lor_byte by (done || lia).
  rewrite lor_byte_low by done. cbn. ring.
Qed.

Lemma Uint64_be_val b0 b1 b2 b3 b4 b5 b6 b7 l :
  bytes_ok [b0; b1; b2; b3; b4; b5; b6; b7] ->
  Uint64 (b0 :: b1 :: b2 :: b3 :: b4 :: b5 :: b6 :: b7 :: l)
  = be_val [b0; b1; b2; b3; b4; b5; b6; b7].
Proof.
  intros H. repeat (apply Forall_cons in H as [? H]). cbn [Uint64].
  change 56 with (8 + 48); rewrite lor_byte by (done || lia).
  change 48 with (8 + 40); rewrite lor_byte by (done || lia).
  change 40 with (8 + 32); rewrite lor_byte by (done || lia).
  change 32 with (8 + 24); rewrite lor_byte by (done || lia).
  change 24 with (8 + 16); rewrite lor_byte by (done || lia).
  change 16 with (8 + 8); rewrite lor_byte by (done || lia).
  rewrite lor_byte_low by done. cbn. ring.
Qed.

Lemma Uint16_be_bytes n l : is_u 16 n -> Uint16 (be_bytes 2 n ++ l) = n.
Proof.
  intros H. pose proof (bytes_ok_be_bytes 2 n) as Hb.
  pose proof (be_val_be_bytes 2 n) as Hv. cbn [be_bytes] in *. cbn [app].
  rewrite Uint16_be_val by done. rewrite Hv. apply Z.mod_small. exact H.
Qed.
Lemma Uint32_be_bytes n l : is_u 32 n -> Uint32 (be_bytes 4 n ++ l) = n.
Proof.
  intros H. pose proof (bytes_ok_be_bytes 4 n) as Hb.
  pose proof (be_val_be_bytes 4 n) as Hv. cbn [be_bytes] in *. cbn [app].
  rewrite Uint32_be_val by done. rewrite Hv. apply Z.mod_small. exact H.
Qed.
Lemma Uint64_be_bytes n l : is_u 64 n -> Uint64 (be_bytes 8 n ++ l) = n.
Proof.
  intros H. pose proof (bytes_ok_be_bytes 8 n) as Hb.
  pose proof (be_val_be_bytes 8 n) as Hv. cbn [be_bytes] in *. cbn [app].
  rewrite Uint64_be_val by done. rewrite Hv. apply Z.mod_small. exact H.
Qed.

Lemma Uint16_range l : bytes_ok l -> is_u 16 (Uint16 l).
Proof.
  intros H. destruct l as [|b0 [|b1 l]]; [by cbn..|].
  assert (bytes_ok [b0; b1]) as Hb by exact (Forall_take _ 2 _ H).
  rewrite Uint16_be_val by done. apply (be_val_range _ Hb).
Qed.
Lemma Uint32_range l : bytes_ok l -> is_u 32 (Uint32 l).
Proof.
  intros H. destruct l as [|b0 [|b1 [|b2 [|b3 l]]]]; [by cbn..|].
  assert (bytes_ok [b0; b1; b2; b3]) as Hb by exact (Forall_take _ 4 _ H).
  rewrite Uint32_be_val by done. apply (be_val_range _ Hb).
Qed.
Lemma Uint64_range l : bytes_ok l -> is_u 64 (Uint64 l).
Proof.
  intros H. destruct l as [|b0 [|b1 [|b2 [|b3 [|b4 [|b5 [|b6 [|b7 l]]]]]]]]; [by cbn..|].
  assert (bytes_ok [b0; b1; b2; b3; b4; b5; b6; b7]) as Hb by exact (Forall_take _ 8 _ H).
  rewrite Uint64_be_val by done. apply (be_val_range _ Hb).
Qed.

(** ** Outcomes

    A Go call returns normally, returns an [error], or panics.  Recursive
    decoders carry fuel, whose exhaustion is a separate outcome that the
    theorems rule out. *)

Inductive error :=
| EOF                                                (* io.EOF *)
| Errorf (msg : String.string) (args : list Z)       (* errors.New, fmt.Errorf *)
| Wrapf (msg : String.string) (args : list Z) (e : error).

Inductive panic :=
| IndexOutOfRange
| UnhashableKey
| NilDereference
| ClosedChannel
| ExplicitPanic.

Inductive res (A : Type) :=
| Ok (a : A)
| Err (e : error)
| Panic (p : panic)
| OutOfFuel.
Arguments Ok {A} a.
Arguments Err {A} e.
Arguments Panic {A} p.
Arguments OutOfFuel {A}.

#[export] Instance error_eq_dec : EqDecision error.
Proof. solve_decision. Defined.
#[export] Instance panic_eq_dec : EqDecision panic.
Proof. solve_decision. Defined.
#[export] Instance res_eq_dec `{EqDecision A} : EqDecision (res A).
Proof. solve_decision. Defined.

#[export] Instance res_ret : MRet res := fun A a => Ok a.
#[export] Instance res_bind : MBind res := fun A B k m =>
  match m with
  | Ok a => k a
  | Err e => Err e
  | Panic p => Panic p
  | OutOfFuel => OutOfFuel
  end.

(** Code that reads and updates a shared object [S] through a pointer. *)
Definition M (S A : Type) : Type := S -> res A * S.

#[export] Instance M_ret {S} : MRet (M S) := fun A a s => (Ok a, s).
#[export] Instance M_bind {S} : MBind (M S) := fun A B k m s =>
  match m s with
  | (Ok a, s') => k a s'
  | (Err e, s') => (Err e, s')
  | (Panic p, s') => (Panic p, s')
  | (OutOfFuel, s') => (OutOfFuel, s')
  end.

#[export] Instance M_fmap {S} : FMap (M S) := fun A B f m => m ≫= fun a => mret (f a).

Definition fail {S A} (e : error) : M S A := fun s => (Err e, s).
Definition panics {S A} (p : panic) : M S A := fun s => (Panic p, s).
Definition lift {S A} (r : res A) : M S A := fun s => (r, s).
Definition gets {S A} (f : S -> A) : M S A := fun s => (Ok (f s), s).
Definition modify {S} (f : S -> S) : M S unit := fun s => (Ok tt, f s).

(** [errors.New(msg)] and [fmt.Errorf(msg, args...)]. *)
Definition errorf {S A} (msg : String.string) (args : list Z) : M S A := fail (Errorf msg args).
Arguments errorf {S A} msg%_string args%_list.

(** Case analysis on the scrutinee of the innermost match or bind. *)
Ltac dm :=
  match goal with
  | |- context [match ?x with _ => _ end] => destruct x eqn:?
  end.
Ltac dm_in H :=
  match type of H with
  | context [match ?x with _ => _ end] => destruct x eqn:?
  end.

(** ** Relations between the states before and after *)

(** However [m] ends, the states before and after are related by [R]. *)
Definition Keeps {S} (R : relation S) {A} (m : M S A) : Prop := forall st, R st (m st).2.

Section Keeps.
Context {S : Type} (R : relation S) `{!PreOrder R}.

Lemma Keeps_ret {A} (a : A) : Keeps R (mret a).
Proof. intros st. by cbn. Qed.
Lemma Keeps_gets {A} (f : S -> A) : Keeps R (gets f).
Proof. intros st. by cbn. Qed.
Lemma Keeps_lift {A} (r : res A) : Keeps R (lift r).
Proof. intros st. by cbn. Qed.
Lemma Keeps_panics {A} p : Keeps R (panics (A := A) p).
Proof. intros st. by cbn. Qed.
Lemma Keeps_errorf {A} msg args : Keeps R (errorf (A := A) msg args).
Proof. intros st. by cbn. Qed.
Lemma Keeps_bind {A B} (m : M S A) (k : A -> M S B) :
  Keeps R m -> (forall a, Keeps R (k a)) -> Keeps R (m ≫= k).
Proof.
  intros Hm Hk st. specialize (Hm st). unfold mbind, M_bind. destruct (m st) as [[a|e|p|] st1]; cbn in *;
    [|done..]. specialize (Hk a st1). by etrans.
Qed.
Lemma Keeps_modify f : (forall st, R st (f st)) -> Keeps R (modify f).
Proof. intros H st. apply H. Qed.
End Keeps.

(** Walks through monadic code; the state updates are left. *)
Ltac keeps_walk :=
  first
    [ apply (Keeps_ret _) | apply (Keeps_gets _) | apply (Keeps_lift _) | apply (Keeps_panics _)
    | apply (Keeps_errorf _)
    | apply (Keeps_bind _); [|intros]
    | case_match ].
