(* ===== verification/Bitmap.v ===== *)
(** * Bitmap: the lowest-free-number allocator (internal/bitmap/bitmap.go)

    [Bitmap] hands out session channels (conn.go) and link handles
    (session.go).  [Add], [Remove] and [Next] are translated as written, with
    the word slice as a list of 64-bit words.  The file proves that they
    implement a set of numbers bounded by [max], and that [Next] always
    returns the least free one; [IdAllocator] is the interface the connection
    and the session rely on, and [Bitmap] is its instance. *)

From S2P Require Import Prelude.

Module Bitmap.

(** bitmap.Bitmap *)
Record Bitmap := mkBitmap { max : Z; bits : list Z }.

#[export] Instance Bitmap_eq_dec : EqDecision Bitmap.
Proof. solve_decision. Defined.

Definition New (max : Z) : Bitmap := mkBitmap max [].

(** [^uint64(x)] *)
Definition not64 (x : Z) : Z := Z.lxor x (2 ^ 64 - 1).

(** [bits.TrailingZeros64] *)
Fixpoint pos_ctz (p : positive) : nat :=
  match p with
  | xO q => S (pos_ctz q)
  | _ => O
  end.
Definition TrailingZeros64 (x : Z) : Z :=
  match x with
  | Zpos p => Z.of_nat (pos_ctz p)
  | _ => 64
  end.

(** [b.bits[idx]], for an index in range *)
Definition word (ws : list Z) (idx : Z) : Z := default 0 (ws !! Z.to_nat idx).

Definition Add (b : Bitmap) (n : Z) : Bitmap :=
  if n >? max b then b
  else
    let idx := n / 64 in
    let offset := n mod 64 in
    let l := zlen (bits b) in
    let ws :=
      if idx >=? l then bits b ++ replicate (Z.to_nat (idx - l + 1)) 0
      else bits b in
    mkBitmap (max b) (<[Z.to_nat idx := Z.lor (word ws idx) (Z.shiftl 1 offset)]> ws).

Definition Remove (b : Bitmap) (n : Z) : Bitmap :=
  let idx := n / 64 in
  let offset := n mod 64 in
  if idx >=? zlen (bits b) then b
  else
    mkBitmap (max b)
      (<[Z.to_nat idx := Z.land (word (bits b) idx) (not64 (Z.shiftl 1 offset))]> (bits b)).

(** The [for i, v := range b.bits] loop of [Next]: the first word that is not
    full, with its index. *)
Fixpoint scan (i : Z) (ws : list Z) : option (Z * Z) :=
  match ws with
  | [] => None
  | v :: ws' => if v =? 2 ^ 64 - 1 then scan (i + 1) ws' else Some (i, v)
  end.

(** Returns the number, the [ok] flag and the updated bitmap. *)
Definition Next (b : Bitmap) : Z * bool * Bitmap :=
  match scan 0 (bits b) with
  | Some (i, v) =>
      let offset := TrailingZeros64 (not64 v) in
      let next := u32 (i * 64 + offset) in
      if next >? max b then (next, false, b)
      else (next, true,
            mkBitmap (max b)
              (<[Z.to_nat i := Z.lor (word (bits b) i) (Z.shiftl 1 (u32 offset))]> (bits b)))
  | None =>
      if u64 (zlen (bits b) * 64) >? max b then (0, false, b)
      else
        let ws := bits b ++ [1] in
        (u32 (u32 (zlen ws - 1) * 64), true, mkBitmap (max b) ws)
  end.

(** ** The set a bitmap stands for *)

Definition mem (b : Bitmap) (n : Z) : bool :=
  (0 <=? n) && Z.testbit (word (bits b) (n / 64)) (n mod 64).

(** Well-formed bitmaps: 32-bit bound, 64-bit words, no number above the
    bound, no more words than the bound needs. *)
Record wf (b : Bitmap) : Prop := mkWf {
  wf_max : is_u 32 (max b);
  wf_words : Forall (is_u 64) (bits b);
  wf_bound : forall n, mem b n = true -> n <= max b;
  wf_len : (zlen (bits b) - 1) * 64 <= max b
}.

(** *** Words *)

Lemma word_app_l ws ws' i : 0 <= i < zlen ws -> word (ws ++ ws') i = word ws i.
Proof. intros. unfold word. rewrite lookup_app_l; [done|]. unfold zlen in *. lia. Qed.

Lemma word_ge ws i : zlen ws <= i -> word ws i = 0.
Proof. intros. unfold word. rewrite lookup_ge_None_2; [done|]. unfold zlen in *. lia. Qed.

Lemma word_insert ws i j w :
  0 <= i < zlen ws -> 0 <= j -> word (<[Z.to_nat i := w]> ws) j = if i =? j then w else word ws j.
Proof.
  intros Hi Hj. unfold word. destruct (Z.eqb_spec i j) as [->|Hne].
  - rewrite list_lookup_insert_eq; [done|]. unfold zlen in *; lia.
  - rewrite list_lookup_insert_ne; [done|]. lia.
Qed.

Lemma word_pad ws k i : 0 <= i -> word (ws ++ replicate k 0) i = word ws i.
Proof.
  intros Hi. destruct (decide (i < zlen ws)); [by apply word_app_l|].
  rewrite (word_ge ws) by lia. unfold word. rewrite lookup_app_r by (unfold zlen in *; lia).
  destruct (_ !! _) as [x|] eqn:E; [|done]. apply lookup_replicate in E as [-> _]. done.
Qed.

Lemma word_range ws i : Forall (is_u 64) ws -> is_u 64 (word ws i).
Proof.
  intros H. unfold word. destruct (ws !! _) eqn:E; cbn.
  - by eapply Forall_lookup_1 in E.
  - done.
Qed.

Lemma lt_pow2_bits w x :
  0 <= w -> 0 <= x -> (forall k, w <= k -> Z.testbit x k = false) -> x < 2 ^ w.
Proof.
  intros Hw Hx H. destruct (decide (x = 0)) as [->|]; [apply Z.pow_pos_nonneg; lia|].
  apply Z.log2_lt_pow2; [lia|]. destruct (decide (Z.log2 x < w)); [done|].
  pose proof (Z.bit_log2 x ltac:(lia)) as E. rewrite H in E by lia. done.
Qed.

Lemma high_bits_0 w x k : is_u w x -> w <= k -> Z.testbit x k = false.
Proof.
  intros [Hlo Hhi] Hk. destruct (decide (0 <= w)).
  - rewrite <- (Z.mod_small x (2 ^ w)) by lia. apply Z.mod_pow2_bits_high. lia.
  - rewrite Z.pow_neg_r in Hhi by lia. lia.
Qed.

Lemma lor_range w x y : 0 <= w -> is_u w x -> is_u w y -> is_u w (Z.lor x y).
Proof.
  intros Hw Hx Hy. split; [apply Z.lor_nonneg; split; apply Hx || apply Hy|].
  apply lt_pow2_bits; [lia|apply Z.lor_nonneg; split; apply Hx || apply Hy|].
  intros. rewrite Z.lor_spec, (high_bits_0 w x), (high_bits_0 w y) by done. done.
Qed.

Lemma land_range w x y : 0 <= w -> is_u w x -> is_u w y -> is_u w (Z.land x y).
Proof.
  intros Hw Hx Hy. split; [apply Z.land_nonneg; left; apply Hx|].
  apply lt_pow2_bits; [lia|apply Z.land_nonneg; left; apply Hx|].
  intros. rewrite Z.land_spec, (high_bits_0 w x) by done. done.
Qed.

Lemma bit_range k : 0 <= k < 64 -> is_u 64 (Z.shiftl 1 k).
Proof.
  intros. rewrite Z.shiftl_1_l. split; [apply Z.pow_nonneg; lia|].
  apply Z.pow_lt_mono_r; lia.
Qed.

Lemma testbit_bit k m : 0 <= k -> Z.testbit (Z.shiftl 1 k) m = (k =? m).
Proof.
  intros. rewrite Z.shiftl_1_l. destruct (Z.eqb_spec k m) as [->|].
  - by apply Z.pow2_bits_true.
  - by apply Z.pow2_bits_false.
Qed.

Lemma not64_bit x k : 0 <= k < 64 -> Z.testbit (not64 x) k = negb (Z.testbit x k).
Proof.
  intros. unfold not64. rewrite Z.lxor_spec.
  change (2 ^ 64 - 1) with (Z.ones 64). rewrite Z.ones_spec_low by lia. by destruct (Z.testbit x k).
Qed.

Lemma not64_range x : is_u 64 x -> is_u 64 (not64 x).
Proof.
  intros Hx. assert (0 <= not64 x).
  { unfold not64. apply Z.lxor_nonneg. destruct Hx. split; intros; [done|lia]. }
  split; [done|]. apply lt_pow2_bits; [lia|done|].
  intros k Hk. unfold not64. rewrite Z.lxor_spec, (high_bits_0 64 x) by done.
  change (2 ^ 64 - 1) with (Z.ones 64). rewrite Z.ones_spec_high by lia. done.
Qed.

Lemma pos_ctz_bit p : Z.testbit (Zpos p) (Z.of_nat (pos_ctz p)) = true.
Proof.
  induction p as [p IH|p IH|]; [done| |done].
  cbn [pos_ctz]. rewrite Nat2Z.inj_succ, Pos2Z.pos_xO, Z.double_bits_succ. exact IH.
Qed.

Lemma pos_ctz_low p k : 0 <= k < Z.of_nat (pos_ctz p) -> Z.testbit (Zpos p) k = false.
Proof.
  revert k. induction p as [p IH|p IH|]; intros k Hk; cbn [pos_ctz] in Hk; [lia| |lia].
  rewrite Pos2Z.pos_xO. destruct (decide (k = 0)) as [->|]; [by rewrite Z.testbit_even_0|].
  replace k with (Z.succ (Z.pred k)) by lia. rewrite Z.double_bits_succ. apply IH. lia.
Qed.

(** The first zero of a word that is not full. *)
Lemma first_zero v :
  is_u 64 v -> v <> 2 ^ 64 - 1 ->
  let k := TrailingZeros64 (not64 v) in
  0 <= k < 64 /\ Z.testbit v k = false /\ forall j, 0 <= j < k -> Z.testbit v j = true.
Proof.
  intros Hv Hne k. pose proof (not64_range v Hv) as Hr.
  assert (not64 v <> 0) as Hnz.
  { intros E. apply Hne. apply Z.lxor_eq. exact E. }
  destruct (not64 v) as [|p|p] eqn:E; [done| |destruct Hr; lia].
  assert (0 <= k < 64) as Hk.
  { unfold k; cbn [TrailingZeros64]. split; [lia|].
    destruct (decide (Z.of_nat (pos_ctz p) < 64)); [done|].
    pose proof (pos_ctz_bit p) as Hb. rewrite (high_bits_0 64) in Hb by (done || lia). done. }
  split; [done|]. unfold k in *; cbn [TrailingZeros64] in *. split.
  - pose proof (not64_bit v _ Hk) as Hb. rewrite E, pos_ctz_bit in Hb.
    by destruct (Z.testbit v _).
  - intros j Hj. assert (0 <= j < 64) as Hj' by lia. pose proof (not64_bit v _ Hj') as Hb.
    rewrite E, pos_ctz_low in Hb by lia. by destruct (Z.testbit v j).
Qed.

(** *** Membership *)

Lemma split_64 n : 0 <= n -> 0 <= n / 64 /\ 0 <= n mod 64 < 64 /\ n = n / 64 * 64 + n mod 64.
Proof. intros. Z.to_euclidean_division_equations; lia. Qed.

Lemma join_64 i k : 0 <= i -> 0 <= k < 64 -> (i * 64 + k) / 64 = i /\ (i * 64 + k) mod 64 = k.
Proof. intros. Z.to_euclidean_division_equations; lia. Qed.

Lemma mem_nonneg b n : mem b n = true -> 0 <= n.
Proof. unfold mem. intros [H _]%andb_prop. lia. Qed.

Lemma mem_ge b n : zlen (bits b) * 64 <= n -> mem b n = false.
Proof.
  intros. unfold mem. destruct (Z.leb_spec 0 n); [|done]. cbn.
  rewrite word_ge by (Z.to_euclidean_division_equations; lia). apply Z.testbit_0_l.
Qed.

(** Setting one bit adds one number. *)
Lemma mem_set_bit mx ws i k n :
  0 <= i < zlen ws -> 0 <= k < 64 ->
  mem (mkBitmap mx (<[Z.to_nat i := Z.lor (word ws i) (Z.shiftl 1 k)]> ws)) n
  = (i * 64 + k =? n) || mem (mkBitmap mx ws) n.
Proof.
  intros Hi Hk. unfold mem; cbn [bits].
  destruct (Z.leb_spec 0 n) as [Hn|Hn]; cbn.
  2: { destruct (Z.eqb_spec (i * 64 + k) n); [lia|done]. }
  destruct (split_64 n Hn) as (H1 & H2 & H3). rewrite word_insert by lia.
  destruct (Z.eqb_spec i (n / 64)) as [->|Hne].
  - rewrite Z.lor_spec, testbit_bit by lia.
    destruct (Z.eqb_spec k (n mod 64)), (Z.eqb_spec (n / 64 * 64 + k) n); try lia;
      by destruct (Z.testbit _ _).
  - destruct (Z.eqb_spec (i * 64 + k) n) as [E|]; [|done].
    destruct (join_64 i k); [lia..|]. subst n. lia.
Qed.

(** Clearing one bit removes one number. *)
Lemma mem_clear_bit mx ws i k n :
  0 <= i < zlen ws -> 0 <= k < 64 ->
  mem (mkBitmap mx (<[Z.to_nat i := Z.land (word ws i) (not64 (Z.shiftl 1 k))]> ws)) n
  = negb (i * 64 + k =? n) && mem (mkBitmap mx ws) n.
Proof.
  intros Hi Hk. unfold mem; cbn [bits].
  destruct (Z.leb_spec 0 n) as [Hn|Hn]; cbn.
  2: { by rewrite andb_false_r. }
  destruct (split_64 n Hn) as (H1 & H2 & H3). rewrite word_insert by lia.
  destruct (Z.eqb_spec i (n / 64)) as [->|Hne].
  - rewrite Z.land_spec, not64_bit, testbit_bit by lia.
    destruct (Z.eqb_spec k (n mod 64)), (Z.eqb_spec (n / 64 * 64 + k) n); try lia;
      by destruct (Z.testbit _ _).
  - destruct (Z.eqb_spec (i * 64 + k) n) as [E|]; [|done].
    destruct (join_64 i k); [lia..|]. subst n. lia.
Qed.

Lemma mem_pad mx ws k n : mem (mkBitmap mx (ws ++ replicate k 0)) n = mem (mkBitmap mx ws) n.
Proof.
  unfold mem; cbn [bits]. destruct (Z.leb_spec 0 n); [|done].
  by rewrite word_pad by (apply Z.div_pos; lia).
Qed.

Lemma Forall_insert_word ws i w :
  Forall (is_u 64) ws -> is_u 64 w -> Forall (is_u 64) (<[i := w]> ws).
Proof. intros. by apply Forall_insert. Qed.

Lemma zlen_insert {A} i (x : A) l : zlen (<[i := x]> l) = zlen l.
Proof. unfold zlen. by rewrite length_insert. Qed.

(** *** The scan of [Next] *)

Lemma scan_spec ws i :
  Forall (is_u 64) ws ->
  match scan i ws with
  | Some (j, v) =>
      i <= j < i + zlen ws /\ v = word ws (j - i) /\ v <> 2 ^ 64 - 1 /\
      forall k, 0 <= k < j - i -> word ws k = 2 ^ 64 - 1
  | None => forall k, 0 <= k < zlen ws -> word ws k = 2 ^ 64 - 1
  end.
Proof.
  intros H. revert i. induction H as [|v ws Hv Hws IH]; intros i; cbn [scan].
  - intros k Hk. zlia.
  - assert (forall k, 1 <= k -> word (v :: ws) k = word ws (k - 1)) as Hstep.
    { intros k Hk. unfold word. by replace (Z.to_nat k) with (S (Z.to_nat (k - 1))) by lia. }
    destruct (Z.eqb_spec v (2 ^ 64 - 1)) as [->|Hne].
    + specialize (IH (i + 1)). destruct (scan (i + 1) ws) as [[j w]|].
      * destruct IH as (H1 & -> & H3 & H4). split; [rewrite zlen_cons; lia|].
        rewrite (Hstep (j - i)) by lia. replace (j - i - 1) with (j - (i + 1)) by lia.
        split_and!; [done..|]. intros k Hk. destruct (decide (k = 0)) as [->|]; [done|].
        rewrite Hstep by lia. apply H4. lia.
      * intros k Hk. rewrite zlen_cons in Hk. destruct (decide (k = 0)) as [->|]; [done|].
        rewrite Hstep by lia. apply IH. lia.
    + rewrite zlen_cons. pose_zlen. replace (i - i) with 0 by lia. split_and!; [lia..|done|done|].
      intros k Hk. lia.
Qed.

Lemma full_word_mem b n :
  0 <= n -> word (bits b) (n / 64) = 2 ^ 64 - 1 -> mem b n = true.
Proof.
  intros Hn E. unfold mem. rewrite E. destruct (Z.leb_spec 0 n); [|lia]. cbn.
  change (2 ^ 64 - 1) with (Z.ones 64). apply Z.ones_spec_low.
  by apply Z.mod_pos_bound.
Qed.

Lemma wf_len_bound b : wf b -> zlen (bits b) <= 2 ^ 26.
Proof. intros [Hm _ _ Hl]. unfold_ints. lia. Qed.

(** ** Operations against the set *)

Lemma New_wf m : is_u 32 m -> wf (New m).
Proof.
  intros Hm. constructor; cbn; [done|constructor| |unfold_ints; zlia].
  intros n Hn. rewrite mem_ge in Hn; [done|]. cbn. apply mem_nonneg in Hn. done.
Qed.

Lemma mem_New m n : mem (New m) n = false.
Proof. destruct (mem _ n) eqn:E; [|done]. apply mem_nonneg in E as H. by rewrite mem_ge in E. Qed.

Lemma Add_mem b n m :
  wf b -> 0 <= n -> mem (Add b n) m = ((n =? m) && (n <=? max b)) || mem b m.
Proof.
  intros Hb Hn. unfold Add. rewrite Z.gtb_ltb.
  destruct (Z.ltb_spec (max b) n).
  { replace (n <=? max b) with false by lia. by rewrite andb_false_r. }
  replace (n <=? max b) with true by lia. rewrite andb_true_r.
  destruct (split_64 n Hn) as (H1 & H2 & H3). rewrite Z.geb_leb.
  destruct (Z.leb_spec (zlen (bits b)) (n / 64)).
  - rewrite mem_set_bit by zlia. rewrite <- H3. by rewrite mem_pad.
  - rewrite mem_set_bit by lia. by rewrite <- H3.
Qed.

Lemma Add_wf b n : wf b -> 0 <= n -> wf (Add b n).
Proof.
  intros Hb Hn. pose proof (wf_max b Hb) as Hmax. constructor.
  - unfold Add. by destruct (n >? max b).
  - unfold Add. destruct (n >? max b); [apply Hb|]. cbn [bits].
    assert (forall ws, Forall (is_u 64) ws ->
      Forall (is_u 64) (<[Z.to_nat (n / 64) := Z.lor (word ws (n / 64)) (Z.shiftl 1 (n mod 64))]> ws))
      as Hins.
    { intros ws Hws. apply Forall_insert_word; [done|].
      apply lor_range; [lia|by apply word_range|]. apply bit_range. by apply Z.mod_pos_bound. }
    destruct (n / 64 >=? _); apply Hins; [|apply Hb].
    apply Forall_app; split; [apply Hb|]. by apply Forall_replicate.
  - intros m Hm. rewrite Add_mem in Hm by done.
    replace (max (Add b n)) with (max b) by (unfold Add; by destruct (n >? max b)).
    apply orb_prop in Hm as [Hm|Hm]; [lia|]. by apply Hb.
  - pose proof (wf_len b Hb). unfold Add. destruct (Z.gtb_spec n (max b)); [done|].
    cbn [max bits]. rewrite zlen_insert.
    destruct (Z.geb_spec (n / 64) (zlen (bits b))); [|done].
    rewrite zlen_app, zlen_replicate. Z.to_euclidean_division_equations; pose_zlen; lia.
Qed.

Lemma Remove_mem b n m : 0 <= n -> mem (Remove b n) m = negb (n =? m) && mem b m.
Proof.
  intros Hn. unfold Remove. destruct (split_64 n Hn) as (H1 & H2 & H3).
  destruct (Z.geb_spec (n / 64) (zlen (bits b))).
  - destruct (Z.eqb_spec n m) as [->|]; [|done]. cbn. apply mem_ge. lia.
  - rewrite mem_clear_bit by lia. by rewrite <- H3.
Qed.

Lemma Remove_wf b n : wf b -> 0 <= n -> wf (Remove b n).
Proof.
  intros Hb Hn. constructor.
  - unfold Remove. destruct (_ >=? _); apply Hb.
  - unfold Remove. destruct (_ >=? _); [apply Hb|]. apply Forall_insert_word; [apply Hb|].
    apply land_range; [lia|apply word_range, Hb|].
    apply not64_range, bit_range. by apply Z.mod_pos_bound.
  - intros m Hm. rewrite Remove_mem in Hm by done. apply andb_prop in Hm as [_ Hm].
    replace (max (Remove b n)) with (max b) by (unfold Remove; by destruct (_ >=? _)).
    by apply Hb.
  - pose proof (wf_len b Hb). unfold Remove. destruct (_ >=? _); [done|]. cbv [max bits]. rewrite zlen_insert. done.
Qed.

(** What a successful [Next] promises. *)
Definition next_spec (b : Bitmap) (n : Z) (b' : Bitmap) : Prop :=
  0 <= n <= max b /\ mem b n = false /\ (forall m, 0 <= m < n -> mem b m = true) /\
  max b' = max b /\ (forall m, mem b' m = (n =? m) || mem b m) /\ wf b'.

(** Appending a word with its first bit set adds the first number past the words. *)
Lemma mem_push b m :
  mem (mkBitmap (max b) (bits b ++ [1])) m = (zlen (bits b) * 64 =? m) || mem b m.
Proof.
  pose proof (mem_set_bit (max b) (bits b ++ [0]) (zlen (bits b)) 0 m) as E.
  rewrite Z.add_0_r, to_nat_zlen, insert_app_r_alt, Nat.sub_diag in E by lia.
  unfold word in E at 1. rewrite to_nat_zlen, lookup_app_r, Nat.sub_diag in E by lia.
  cbn -[Z.mul mem zlen] in E. change (Z.lor 0 (1 ≪ 0)) with 1 in E. rewrite E by zlia.
  f_equal. change [0] with (replicate 1 0). rewrite mem_pad. by destruct b.
Qed.

Lemma wf_grow b b' n :
  wf b -> 0 <= n <= max b -> max b' = max b -> Forall (is_u 64) (bits b') ->
  (forall m, mem b' m = (n =? m) || mem b m) -> (zlen (bits b') - 1) * 64 <= max b -> wf b'.
Proof.
  intros Hb Hn Hm Hf Hmem Hl. constructor; rewrite ?Hm; [apply Hb|done| |done].
  intros m H. rewrite Hmem in H. apply orb_prop in H as [H|H]; [lia|by apply Hb].
Qed.

Lemma first_free_below b i v :
  wf b -> 0 <= i -> v = word (bits b) i -> v <> 2 ^ 64 - 1 ->
  (forall k, 0 <= k < i -> word (bits b) k = 2 ^ 64 - 1) ->
  let k := TrailingZeros64 (not64 v) in
  0 <= k < 64 /\ mem b (i * 64 + k) = false /\ forall m, 0 <= m < i * 64 + k -> mem b m = true.
Proof.
  intros Hb Hi Hv Hne Hfull k.
  assert (is_u 64 v) as Hvr by (subst v; apply word_range, Hb).
  destruct (first_zero v Hvr Hne) as (Hk & Hz & Hlow). fold k in Hk, Hz, Hlow. clearbody k.
  split; [done|]. split.
  - destruct (join_64 i k) as [E1 E2]; [lia..|]. unfold mem. rewrite E1, E2, <- Hv, Hz.
    by rewrite andb_false_r.
  - intros m Hm. destruct (split_64 m ltac:(lia)) as (H1 & H2 & H3).
    destruct (decide (m / 64 < i)); [apply full_word_mem; [lia|apply Hfull; lia]|].
    assert (m / 64 = i) as E by lia. unfold mem. rewrite E, <- Hv.
    destruct (Z.leb_spec 0 m); [|lia]. cbn. apply Hlow. lia.
Qed.

(** The ways [Next] can end. *)
Lemma Next_cases b :
  wf b ->
  let '(n, ok, b') := Next b in
  if ok then next_spec b n b'
  else b' = b /\ forall m, 0 <= m <= max b -> mem b m = true.
Proof.
  intros Hb. unfold Next. pose proof (scan_spec (bits b) 0 (wf_words b Hb)) as Hs.
  pose proof (wf_max b Hb) as Hmax. pose proof (wf_len b Hb) as Hlen.
  pose proof (wf_len_bound b Hb) as Hlb.
  destruct (scan 0 (bits b)) as [[i v]|].
  - destruct Hs as (Hi & Hv & Hne & Hfull). rewrite Z.sub_0_r in *. rewrite Z.add_0_l in Hi.
    destruct (first_free_below b i v Hb ltac:(lia) Hv Hne Hfull) as (Hk & Hz & Hlow).
    set (k := TrailingZeros64 (not64 v)) in *. clearbody k.
    rewrite (u32_small (i * 64 + k)), (u32_small k) by (unfold_ints; lia).
    destruct (Z.gtb_spec (i * 64 + k) (max b)).
    { split; [done|]. intros m Hm. apply Hlow. lia. }
    split_and!; [lia..|done|done|done| |].
    { intros m. rewrite mem_set_bit by lia. by destruct b. }
    apply (wf_grow b _ (i * 64 + k)); cbn [max bits]; [done|lia|done| | |by rewrite zlen_insert].
    + apply Forall_insert_word; [apply Hb|]. apply lor_range; [lia|apply word_range, Hb|].
      by apply bit_range.
    + intros m. rewrite mem_set_bit by lia. by destruct b.
  - assert (forall m, 0 <= m < zlen (bits b) * 64 -> mem b m = true) as Hall.
    { intros m Hm. apply full_word_mem; [lia|]. apply Hs.
      Z.to_euclidean_division_equations; lia. }
    pose_zlen. rewrite u64_small by (unfold_ints; lia).
    destruct (Z.gtb_spec (zlen (bits b) * 64) (max b)).
    { split; [done|]. intros m Hm. apply Hall. lia. }
    replace (zlen (bits b ++ [1]) - 1) with (zlen (bits b)) by zlia.
    rewrite (u32_small (zlen (bits b))), u32_small by (unfold_ints; lia).
    split_and!; [lia..|by apply mem_ge|done|done|apply mem_push|].
    apply (wf_grow b _ (zlen (bits b) * 64)); cbn [max bits]; [done|lia|done| |apply mem_push|zlia].
    apply Forall_app; split; [apply Hb|]. by repeat constructor.
Qed.

(** ** The abstract allocator and the refinement *)

Inductive op := OAdd (n : Z) | ORemove (n : Z) | ONext.

(** One call on a bitmap; [ONext] reports the number it returned, if any. *)
Definition step (b : Bitmap) (o : op) : option Z * Bitmap :=
  match o with
  | OAdd n => (None, Add b n)
  | ORemove n => (None, Remove b n)
  | ONext => let '(n, ok, b') := Next b in (if ok then Some n else None, b')
  end.

Fixpoint run (b : Bitmap) (os : list op) : list (option Z) * Bitmap :=
  match os with
  | [] => ([], b)
  | o :: os' => let '(r, b1) := step b o in let '(rs, b2) := run b1 os' in (r :: rs, b2)
  end.

(** The contract: a finite set of numbers, [ONext] takes the least free one. *)
Inductive spec_step (mx : Z) : gset Z -> op -> option Z -> gset Z -> Prop :=
| spec_add s n : n <= mx -> spec_step mx s (OAdd n) None ({[n]} ∪ s)
| spec_add_out s n : mx < n -> spec_step mx s (OAdd n) None s
| spec_remove s n : spec_step mx s (ORemove n) None (s ∖ {[n]})
| spec_next s n :
    0 <= n <= mx -> n ∉ s -> (forall m, 0 <= m < n -> m ∈ s) ->
    spec_step mx s ONext (Some n) ({[n]} ∪ s)
| spec_next_full s :
    (forall m, 0 <= m <= mx -> m ∈ s) -> spec_step mx s ONext None s.

Inductive spec_run (mx : Z) : gset Z -> list op -> list (option Z) -> gset Z -> Prop :=
| spec_run_nil s : spec_run mx s [] [] s
| spec_run_cons s1 o r s2 os rs s3 :
    spec_step mx s1 o r s2 -> spec_run mx s2 os rs s3 -> spec_run mx s1 (o :: os) (r :: rs) s3.

Definition represents (b : Bitmap) (mx : Z) (s : gset Z) : Prop :=
  wf b /\ max b = mx /\ forall n, n ∈ s <-> mem b n = true.

(** Arguments of [Add] and [Remove] are uint32 values. *)
Definition op_ok (o : op) : Prop :=
  match o with
  | OAdd n | ORemove n => is_u 32 n
  | ONext => True
  end.

Lemma max_Add b n : max (Add b n) = max b.
Proof. unfold Add. by destruct (n >? max b). Qed.
Lemma max_Remove b n : max (Remove b n) = max b.
Proof. unfold Remove. by destruct (_ >=? _). Qed.

Lemma step_simulates b mx s o :
  represents b mx s -> op_ok o ->
  exists s', spec_step mx s o (step b o).1 s' /\ represents (step b o).2 mx s'.
Proof.
  intros (Hb & <- & Hs) Ho. destruct o as [n|n|]; cbn [step fst snd].
  - destruct Ho as [Hn _]. assert (wf (Add b n)) by by apply Add_wf.
    destruct (decide (n <= max b)) as [Hle|Hgt].
    + exists ({[n]} ∪ s). split; [by constructor|]. split_and!; [done|apply max_Add|].
      intros m. rewrite Add_mem, orb_true_iff, andb_true_iff, Z.eqb_eq, Z.leb_le by done.
      rewrite <- Hs. set_solver by lia.
    + exists s. split; [constructor; lia|]. split_and!; [done|apply max_Add|].
      intros m. rewrite Add_mem by done. replace (n <=? max b) with false by lia.
      by rewrite andb_false_r.
  - destruct Ho as [Hn _]. exists (s ∖ {[n]}). split; [constructor|].
    split_and!; [by apply Remove_wf|apply max_Remove|].
    intros m. rewrite Remove_mem, andb_true_iff, negb_true_iff, Z.eqb_neq by done.
    rewrite <- Hs. set_solver.
  - pose proof (Next_cases b Hb) as HN. destruct (Next b) as [[n ok] b']. destruct ok; cbn.
    + destruct HN as (H1 & H2 & H3 & H4 & H5 & H6). exists ({[n]} ∪ s). split.
      * constructor; [done| |]; [rewrite Hs, H2; done|]. intros m Hm. apply Hs. auto.
      * split_and!; [done..|]. intros m. rewrite H5, orb_true_iff, Z.eqb_eq, <- Hs. set_solver.
    + destruct HN as (-> & H2). exists s. split; [|done].
      constructor. intros m Hm. apply Hs. auto.
Qed.

Lemma run_simulates b mx s os :
  represents b mx s -> Forall op_ok os ->
  exists s', spec_run mx s os (run b os).1 s' /\ represents (run b os).2 mx s'.
Proof.
  intros Hr Hos. revert b s Hr. induction Hos as [|o os Ho Hos IH]; intros b s Hr.
  - exists s. split; [constructor|done].
  - destruct (step_simulates b mx s o Hr Ho) as (s1 & H1 & H2). cbn [run].
    destruct (step b o) as [r b1]. cbn [fst snd] in *.
    destruct (IH b1 s1 H2) as (s2 & H3 & H4). destruct (run b1 os) as [rs b2].
    exists s2. split; [by econstructor|done].
Qed.

(** ** The interface the clients use

    conn.go allocates session channels and session.go allocates link handles
    from a bitmap; all they rely on is the following. *)
Class IdAllocator (T : Type) := {
  al_max : T -> Z;
  al_wf : T -> Prop;
  al_used : T -> Z -> Prop;
  al_next : T -> Z * bool * T;
  al_free : T -> Z -> T;
  al_next_ok a n a' :
    al_wf a -> al_next a = (n, true, a') ->
    0 <= n <= al_max a /\ ~ al_used a n /\ (forall m, al_used a' m <-> m = n \/ al_used a m) /\
    al_max a' = al_max a /\ al_wf a';
  al_next_full a n a' :
    al_wf a -> al_next a = (n, false, a') ->
    a' = a /\ forall m, 0 <= m <= al_max a -> al_used a m;
  al_free_ok a n :
    al_wf a -> 0 <= n ->
    (forall m, al_used (al_free a n) m <-> m <> n /\ al_used a m) /\
    al_max (al_free a n) = al_max a /\ al_wf (al_free a n)
}.

#[export] Program Instance Bitmap_allocator : IdAllocator Bitmap := {|
  al_max := max;
  al_wf := wf;
  al_used b n := mem b n = true;
  al_next := Next;
  al_free := Remove
|}.
Next Obligation.
  intros a n a' Ha E. cbn in *. pose proof (Next_cases a Ha) as H. rewrite E in H.
  destruct H as (H1 & H2 & _ & H4 & H5 & H6). split_and!; [lia..|by rewrite H2| |done|done].
  intros m. rewrite H5, orb_true_iff, Z.eqb_eq. naive_solver.
Qed.
Next Obligation.
  intros a n a' Ha E. cbn in *. pose proof (Next_cases a Ha) as H. by rewrite E in H.
Qed.
Next Obligation.
  intros a n Ha Hn. cbn. split_and!; [|apply max_Remove|by apply Remove_wf].
  intros m. rewrite Remove_mem, andb_true_iff, negb_true_iff, Z.eqb_neq by done. naive_solver.
Qed.

(** ** Properties *)

(** [Next] returns the lowest number that is not in use: it is within the
    bound, was free, every smaller number was taken, and afterwards exactly
    that number has been added, in a bitmap that is again well-formed. *)
Theorem Next_least b n b' :
  wf b -> Next b = (n, true, b') ->
  0 <= n <= max b /\ mem b n = false /\ (forall m, 0 <= m < n -> mem b m = true) /\
  (forall m, mem b' m = (n =? m) || mem b m) /\ wf b'.
Proof.
  intros Hb E. pose proof (Next_cases b Hb) as H. rewrite E in H.
  destruct H as (? & ? & ? & ? & ? & ?). auto 10.
Qed.

(** C23: every sequence of [Add], [Remove] and [Next] calls on a new bitmap
    behaves as a set of numbers bounded by [max] from which [Next] takes the
    least free element, and [Next] fails only when all of [0..max] is taken. *)
Theorem Bitmap_refines_set mx os :
  is_u 32 mx -> Forall op_ok os ->
  exists s, spec_run mx ∅ os (run (New mx) os).1 s /\ represents (run (New mx) os).2 mx s.
Proof.
  intros Hm Hos. apply run_simulates; [|done]. split_and!; [by apply New_wf|done|].
  intros n. rewrite mem_New. set_solver.
Qed.

Lemma Next_least_witness :
  exists b', Next (mkBitmap 10 [5]) = (1, true, b') /\ mem b' 1 = true.
Proof.
  assert (wf (mkBitmap 10 [5])) as Hwf.
  { constructor; cbn; [unfold_ints; lia|repeat constructor; unfold_ints; lia| |unfold zlen; cbn; lia].
    intros n Hn. destruct (decide (64 <= n)) as [H|H]; [by rewrite mem_ge in Hn|].
    assert (0 <= n) by (by apply mem_nonneg in Hn). unfold mem in Hn; cbn [bits] in Hn.
    rewrite Z.div_small, Z.mod_small in Hn by lia. unfold word in Hn. cbn in Hn.
    destruct (decide (3 <= n)); [|lia]. apply andb_prop in Hn as [_ Hn].
    rewrite (high_bits_0 3) in Hn by (done || lia). done. }
  eexists. split; [reflexivity|].
  destruct (Next_least (mkBitmap 10 [5]) 1 _ Hwf eq_refl) as (_ & _ & _ & H & _).
  rewrite H. reflexivity.
Defined.

Lemma Bitmap_refines_set_witness :
  exists s, spec_run 1 ∅ [ONext; ONext; ONext; ORemove 0; ONext]
              [Some 0; Some 1; None; None; Some 0] s.
Proof.
  destruct (Bitmap_refines_set 1 [ONext; ONext; ONext; ORemove 0; ONext]) as (s & H & _).
  - unfold_ints; lia.
  - repeat constructor; cbn; unfold_ints; lia.
  - exists s. exact H.
Defined.

End Bitmap.
