(* ===== verification/Buffer.v ===== *)
(** * Buffer: the read/append byte buffer (internal/buffer/buffer.go)

    Every codec routine works on a [*buffer.Buffer]: bytes [b], of which the
    first [i] have been consumed.  Each method is translated as a stateful
    operation [M Buffer A]; the slice expressions of the source panic as in Go
    when an index is out of range.  The second half of the file gives the
    relational vocabulary of the codec proofs: [Encodes m bs] (running [m]
    appends exactly [bs]), [Decodes d bs k a] (reading [bs], followed by at
    least [k] more bytes, returns [a] and consumes exactly [bs]) and [Safe d]
    (on any input [d] keeps the cursor within the data and never panics on an
    index). *)

From S2P Require Import Prelude.

Module Buffer.

(** buffer.Buffer *)
Record Buffer := mkBuffer { b : bytes; i : Z }.

#[export] Instance Buffer_eq_dec : EqDecision Buffer.
Proof. solve_decision. Defined.

Definition New (b : bytes) : Buffer := mkBuffer b 0.

(** The slice expression [l[lo:hi]] with Go's bounds check. *)
Definition go_slice (l : bytes) (lo hi : Z) : res bytes :=
  if (0 <=? lo) && (lo <=? hi) && (hi <=? zlen l) then Ok (slice l lo hi)
  else Panic IndexOutOfRange.

Definition readCheck (r : Buffer) (n : Z) : bool := i r + n >? zlen (b r).

(** Returns the bytes and whether [n] bytes were available. *)
Definition Next (n : Z) : M Buffer (bytes * bool) := fun r =>
  if readCheck r n then
    match go_slice (b r) (i r) (zlen (b r)) with
    | Ok buf => (Ok (buf, false), mkBuffer (b r) (zlen (b r)))
    | _ => (Panic IndexOutOfRange, r)
    end
  else
    match go_slice (b r) (i r) (i r + n) with
    | Ok buf => (Ok (buf, true), mkBuffer (b r) (i r + n))
    | _ => (Panic IndexOutOfRange, r)
    end.

Definition Skip (n : Z) : M Buffer unit := fun r => (Ok tt, mkBuffer (b r) (i r + n)).

Definition Reset (r : Buffer) : Buffer := mkBuffer [] 0.

Definition Len (r : Buffer) : Z := zlen (b r) - i r.

Definition Size (r : Buffer) : Z := i r.

(** [copy(b.b[:l], b.b[b.i:])], then truncation to [l]; panics when the cursor
    is past the data. *)
Definition Reclaim : M Buffer unit := fun r =>
  let l := Len r in
  match go_slice (b r) 0 l, go_slice (b r) (i r) (zlen (b r)) with
  | Ok _, Ok src =>
      let copied := src ++ drop (length src) (b r) in
      (Ok tt, mkBuffer (take (Z.to_nat l) copied) 0)
  | _, _ => (Panic IndexOutOfRange, r)
  end.

(** [b.b[idx]] *)
Definition at_index (l : bytes) (idx : Z) : res Z :=
  if (0 <=? idx) && (idx <? zlen l) then Ok (default 0 (l !! Z.to_nat idx))
  else Panic IndexOutOfRange.

Definition ReadByte : M Buffer Z := fun r =>
  if readCheck r 1 then (Err EOF, r)
  else match at_index (b r) (i r) with
       | Ok c => (Ok c, mkBuffer (b r) (i r + 1))
       | _ => (Panic IndexOutOfRange, r)
       end.

Definition PeekByte : M Buffer Z := fun r =>
  if readCheck r 1 then (Err EOF, r) else (at_index (b r) (i r), r).

Definition Bytes (r : Buffer) : res bytes := go_slice (b r) (i r) (zlen (b r)).

(** [r.Bytes()] as a step that leaves the buffer as it is. *)
Definition getBytes : M Buffer bytes := fun r => (Bytes r, r).
Definition getLen : M Buffer Z := fun r => (Ok (Len r), r).

Definition ReadUint16 : M Buffer Z := fun r =>
  if readCheck r 2 then (Err EOF, r)
  else match go_slice (b r) (i r) (zlen (b r)) with
       | Ok s => (Ok (Uint16 s), mkBuffer (b r) (i r + 2))
       | _ => (Panic IndexOutOfRange, r)
       end.

Definition ReadUint32 : M Buffer Z := fun r =>
  if readCheck r 4 then (Err EOF, r)
  else match go_slice (b r) (i r) (zlen (b r)) with
       | Ok s => (Ok (Uint32 s), mkBuffer (b r) (i r + 4))
       | _ => (Panic IndexOutOfRange, r)
       end.

Definition ReadUint64 : M Buffer Z := fun r =>
  if readCheck r 8 then (Err EOF, r)
  else match go_slice (b r) (i r) (i r + 8) with
       | Ok s => (Ok (Uint64 s), mkBuffer (b r) (i r + 8))
       | _ => (Panic IndexOutOfRange, r)
       end.

(** The room [ReadFromOnce] offers to the reader, given the capacity of the
    slice (Go leaves the growth of [append] unspecified, so the capacity is an
    argument). *)
Definition minRead : Z := 512.
Definition readRoom (r : Buffer) (capacity : Z) : Z :=
  let l := zlen (b r) in
  if capacity - l <? minRead then
    let total := if l * 2 =? 0 then minRead else l * 2 in
    total - l
  else capacity - l.

(** [r.Read] is an [io.Reader]: given the room it returns the bytes it stored
    (at most [room] of them) and an error. *)
Definition ReadFromOnce (capacity : Z) (read : Z -> bytes * option error) : M Buffer unit :=
  fun r =>
    let '(p, err) := read (readRoom r capacity) in
    let r' := mkBuffer (b r ++ p) (i r) in
    match err with
    | Some e => (Err e, r')
    | None => (Ok tt, r')
    end.

Definition Append (p : bytes) : M Buffer unit := fun r => (Ok tt, mkBuffer (b r ++ p) (i r)).
Definition AppendByte (c : Z) : M Buffer unit := Append [c].
Definition AppendString (s : bytes) : M Buffer unit := Append s.

Definition Detach (r : Buffer) : bytes * Buffer := (b r, mkBuffer [] 0).

Definition AppendUint16 (n : Z) : M Buffer unit := Append [u8 (Z.shiftr n 8); u8 n].

Definition AppendUint32 (n : Z) : M Buffer unit :=
  Append [u8 (Z.shiftr n 24); u8 (Z.shiftr n 16); u8 (Z.shiftr n 8); u8 n].

Definition AppendUint64 (n : Z) : M Buffer unit :=
  Append [u8 (Z.shiftr n 56); u8 (Z.shiftr n 48); u8 (Z.shiftr n 40); u8 (Z.shiftr n 32);
          u8 (Z.shiftr n 24); u8 (Z.shiftr n 16); u8 (Z.shiftr n 8); u8 n].

(** [binary.BigEndian.PutUint32(r.Bytes()[idx:], n)]: overwrite four bytes at
    offset [idx] of the unread part. *)
Definition PutUint32 (idx n : Z) : M Buffer unit := fun r =>
  if (0 <=? i r) && (0 <=? idx) && (i r + idx + 4 <=? zlen (b r)) then
    let k := Z.to_nat (i r + idx) in
    (Ok tt, mkBuffer (take k (b r) ++ be_bytes 4 n ++ drop (k + 4) (b r)) (i r))
  else (Panic IndexOutOfRange, r).

(** ** Cursor form

    [at_ pre rest] is the buffer that has consumed [pre] and still holds
    [rest]; every well-formed buffer has this form. *)

Definition at_ (pre rest : bytes) : Buffer := mkBuffer (pre ++ rest) (zlen pre).

Definition wf (r : Buffer) : Prop := 0 <= i r <= zlen (b r).

Lemma at_wf pre rest : wf (at_ pre rest).
Proof. unfold wf, at_; cbn [b i]. zlia. Qed.

Lemma wf_at r : wf r -> exists pre rest, r = at_ pre rest.
Proof.
  intros [H1 H2]. exists (take (Z.to_nat (i r)) (b r)), (drop (Z.to_nat (i r)) (b r)).
  unfold at_. rewrite take_drop. destruct r as [l k]; cbn [b i] in *. f_equal.
  unfold zlen in *. rewrite length_take. lia.
Qed.

Lemma Len_at pre rest : Len (at_ pre rest) = zlen rest.
Proof. unfold Len, at_; cbn [b i]. zlia. Qed.

Lemma go_slice_at pre mid rest :
  go_slice (pre ++ mid ++ rest) (zlen pre) (zlen pre + zlen mid) = Ok mid.
Proof.
  unfold go_slice. rewrite slice_app.
  replace (_ && _ && _) with true; [done|]. zlia.
Qed.

Lemma go_slice_all pre rest : go_slice (pre ++ rest) (zlen pre) (zlen (pre ++ rest)) = Ok rest.
Proof.
  pose proof (go_slice_at pre rest []) as H. rewrite app_nil_r in H. rewrite zlen_app. exact H.
Qed.

Lemma Bytes_at pre rest : Bytes (at_ pre rest) = Ok rest.
Proof. apply go_slice_all. Qed.

Lemma getBytes_at pre rest : getBytes (at_ pre rest) = (Ok rest, at_ pre rest).
Proof. unfold getBytes. by rewrite Bytes_at. Qed.

Lemma getLen_at pre rest : getLen (at_ pre rest) = (Ok (zlen rest), at_ pre rest).
Proof. unfold getLen. by rewrite Len_at. Qed.

Lemma readCheck_at pre rest n : readCheck (at_ pre rest) n = (n >? zlen rest).
Proof. unfold readCheck, at_; cbn [b i]. rewrite !Z.gtb_ltb, zlen_app. lia. Qed.

Lemma at_app pre mid rest : at_ pre (mid ++ rest) = mkBuffer (pre ++ mid ++ rest) (zlen pre).
Proof. done. Qed.

Lemma at_move pre mid rest n :
  n = zlen mid -> mkBuffer (pre ++ mid ++ rest) (zlen pre + n) = at_ (pre ++ mid) rest.
Proof. intros ->. unfold at_. by rewrite zlen_app, app_assoc. Qed.

Lemma Next_at pre mid rest n :
  n = zlen mid -> Next n (at_ pre (mid ++ rest)) = (Ok (mid, true), at_ (pre ++ mid) rest).
Proof.
  intros ->. unfold Next. rewrite readCheck_at. replace (_ >? _) with false by zlia.
  cbn [b i at_]. rewrite go_slice_at. by rewrite at_move.
Qed.

Lemma Next_short pre rest n :
  zlen rest < n -> Next n (at_ pre rest) = (Ok (rest, false), at_ (pre ++ rest) []).
Proof.
  intros H. unfold Next. rewrite readCheck_at. replace (_ >? _) with true by lia.
  cbn [b i at_]. rewrite go_slice_all. unfold at_. by rewrite app_nil_r.
Qed.

Lemma at_index_at pre c rest : at_index (pre ++ c :: rest) (zlen pre) = Ok c.
Proof.
  unfold at_index. replace (_ && _) with true by zlia.
  rewrite to_nat_zlen, lookup_app_r, Nat.sub_diag by lia. done.
Qed.

Lemma ReadByte_at pre c rest : ReadByte (at_ pre (c :: rest)) = (Ok c, at_ (pre ++ [c]) rest).
Proof.
  unfold ReadByte. rewrite readCheck_at. replace (_ >? _) with false by zlia.
  cbn [b i at_]. rewrite at_index_at. f_equal. apply (at_move pre [c] rest). done.
Qed.

Lemma ReadByte_eof pre : ReadByte (at_ pre []) = (Err EOF, at_ pre []).
Proof. unfold ReadByte. by rewrite readCheck_at. Qed.

Lemma PeekByte_at pre c rest : PeekByte (at_ pre (c :: rest)) = (Ok c, at_ pre (c :: rest)).
Proof.
  unfold PeekByte. rewrite readCheck_at. replace (_ >? _) with false by zlia.
  cbn [b i at_]. by rewrite at_index_at.
Qed.

Lemma PeekByte_eof pre : PeekByte (at_ pre []) = (Err EOF, at_ pre []).
Proof. unfold PeekByte. by rewrite readCheck_at. Qed.

Lemma Skip_at pre mid rest n :
  n = zlen mid -> Skip n (at_ pre (mid ++ rest)) = (Ok tt, at_ (pre ++ mid) rest).
Proof. intros Hn. unfold Skip. cbn [b i at_]. by rewrite at_move. Qed.

(** ** Specifications of writers and readers *)

(** [m] appends exactly [bs], whatever the buffer holds. *)
Definition Encodes (m : M Buffer unit) (bs : bytes) : Prop :=
  forall r, wf r -> m r = (Ok tt, mkBuffer (b r ++ bs) (i r)).

(** [d] reads exactly [bs] and returns [a], if at least [k] bytes follow. *)
Definition Decodes {A} (d : M Buffer A) (bs : bytes) (k : Z) (a : A) : Prop :=
  forall pre rest, k <= zlen rest -> d (at_ pre (bs ++ rest)) = (Ok a, at_ (pre ++ bs) rest).

Lemma wf_append r bs : wf r -> wf (mkBuffer (b r ++ bs) (i r)).
Proof. unfold wf; cbn [b i]. intros. zlia. Qed.

Lemma Encodes_unique (m : M Buffer unit) l l' : Encodes m l -> Encodes m l' -> l = l'.
Proof.
  intros H H'. pose proof (H (New []) ltac:(done)) as E. rewrite (H' (New [])) in E by done.
  by simplify_eq.
Qed.

(** What an encoder appends can be found by running it once. *)
Lemma Encodes_eval (m : M Buffer unit) l l' : Encodes m l -> m (New []) = (Ok tt, New l') -> Encodes m l'.
Proof. intros H E. rewrite (H (New [])) in E by done. apply (f_equal (fun x => b x.2)) in E. cbn in E. by subst. Qed.

Lemma Encodes_ret : Encodes (mret tt) [].
Proof. intros r _. rewrite app_nil_r. by destruct r. Qed.

Lemma Encodes_Append p : Encodes (Append p) p.
Proof. intros r _. done. Qed.

Lemma Encodes_bind (m : M Buffer unit) k bs1 bs2 :
  Encodes m bs1 -> Encodes (k tt) bs2 -> Encodes (m ≫= k) (bs1 ++ bs2).
Proof.
  intros H1 H2 r Hr. unfold mbind, M_bind. rewrite (H1 r Hr).
  rewrite H2 by by apply wf_append. cbn [b i]. by rewrite <- app_assoc.
Qed.

Lemma Encodes_AppendUint16 n : Encodes (AppendUint16 n) (be_bytes 2 n).
Proof. intros r _. unfold AppendUint16. cbn [be_bytes]. by rewrite Z.shiftr_0_r. Qed.
Lemma Encodes_AppendUint32 n : Encodes (AppendUint32 n) (be_bytes 4 n).
Proof. intros r _. unfold AppendUint32. cbn [be_bytes]. by rewrite Z.shiftr_0_r. Qed.
Lemma Encodes_AppendUint64 n : Encodes (AppendUint64 n) (be_bytes 8 n).
Proof. intros r _. unfold AppendUint64. cbn [be_bytes]. by rewrite Z.shiftr_0_r. Qed.

Lemma Encodes_cons_eq m bs bs' : Encodes m bs -> bs = bs' -> Encodes m bs'.
Proof. by intros H ->. Qed.

Lemma Decodes_ret {A} (a : A) k : Decodes (mret a) [] k a.
Proof. intros pre rest _. by rewrite app_nil_r. Qed.

Lemma Decodes_bind {A B} (d : M Buffer A) (f : A -> M Buffer B) bs1 bs2 k1 k2 a c :
  Decodes d bs1 k1 a -> Decodes (f a) bs2 k2 c -> k1 <= zlen bs2 + k2 ->
  Decodes (d ≫= f) (bs1 ++ bs2) k2 c.
Proof.
  intros H1 H2 Hk pre rest Hr. unfold mbind, M_bind. rewrite <- app_assoc.
  rewrite H1 by zlia. rewrite H2 by done. by rewrite <- app_assoc.
Qed.

Lemma Decodes_weaken {A} (d : M Buffer A) bs k k' a : Decodes d bs k a -> k <= k' -> Decodes d bs k' a.
Proof. intros H Hk pre rest Hr. apply H. lia. Qed.

(** A step that reads nothing and whose result does not depend on the buffer's
    content beyond what is fixed: rewriting under the bind. *)
Lemma bind_Ok {S A B} (m : M S A) (f : A -> M S B) r a r' :
  m r = (Ok a, r') -> (m ≫= f) r = f a r'.
Proof. intros E. unfold mbind, M_bind. by rewrite E. Qed.

Lemma bind_Err {S A B} (m : M S A) (f : A -> M S B) r e r' :
  m r = (Err e, r') -> (m ≫= f) r = (Err e, r').
Proof. intros E. unfold mbind, M_bind. by rewrite E. Qed.

Lemma Decodes_ReadByte c k : 0 <= k -> Decodes ReadByte [c] k c.
Proof. intros _ pre rest _. apply ReadByte_at. Qed.

Lemma Decodes_Next bs k : Decodes (Next (zlen bs)) bs k (bs, true).
Proof. intros pre rest _. by apply Next_at. Qed.

Lemma Decodes_ReadUint16 n k : is_u 16 n -> Decodes ReadUint16 (be_bytes 2 n) k n.
Proof.
  intros Hn pre rest _. unfold ReadUint16. rewrite readCheck_at.
  replace (_ >? _) with false by zlia. cbn [b i at_]. rewrite go_slice_all.
  rewrite Uint16_be_bytes by done. by rewrite at_move.
Qed.
Lemma Decodes_ReadUint32 n k : is_u 32 n -> Decodes ReadUint32 (be_bytes 4 n) k n.
Proof.
  intros Hn pre rest _. unfold ReadUint32. rewrite readCheck_at.
  replace (_ >? _) with false by zlia. cbn [b i at_]. rewrite go_slice_all.
  rewrite Uint32_be_bytes by done. by rewrite at_move.
Qed.
Lemma Decodes_ReadUint64 n k : is_u 64 n -> Decodes ReadUint64 (be_bytes 8 n) k n.
Proof.
  intros Hn pre rest _. unfold ReadUint64. rewrite readCheck_at.
  replace (_ >? _) with false by zlia. cbn [b i at_].
  replace 8 with (zlen (be_bytes 8 n)) at 3 4 by zlia. rewrite go_slice_at.
  pose proof (Uint64_be_bytes n [] Hn) as E. rewrite app_nil_r in E. rewrite E.
  by rewrite at_move.
Qed.

(** ** Reader safety

    On any well-formed buffer with at most [n] unread bytes a safe reader
    leaves the data alone, moves the cursor forward by at least [min] when it
    succeeds and never past the end, does not run out of fuel, and panics only
    when a decoded map key is unhashable (never on an index). *)

Definition advances (r r' : Buffer) : Prop := wf r' /\ b r' = b r /\ i r <= i r'.

Definition no_index (p : panic) : Prop := p = UnhashableKey.

Definition Safe {A} (n min : Z) (post : A -> Prop) (d : M Buffer A) : Prop :=
  forall r, wf r -> bytes_ok (b r) -> Len r <= n ->
    let '(x, r') := d r in
    advances r r' /\
    match x with
    | Ok a => i r + min <= i r' /\ post a
    | Err _ => True
    | Panic p => no_index p
    | OutOfFuel => False
    end.

Lemma advances_refl r : wf r -> advances r r.
Proof. unfold advances. intros. split_and!; [done|done|lia]. Qed.

Lemma advances_trans r1 r2 r3 : advances r1 r2 -> advances r2 r3 -> advances r1 r3.
Proof. unfold advances. intros (? & ? & ?) (? & ? & ?). split_and!; [done|congruence|lia]. Qed.

Lemma Safe_weaken {A} n n' min min' (post post' : A -> Prop) d :
  Safe n min post d -> n' <= n -> min' <= min -> (forall a, post a -> post' a) ->
  Safe n' min' post' d.
Proof.
  intros H Hn Hm Hp r Hr Hb Hl. specialize (H r Hr Hb ltac:(lia)). destruct (d r) as [[a|e|p|] r'];
    destruct H as [Ha H]; split; try done. destruct H. split; [lia|auto].
Qed.

Lemma Safe_ret {A} n min (post : A -> Prop) a : min <= 0 -> post a -> Safe n min post (mret a).
Proof. intros Hm Ha r Hr _ _. cbn. split; [by apply advances_refl|]. split; [lia|done]. Qed.

Lemma Safe_fail {A} n min (post : A -> Prop) e : Safe n min post (fail e).
Proof. intros r Hr _ _. cbn. split; [by apply advances_refl|done]. Qed.

Lemma Safe_unhashable {A} n min (post : A -> Prop) : Safe n min post (panics UnhashableKey).
Proof. intros r Hr _ _. cbn. split; [by apply advances_refl|done]. Qed.

(** The bytes read first shorten what the continuation may still hold. *)
Lemma Safe_bind {A B} n m1 m (P : A -> Prop) (Q : B -> Prop) (d : M Buffer A) f :
  Safe n m1 P d -> (forall a, P a -> Safe (n - m1) (m - m1) Q (f a)) -> Safe n m Q (d ≫= f).
Proof.
  intros H1 H2 r Hr Hb Hl. specialize (H1 r Hr Hb Hl). unfold mbind, M_bind.
  destruct (d r) as [[a|e|p|] r1]; destruct H1 as [Ha H1]; try (by split).
  destruct H1 as [Hm HP]. pose proof Ha as (Hw & Hbb & Hi).
  specialize (H2 a HP r1 Hw ltac:(by rewrite Hbb) ltac:(unfold Len in *; rewrite Hbb; lia)).
  destruct (f a r1) as [[a'|e|p|] r2]; destruct H2 as [Ha2 H2];
    (split; [by eapply advances_trans|]); try done.
  destruct H2. split; [lia|done].
Qed.

Lemma Safe_fmap {A B} n m (P : A -> Prop) (Q : B -> Prop) (g : A -> B) (d : M Buffer A) :
  Safe n m P d -> (forall a, P a -> Q (g a)) -> Safe n m Q (g <$> d).
Proof. intros H HQ. eapply Safe_bind; [exact H|]. intros. apply Safe_ret; [lia|auto]. Qed.

Lemma Safe_if {A} n min (post : A -> Prop) (c : bool) d1 d2 :
  (c = true -> Safe n min post d1) -> (c = false -> Safe n min post d2) ->
  Safe n min post (if c then d1 else d2).
Proof. destruct c; auto. Qed.

Lemma bytes_ok_drop l k : bytes_ok l -> bytes_ok (drop k l).
Proof. apply Forall_drop. Qed.

(** Safety of a reader that is described on the cursor form. *)
Lemma Safe_at {A} n min (post : A -> Prop) (d : M Buffer A) :
  (forall pre rest, bytes_ok rest ->
     match d (at_ pre rest) with
     | (Ok a, r') => exists c rest', rest = c ++ rest' /\ r' = at_ (pre ++ c) rest' /\
                                     min <= zlen c /\ post a
     | (Err _, r') => exists c rest', rest = c ++ rest' /\ r' = at_ (pre ++ c) rest'
     | _ => False
     end) ->
  Safe n min post d.
Proof.
  intros H r Hr Hb _. destruct (wf_at r Hr) as (pre & rest & ->).
  cbn [b at_] in Hb. apply bytes_ok_app in Hb as [_ Hb]. specialize (H pre rest Hb).
  assert (forall c rest', advances (at_ pre (c ++ rest')) (at_ (pre ++ c) rest')) as Hadv.
  { intros c rest'. unfold advances. split; [apply at_wf|]. cbn [b i at_].
    rewrite <- app_assoc. split; [done|]. zlia. }
  destruct (d _) as [[a|e|p|] r']; try done.
  - destruct H as (c & rest' & -> & -> & Hm & Hp). split; [apply Hadv|].
    split; [|done]. cbn [i at_]. zlia.
  - destruct H as (c & rest' & -> & ->). split; [apply Hadv|done].
Qed.

Lemma split_consumed (pre rest : bytes) : exists c rest',
  rest = c ++ rest' /\ at_ pre rest = at_ (pre ++ c) rest'.
Proof. exists [], rest. by rewrite app_nil_r. Qed.

Lemma Safe_ReadByte n : Safe n 1 is_byte ReadByte.
Proof.
  apply Safe_at. intros pre [|c rest] Hb.
  - rewrite ReadByte_eof. apply split_consumed.
  - rewrite ReadByte_at. exists [c], rest. split_and!; [done..|by apply Forall_cons in Hb as [? _]].
Qed.

Lemma Safe_PeekByte n : Safe n 0 is_byte PeekByte.
Proof.
  apply Safe_at. intros pre [|c rest] Hb.
  - rewrite PeekByte_eof. apply split_consumed.
  - rewrite PeekByte_at. exists [], (c :: rest). rewrite app_nil_r.
    split_and!; [done..|by apply Forall_cons in Hb as [? _]].
Qed.

Lemma zsplit {A} (l : list A) n :
  0 <= n <= zlen l -> exists c rest, l = c ++ rest /\ zlen c = n.
Proof.
  intros Hn. exists (take (Z.to_nat n) l), (drop (Z.to_nat n) l).
  rewrite take_drop. split; [done|]. unfold zlen in *. rewrite length_take. lia.
Qed.

Lemma Safe_Next m n :
  0 <= n -> Safe m 0 (fun '(buf, ok) => bytes_ok buf /\ (ok = true -> zlen buf = n)) (Next n).
Proof.
  intros Hn. apply Safe_at. intros pre rest Hb.
  destruct (decide (zlen rest < n)) as [Hs|Hs].
  - rewrite Next_short by done. exists rest, []. rewrite app_nil_r.
    split_and!; [done..|apply zlen_nonneg|done|done].
  - destruct (zsplit rest n) as (c & rest' & -> & Hc); [lia|]. rewrite Next_at by done.
    exists c, rest'. apply bytes_ok_app in Hb as [? _]. split_and!; [done..|pose_zlen; lia|done|done].
Qed.

Lemma Safe_ReadUint m (d : M Buffer Z) n w (dec : bytes -> Z) :
  0 <= n ->
  (forall pre rest, zlen rest < n -> d (at_ pre rest) = (Err EOF, at_ pre rest)) ->
  (forall pre c rest, zlen c = n ->
     d (at_ pre (c ++ rest)) = (Ok (dec (c ++ rest)), at_ (pre ++ c) rest)) ->
  (forall l, bytes_ok l -> is_u w (dec l)) ->
  Safe m n (is_u w) d.
Proof.
  intros Hn Hs Hl Hdec. apply Safe_at. intros pre rest Hb.
  destruct (decide (zlen rest < n)) as [H|H].
  - rewrite Hs by done. apply split_consumed.
  - destruct (zsplit rest n) as (c & rest' & -> & Hc); [lia|]. rewrite Hl by done.
    exists c, rest'. split_and!; [done..|lia|by apply Hdec].
Qed.

Lemma Safe_ReadUint16 n : Safe n 2 (is_u 16) ReadUint16.
Proof.
  apply (Safe_ReadUint _ _ 2 16 Uint16); [done| | |apply Uint16_range];
    intros; unfold ReadUint16; rewrite readCheck_at.
  - by replace (_ >? _) with true by lia.
  - replace (_ >? _) with false by zlia. cbn [b i at_]. rewrite go_slice_all. by rewrite at_move.
Qed.
Lemma Safe_ReadUint32 n : Safe n 4 (is_u 32) ReadUint32.
Proof.
  apply (Safe_ReadUint _ _ 4 32 Uint32); [done| | |apply Uint32_range];
    intros; unfold ReadUint32; rewrite readCheck_at.
  - by replace (_ >? _) with true by lia.
  - replace (_ >? _) with false by zlia. cbn [b i at_]. rewrite go_slice_all. by rewrite at_move.
Qed.
Lemma Safe_ReadUint64 n : Safe n 8 (is_u 64) ReadUint64.
Proof.
  apply (Safe_ReadUint _ _ 8 64 (fun l => Uint64 (take 8 l))); [done| | |];
    intros; [unfold ReadUint64; rewrite readCheck_at..|by apply Uint64_range, Forall_take].
  - by replace (_ >? _) with true by lia.
  - replace (_ >? _) with false by zlia. cbn [b i at_].
    replace (zlen pre + 8) with (zlen pre + zlen c) by lia. rewrite go_slice_at, at_move by done.
    do 3 f_equal. rewrite take_app_length'; [done|]. unfold zlen in *. lia.
Qed.

Lemma Safe_getLen n : Safe n 0 (fun l => 0 <= l) getLen.
Proof.
  apply Safe_at. intros. rewrite getLen_at. exists [], rest. rewrite app_nil_r.
  split_and!; [done..|apply zlen_nonneg].
Qed.

Lemma Safe_getBytes n : Safe n 0 bytes_ok getBytes.
Proof.
  apply Safe_at. intros. rewrite getBytes_at. exists [], rest. rewrite app_nil_r. done.
Qed.

Create HintDb safe.
#[export] Hint Resolve Safe_ReadByte Safe_PeekByte Safe_Next Safe_ReadUint16 Safe_ReadUint32
  Safe_ReadUint64 Safe_getLen Safe_getBytes Safe_fail Safe_unhashable : safe.

(** ** Properties *)

Lemma Reclaim_at pre rest : Reclaim (at_ pre rest) = (Ok tt, at_ [] rest).
Proof.
  unfold Reclaim. rewrite Len_at. cbn [b i at_]. rewrite go_slice_all.
  unfold go_slice. replace (_ && _ && _) with true by zlia. cbn.
  rewrite take_app_zlen. done.
Qed.

(** [Reclaim] drops the consumed prefix and nothing else: the unread bytes
    are unchanged, in order, and start at the beginning of the slice. *)
Theorem Reclaim_keeps_unread pre rest : Reclaim (at_ pre rest) = (Ok tt, at_ [] rest).
Proof. apply Reclaim_at. Qed.

(** [ReadFromOnce] always offers the reader a non-empty slice, whatever the
    capacity, so a read can make progress; it appends exactly what was read
    and leaves the cursor alone, also when the reader reports an error. *)
Theorem ReadFromOnce_progress r capacity read :
  0 < readRoom r capacity /\
  (ReadFromOnce capacity read r).2 = mkBuffer (b r ++ (read (readRoom r capacity)).1) (i r).
Proof.
  split.
  - unfold readRoom, minRead. pose proof (zlen_nonneg (b r)).
    destruct (Z.ltb_spec (capacity - zlen (b r)) 512); [|lia].
    destruct (Z.eqb_spec (zlen (b r) * 2) 0); lia.
  - unfold ReadFromOnce. destruct (read _) as [p [e|]]; reflexivity.
Qed.

End Buffer.
