(* ===== verification/Types.v ===== *)
(** * Types: AMQP type codes and Go values (internal/encoding/types.go)

    The constants of the AMQP type system, the small enumerations of the
    package, and [value]: the Go values that travel through an [any] in the
    codec, with the source's dynamic types as constructors.  Go maps are
    association lists: Go iterates a map in an unspecified order, so an encoder
    theorem that holds for every list covers every iteration order; [assoc_set]
    is [m[k] = v].  A pointer that the source passes only to avoid an interface
    conversion ([&s.Address]) is modelled by the value it points to. *)

From S2P Require Import Prelude.

(** ** Type codes *)

Definition TypeCodeNull : Z := 0x40.
Definition TypeCodeBool : Z := 0x56.
Definition TypeCodeBoolTrue : Z := 0x41.
Definition TypeCodeBoolFalse : Z := 0x42.
Definition TypeCodeUbyte : Z := 0x50.
Definition TypeCodeUshort : Z := 0x60.
Definition TypeCodeUint : Z := 0x70.
Definition TypeCodeSmallUint : Z := 0x52.
Definition TypeCodeUint0 : Z := 0x43.
Definition TypeCodeUlong : Z := 0x80.
Definition TypeCodeSmallUlong : Z := 0x53.
Definition TypeCodeUlong0 : Z := 0x44.
Definition TypeCodeByte : Z := 0x51.
Definition TypeCodeShort : Z := 0x61.
Definition TypeCodeInt : Z := 0x71.
Definition TypeCodeSmallint : Z := 0x54.
Definition TypeCodeLong : Z := 0x81.
Definition TypeCodeSmalllong : Z := 0x55.
Definition TypeCodeFloat : Z := 0x72.
Definition TypeCodeDouble : Z := 0x82.
Definition TypeCodeDecimal32 : Z := 0x74.
Definition TypeCodeDecimal64 : Z := 0x84.
Definition TypeCodeDecimal128 : Z := 0x94.
Definition TypeCodeChar : Z := 0x73.
Definition TypeCodeTimestamp : Z := 0x83.
Definition TypeCodeUUID : Z := 0x98.
Definition TypeCodeVbin8 : Z := 0xa0.
Definition TypeCodeVbin32 : Z := 0xb0.
Definition TypeCodeStr8 : Z := 0xa1.
Definition TypeCodeStr32 : Z := 0xb1.
Definition TypeCodeSym8 : Z := 0xa3.
Definition TypeCodeSym32 : Z := 0xb3.
Definition TypeCodeList0 : Z := 0x45.
Definition TypeCodeList8 : Z := 0xc0.
Definition TypeCodeList32 : Z := 0xd0.
Definition TypeCodeMap8 : Z := 0xc1.
Definition TypeCodeMap32 : Z := 0xd1.
Definition TypeCodeArray8 : Z := 0xe0.
Definition TypeCodeArray32 : Z := 0xf0.
Definition TypeCodeOpen : Z := 0x10.
Definition TypeCodeBegin : Z := 0x11.
Definition TypeCodeAttach : Z := 0x12.
Definition TypeCodeFlow : Z := 0x13.
Definition TypeCodeTransfer : Z := 0x14.
Definition TypeCodeDisposition : Z := 0x15.
Definition TypeCodeDetach : Z := 0x16.
Definition TypeCodeEnd : Z := 0x17.
Definition TypeCodeClose : Z := 0x18.
Definition TypeCodeSource : Z := 0x28.
Definition TypeCodeTarget : Z := 0x29.
Definition TypeCodeError : Z := 0x1d.
Definition TypeCodeMessageHeader : Z := 0x70.
Definition TypeCodeDeliveryAnnotations : Z := 0x71.
Definition TypeCodeMessageAnnotations : Z := 0x72.
Definition TypeCodeMessageProperties : Z := 0x73.
Definition TypeCodeApplicationProperties : Z := 0x74.
Definition TypeCodeApplicationData : Z := 0x75.
Definition TypeCodeAMQPSequence : Z := 0x76.
Definition TypeCodeAMQPValue : Z := 0x77.
Definition TypeCodeFooter : Z := 0x78.
Definition TypeCodeStateReceived : Z := 0x23.
Definition TypeCodeStateAccepted : Z := 0x24.
Definition TypeCodeStateRejected : Z := 0x25.
Definition TypeCodeStateReleased : Z := 0x26.
Definition TypeCodeStateModified : Z := 0x27.
Definition TypeCodeSASLMechanism : Z := 0x40.
Definition TypeCodeSASLInit : Z := 0x41.
Definition TypeCodeSASLChallenge : Z := 0x42.
Definition TypeCodeSASLResponse : Z := 0x43.
Definition TypeCodeSASLOutcome : Z := 0x44.
Definition TypeCodeDeleteOnClose : Z := 0x2b.
Definition TypeCodeDeleteOnNoLinks : Z := 0x2c.
Definition TypeCodeDeleteOnNoMessages : Z := 0x2d.
Definition TypeCodeDeleteOnNoLinksOrMessages : Z := 0x2e.

(** ** Enumerations *)

Definition DurabilityNone : Z := 0.
Definition DurabilityConfiguration : Z := 1.
Definition DurabilityUnsettledState : Z := 2.

Definition ExpiryLinkDetach : bytes := bytes_of_string "link-detach".
Definition ExpirySessionEnd : bytes := bytes_of_string "session-end".
Definition ExpiryConnectionClose : bytes := bytes_of_string "connection-close".
Definition ExpiryNever : bytes := bytes_of_string "never".

Definition ValidateExpiryPolicy (e : bytes) : res unit :=
  if bool_decide (e = ExpiryLinkDetach) || bool_decide (e = ExpirySessionEnd)
     || bool_decide (e = ExpiryConnectionClose) || bool_decide (e = ExpiryNever)
  then Ok tt
  else Err (Errorf "unknown expiry-policy %q" e).

Definition SenderSettleModeUnsettled : Z := 0.
Definition SenderSettleModeSettled : Z := 1.
Definition SenderSettleModeMixed : Z := 2.
Definition ReceiverSettleModeFirst : Z := 0.
Definition ReceiverSettleModeSecond : Z := 1.

Definition RoleSender : bool := false.
Definition RoleReceiver : bool := true.

Definition CodeSASLOK : Z := 0.
Definition CodeSASLAuth : Z := 1.
Definition CodeSASLSysPerm : Z := 2.

(** ** time.Time

    Seconds since the Unix epoch and nanoseconds within the second, in UTC. *)

Record time := mkTime { sec : Z; nsec : Z }.

#[export] Instance time_eq_dec : EqDecision time.
Proof. solve_decision. Defined.

(** [time.Unix(sec, nsec)], which normalises the nanoseconds. *)
Definition time_Unix (s ns : Z) : time :=
  if (ns <? 0) || (ns >=? 1000000000) then
    let n := Z.quot ns 1000000000 in
    let s' := s + n in
    let ns' := ns - n * 1000000000 in
    if ns' <? 0 then mkTime (s' - 1) (ns' + 1000000000) else mkTime s' ns'
  else mkTime s ns.

(** [t.UnixNano()], an int64 computation that wraps. *)
Definition UnixNano (t : time) : Z := i64 (sec t * 1000000000 + nsec t).

(** The milliseconds the encoders write: [t.UnixNano() / int64(time.Millisecond)]. *)
Definition time_ms (t : time) : Z := Z.quot (UnixNano t) 1000000.

(** The time the decoders build from milliseconds:
    [time.Unix(ms/1000, (ms%1000)*1000000).UTC()]. *)
Definition ms_time (ms : Z) : time := time_Unix (Z.quot ms 1000) (Z.rem ms 1000 * 1000000).

(** ** UTF-8 validity ([utf8.ValidString]) *)

Definition in_range (lo hi c : Z) : bool := (lo <=? c) && (c <=? hi).
Definition is_cont (c : Z) : bool := in_range 128 191 c.

Fixpoint utf8_valid (s : bytes) : bool :=
  match s with
  | [] => true
  | c0 :: s0 =>
      if c0 <? 128 then utf8_valid s0
      else match s0 with
      | [] => false
      | c1 :: s1 =>
          if in_range 194 223 c0 then is_cont c1 && utf8_valid s1
          else match s1 with
          | [] => false
          | c2 :: s2 =>
              if in_range 224 239 c0 then
                in_range (if c0 =? 224 then 160 else 128) (if c0 =? 237 then 159 else 191) c1
                && is_cont c2 && utf8_valid s2
              else match s2 with
              | [] => false
              | c3 :: s3 =>
                  in_range 240 244 c0
                  && in_range (if c0 =? 240 then 144 else 128) (if c0 =? 244 then 143 else 191) c1
                  && is_cont c2 && is_cont c3 && utf8_valid s3
              end
          end
      end
  end.

(** ** Values *)

(** encoding.Error, over the type of the values in its info map. *)
Record Error_ (V : Type) := mkError {
  Condition : bytes;
  Description : bytes;
  Info : list (bytes * V)
}.
Arguments mkError {V}.
Arguments Condition {V}.
Arguments Description {V}.
Arguments Info {V}.

(** encoding.DeliveryState: the concrete states behind the interface.  The
    annotations of a modified state are [None] when the Go map is nil. *)
Inductive DeliveryState_ (V : Type) :=
| StateReceived (SectionNumber SectionOffset : Z)
| StateAccepted
| StateRejected (Error : option (Error_ V))
| StateReleased
| StateModified (DeliveryFailed UndeliverableHere : bool)
                (MessageAnnotations : option (list (V * V))).
Arguments StateReceived {V}.
Arguments StateAccepted {V}.
Arguments StateRejected {V}.
Arguments StateReleased {V}.
Arguments StateModified {V}.

(** The dynamic type and value of a Go [any].  Floats are their IEEE bits. *)
Inductive value :=
| VNil
| VBool (v : bool)
| VUint (n : Z) | VUint64 (n : Z) | VUint32 (n : Z) | VUint16 (n : Z) | VUint8 (n : Z)
| VInt (n : Z) | VInt64 (n : Z) | VInt32 (n : Z) | VInt16 (n : Z) | VInt8 (n : Z)
| VFloat32 (bits : Z) | VFloat64 (bits : Z)
| VString (s : bytes) | VSymbol (s : bytes) | VBinary (s : bytes)
| VTime (t : time)
| VUUID (u : bytes)
| VArrayUByte (a : bytes)
| VArrayInt8 (a : list Z) | VArrayUint16 (a : list Z) | VArrayInt16 (a : list Z)
| VArrayUint32 (a : list Z) | VArrayInt32 (a : list Z)
| VArrayUint64 (a : list Z) | VArrayInt64 (a : list Z)
| VArrayFloat (a : list Z) | VArrayDouble (a : list Z)
| VArrayBool (a : list bool)
| VArrayString (a : list bytes) | VArraySymbol (a : list bytes) | VArrayBinary (a : list bytes)
| VArrayTimestamp (a : list time) | VArrayUUID (a : list bytes)
| VList (l : list value)
| VMapAnyAny (m : list (value * value))
| VMapStringAny (m : list (bytes * value))
| VMapSymbolAny (m : list (bytes * value))
| VAnnotations (m : list (value * value))
| VDescribed (descriptor v : value)
| VLifetimePolicy (p : Z)
| VError (e : Error_ value)
| VDeliveryState (s : DeliveryState_ value)
| VUnsupported.

Abbreviation Error := (Error_ value).
Abbreviation DeliveryState := (DeliveryState_ value).

(** encoding.DescribedType *)
Record DescribedType := mkDescribed { Descriptor : value; DValue : value }.

(** *** Induction over nested values *)

Section ValueInd.
Context (P : value -> Prop).

Definition PError (e : Error) : Prop := Forall (fun kv => P kv.2) (Info e).
Definition PState (s : DeliveryState) : Prop :=
  match s with
  | StateRejected (Some e) => PError e
  | StateModified _ _ (Some m) => Forall (fun kv => P kv.1 /\ P kv.2) m
  | _ => True
  end.

(** Values that contain no other value. *)
Definition is_leaf (v : value) : bool :=
  match v with
  | VList _ | VMapAnyAny _ | VMapStringAny _ | VMapSymbolAny _ | VAnnotations _
  | VDescribed _ _ | VError _ | VDeliveryState _ => false
  | _ => true
  end.

Context (Hleaf : forall v, is_leaf v = true -> P v)
  (Hlist : forall l, Forall P l -> P (VList l))
  (Hmap : forall m, Forall (fun kv => P kv.1 /\ P kv.2) m -> P (VMapAnyAny m))
  (Hmapstr : forall m, Forall (fun kv => P kv.2) m -> P (VMapStringAny m))
  (Hmapsym : forall m, Forall (fun kv => P kv.2) m -> P (VMapSymbolAny m))
  (Hann : forall m, Forall (fun kv => P kv.1 /\ P kv.2) m -> P (VAnnotations m))
  (Hdesc : forall d v, P d -> P v -> P (VDescribed d v))
  (Herr : forall e, PError e -> P (VError e))
  (Hstate : forall s, PState s -> P (VDeliveryState s)).

Fixpoint value_nested_ind (v : value) : P v :=
  let pairs := fix pairs (m : list (value * value)) : Forall (fun kv => P kv.1 /\ P kv.2) m :=
    match m with
    | [] => List.Forall_nil _
    | kv :: m' => List.Forall_cons _ kv _
        (match kv return P kv.1 /\ P kv.2 with
         | (k, x) => conj (value_nested_ind k) (value_nested_ind x) end) (pairs m')
    end in
  let entries := fix entries (m : list (bytes * value)) : Forall (fun kv => P kv.2) m :=
    match m with
    | [] => List.Forall_nil _
    | kv :: m' => List.Forall_cons _ kv _
        (match kv return P kv.2 with (_, x) => value_nested_ind x end) (entries m')
    end in
  let error := fun e : Error => match e return PError e with mkError _ _ i => entries i end in
  match v with
  | VList l => Hlist l ((fix elems (l : list value) : Forall P l :=
      match l with
      | [] => List.Forall_nil _
      | x :: l' => List.Forall_cons _ x _ (value_nested_ind x) (elems l')
      end) l)
  | VMapAnyAny m => Hmap m (pairs m)
  | VMapStringAny m => Hmapstr m (entries m)
  | VMapSymbolAny m => Hmapsym m (entries m)
  | VAnnotations m => Hann m (pairs m)
  | VDescribed d x => Hdesc d x (value_nested_ind d) (value_nested_ind x)
  | VError e => Herr e (error e)
  | VDeliveryState s => Hstate s
      (match s return PState s with
       | StateRejected (Some e) => error e
       | StateModified _ _ (Some m) => pairs m
       | _ => I
       end)
  | v => Hleaf v eq_refl
  end.
End ValueInd.

(** ** Map keys *)

(** [reflect.ValueOf(key).Kind()] is Slice or Map: the types the decoder of
    [map[any]any] refuses as keys. *)
Definition slice_or_map (v : value) : bool :=
  match v with
  | VBinary _ | VArrayUByte _ | VArrayInt8 _ | VArrayUint16 _ | VArrayInt16 _
  | VArrayUint32 _ | VArrayInt32 _ | VArrayUint64 _ | VArrayInt64 _ | VArrayFloat _
  | VArrayDouble _ | VArrayBool _ | VArrayString _ | VArraySymbol _ | VArrayBinary _
  | VArrayTimestamp _ | VArrayUUID _ | VList _
  | VMapAnyAny _ | VMapStringAny _ | VMapSymbolAny _ | VAnnotations _ => true
  | _ => false
  end.

(** Go's run-time check when a value is used as a key of a [map[any]...]:
    slices and maps are unhashable, a struct is hashable when its fields are. *)
Fixpoint hashable (v : value) : bool :=
  match v with
  | VDescribed d x => hashable d && hashable x
  | v => negb (slice_or_map v)
  end.

(** IEEE equality on the bits: NaN differs from itself, the zeros agree. *)
Definition float_eqb (mant expo : Z) (a b : Z) : bool :=
  let nan x := (x / 2 ^ mant mod 2 ^ expo =? 2 ^ expo - 1) && negb (x mod 2 ^ mant =? 0) in
  let zero x := x mod 2 ^ (mant + expo) =? 0 in
  negb (nan a) && negb (nan b) && ((a =? b) || (zero a && zero b)).

(** Go's [==] on two hashable interface values: same dynamic type and equal
    values.  The decoder allocates every pointer it returns, so two pointers to
    structs are different keys. *)
Fixpoint key_eqb (a b : value) : bool :=
  match a, b with
  | VNil, VNil => true
  | VBool x, VBool y => Bool.eqb x y
  | VUint x, VUint y | VUint64 x, VUint64 y | VUint32 x, VUint32 y
  | VUint16 x, VUint16 y | VUint8 x, VUint8 y
  | VInt x, VInt y | VInt64 x, VInt64 y | VInt32 x, VInt32 y
  | VInt16 x, VInt16 y | VInt8 x, VInt8 y => x =? y
  | VFloat32 x, VFloat32 y => float_eqb 23 8 x y
  | VFloat64 x, VFloat64 y => float_eqb 52 11 x y
  | VString x, VString y | VSymbol x, VSymbol y | VUUID x, VUUID y => bool_decide (x = y)
  | VTime x, VTime y => bool_decide (x = y)
  | VLifetimePolicy x, VLifetimePolicy y => x =? y
  | VDescribed d x, VDescribed e y => key_eqb d e && key_eqb x y
  | _, _ => false
  end.

(** [m[k] = v] on a map with key equality [eqb]. *)
Fixpoint assoc_set {K V} (eqb : K -> K -> bool) (m : list (K * V)) (k : K) (v : V)
  : list (K * V) :=
  match m with
  | [] => [(k, v)]
  | (k', v') :: m' => if eqb k' k then (k', v) :: m' else (k', v') :: assoc_set eqb m' k v
  end.

Definition bytes_eqb (a b : bytes) : bool := bool_decide (a = b).

(** Inserting pairs with pairwise different keys, in order, rebuilds the list. *)
Definition keys_fresh {K V} (eqb : K -> K -> bool) (m : list (K * V)) : Prop :=
  forall l k v l', m = l ++ (k, v) :: l' -> Forall (fun kv => eqb kv.1 k = false) l.

Lemma assoc_set_fresh {K V} eqb (m : list (K * V)) k v :
  Forall (fun kv => eqb kv.1 k = false) m -> assoc_set eqb m k v = m ++ [(k, v)].
Proof. induction 1 as [|[k' v'] m H Hm IH]; cbn in *; [done|]. by rewrite H, IH. Qed.

Lemma fold_assoc_set {K V} eqb (m : list (K * V)) :
  keys_fresh eqb m ->
  fold_left (fun acc kv => assoc_set eqb acc kv.1 kv.2) m [] = m.
Proof.
  intros H. rewrite <- (app_nil_l m) at 2.
  assert (forall acc m', m = acc ++ m' ->
    fold_left (fun acc kv => assoc_set eqb acc kv.1 kv.2) m' acc = acc ++ m') as Hgen.
  { intros acc m'. revert acc. induction m' as [|[k v] m' IH]; intros acc E; cbn [fold_left].
    - by rewrite app_nil_r.
    - rewrite assoc_set_fresh by by eapply H. rewrite IH; [by rewrite <- app_assoc|].
      by rewrite <- app_assoc. }
  by apply Hgen.
Qed.
