(* ===== verification/Encode.v ===== *)
(** * Encode: the AMQP encoder (internal/encoding/encode.go and the Marshal
    methods of internal/encoding/types.go)

    Each writer appends to the buffer it is given, in the order of the source:
    headers are written with placeholder sizes that are overwritten once the
    body is known.  [Marshal] is the type switch of encode.go over [value]. *)

From S2P Require Import Prelude Buffer Types.
Import Buffer.

Module Encode.

Definition MaxUint32 : Z := 2 ^ 32 - 1.
Definition MaxUint8 : Z := 255.
Definition MaxInt8 : Z := 127.

(** ** Scalars *)

Definition writeBool (t : bool) : M Buffer unit :=
  if t then AppendByte TypeCodeBoolTrue else AppendByte TypeCodeBoolFalse.

Definition writeInt32 (n : Z) : M Buffer unit :=
  if (n <? 128) && (n >=? -128) then Append [TypeCodeSmallint; u8 n]
  else
    _ ← AppendByte TypeCodeInt;
    AppendUint32 (u32 n).

Definition writeInt64 (n : Z) : M Buffer unit :=
  if (n <? 128) && (n >=? -128) then Append [TypeCodeSmalllong; u8 n]
  else
    _ ← AppendByte TypeCodeLong;
    AppendUint64 (u64 n).

Definition writeUint32 (n : Z) : M Buffer unit :=
  if n =? 0 then AppendByte TypeCodeUint0
  else if n <? 256 then Append [TypeCodeSmallUint; u8 n]
  else
    _ ← AppendByte TypeCodeUint;
    AppendUint32 n.

Definition writeUint64 (n : Z) : M Buffer unit :=
  if n =? 0 then AppendByte TypeCodeUlong0
  else if n <? 256 then Append [TypeCodeSmallUlong; u8 n]
  else
    _ ← AppendByte TypeCodeUlong;
    AppendUint64 n.

(** Floats are represented by their bits, so [math.Float32bits] is the identity. *)
Definition writeFloat (bits : Z) : M Buffer unit :=
  _ ← AppendByte TypeCodeFloat;
  AppendUint32 bits.

Definition writeDouble (bits : Z) : M Buffer unit :=
  _ ← AppendByte TypeCodeDouble;
  AppendUint64 bits.

Definition writeTimestamp (t : time) : M Buffer unit :=
  _ ← AppendByte TypeCodeTimestamp;
  AppendUint64 (u64 (time_ms t)).

Definition writeUint16 (n : Z) : M Buffer unit :=
  _ ← AppendByte TypeCodeUshort;
  AppendUint16 n.

Definition writeInt16 (n : Z) : M Buffer unit :=
  _ ← AppendByte TypeCodeShort;
  AppendUint16 (u16 n).

(** ** Strings, symbols and binary *)

Definition writeVariable (code8 code32 : Z) (s : bytes) : M Buffer unit :=
  let l := zlen s in
  if l <? 256 then
    _ ← Append [code8; u8 l];
    Append s
  else if l <? MaxUint32 then
    _ ← AppendByte code32;
    _ ← AppendUint32 (u32 l);
    Append s
  else errorf "too long" [].

Definition writeString (str : bytes) : M Buffer unit :=
  if negb (utf8_valid str) then errorf "not a valid UTF-8 string" []
  else writeVariable TypeCodeStr8 TypeCodeStr32 str.

Definition WriteBinary (bin : bytes) : M Buffer unit :=
  writeVariable TypeCodeVbin8 TypeCodeVbin32 bin.

(** Symbol.Marshal *)
Definition Symbol_Marshal (s : bytes) : M Buffer unit :=
  writeVariable TypeCodeSym8 TypeCodeSym32 s.

(** ** Composites *)

Definition WriteDescriptor (code : Z) : M Buffer unit := Append [0; TypeCodeSmallUlong; code].

(** encoding.MarshalField: what [Marshal] does with the field's value, and
    whether the field is omitted. *)
Record MarshalField := mf { Value : M Buffer unit; Omit : bool }.

(** The first loop of [MarshalComposite]: the last index that is not omitted. *)
Fixpoint lastSetIdx_from (idx last : Z) (fields : list MarshalField) : Z :=
  match fields with
  | [] => last
  | f :: fs => lastSetIdx_from (idx + 1) (if Omit f then last else idx) fs
  end.
Definition lastSetIdx (fields : list MarshalField) : Z := lastSetIdx_from 0 (-1) fields.

Fixpoint marshalFields (fields : list MarshalField) : M Buffer unit :=
  match fields with
  | [] => mret tt
  | f :: fs =>
      _ ← (if Omit f then AppendByte TypeCodeNull else Value f);
      marshalFields fs
  end.

Definition MarshalComposite (code : Z) (fields : list MarshalField) : M Buffer unit :=
  let last := lastSetIdx fields in
  if last =? -1 then Append [0; TypeCodeSmallUlong; code; TypeCodeList0]
  else
    _ ← WriteDescriptor code;
    _ ← AppendByte TypeCodeList32;
    sizeIdx ← getLen;
    _ ← Append [0; 0; 0; 0];
    preFieldLen ← getLen;
    _ ← AppendUint32 (u32 (last + 1));
    _ ← marshalFields (take (Z.to_nat (last + 1)) fields);
    l ← getLen;
    PutUint32 sizeIdx (u32 (l - preFieldLen)).

(** ** Maps and lists *)

(** The common frame of [writeMap]: [pairs] is [len(m)*2], [entries] writes
    the keys and values in the iteration order. *)
Definition writeMap (pairs : Z) (entries : M Buffer unit) : M Buffer unit :=
  startIdx ← getLen;
  _ ← Append [TypeCodeMap32; 0; 0; 0; 0; 0; 0; 0; 0];
  _ ← entries;
  if pairs >? MaxUint32 - 4 then errorf "map contains too many elements" []
  else
    l ← getLen;
    _ ← PutUint32 (startIdx + 1) (u32 (l - startIdx - 1 - 4));
    PutUint32 (startIdx + 5) (u32 pairs).

(** [for key, val := range m] with the key and value writers of the map type. *)
Definition writeEntries {K V} (wk : K -> M Buffer unit) (wv : V -> M Buffer unit)
  : list (K * V) -> M Buffer unit :=
  fix go m :=
    match m with
    | [] => mret tt
    | (key, val) :: m' =>
        _ ← wk key;
        _ ← wv val;
        go m'
    end.

(** The key switch of the [Annotations] case. *)
Definition writeAnnotationKey (key : value) : M Buffer unit :=
  match key with
  | VString s => Symbol_Marshal s
  | VSymbol s => Symbol_Marshal s
  | VInt64 n => writeInt64 n
  | VInt n => writeInt64 n
  | _ => errorf "unsupported Annotations key type %T" []
  end.

Definition writeAll {A} (w : A -> M Buffer unit) : list A -> M Buffer unit :=
  fix go l :=
    match l with
    | [] => mret tt
    | x :: l' =>
        _ ← w x;
        go l'
    end.

(** list.Marshal *)
Definition list_Marshal {A} (w : A -> M Buffer unit) (l : list A) : M Buffer unit :=
  let length := zlen l in
  if length =? 0 then AppendByte TypeCodeList0
  else
    _ ← AppendByte TypeCodeList32;
    sizeIdx ← getLen;
    _ ← Append [0; 0; 0; 0];
    _ ← AppendUint32 (u32 length);
    _ ← writeAll w l;
    n ← getLen;
    PutUint32 sizeIdx (u32 (n - (sizeIdx + 4))).

(** ** Arrays *)

Definition array8TLSize : Z := 2.
Definition array32TLSize : Z := 5.

Definition writeArrayHeader (length typeSize type_ : Z) : M Buffer unit :=
  let size := length * typeSize in
  if size + array8TLSize <=? MaxUint8 then
    Append [TypeCodeArray8; u8 (size + array8TLSize); u8 length; type_]
  else
    _ ← AppendByte TypeCodeArray32;
    _ ← AppendUint32 (u32 (size + array32TLSize));
    _ ← AppendUint32 (u32 length);
    AppendByte type_.

Definition writeVariableArrayHeader (length elementsSizeTotal type_ : Z) : M Buffer unit :=
  let elementTypeSize := if Z.land type_ 240 =? 176 then 4 else 1 in
  let size := elementsSizeTotal + length * elementTypeSize in
  if size + array8TLSize <=? MaxUint8 then
    Append [TypeCodeArray8; u8 (size + array8TLSize); u8 length; type_]
  else
    _ ← AppendByte TypeCodeArray32;
    _ ← AppendUint32 (u32 (size + array32TLSize));
    _ ← AppendUint32 (u32 length);
    AppendByte type_.

Definition ArrayUByte_Marshal (a : bytes) : M Buffer unit :=
  _ ← writeArrayHeader (zlen a) 1 TypeCodeUbyte;
  Append a.

Definition arrayInt8_Marshal (a : list Z) : M Buffer unit :=
  _ ← writeArrayHeader (zlen a) 1 TypeCodeByte;
  writeAll (fun x => AppendByte (u8 x)) a.

Definition arrayUint16_Marshal (a : list Z) : M Buffer unit :=
  _ ← writeArrayHeader (zlen a) 2 TypeCodeUshort;
  writeAll AppendUint16 a.

Definition arrayInt16_Marshal (a : list Z) : M Buffer unit :=
  _ ← writeArrayHeader (zlen a) 2 TypeCodeShort;
  writeAll (fun x => AppendUint16 (u16 x)) a.

(** The loops that pick the element encoding stop at the first element over
    the limit: the wide encoding is used when some element exceeds it. *)
Definition arrayUint32_Marshal (a : list Z) : M Buffer unit :=
  let wide := existsb (fun n => n >? MaxUint8) a in
  let typeSize := if wide then 4 else 1 in
  let TypeCode := if wide then TypeCodeUint else TypeCodeSmallUint in
  _ ← writeArrayHeader (zlen a) typeSize TypeCode;
  if TypeCode =? TypeCodeUint then writeAll AppendUint32 a
  else writeAll (fun x => AppendByte (u8 x)) a.

Definition arrayInt32_Marshal (a : list Z) : M Buffer unit :=
  let wide := existsb (fun n => n >? MaxInt8) a in
  let typeSize := if wide then 4 else 1 in
  let TypeCode := if wide then TypeCodeInt else TypeCodeSmallint in
  _ ← writeArrayHeader (zlen a) typeSize TypeCode;
  if TypeCode =? TypeCodeInt then writeAll (fun x => AppendUint32 (u32 x)) a
  else writeAll (fun x => AppendByte (u8 x)) a.

Definition arrayUint64_Marshal (a : list Z) : M Buffer unit :=
  let wide := existsb (fun n => n >? MaxUint8) a in
  let typeSize := if wide then 8 else 1 in
  let TypeCode := if wide then TypeCodeUlong else TypeCodeSmallUlong in
  _ ← writeArrayHeader (zlen a) typeSize TypeCode;
  if TypeCode =? TypeCodeUlong then writeAll AppendUint64 a
  else writeAll (fun x => AppendByte (u8 x)) a.

Definition arrayInt64_Marshal (a : list Z) : M Buffer unit :=
  let wide := existsb (fun n => n >? MaxInt8) a in
  let typeSize := if wide then 8 else 1 in
  let TypeCode := if wide then TypeCodeLong else TypeCodeSmalllong in
  _ ← writeArrayHeader (zlen a) typeSize TypeCode;
  if TypeCode =? TypeCodeLong then writeAll (fun x => AppendUint64 (u64 x)) a
  else writeAll (fun x => AppendByte (u8 x)) a.

Definition arrayFloat_Marshal (a : list Z) : M Buffer unit :=
  _ ← writeArrayHeader (zlen a) 4 TypeCodeFloat;
  writeAll AppendUint32 a.

Definition arrayDouble_Marshal (a : list Z) : M Buffer unit :=
  _ ← writeArrayHeader (zlen a) 8 TypeCodeDouble;
  writeAll AppendUint64 a.

Definition arrayBool_Marshal (a : list bool) : M Buffer unit :=
  _ ← writeArrayHeader (zlen a) 1 TypeCodeBool;
  writeAll (fun x : bool => AppendByte (if x then 1 else 0)) a.

(** The element loops of arrayString, arraySymbol and arrayBinary. *)
Definition elementsSize (a : list bytes) : Z := fold_left (fun n e => n + zlen e) a 0.
Definition writeElements (wide : bool) (a : list bytes) : M Buffer unit :=
  if wide then
    writeAll (fun e => _ ← AppendUint32 (u32 (zlen e)); Append e) a
  else
    writeAll (fun e => _ ← AppendByte (u8 (zlen e)); Append e) a.

Definition arrayString_Marshal (a : list bytes) : M Buffer unit :=
  if existsb (fun e => negb (utf8_valid e)) a then errorf "not a valid UTF-8 string" []
  else
    let wide := existsb (fun e => zlen e >? MaxUint8) a in
    let elementType := if wide then TypeCodeStr32 else TypeCodeStr8 in
    _ ← writeVariableArrayHeader (zlen a) (elementsSize a) elementType;
    writeElements (elementType =? TypeCodeStr32) a.

Definition arraySymbol_Marshal (a : list bytes) : M Buffer unit :=
  let wide := existsb (fun e => zlen e >? MaxUint8) a in
  let elementType := if wide then TypeCodeSym32 else TypeCodeSym8 in
  _ ← writeVariableArrayHeader (zlen a) (elementsSize a) elementType;
  writeElements (elementType =? TypeCodeSym32) a.

Definition arrayBinary_Marshal (a : list bytes) : M Buffer unit :=
  let wide := existsb (fun e => zlen e >? MaxUint8) a in
  let elementType := if wide then TypeCodeVbin32 else TypeCodeVbin8 in
  _ ← writeVariableArrayHeader (zlen a) (elementsSize a) elementType;
  writeElements (elementType =? TypeCodeVbin32) a.

Definition arrayTimestamp_Marshal (a : list time) : M Buffer unit :=
  _ ← writeArrayHeader (zlen a) 8 TypeCodeTimestamp;
  writeAll (fun t => AppendUint64 (u64 (time_ms t))) a.

Definition arrayUUID_Marshal (a : list bytes) : M Buffer unit :=
  _ ← writeArrayHeader (zlen a) 16 TypeCodeUUID;
  writeAll Append a.

Definition UUID_Marshal (u : bytes) : M Buffer unit :=
  _ ← AppendByte TypeCodeUUID;
  Append u.

Definition LifetimePolicy_Marshal (p : Z) : M Buffer unit :=
  Append [0; TypeCodeSmallUlong; p; TypeCodeList0].

(** ** Values that contain values *)

(** The [map[string]any], [map[any]any], [map[Symbol]any] and [Annotations]
    cases of [writeMap], over the writer of the nested values. *)
Definition writeMapStringAny (w : value -> M Buffer unit) (m : list (bytes * value)) :=
  writeMap (zlen m * 2) (writeEntries writeString w m).
Definition writeMapSymbolAny (w : value -> M Buffer unit) (m : list (bytes * value)) :=
  writeMap (zlen m * 2) (writeEntries Symbol_Marshal w m).
Definition writeMapAnyAny (w : value -> M Buffer unit) (m : list (value * value)) :=
  writeMap (zlen m * 2) (writeEntries w w m).
Definition writeAnnotations (w : value -> M Buffer unit) (m : list (value * value)) :=
  writeMap (zlen m * 2) (writeEntries writeAnnotationKey w m).

(** Error.Marshal *)
Definition Error_Marshal_ (w : value -> M Buffer unit) (e : Error) : M Buffer unit :=
  match e with
  | mkError condition description info =>
      MarshalComposite TypeCodeError
        [mf (Symbol_Marshal condition) false;
         mf (writeString description) (bool_decide (description = []));
         mf (writeMapStringAny w info) (zlen info =? 0)]
  end.

(** The Marshal methods of the delivery states. *)
Definition DeliveryState_Marshal_ (w : value -> M Buffer unit) (s : DeliveryState) : M Buffer unit :=
  match s with
  | StateReceived n off =>
      MarshalComposite TypeCodeStateReceived [mf (writeUint32 n) false; mf (writeUint64 off) false]
  | StateAccepted => MarshalComposite TypeCodeStateAccepted []
  | StateRejected None => MarshalComposite TypeCodeStateRejected [mf (mret tt) true]
  | StateRejected (Some e) =>
      MarshalComposite TypeCodeStateRejected [mf (Error_Marshal_ w e) false]
  | StateReleased => MarshalComposite TypeCodeStateReleased []
  | StateModified failed undeliverable ann =>
      MarshalComposite TypeCodeStateModified
        [mf (writeBool failed) (negb failed);
         mf (writeBool undeliverable) (negb undeliverable);
         match ann with
         | None => mf (mret tt) true
         | Some m => mf (writeAnnotations w m) false
         end]
  end.

(** DescribedType.Marshal *)
Definition DescribedType_Marshal_ (w : value -> M Buffer unit) (d v : value) : M Buffer unit :=
  _ ← AppendByte 0;
  _ ← w d;
  w v.

(** encoding.Marshal: the type switch on the dynamic type of the argument. *)
Fixpoint Marshal (v : value) : M Buffer unit :=
  match v with
  | VNil => AppendByte TypeCodeNull
  | VBool t => writeBool t
  | VUint n => writeUint64 n
  | VUint64 n => writeUint64 n
  | VUint32 n => writeUint32 n
  | VUint16 n => writeUint16 n
  | VUint8 n => Append [TypeCodeUbyte; n]
  | VInt n => writeInt64 n
  | VInt8 n => Append [TypeCodeByte; u8 n]
  | VInt16 n => writeInt16 n
  | VInt32 n => writeInt32 n
  | VInt64 n => writeInt64 n
  | VFloat32 f => writeFloat f
  | VFloat64 f => writeDouble f
  | VString s => writeString s
  | VBinary s => WriteBinary s
  | VMapAnyAny m => writeMapAnyAny Marshal m
  | VMapStringAny m => writeMapStringAny Marshal m
  | VMapSymbolAny m => writeMapSymbolAny Marshal m
  | VTime t => writeTimestamp t
  | VArrayInt8 a => arrayInt8_Marshal a
  | VArrayUint16 a => arrayUint16_Marshal a
  | VArrayInt16 a => arrayInt16_Marshal a
  | VArrayUint32 a => arrayUint32_Marshal a
  | VArrayInt32 a => arrayInt32_Marshal a
  | VArrayUint64 a => arrayUint64_Marshal a
  | VArrayInt64 a => arrayInt64_Marshal a
  | VArrayFloat a => arrayFloat_Marshal a
  | VArrayDouble a => arrayDouble_Marshal a
  | VArrayBool a => arrayBool_Marshal a
  | VArrayString a => arrayString_Marshal a
  | VArraySymbol a => arraySymbol_Marshal a
  | VArrayBinary a => arrayBinary_Marshal a
  | VArrayTimestamp a => arrayTimestamp_Marshal a
  | VArrayUUID a => arrayUUID_Marshal a
  | VList l => list_Marshal Marshal l
  (* the marshaler interface *)
  | VSymbol s => Symbol_Marshal s
  | VUUID u => UUID_Marshal u
  | VArrayUByte a => ArrayUByte_Marshal a
  | VAnnotations m => writeAnnotations Marshal m
  | VDescribed d x => DescribedType_Marshal_ Marshal d x
  | VLifetimePolicy p => LifetimePolicy_Marshal p
  | VError e => Error_Marshal_ Marshal e
  | VDeliveryState s => DeliveryState_Marshal_ Marshal s
  | VUnsupported => errorf "marshal not implemented for %T" []
  end.

Definition Error_Marshal : Error -> M Buffer unit := Error_Marshal_ Marshal.
Definition DeliveryState_Marshal : DeliveryState -> M Buffer unit := DeliveryState_Marshal_ Marshal.
Definition DescribedType_Marshal (t : DescribedType) : M Buffer unit :=
  DescribedType_Marshal_ Marshal (Descriptor t) (DValue t).

(** ** Marshal methods of the named types *)

Definition Durability_Marshal (d : Z) : M Buffer unit := Marshal (VUint32 d).
Definition ExpiryPolicy_Marshal (e : bytes) : M Buffer unit := Symbol_Marshal e.
Definition SenderSettleMode_Marshal (m : Z) : M Buffer unit := Marshal (VUint8 m).
Definition ReceiverSettleMode_Marshal (m : Z) : M Buffer unit := Marshal (VUint8 m).
Definition Role_Marshal (rl : bool) : M Buffer unit := Marshal (VBool rl).
Definition SASLCode_Marshal (s : Z) : M Buffer unit := Marshal (VUint8 s).
Definition ErrCond_Marshal (ec : bytes) : M Buffer unit := Symbol_Marshal ec.
Definition MultiSymbol_Marshal (ms : list bytes) : M Buffer unit := Marshal (VArraySymbol ms).

(** Durations are nanoseconds; the division truncates toward zero and the
    conversion to uint32 wraps. *)
Definition Milliseconds_Marshal (m : Z) : M Buffer unit :=
  writeUint32 (u32 (Z.quot m 1000000)).

(** Unsettled: [map[string]DeliveryState], nil states encoded as null. *)
Definition Unsettled_Marshal (u : list (bytes * option DeliveryState)) : M Buffer unit :=
  writeMap (zlen u * 2)
    (writeEntries writeString
       (fun s => match s with
                 | Some s => DeliveryState_Marshal s
                 | None => AppendByte TypeCodeNull
                 end) u).

(** Filter: [map[Symbol]*DescribedType]; a nil pointer is dereferenced. *)
Definition Filter_Marshal (f : list (bytes * option DescribedType)) : M Buffer unit :=
  writeMap (zlen f * 2)
    (writeEntries Symbol_Marshal
       (fun t => match t with
                 | Some t => DescribedType_Marshal t
                 | None => panics NilDereference
                 end) f).

End Encode.
