(* ===== verification/Decode.v ===== *)
(** * Decode: the AMQP decoder (internal/encoding/decode.go and the Unmarshal
    methods of internal/encoding/types.go)

    A reader [func(r *buffer.Buffer) (A, error)] is an [M Buffer A].  Decoding
    is recursive through [ReadAny] (lists, maps, described types and
    composites hold arbitrary values): the routines that need it take it as a
    section variable, and the knot is tied at the end by [ReadAny fuel], one
    unit of fuel per level of nesting.  [CodecSafety] proves that the number of
    unread bytes plus one is always enough fuel. *)

From S2P Require Import Prelude Buffer Types.
Import Buffer.

Module Decode.

(** [buf[k]] of a slice whose length has been checked. *)
Definition nthb (buf : bytes) (k : nat) : Z := default 0 (buf !! k).

Definition readType : M Buffer Z := ReadByte.
Definition peekType : M Buffer Z := PeekByte.

(** [r.Next(n)] followed by [if !ok { return errors.New(msg) }]. *)
Definition NextOr (n : Z) (e : error) : M Buffer bytes :=
  x ← Next n;
  match x with
  | (buf, true) => mret buf
  | (_, false) => fail e
  end.

Definition invalidLength : error := Errorf "invalid length" [].

Definition tryReadNull : M Buffer bool := fun r =>
  match Bytes r with
  | Ok (c :: _) => if c =? TypeCodeNull then (Skip 1 ≫= fun _ => mret true) r else (Ok false, r)
  | Ok [] => (Ok false, r)
  | _ => (Panic IndexOutOfRange, r)
  end.

(** ** Headers *)

(** The two-byte and eight-byte size/count headers shared by lists, arrays and
    maps: [length] is what was unread when the type byte had been consumed. *)
Definition readHeader8 (length : Z) : M Buffer Z :=
  buf ← NextOr 2 invalidLength;
  if nthb buf 0 >? length - 1 then fail invalidLength else mret (nthb buf 1).

Definition readHeader32 (length : Z) (e : error) : M Buffer Z :=
  buf ← NextOr 8 invalidLength;
  if Uint32 (take 4 buf) >? length - 4 then fail e else mret (Uint32 (drop 4 buf)).

Definition readListHeader : M Buffer Z :=
  type_ ← readType;
  listLength ← getLen;
  if type_ =? TypeCodeList0 then mret 0
  else if type_ =? TypeCodeList8 then readHeader8 listLength
  else if type_ =? TypeCodeList32 then readHeader32 listLength invalidLength
  else errorf "type code %#02x is not a recognized list type" [type_].

Definition readArrayHeader : M Buffer Z :=
  type_ ← readType;
  arrayLength ← getLen;
  if type_ =? TypeCodeArray8 then readHeader8 arrayLength
  else if type_ =? TypeCodeArray32 then
    readHeader32 arrayLength (Errorf "invalid length for type %02x" [type_])
  else errorf "type code %#02x is not a recognized array type" [type_].

Definition readMapHeader : M Buffer Z :=
  type_ ← readType;
  length ← getLen;
  count ←
    (if type_ =? TypeCodeMap8 then readHeader8 length
     else if type_ =? TypeCodeMap32 then readHeader32 length invalidLength
     else errorf "invalid map type %#02x" [type_]);
  n ← getLen;
  if count >? n then fail invalidLength else mret count.

(** ** Scalars *)

Definition readSbyte : M Buffer Z :=
  type_ ← readType;
  if negb (type_ =? TypeCodeByte) then errorf "invalid type for int8 %02x" [type_]
  else
    n ← ReadByte;
    mret (i8 n).

Definition ReadUbyte : M Buffer Z :=
  type_ ← readType;
  if negb (type_ =? TypeCodeUbyte) then errorf "invalid type for ubyte %02x" [type_]
  else ReadByte.

Definition readShort : M Buffer Z :=
  type_ ← readType;
  if negb (type_ =? TypeCodeShort) then errorf "invalid type for short %02x" [type_]
  else
    n ← ReadUint16;
    mret (i16 n).

Definition readUshort : M Buffer Z :=
  type_ ← readType;
  if negb (type_ =? TypeCodeUshort) then errorf "invalid type for ushort %02x" [type_]
  else ReadUint16.

Definition readLong : M Buffer Z :=
  type_ ← readType;
  if type_ =? TypeCodeSmalllong then
    n ← ReadByte;
    mret (i8 n)
  else if type_ =? TypeCodeLong then
    n ← ReadUint64;
    mret (i64 n)
  else errorf "invalid type for uint32 %02x" [type_].

Definition readInt32 : M Buffer Z :=
  type_ ← readType;
  if type_ =? TypeCodeSmallint then
    n ← ReadByte;
    mret (i8 n)
  else if type_ =? TypeCodeInt then
    n ← ReadUint32;
    mret (i32 n)
  else errorf "invalid type for int32 %02x" [type_].

Definition readUint32 : M Buffer Z :=
  type_ ← readType;
  if type_ =? TypeCodeUint0 then mret 0
  else if type_ =? TypeCodeSmallUint then ReadByte
  else if type_ =? TypeCodeUint then ReadUint32
  else errorf "invalid type for uint32 %02x" [type_].

Definition readUlong : M Buffer Z :=
  type_ ← readType;
  if type_ =? TypeCodeUlong0 then mret 0
  else if type_ =? TypeCodeSmallUlong then ReadByte
  else if type_ =? TypeCodeUlong then ReadUint64
  else errorf "invalid type for uint32 %02x" [type_].

Definition readFloat : M Buffer Z :=
  type_ ← readType;
  if negb (type_ =? TypeCodeFloat) then errorf "invalid type for float32 %02x" [type_]
  else ReadUint32.

Definition readDouble : M Buffer Z :=
  type_ ← readType;
  if negb (type_ =? TypeCodeDouble) then errorf "invalid type for float64 %02x" [type_]
  else ReadUint64.

Definition readBool : M Buffer bool :=
  type_ ← readType;
  if type_ =? TypeCodeBool then
    c ← ReadByte;
    mret (negb (c =? 0))
  else if type_ =? TypeCodeBoolTrue then mret true
  else if type_ =? TypeCodeBoolFalse then mret false
  else errorf "type code %#02x is not a recognized bool type" [type_].

Definition readUint : M Buffer Z :=
  type_ ← readType;
  if (type_ =? TypeCodeUint0) || (type_ =? TypeCodeUlong0) then mret 0
  else if (type_ =? TypeCodeUbyte) || (type_ =? TypeCodeSmallUint) || (type_ =? TypeCodeSmallUlong)
  then ReadByte
  else if type_ =? TypeCodeUshort then ReadUint16
  else if type_ =? TypeCodeUint then ReadUint32
  else if type_ =? TypeCodeUlong then ReadUint64
  else errorf "type code %#02x is not a recognized number type" [type_].

(** [readInt]: any integer encoding, converted to Go's 64-bit [int]. *)
Definition readInt : M Buffer Z :=
  type_ ← peekType;
  if type_ =? TypeCodeUbyte then ReadUbyte
  else if type_ =? TypeCodeUshort then readUshort
  else if (type_ =? TypeCodeUint0) || (type_ =? TypeCodeSmallUint) || (type_ =? TypeCodeUint)
  then readUint32
  else if (type_ =? TypeCodeUlong0) || (type_ =? TypeCodeSmallUlong) || (type_ =? TypeCodeUlong)
  then
    n ← readUlong;
    mret (i64 n)
  else if type_ =? TypeCodeByte then readSbyte
  else if type_ =? TypeCodeShort then readShort
  else if (type_ =? TypeCodeSmallint) || (type_ =? TypeCodeInt) then readInt32
  else if (type_ =? TypeCodeSmalllong) || (type_ =? TypeCodeLong) then readLong
  else errorf "type code %#02x is not a recognized number type" [type_].

Definition readTimestamp : M Buffer time :=
  type_ ← readType;
  if negb (type_ =? TypeCodeTimestamp) then errorf "invalid type for timestamp %02x" [type_]
  else
    n ← ReadUint64;
    mret (ms_time (i64 n)).

Definition readUUID : M Buffer bytes :=
  type_ ← readType;
  if negb (type_ =? TypeCodeUUID) then errorf "type code %#00x is not a UUID" [type_]
  else NextOr 16 invalidLength.

(** ** Strings and binary *)

Definition ReadString : M Buffer bytes :=
  type_ ← readType;
  length ←
    (if (type_ =? TypeCodeStr8) || (type_ =? TypeCodeSym8) then ReadByte
     else if (type_ =? TypeCodeStr32) || (type_ =? TypeCodeSym32) then
       buf ← NextOr 4 (Errorf "invalid length for type %#02x" [type_]);
       mret (Uint32 buf)
     else errorf "type code %#02x is not a recognized string type" [type_]);
  NextOr length invalidLength.

Definition readBinary : M Buffer bytes :=
  type_ ← readType;
  length ←
    (if type_ =? TypeCodeVbin8 then ReadByte
     else if type_ =? TypeCodeVbin32 then
       buf ← NextOr 4 (Errorf "invalid length for type %#02x" [type_]);
       mret (Uint32 buf)
     else errorf "type code %#02x is not a recognized binary type" [type_]);
  if length =? 0 then mret [] else NextOr length invalidLength.

(** PeekMessageType: the composite code (truncated to a byte) and the length of
    its encoding. *)
Definition PeekMessageType (buf : bytes) : res (Z * Z) :=
  if zlen buf <? 3 then Err (Errorf "invalid message" [])
  else if negb (nthb buf 0 =? 0) then Err (Errorf "invalid composite header %02x" [nthb buf 0])
  else
    let t := nthb buf 1 in
    if t =? TypeCodeUlong0 then Ok (0, 2)
    else if t =? TypeCodeSmallUlong then
      if zlen (drop 2 buf) =? 0 then Err (Errorf "invalid ulong" [])
      else Ok (nthb buf 2, 3)
    else if negb (t =? TypeCodeUlong) then Err (Errorf "invalid type for uint32 %02x" [t])
    else if zlen (drop 2 buf) <? 8 then Err (Errorf "invalid ulong" [])
    else Ok (u8 (Uint64 (slice buf 2 10)), 10).

(** ** Arrays *)

(** The element loop of the fixed-size arrays: element [k] is decoded from the
    bytes that start at [k*sz]. *)
Fixpoint decodeElements {A} (n sz : nat) (dec : bytes -> A) (buf : bytes) : list A :=
  match n with
  | O => []
  | S n' => dec buf :: decodeElements n' sz dec (drop sz buf)
  end.

(** Header, element type check, then [length*typeSize] bytes of elements. *)
Definition readFixedArray {A} (type_ : Z) (typeSize : nat) (msg : String.string)
  (dec : bytes -> A) : M Buffer (list A) :=
  length ← readArrayHeader;
  t ← readType;
  if negb (t =? type_) then errorf msg [t]
  else
    buf ← NextOr (length * Z.of_nat typeSize) (Errorf "invalid length %d" [length]);
    mret (decodeElements (Z.to_nat length) typeSize dec buf).

Definition ArrayUByte_Unmarshal : M Buffer bytes :=
  length ← readArrayHeader;
  type_ ← readType;
  if negb (type_ =? TypeCodeUbyte) then errorf "invalid type for []uint16 %02x" [type_]
  else NextOr length (Errorf "invalid length %d" [length]).

Definition arrayInt8_Unmarshal : M Buffer (list Z) :=
  length ← readArrayHeader;
  type_ ← readType;
  if negb (type_ =? TypeCodeByte) then errorf "invalid type for []uint16 %02x" [type_]
  else
    buf ← NextOr length (Errorf "invalid length %d" [length]);
    mret (map i8 buf).

Definition arrayUint16_Unmarshal : M Buffer (list Z) :=
  readFixedArray TypeCodeUshort 2 "invalid type for []uint16 %02x" Uint16.

Definition arrayInt16_Unmarshal : M Buffer (list Z) :=
  readFixedArray TypeCodeShort 2 "invalid type for []uint16 %02x" (fun buf => i16 (Uint16 buf)).

Definition arrayUint32_Unmarshal : M Buffer (list Z) :=
  length ← readArrayHeader;
  type_ ← readType;
  if type_ =? TypeCodeUint0 then mret (replicate (Z.to_nat length) 0)
  else if type_ =? TypeCodeSmallUint then NextOr length invalidLength
  else if type_ =? TypeCodeUint then
    buf ← NextOr (length * 4) (Errorf "invalid length %d" [length]);
    mret (decodeElements (Z.to_nat length) 4 Uint32 buf)
  else errorf "invalid type for []uint32 %02x" [type_].

Definition arrayInt32_Unmarshal : M Buffer (list Z) :=
  length ← readArrayHeader;
  type_ ← readType;
  if type_ =? TypeCodeSmallint then
    buf ← NextOr length invalidLength;
    mret (map i8 buf)
  else if type_ =? TypeCodeInt then
    buf ← NextOr (length * 4) (Errorf "invalid length %d" [length]);
    mret (decodeElements (Z.to_nat length) 4 (fun buf => i32 (Uint32 buf)) buf)
  else errorf "invalid type for []int32 %02x" [type_].

Definition arrayUint64_Unmarshal : M Buffer (list Z) :=
  length ← readArrayHeader;
  type_ ← readType;
  if type_ =? TypeCodeUlong0 then mret (replicate (Z.to_nat length) 0)
  else if type_ =? TypeCodeSmallUlong then NextOr length invalidLength
  else if type_ =? TypeCodeUlong then
    buf ← NextOr (length * 8) invalidLength;
    mret (decodeElements (Z.to_nat length) 8 Uint64 buf)
  else errorf "invalid type for []uint64 %02x" [type_].

Definition arrayInt64_Unmarshal : M Buffer (list Z) :=
  length ← readArrayHeader;
  type_ ← readType;
  if type_ =? TypeCodeSmalllong then
    buf ← NextOr length invalidLength;
    mret (map i8 buf)
  else if type_ =? TypeCodeLong then
    buf ← NextOr (length * 8) invalidLength;
    mret (decodeElements (Z.to_nat length) 8 (fun buf => i64 (Uint64 buf)) buf)
  else errorf "invalid type for []uint64 %02x" [type_].

Definition arrayFloat_Unmarshal : M Buffer (list Z) :=
  readFixedArray TypeCodeFloat 4 "invalid type for []float32 %02x" Uint32.

Definition arrayDouble_Unmarshal : M Buffer (list Z) :=
  readFixedArray TypeCodeDouble 8 "invalid type for []float64 %02x" Uint64.

Definition arrayBool_Unmarshal : M Buffer (list bool) :=
  length ← readArrayHeader;
  type_ ← readType;
  if type_ =? TypeCodeBool then
    buf ← NextOr length invalidLength;
    mret (map (fun c => negb (c =? 0)) buf)
  else if type_ =? TypeCodeBoolTrue then mret (replicate (Z.to_nat length) true)
  else if type_ =? TypeCodeBoolFalse then mret (replicate (Z.to_nat length) false)
  else errorf "invalid type for []bool %02x" [type_].

Fixpoint readN {A} (n : nat) (d : M Buffer A) : M Buffer (list A) :=
  match n with
  | O => mret []
  | S n' =>
      x ← d;
      l ← readN n' d;
      mret (x :: l)
  end.

(** One element of a variable-size array, with a one-byte or four-byte size. *)
Definition readElement8 (e : error) : M Buffer bytes :=
  size ← ReadByte;
  NextOr size e.
Definition readElement32 : M Buffer bytes :=
  buf ← NextOr 4 invalidLength;
  NextOr (Uint32 buf) invalidLength.

Definition readVariableArray (code8 code32 : Z) (msg : String.string) (err8 : Z -> error)
  : M Buffer (list bytes) :=
  length ← readArrayHeader;
  n ← getLen;
  if length * 2 >? n then errorf "invalid length %d" [length]
  else
    type_ ← readType;
    if type_ =? code8 then readN (Z.to_nat length) (readElement8 (err8 length))
    else if type_ =? code32 then readN (Z.to_nat length) readElement32
    else errorf msg [type_].

Definition arrayString_Unmarshal : M Buffer (list bytes) :=
  readVariableArray TypeCodeStr8 TypeCodeStr32 "invalid type for []string %02x"
    (fun _ => invalidLength).

Definition arraySymbol_Unmarshal : M Buffer (list bytes) :=
  readVariableArray TypeCodeSym8 TypeCodeSym32 "invalid type for []Symbol %02x"
    (fun _ => invalidLength).

Definition arrayBinary_Unmarshal : M Buffer (list bytes) :=
  readVariableArray TypeCodeVbin8 TypeCodeVbin32 "invalid type for [][]byte %02x"
    (fun length => Errorf "invalid length %d" [length]).

Definition arrayTimestamp_Unmarshal : M Buffer (list time) :=
  readFixedArray TypeCodeTimestamp 8 "invalid type for []time.Time %02x"
    (fun buf => ms_time (i64 (Uint64 buf))).

Definition arrayUUID_Unmarshal : M Buffer (list bytes) :=
  readFixedArray TypeCodeUUID 16 "invalid type for []UUID %#02x" (take 16).

(** ** Unmarshal

    The destination of [Unmarshal(r, i)] decides how to decode; [dest A] lists
    the destinations of the type switch whose decoding does not depend on
    [ReadAny].  [DUnmarshaler u] is a destination decoded by its own code: a
    type with an Unmarshal method, or the [*any], [*[]any], map and
    [*DeliveryState] cases.  [DPtr d] is a [**T] destination: a new [T] is
    allocated and decoded into. *)

Inductive dest : Type -> Type :=
| DInt : dest Z
| DInt8 : dest Z
| DInt16 : dest Z
| DInt32 : dest Z
| DInt64 : dest Z
| DUint64 : dest Z
| DUint32 : dest Z
| DUint16 : dest Z
| DUint8 : dest Z
| DFloat32 : dest Z
| DFloat64 : dest Z
| DString : dest bytes
| DSymbol : dest bytes
| DBinary : dest bytes
| DBool : dest bool
| DTime : dest time
| DArrayInt8 : dest (list Z)
| DArrayUint16 : dest (list Z)
| DArrayInt16 : dest (list Z)
| DArrayUint32 : dest (list Z)
| DArrayInt32 : dest (list Z)
| DArrayUint64 : dest (list Z)
| DArrayInt64 : dest (list Z)
| DArrayFloat : dest (list Z)
| DArrayDouble : dest (list Z)
| DArrayBool : dest (list bool)
| DArrayString : dest (list bytes)
| DArraySymbol : dest (list bytes)
| DArrayBinary : dest (list bytes)
| DArrayTimestamp : dest (list time)
| DArrayUUID : dest (list bytes)
| DUnmarshaler {A} (u : M Buffer A) : dest A
| DPtr {A} (d : dest A) : dest A.

(** encoding.Unmarshal.  [None]: the input was null and the destination is
    left as it was. *)
Fixpoint Unmarshal {A} (t : dest A) : M Buffer (option A) :=
  isNull ← tryReadNull;
  if (isNull : bool) then mret None
  else
    match t in dest A return M Buffer (option A) with
    | DInt => Some <$> readInt
    | DInt8 => Some <$> readSbyte
    | DInt16 => Some <$> readShort
    | DInt32 => Some <$> readInt32
    | DInt64 => Some <$> readLong
    | DUint64 => Some <$> readUlong
    | DUint32 => Some <$> readUint32
    | DUint16 => Some <$> readUshort
    | DUint8 => Some <$> ReadUbyte
    | DFloat32 => Some <$> readFloat
    | DFloat64 => Some <$> readDouble
    | DString => Some <$> ReadString
    | DSymbol => Some <$> ReadString
    | DBinary => Some <$> readBinary
    | DBool => Some <$> readBool
    | DTime => Some <$> readTimestamp
    | DArrayInt8 => Some <$> arrayInt8_Unmarshal
    | DArrayUint16 => Some <$> arrayUint16_Unmarshal
    | DArrayInt16 => Some <$> arrayInt16_Unmarshal
    | DArrayUint32 => Some <$> arrayUint32_Unmarshal
    | DArrayInt32 => Some <$> arrayInt32_Unmarshal
    | DArrayUint64 => Some <$> arrayUint64_Unmarshal
    | DArrayInt64 => Some <$> arrayInt64_Unmarshal
    | DArrayFloat => Some <$> arrayFloat_Unmarshal
    | DArrayDouble => Some <$> arrayDouble_Unmarshal
    | DArrayBool => Some <$> arrayBool_Unmarshal
    | DArrayString => Some <$> arrayString_Unmarshal
    | DArraySymbol => Some <$> arraySymbol_Unmarshal
    | DArrayBinary => Some <$> arrayBinary_Unmarshal
    | DArrayTimestamp => Some <$> arrayTimestamp_Unmarshal
    | DArrayUUID => Some <$> arrayUUID_Unmarshal
    | DUnmarshaler u => Some <$> u
    | DPtr d => Unmarshal d
    end.

(** ** Composites *)

(** encoding.UnmarshalField for a struct of type [S]: where the field is
    decoded, how it is stored, and the optional null handler. *)
Record UnmarshalField (S : Type) := uf_ {
  uf_type : Type;
  Field : dest uf_type;
  uf_set : uf_type -> S -> S;
  HandleNull : option (S -> res S)
}.
Arguments uf_ {S} uf_type Field uf_set HandleNull.
Arguments uf_type {S}.
Arguments Field {S}.
Arguments uf_set {S}.
Arguments HandleNull {S}.

(** A field without a null handler, one that must be present, one with a default. *)
Definition uf {S A} (d : dest A) (set : A -> S -> S) : UnmarshalField S := uf_ A d set None.
Definition uf_required {S A} (d : dest A) (set : A -> S -> S) (msg : String.string)
  : UnmarshalField S := uf_ A d set (Some (fun _ => Err (Errorf msg []))).
Definition uf_default {S A} (d : dest A) (set : A -> S -> S) (v : A) : UnmarshalField S :=
  uf_ A d set (Some (fun s => Ok (set v s))).

Definition runHandleNull {S} (f : UnmarshalField S) (s : S) : M Buffer S :=
  match HandleNull f with
  | None => mret s
  | Some h => lift (h s)
  end.

(** The loop over [fields[:numFields]]. *)
Fixpoint unmarshalFields {S} (idx : Z) (fields : list (UnmarshalField S)) (s : S) : M Buffer S :=
  match fields with
  | [] => mret s
  | f :: fs =>
      isNull ← tryReadNull;
      if (isNull : bool) then
        s' ← runHandleNull f s;
        unmarshalFields (idx + 1) fs s'
      else fun r =>
        match Unmarshal (Field f) r with
        | (Ok (Some v), r') => unmarshalFields (idx + 1) fs (uf_set f v s) r'
        | (Ok None, r') => unmarshalFields (idx + 1) fs s r'
        | (Err e, r') => (Err (Wrapf "unmarshaling field %d: %v" [idx] e), r')
        | (Panic p, r') => (Panic p, r')
        | (OutOfFuel, r') => (OutOfFuel, r')
        end
  end.

(** The loop over [fields[numFields:]]. *)
Fixpoint handleNulls {S} (fields : list (UnmarshalField S)) (s : S) : M Buffer S :=
  match fields with
  | [] => mret s
  | f :: fs =>
      s' ← runHandleNull f s;
      handleNulls fs s'
  end.

Definition readCompositeHeader : M Buffer (Z * Z) :=
  type_ ← readType;
  if negb (type_ =? 0) then errorf "invalid composite header %#02x" [type_]
  else
    v ← readUlong;
    fields ← readListHeader;
    mret (u8 v, fields).

Definition UnmarshalComposite {S} (type_ : Z) (fields : list (UnmarshalField S)) (s : S)
  : M Buffer S :=
  h ← readCompositeHeader;
  let '(cType, numFields) := h in
  if negb (cType =? type_) then errorf "invalid header %#0x for %#0x" [cType; type_]
  else if numFields >? zlen fields then errorf "invalid field count %d for %#0x" [numFields; type_]
  else
    let n := Z.to_nat numFields in
    s' ← unmarshalFields 0 (take n fields) s;
    handleNulls (drop n fields) s'.

(** What a composite that cannot be decoded leaves in the struct: the fields
    before the one that failed are stored. *)
Fixpoint unmarshalFields_left {S} (fields : list (UnmarshalField S)) (s : S) (r : Buffer) : S :=
  match fields with
  | [] => s
  | f :: fs =>
      match tryReadNull r with
      | (Ok true, r) =>
          match runHandleNull f s r with
          | (Ok s', r) => unmarshalFields_left fs s' r
          | _ => s
          end
      | (Ok false, r) =>
          match Unmarshal (Field f) r with
          | (Ok (Some v), r) => unmarshalFields_left fs (uf_set f v s) r
          | (Ok None, r) => unmarshalFields_left fs s r
          | _ => s
          end
      | _ => s
      end
  end.
Definition UnmarshalComposite_left {S} (type_ : Z) (fields : list (UnmarshalField S)) (s : S) (r : Buffer) : S :=
  match readCompositeHeader r with
  | (Ok (cType, numFields), r) =>
      if negb (cType =? type_) || (numFields >? zlen fields) then s
      else unmarshalFields_left (take (Z.to_nat numFields) fields) s r
  | _ => s
  end.

Definition LifetimePolicy_Unmarshal : M Buffer Z :=
  h ← readCompositeHeader;
  let '(typ, fields) := h in
  if negb (fields =? 0) then errorf "invalid size %d for lifetime-policy" [fields]
  else mret typ.

(** ** Unmarshal methods of the named types *)

Definition optional {A} (dflt : A) (d : M Buffer (option A)) : M Buffer A :=
  x ← d;
  mret (default dflt x).

Definition Durability_Unmarshal : M Buffer Z := optional 0 (Unmarshal DUint32).
Definition ExpiryPolicy_Unmarshal : M Buffer bytes :=
  e ← optional [] (Unmarshal DSymbol);
  _ ← lift (ValidateExpiryPolicy e);
  mret e.
Definition SenderSettleMode_Unmarshal : M Buffer Z := ReadUbyte.
Definition ReceiverSettleMode_Unmarshal : M Buffer Z := ReadUbyte.
Definition Role_Unmarshal : M Buffer bool := readBool.
Definition SASLCode_Unmarshal : M Buffer Z := ReadUbyte.
Definition ErrCond_Unmarshal : M Buffer bytes := ReadString.
Definition UUID_Unmarshal : M Buffer bytes := readUUID.
Definition Milliseconds_Unmarshal : M Buffer Z :=
  n ← readUint;
  mret (i64 (i64 n * 1000000)).

Definition MultiSymbol_Unmarshal : M Buffer (list bytes) :=
  type_ ← peekType;
  if (type_ =? TypeCodeSym8) || (type_ =? TypeCodeSym32) then
    s ← ReadString;
    mret [s]
  else optional [] (Unmarshal DArraySymbol).

(** ** Map loops *)

(** [for i := uint32(0); i < count; i += 2]: the index wraps, the fuel is the
    number of unread bytes plus one (every iteration reads at least one). *)
Fixpoint mapLoop {S} (fuel : nat) (body : S -> M Buffer S) (i count : Z) (m : S) : M Buffer S :=
  if i <? count then
    match fuel with
    | O => lift OutOfFuel
    | Datatypes.S fuel' =>
        m' ← body m;
        mapLoop fuel' body (u32 (i + 2)) count m'
    end
  else mret m.

Definition readMap {S} (body : S -> M Buffer S) (empty : S) : M Buffer S :=
  count ← readMapHeader;
  n ← getLen;
  mapLoop (Datatypes.S (Z.to_nat n)) body 0 count empty.

(** ** Values that contain values *)

Section Any.
Context (ReadAny : M Buffer value).

(** mapAnyAny.Unmarshal: slice and map keys are refused, storing under any
    other unhashable key panics. *)
Definition mapAnyAny_Unmarshal : M Buffer (list (value * value)) :=
  readMap (fun m =>
    key ← ReadAny;
    val ← ReadAny;
    if slice_or_map key then errorf "invalid map key" []
    else if negb (hashable key) then panics UnhashableKey
    else mret (assoc_set key_eqb m key val)) [].

(** Annotations.Unmarshal: no check of the keys. *)
Definition Annotations_Unmarshal : M Buffer (list (value * value)) :=
  readMap (fun m =>
    key ← ReadAny;
    val ← ReadAny;
    if negb (hashable key) then panics UnhashableKey
    else mret (assoc_set key_eqb m key val)) [].

(** mapStringAny.Unmarshal; mapSymbolAny.Unmarshal reads the same way. *)
Definition mapStringAny_Unmarshal : M Buffer (list (bytes * value)) :=
  readMap (fun m =>
    key ← ReadString;
    val ← ReadAny;
    mret (assoc_set bytes_eqb m key val)) [].

Definition mapSymbolAny_Unmarshal : M Buffer (list (bytes * value)) :=
  readMap (fun m =>
    key ← ReadString;
    val ← ReadAny;
    mret (assoc_set bytes_eqb m key val)) [].

(** list.Unmarshal *)
Definition list_Unmarshal : M Buffer (list value) :=
  length ← readListHeader;
  n ← getLen;
  if length >? n then errorf "invalid length %d" [length]
  else readN (Z.to_nat length) ReadAny.

(** Error.Unmarshal, into a zero Error. *)
Definition emptyError : Error := mkError [] [] [].
Definition set_Condition (c : bytes) (e : Error) : Error := mkError c (Description e) (Info e).
Definition set_Description (d : bytes) (e : Error) : Error := mkError (Condition e) d (Info e).
Definition set_Info (i : list (bytes * value)) (e : Error) : Error :=
  mkError (Condition e) (Description e) i.

Definition Error_Unmarshal_ : M Buffer Error :=
  UnmarshalComposite TypeCodeError
    [uf_required (DUnmarshaler ErrCond_Unmarshal) set_Condition "Error.Condition is required";
     uf DString set_Description;
     uf (DUnmarshaler mapStringAny_Unmarshal) set_Info] emptyError.

(** The Unmarshal methods of the delivery states, into zero structs. *)
Definition StateReceived_Unmarshal : M Buffer DeliveryState :=
  s ← UnmarshalComposite TypeCodeStateReceived
    [uf_required DUint32 (fun n (s : Z * Z) => (n, s.2)) "StateReceiver.SectionNumber is required";
     uf_required DUint64 (fun n (s : Z * Z) => (s.1, n)) "StateReceiver.SectionOffset is required"]
    (0, 0);
  mret (StateReceived s.1 s.2).

Definition StateAccepted_Unmarshal : M Buffer DeliveryState :=
  UnmarshalComposite TypeCodeStateAccepted [] StateAccepted.

Definition StateRejected_Unmarshal : M Buffer DeliveryState :=
  e ← UnmarshalComposite TypeCodeStateRejected
    [uf (DPtr (DUnmarshaler Error_Unmarshal_)) (fun e (_ : option Error) => Some e)] None;
  mret (StateRejected e).

Definition StateReleased_Unmarshal : M Buffer DeliveryState :=
  UnmarshalComposite TypeCodeStateReleased [] StateReleased.

Definition StateModified_Unmarshal : M Buffer DeliveryState :=
  s ← UnmarshalComposite TypeCodeStateModified
    [uf DBool (fun v (s : bool * bool * option (list (value * value))) => (v, s.1.2, s.2));
     uf DBool (fun v (s : bool * bool * option (list (value * value))) => (s.1.1, v, s.2));
     uf (DUnmarshaler Annotations_Unmarshal) (fun m s => (s.1, Some m))] (false, false, None);
  mret (StateModified s.1.1 s.1.2 s.2).

(** The [*DeliveryState] case of Unmarshal: the state's type is peeked, then
    the state is decoded as a composite. *)
Definition DeliveryState_Unmarshal_ : M Buffer DeliveryState :=
  buf ← getBytes;
  p ← lift (PeekMessageType buf);
  let type_ := p.1 in
  let unmarshal d := x ← Unmarshal (DUnmarshaler d); mret (default StateAccepted x) in
  if type_ =? TypeCodeStateAccepted then unmarshal StateAccepted_Unmarshal
  else if type_ =? TypeCodeStateModified then unmarshal StateModified_Unmarshal
  else if type_ =? TypeCodeStateReceived then unmarshal StateReceived_Unmarshal
  else if type_ =? TypeCodeStateRejected then unmarshal StateRejected_Unmarshal
  else if type_ =? TypeCodeStateReleased then unmarshal StateReleased_Unmarshal
  else errorf "unexpected type %d for deliveryState" [type_].

(** DescribedType.Unmarshal *)
Definition DescribedType_Unmarshal_ : M Buffer DescribedType :=
  c ← ReadByte;
  if negb (c =? 0) then errorf "invalid described type header %02x" [c]
  else
    d ← optional VNil (Unmarshal (DUnmarshaler ReadAny));
    v ← optional VNil (Unmarshal (DUnmarshaler ReadAny));
    mret (mkDescribed d v).

Definition is_string_key (v : value) : bool :=
  match v with
  | VString _ | VSymbol _ => true
  | _ => false
  end.
Definition string_key (v : value) : bytes :=
  match v with
  | VString s | VSymbol s => s
  | _ => []
  end.

(** A decoded map all of whose keys are strings becomes a [map[string]any]. *)
Definition readAnyMap : M Buffer value :=
  m ← mapAnyAny_Unmarshal;
  if zlen m =? 0 then mret (VMapAnyAny m)
  else if forallb (fun kv => is_string_key kv.1) m then
    mret (VMapStringAny
            (fold_left (fun mm kv => assoc_set bytes_eqb mm (string_key kv.1) kv.2) m []))
  else mret (VMapAnyAny m).

Definition readAnyList : M Buffer value := VList <$> list_Unmarshal.

(** The element type decides which array is decoded. *)
Definition readAnyArray_switch (c : Z) : M Buffer value :=
  if c =? TypeCodeByte then VArrayInt8 <$> arrayInt8_Unmarshal
  else if c =? TypeCodeUbyte then VArrayUByte <$> ArrayUByte_Unmarshal
  else if c =? TypeCodeUshort then VArrayUint16 <$> arrayUint16_Unmarshal
  else if c =? TypeCodeShort then VArrayInt16 <$> arrayInt16_Unmarshal
  else if (c =? TypeCodeUint0) || (c =? TypeCodeSmallUint) || (c =? TypeCodeUint)
  then VArrayUint32 <$> arrayUint32_Unmarshal
  else if (c =? TypeCodeSmallint) || (c =? TypeCodeInt)
  then VArrayInt32 <$> arrayInt32_Unmarshal
  else if (c =? TypeCodeUlong0) || (c =? TypeCodeSmallUlong) || (c =? TypeCodeUlong)
  then VArrayUint64 <$> arrayUint64_Unmarshal
  else if (c =? TypeCodeSmalllong) || (c =? TypeCodeLong)
  then VArrayInt64 <$> arrayInt64_Unmarshal
  else if c =? TypeCodeFloat then VArrayFloat <$> arrayFloat_Unmarshal
  else if c =? TypeCodeDouble then VArrayDouble <$> arrayDouble_Unmarshal
  else if (c =? TypeCodeBool) || (c =? TypeCodeBoolTrue) || (c =? TypeCodeBoolFalse)
  then VArrayBool <$> arrayBool_Unmarshal
  else if (c =? TypeCodeStr8) || (c =? TypeCodeStr32)
  then VArrayString <$> arrayString_Unmarshal
  else if (c =? TypeCodeSym8) || (c =? TypeCodeSym32)
  then VArraySymbol <$> arraySymbol_Unmarshal
  else if (c =? TypeCodeVbin8) || (c =? TypeCodeVbin32)
  then VArrayBinary <$> arrayBinary_Unmarshal
  else if c =? TypeCodeTimestamp then VArrayTimestamp <$> arrayTimestamp_Unmarshal
  else if c =? TypeCodeUUID then VArrayUUID <$> arrayUUID_Unmarshal
  else errorf "array decoding not implemented for %#02x" [c].

Definition readAnyArray : M Buffer value :=
  buf ← getBytes;
  if zlen buf <? 1 then fail invalidLength
  else
    let arr (typeIdx : nat) : M Buffer value :=
      if zlen buf <? Z.of_nat typeIdx + 1 then fail invalidLength
      else readAnyArray_switch (nthb buf typeIdx) in
    if nthb buf 0 =? TypeCodeArray8 then arr 3%nat
    else if nthb buf 0 =? TypeCodeArray32 then arr 9%nat
    else errorf "invalid array type %02x" [nthb buf 0].

Definition readDescribed : M Buffer value :=
  t ← DescribedType_Unmarshal_;
  mret (VDescribed (Descriptor t) (DValue t)).

(** The codes of composites that [readComposite] does not decode. *)
Definition composite_not_implemented : list Z :=
  [TypeCodeOpen; TypeCodeBegin; TypeCodeAttach; TypeCodeFlow; TypeCodeTransfer;
   TypeCodeDisposition; TypeCodeDetach; TypeCodeEnd; TypeCodeClose; TypeCodeSource;
   TypeCodeTarget; TypeCodeMessageHeader; TypeCodeDeliveryAnnotations;
   TypeCodeMessageAnnotations; TypeCodeMessageProperties; TypeCodeApplicationProperties;
   TypeCodeApplicationData; TypeCodeAMQPSequence; TypeCodeAMQPValue; TypeCodeFooter;
   TypeCodeSASLMechanism; TypeCodeSASLInit; TypeCodeSASLChallenge; TypeCodeSASLResponse;
   TypeCodeSASLOutcome].

(** What a composite with the given code is decoded as. *)
Definition readComposite_switch (compositeType : Z) : M Buffer value :=
  if compositeType >? 255 then readDescribed
  else if compositeType =? TypeCodeError then VError <$> Error_Unmarshal_
  else if (compositeType =? TypeCodeDeleteOnClose)
          || (compositeType =? TypeCodeDeleteOnNoMessages)
          || (compositeType =? TypeCodeDeleteOnNoLinks)
          || (compositeType =? TypeCodeDeleteOnNoLinksOrMessages)
  then VLifetimePolicy <$> LifetimePolicy_Unmarshal
  else if compositeType =? TypeCodeStateAccepted then VDeliveryState <$> StateAccepted_Unmarshal
  else if compositeType =? TypeCodeStateModified then VDeliveryState <$> StateModified_Unmarshal
  else if compositeType =? TypeCodeStateReceived then VDeliveryState <$> StateReceived_Unmarshal
  else if compositeType =? TypeCodeStateRejected then VDeliveryState <$> StateRejected_Unmarshal
  else if compositeType =? TypeCodeStateReleased then VDeliveryState <$> StateReleased_Unmarshal
  else if existsb (Z.eqb compositeType) composite_not_implemented then
    errorf "readComposite unmarshal not implemented for %#02x" [compositeType]
  else readDescribed.

Definition readComposite : M Buffer value :=
  buf ← getBytes;
  if zlen buf <? 2 then errorf "invalid length for composite" []
  else if negb (nthb buf 0 =? 0) then errorf "invalid composite header %#02x" [nthb buf 0]
  else
    compositeType ←
      (if nthb buf 1 =? TypeCodeSmallUlong then
         if zlen buf <? 3 then errorf "invalid length for smallulong" [] else mret (nthb buf 2)
       else if nthb buf 1 =? TypeCodeUlong then
         if zlen buf <? 10 then errorf "invalid length for ulong" []
         else mret (Uint64 (drop 2 buf))
       else mret 0);
    readComposite_switch compositeType.

(** The type switch of ReadAny. *)
Definition ReadAny_switch (type_ : Z) : M Buffer value :=
  if type_ =? 0 then readComposite
  else if (type_ =? TypeCodeBool) || (type_ =? TypeCodeBoolTrue)
          || (type_ =? TypeCodeBoolFalse) then VBool <$> readBool
  else if type_ =? TypeCodeUbyte then VUint8 <$> ReadUbyte
  else if type_ =? TypeCodeUshort then VUint16 <$> readUshort
  else if (type_ =? TypeCodeUint) || (type_ =? TypeCodeSmallUint)
          || (type_ =? TypeCodeUint0) then VUint32 <$> readUint32
  else if (type_ =? TypeCodeUlong) || (type_ =? TypeCodeSmallUlong)
          || (type_ =? TypeCodeUlong0) then VUint64 <$> readUlong
  else if type_ =? TypeCodeByte then VInt8 <$> readSbyte
  else if type_ =? TypeCodeShort then VInt16 <$> readShort
  else if (type_ =? TypeCodeInt) || (type_ =? TypeCodeSmallint)
  then VInt32 <$> readInt32
  else if (type_ =? TypeCodeLong) || (type_ =? TypeCodeSmalllong)
  then VInt64 <$> readLong
  else if type_ =? TypeCodeFloat then VFloat32 <$> readFloat
  else if type_ =? TypeCodeDouble then VFloat64 <$> readDouble
  else if (type_ =? TypeCodeVbin8) || (type_ =? TypeCodeVbin32)
  then VBinary <$> readBinary
  else if (type_ =? TypeCodeStr8) || (type_ =? TypeCodeStr32)
  then VString <$> ReadString
  else if (type_ =? TypeCodeSym8) || (type_ =? TypeCodeSym32)
  then VString <$> ReadString
  else if type_ =? TypeCodeTimestamp then VTime <$> readTimestamp
  else if type_ =? TypeCodeUUID then VUUID <$> readUUID
  else if (type_ =? TypeCodeArray8) || (type_ =? TypeCodeArray32) then readAnyArray
  else if (type_ =? TypeCodeList0) || (type_ =? TypeCodeList8)
          || (type_ =? TypeCodeList32) then readAnyList
  else if (type_ =? TypeCodeMap8) || (type_ =? TypeCodeMap32) then readAnyMap
  else if type_ =? TypeCodeDecimal32 then errorf "decimal32 not implemented" []
  else if type_ =? TypeCodeDecimal64 then errorf "decimal64 not implemented" []
  else if type_ =? TypeCodeDecimal128 then errorf "decimal128 not implemented" []
  else if type_ =? TypeCodeChar then errorf "char not implemented" []
  else errorf "unknown type %#02x" [type_].

(** decode.go ReadAny, over the decoder of the nested values. *)
Definition ReadAny_body : M Buffer value :=
  isNull ← tryReadNull;
  if (isNull : bool) then mret VNil
  else fun r =>
    match peekType r with
    | (Ok type_, _) => ReadAny_switch type_ r
    | (Err _, _) => (Err invalidLength, r)
    | (Panic p, _) => (Panic p, r)
    | (OutOfFuel, _) => (OutOfFuel, r)
    end.
End Any.

(** decode.go ReadAny: one unit of fuel per level of nesting. *)
Fixpoint ReadAnyFuel (fuel : nat) : M Buffer value :=
  match fuel with
  | O => lift OutOfFuel
  | S fuel' => ReadAny_body (ReadAnyFuel fuel')
  end.

(** The decoder as the program runs it: nesting is bounded by the input, so
    the number of unread bytes plus one is enough fuel. *)
Definition ReadAny : M Buffer value := fun r => ReadAnyFuel (S (Z.to_nat (Len r))) r.

Definition Error_Unmarshal : M Buffer Error := Error_Unmarshal_ ReadAny.
Definition DeliveryState_Unmarshal : M Buffer DeliveryState := DeliveryState_Unmarshal_ ReadAny.
Definition DescribedType_Unmarshal : M Buffer DescribedType := DescribedType_Unmarshal_ ReadAny.

(** Unsettled.Unmarshal: a null state is stored as nil. *)
Definition Unsettled_Unmarshal : M Buffer (list (bytes * option DeliveryState)) :=
  readMap (fun m =>
    key ← ReadString;
    val ← Unmarshal (DUnmarshaler DeliveryState_Unmarshal);
    mret (assoc_set bytes_eqb m key val)) [].

(** Filter.Unmarshal: a null value is stored as an empty described type. *)
Definition Filter_Unmarshal : M Buffer (list (bytes * option DescribedType)) :=
  readMap (fun m =>
    key ← ReadString;
    val ← optional (mkDescribed VNil VNil) (Unmarshal (DUnmarshaler DescribedType_Unmarshal));
    mret (assoc_set bytes_eqb m key (Some val))) [].

End Decode.
