(* ===== verification/CodecSafety.v ===== *)
(** * CodecSafety: the decoder is safe on every input

    Whatever bytes a peer sends, every reader of [Decode] stays within the
    data, terminates (the fuel of [ReadAny] and of the map loops is always
    enough) and never panics on an index; the one panic left is the one the Go
    run-time raises for an unhashable map key.  The proofs are compositional:
    one [Safe] lemma per reader, combined by the [safe] tactic. *)

From S2P Require Import Prelude Buffer Types Decode.
Import Buffer Decode.

Module CodecSafety.

Ltac slia := unfold is_byte, is_u in *; cbn beta in *; first [lia | nia].
#[export] Hint Extern 1 (0 <= _) => slia : safe.
Ltac spost := cbn beta; try done; try tauto; try slia; eauto with safe.

Lemma Safe_conseq {A} n min min' (post post' : A -> Prop) d :
  Safe n min post d -> min' <= min -> (forall a, post a -> post' a) -> Safe n min' post' d.
Proof. intros. eapply Safe_weaken; eauto. lia. Qed.

(** One step of the symbolic execution of a reader. *)
Ltac safe_step :=
  first
  [ match goal with |- forall _, Safe _ _ _ _ => intros | |- _ -> Safe _ _ _ _ => intros
      | |- forall _, _ -> Safe _ _ _ _ => intros end
  | apply Safe_fail
  | apply Safe_unhashable
  | apply Safe_ret; [slia | spost]
  | match goal with |- Safe _ _ _ (if _ then _ else _) => apply Safe_if; intros ? end
  | match goal with |- Safe _ _ _ (let '(_, _) := ?p in _) => destruct p end
  | match goal with |- Safe _ _ _ (mbind _ _) =>
      eapply Safe_bind; [solve [eauto with safe] | cbn beta; intros] end
  | match goal with |- Safe _ _ _ (fmap _ _) =>
      eapply Safe_fmap; [solve [eauto with safe] | spost] end
  | match goal with |- Safe _ _ _ (fmap _ _) => eapply Safe_fmap; [|spost] end
  | eapply Safe_conseq; [solve [eauto with safe] | slia | spost] ].
Ltac safe := repeat safe_step.

(** ** Helpers *)

Lemma nthb_byte buf k : bytes_ok buf -> is_byte (nthb buf k).
Proof.
  intros H. unfold nthb. destruct (buf !! k) eqn:E; cbn; [|by unfold is_byte, is_u].
  by eapply Forall_lookup in H.
Qed.

Lemma is_u_weaken w w' z : is_u w z -> 0 <= w <= w' -> is_u w' z.
Proof.
  unfold is_u. intros ? ?. pose proof (Z.pow_le_mono_r 2 w w' ltac:(lia) ltac:(lia)). lia.
Qed.

Lemma byte_nonneg z : is_byte z -> 0 <= z.
Proof. unfold is_byte, is_u. lia. Qed.
Lemma is_u_nonneg w z : is_u w z -> 0 <= z.
Proof. unfold is_u. lia. Qed.

Lemma byte_u32 z : is_byte z -> is_u 32 z.
Proof. intros H. eapply is_u_weaken; [exact H|lia]. Qed.
Lemma byte_u64 z : is_byte z -> is_u 64 z.
Proof. intros H. eapply is_u_weaken; [exact H|lia]. Qed.
#[export] Hint Resolve nthb_byte byte_nonneg is_u_nonneg byte_u32 byte_u64 : safe.

Definition any {A} (_ : A) : Prop := True.
#[export] Hint Unfold any : safe.

Lemma Safe_NextOr m n e :
  0 <= n -> Safe m n (fun buf => bytes_ok buf /\ zlen buf = n) (NextOr n e).
Proof.
  intros Hn. apply Safe_at. intros pre rest Hb. unfold NextOr.
  destruct (decide (zlen rest < n)) as [Hs|Hs].
  - erewrite bind_Ok by by apply Next_short. cbn.
    exists rest, []. by rewrite app_nil_r.
  - destruct (zsplit rest n) as (c & rest' & -> & Hc); [lia|].
    erewrite bind_Ok by by apply Next_at. cbn. apply bytes_ok_app in Hb as [? _].
    exists c, rest'. split_and!; [done..|lia|done|done].
Qed.
#[export] Hint Resolve Safe_NextOr : safe.

Lemma Safe_readType n : Safe n 1 is_byte readType.
Proof. apply Safe_ReadByte. Qed.
Lemma Safe_peekType n : Safe n 0 is_byte peekType.
Proof. apply Safe_PeekByte. Qed.
#[export] Hint Resolve Safe_readType Safe_peekType : safe.

Lemma tryReadNull_at pre rest :
  tryReadNull (at_ pre rest) =
  match rest with
  | c :: rest' => if c =? TypeCodeNull then (Ok true, at_ (pre ++ [c]) rest')
                  else (Ok false, at_ pre rest)
  | [] => (Ok false, at_ pre rest)
  end.
Proof.
  unfold tryReadNull. rewrite Bytes_at. destruct rest as [|c rest]; [done|].
  destruct (c =? TypeCodeNull); [|done].
  erewrite bind_Ok by by apply (Skip_at pre [c]). done.
Qed.

(** [tryReadNull] consumes the null byte when there is one. *)
Lemma Safe_tryReadNull_bind {A} n m (Q : A -> Prop) (f : bool -> M Buffer A) :
  Safe (n - 1) (m - 1) Q (f true) -> Safe n m Q (f false) ->
  Safe n m Q (tryReadNull ≫= f).
Proof.
  intros Ht Hf r Hr Hb Hl. destruct (wf_at r Hr) as (pre & rest & ->).
  unfold mbind, M_bind. rewrite tryReadNull_at.
  destruct rest as [|c rest]; [by apply Hf|].
  destruct (c =? TypeCodeNull); [|by apply Hf].
  assert (at_ (pre ++ [c]) rest = mkBuffer (pre ++ c :: rest) (zlen pre + 1)) as E.
  { unfold at_. rewrite <- app_assoc. f_equal. zlia. }
  specialize (Ht (at_ (pre ++ [c]) rest) (at_wf _ _)).
  assert (b (at_ (pre ++ [c]) rest) = b (at_ pre (c :: rest))) as Eb by by rewrite E.
  rewrite Eb in Ht. rewrite !Len_at in *. specialize (Ht Hb ltac:(zlia)).
  assert (i (at_ (pre ++ [c]) rest) = i (at_ pre (c :: rest)) + 1) as Ei by by rewrite E.
  destruct (f true _) as [x r']. destruct Ht as [(Hw & Hbb & Hi) Ht]. split.
  - split_and!; [done|congruence|lia].
  - destruct x; try done. destruct Ht. split; [lia|done].
Qed.

(** ** Headers and scalars *)

Lemma Safe_readHeader8 n l : Safe n 2 (is_u 32) (readHeader8 l).
Proof. unfold readHeader8. safe. apply byte_u32, nthb_byte. tauto. Qed.

Lemma Safe_readHeader32 n l e : Safe n 8 (is_u 32) (readHeader32 l e).
Proof. unfold readHeader32. safe. apply Uint32_range, bytes_ok_drop. tauto. Qed.
#[export] Hint Resolve Safe_readHeader8 Safe_readHeader32 : safe.

Lemma Safe_readListHeader n : Safe n 1 (is_u 32) readListHeader.
Proof. unfold readListHeader. safe. Qed.
Lemma Safe_readArrayHeader n : Safe n 3 (is_u 32) readArrayHeader.
Proof. unfold readArrayHeader. safe. Qed.
Lemma Safe_readMapHeader n : Safe n 3 (is_u 32) readMapHeader.
Proof.
  unfold readMapHeader. safe.
  eapply (Safe_bind _ 2 _ (is_u 32)); safe.
Qed.
#[export] Hint Resolve Safe_readListHeader Safe_readArrayHeader Safe_readMapHeader : safe.

Lemma i8_range z : is_i 8 (i8 z).
Proof. ilia. Qed.
Lemma i16_range z : is_i 16 (i16 z).
Proof. ilia. Qed.
Lemma i32_range z : is_i 32 (i32 z).
Proof. ilia. Qed.
Lemma i64_range z : is_i 64 (i64 z).
Proof. ilia. Qed.
Lemma i8_i32 z : is_i 32 (i8 z).
Proof. ilia. Qed.
Lemma i8_i64 z : is_i 64 (i8 z).
Proof. ilia. Qed.
#[export] Hint Resolve i8_range i16_range i32_range i64_range i8_i32 i8_i64 : safe.

Lemma Safe_readSbyte n : Safe n 2 (is_i 8) readSbyte.
Proof. unfold readSbyte. safe. Qed.
Lemma Safe_ReadUbyte n : Safe n 2 is_byte ReadUbyte.
Proof. unfold ReadUbyte. safe. Qed.
Lemma Safe_readShort n : Safe n 3 (is_i 16) readShort.
Proof. unfold readShort. safe. Qed.
Lemma Safe_readUshort n : Safe n 3 (is_u 16) readUshort.
Proof. unfold readUshort. safe. Qed.
Lemma Safe_readLong n : Safe n 2 (is_i 64) readLong.
Proof. unfold readLong.  safe. Qed.
Lemma Safe_readInt32 n : Safe n 2 (is_i 32) readInt32.
Proof. unfold readInt32.  safe. Qed.
Lemma Safe_readUint32 n : Safe n 1 (is_u 32) readUint32.
Proof. unfold readUint32.  safe. Qed.
Lemma Safe_readUlong n : Safe n 1 (is_u 64) readUlong.
Proof. unfold readUlong.  safe. Qed.
Lemma Safe_readFloat n : Safe n 5 (is_u 32) readFloat.
Proof. unfold readFloat. safe. Qed.
Lemma Safe_readDouble n : Safe n 9 (is_u 64) readDouble.
Proof. unfold readDouble. safe. Qed.
Lemma Safe_readBool n : Safe n 1 any readBool.
Proof. unfold readBool. safe. Qed.
Lemma Safe_readTimestamp n : Safe n 9 any readTimestamp.
Proof. unfold readTimestamp. safe. Qed.
Lemma Safe_readUUID n : Safe n 17 any readUUID.
Proof. unfold readUUID. safe. Qed.
Lemma Safe_readUint n : Safe n 1 (is_u 64) readUint.
Proof.
  unfold readUint. safe; auto with safe; intros; eapply is_u_weaken; try done; lia.
Qed.
#[export] Hint Resolve Safe_readSbyte Safe_ReadUbyte Safe_readShort Safe_readUshort Safe_readLong
  Safe_readInt32 Safe_readUint32 Safe_readUlong Safe_readFloat Safe_readDouble Safe_readBool
  Safe_readTimestamp Safe_readUUID Safe_readUint : safe.

Lemma Safe_readInt n : Safe n 1 any readInt.
Proof. unfold readInt. safe. Qed.

Lemma Safe_ReadString n : Safe n 2 bytes_ok ReadString.
Proof.
  unfold ReadString. safe. eapply (Safe_bind _ 1 _ (is_u 32)); safe; auto with safe.
  apply Uint32_range. tauto.
Qed.
Lemma Safe_readBinary n : Safe n 2 bytes_ok readBinary.
Proof.
  unfold readBinary. safe. eapply (Safe_bind _ 1 _ (is_u 32)); safe; auto with safe.
  - apply Uint32_range. tauto.
  - by constructor.
Qed.
#[export] Hint Resolve Safe_readInt Safe_ReadString Safe_readBinary : safe.

(** ** Arrays *)

Lemma Safe_readFixedArray {A} n type_ sz msg (dec : bytes -> A) :
  Safe n 4 any (readFixedArray type_ sz msg dec).
Proof. unfold readFixedArray. safe. Qed.

Lemma Safe_readN {A} n m (P : A -> Prop) k (d : M Buffer A) :
  0 <= m -> Safe n m P d -> Safe n 0 (Forall P) (readN k d).
Proof.
  intros Hm H. revert n H. induction k as [|k IH]; intros n H; cbn [readN]; [safe|].
  eapply Safe_bind; [exact H|intros a Ha].
  eapply Safe_conseq with (min := 0) (post := Forall P); [|lia|done].
  assert (Safe (n - m) m P d) as H' by (eapply Safe_weaken; eauto; lia).
  specialize (IH _ H'). eapply Safe_bind; [exact IH|intros l Hl]. safe.
Qed.

Lemma Safe_readElement8 n e : Safe n 1 bytes_ok (readElement8 e).
Proof. unfold readElement8. safe. Qed.
Lemma Safe_readElement32 n : Safe n 4 bytes_ok readElement32.
Proof.
  unfold readElement32. safe. eapply Safe_conseq; [apply Safe_NextOr|..]; try tauto;
    pose proof (Uint32_range a ltac:(tauto)); slia.
Qed.
#[export] Hint Resolve Safe_readElement8 Safe_readElement32 Safe_readFixedArray : safe.

Lemma Safe_readVariableArray n c8 c32 msg e : Safe n 4 any (readVariableArray c8 c32 msg e).
Proof.
  unfold readVariableArray. safe;
    (eapply Safe_conseq; [eapply Safe_readN; [|eauto with safe]; lia|lia|done]).
Qed.
#[export] Hint Resolve Safe_readVariableArray : safe.

Lemma Safe_ArrayUByte n : Safe n 4 any ArrayUByte_Unmarshal.
Proof. unfold ArrayUByte_Unmarshal. safe. Qed.
Lemma Safe_arrayInt8 n : Safe n 4 any arrayInt8_Unmarshal.
Proof. unfold arrayInt8_Unmarshal. safe. Qed.
Lemma Safe_arrayUint32 n : Safe n 4 any arrayUint32_Unmarshal.
Proof. unfold arrayUint32_Unmarshal. safe. Qed.
Lemma Safe_arrayInt32 n : Safe n 4 any arrayInt32_Unmarshal.
Proof. unfold arrayInt32_Unmarshal. safe. Qed.
Lemma Safe_arrayUint64 n : Safe n 4 any arrayUint64_Unmarshal.
Proof. unfold arrayUint64_Unmarshal. safe. Qed.
Lemma Safe_arrayInt64 n : Safe n 4 any arrayInt64_Unmarshal.
Proof. unfold arrayInt64_Unmarshal. safe. Qed.
Lemma Safe_arrayBool n : Safe n 4 any arrayBool_Unmarshal.
Proof. unfold arrayBool_Unmarshal. safe. Qed.
#[export] Hint Resolve Safe_ArrayUByte Safe_arrayInt8 Safe_arrayUint32 Safe_arrayInt32
  Safe_arrayUint64 Safe_arrayInt64 Safe_arrayBool : safe.
#[export] Hint Unfold arrayUint16_Unmarshal arrayInt16_Unmarshal arrayFloat_Unmarshal
  arrayDouble_Unmarshal arrayTimestamp_Unmarshal arrayUUID_Unmarshal
  arrayString_Unmarshal arraySymbol_Unmarshal arrayBinary_Unmarshal : safe.

(** ** Unmarshal and composites *)

(** What [Unmarshal] relies on: the destination's own decoder is safe. *)
Fixpoint SafeDest (n : Z) {A} (t : dest A) : Prop :=
  match t with
  | DUnmarshaler u => Safe n 1 any u
  | DPtr d => SafeDest n d
  | _ => True
  end.

Lemma SafeDest_mono n n' {A} (t : dest A) : SafeDest n t -> n' <= n -> SafeDest n' t.
Proof. induction t; cbn; auto. intros. by eapply Safe_weaken. Qed.

Lemma Safe_Unmarshal n {A} (t : dest A) : SafeDest n t -> Safe n 1 any (Unmarshal t).
Proof.
  induction t; cbn [SafeDest Unmarshal]; intros Hd; apply Safe_tryReadNull_bind; safe; auto.
Qed.
#[export] Hint Resolve Safe_Unmarshal : safe.
#[export] Hint Extern 1 (SafeDest _ _) => cbn [SafeDest] : safe.

Definition res_ok {A} (r : res A) : Prop :=
  match r with Ok _ | Err _ => True | _ => False end.

Lemma Safe_lift {A} n (r : res A) : res_ok r -> Safe n 0 any (lift r).
Proof.
  intros Hr r' Hw _ _. unfold lift. split; [by apply advances_refl|].
  destruct r; try done. split; [lia|done].
Qed.

Definition SafeField (n : Z) {S} (f : UnmarshalField S) : Prop :=
  SafeDest n (Field f) /\
  match HandleNull f with Some h => forall s, res_ok (h s) | None => True end.

Lemma SafeField_uf n {S A} (d : dest A) (set : A -> S -> S) :
  SafeDest n d -> SafeField n (uf d set).
Proof. by split. Qed.
Lemma SafeField_required n {S A} (d : dest A) (set : A -> S -> S) msg :
  SafeDest n d -> SafeField n (uf_required d set msg).
Proof. by split. Qed.
Lemma SafeField_default n {S A} (d : dest A) (set : A -> S -> S) v :
  SafeDest n d -> SafeField n (uf_default d set v).
Proof. by split. Qed.
#[export] Hint Resolve SafeField_uf SafeField_required SafeField_default : safe.

Lemma Safe_runHandleNull n {S} (f : UnmarshalField S) s :
  SafeField n f -> Safe n 0 any (runHandleNull f s).
Proof.
  intros [_ H]. unfold runHandleNull. destruct (HandleNull f); [by apply Safe_lift|safe].
Qed.

Lemma Safe_unmarshalFields n {S} (fields : list (UnmarshalField S)) idx s :
  Forall (SafeField n) fields -> Safe n 0 any (unmarshalFields idx fields s).
Proof.
  intros H. revert idx s. induction H as [|f fs Hf Hfs IH]; intros idx s;
    cbn [unmarshalFields]; [safe|].
  apply Safe_tryReadNull_bind.
  - eapply Safe_weaken with (n := n) (min := 0); [|lia|lia|done].
    eapply Safe_bind; [by apply Safe_runHandleNull|]. intros a _.
    eapply Safe_weaken; [apply IH|lia|lia|done].
  - intros r Hw Hb Hl. pose proof (Safe_Unmarshal n _ (proj1 Hf) r Hw Hb Hl) as HU.
    destruct (Unmarshal (Field f) r) as [[o|e|p|] r']; try done.
    destruct HU as [(Hw' & Eb & Hi) [Hi' _]]. unfold Len in Hl.
    assert (forall s', Safe n 0 any (unmarshalFields (idx + 1) fs s')) as IH' by done.
    assert (forall s', let '(x, r'') := unmarshalFields (idx + 1) fs s' r' in
      advances r r'' /\ match x with
                         | Ok a => i r + 0 <= i r'' /\ any a
                         | Err _ => True | Panic p => no_index p | OutOfFuel => False end) as HS.
    { intros s'. specialize (IH' s' r' Hw' ltac:(by rewrite Eb)
        ltac:(unfold Len; rewrite Eb; lia)).
      destruct (unmarshalFields _ _ s' r') as [x r'']. destruct IH' as [Ha IH'].
      split; [eapply advances_trans; [|exact Ha]; by split_and!|].
      destruct x; try done. destruct IH'. split; [lia|done]. }
    destruct o as [v|]; apply HS.
Qed.

Lemma Safe_handleNulls n {S} (fields : list (UnmarshalField S)) s :
  Forall (SafeField n) fields -> Safe n 0 any (handleNulls fields s).
Proof.
  intros H. revert s. induction H as [|f fs Hf Hfs IH]; intros s; cbn [handleNulls]; [safe|].
  eapply Safe_bind; [by apply Safe_runHandleNull|]. intros.
  eapply Safe_weaken; [apply IH|lia|lia|done].
Qed.

Lemma Safe_readCompositeHeader n : Safe n 3 (fun h => is_u 8 h.1 /\ is_u 32 h.2) readCompositeHeader.
Proof. unfold readCompositeHeader. safe. split; [apply u8_range|done]. Qed.
#[export] Hint Resolve Safe_readCompositeHeader : safe.

Lemma Safe_UnmarshalComposite n {S} type_ (fields : list (UnmarshalField S)) s :
  Forall (SafeField (n - 3)) fields -> Safe n 3 any (UnmarshalComposite type_ fields s).
Proof.
  intros H. unfold UnmarshalComposite. safe. eapply Safe_bind.
  - by apply Safe_unmarshalFields, Forall_take.
  - intros. eapply Safe_weaken; [by apply Safe_handleNulls, Forall_drop|lia|lia|done].
Qed.

Lemma Safe_LifetimePolicy n : Safe n 3 any LifetimePolicy_Unmarshal.
Proof. unfold LifetimePolicy_Unmarshal. safe. Qed.

Lemma Safe_optional {A} n m (v : A) d : Safe n m any d -> Safe n m any (optional v d).
Proof. intros H. unfold optional. eapply Safe_bind; [exact H|]. safe. Qed.
#[export] Hint Resolve Safe_UnmarshalComposite Safe_LifetimePolicy Safe_optional : safe.

Lemma Safe_Durability n : Safe n 1 any Durability_Unmarshal.
Proof. unfold Durability_Unmarshal. apply Safe_optional, Safe_Unmarshal. done. Qed.
Lemma Safe_ExpiryPolicy n : Safe n 1 any ExpiryPolicy_Unmarshal.
Proof.
  unfold ExpiryPolicy_Unmarshal.
  eapply Safe_bind; [by apply Safe_optional, Safe_Unmarshal|intros e _].
  eapply Safe_bind; [apply (Safe_lift _ (ValidateExpiryPolicy e))|safe].
  unfold ValidateExpiryPolicy. by repeat dm.
Qed.
Lemma Safe_Milliseconds n : Safe n 1 any Milliseconds_Unmarshal.
Proof. unfold Milliseconds_Unmarshal. safe. Qed.
Lemma Safe_MultiSymbol n : Safe n 1 any MultiSymbol_Unmarshal.
Proof. unfold MultiSymbol_Unmarshal. safe. Qed.
#[export] Hint Resolve Safe_Durability Safe_ExpiryPolicy Safe_Milliseconds Safe_MultiSymbol : safe.

(** ** Map loops *)

(** Every iteration reads at least one byte, so more fuel than unread bytes is
    enough, even though the loop's counter wraps. *)
Lemma Safe_mapLoop {S} fuel n (body : S -> M Buffer S) idx count m :
  n < Z.of_nat fuel -> 0 <= n -> (forall m, Safe n 1 any (body m)) ->
  Safe n 0 any (mapLoop fuel body idx count m).
Proof.
  revert n idx m. induction fuel as [|fuel IH]; intros n idx m Hf Hn Hb; [lia|].
  cbn [mapLoop]. apply Safe_if; intros _; [|safe].
  eapply Safe_bind; [apply Hb|intros m' _].
  destruct (decide (n = 0)) as [->|].
  - intros r Hr _ Hl. exfalso. unfold wf, Len in *. lia.
  - eapply Safe_conseq; [apply IH; [lia|lia|]|lia|done].
    intros. eapply Safe_weaken; [apply Hb|lia|lia|done].
Qed.

(** The bound on the unread bytes can be taken from the buffer at hand. *)
Lemma Safe_at_len {A} n min (post : A -> Prop) (d : M Buffer A) :
  (forall r, wf r -> bytes_ok (b r) -> Len r <= n -> 0 <= Len r -> exists d',
     d r = d' r /\ Safe (Len r) min post d') ->
  Safe n min post d.
Proof.
  intros H r Hr Hb Hl. destruct (H r Hr Hb Hl) as (d' & -> & Hs).
  - unfold wf, Len in *. lia.
  - by apply Hs.
Qed.

Lemma Safe_readMap {S} n (body : S -> M Buffer S) e :
  (forall m, Safe (n - 3) 1 any (body m)) -> Safe n 3 any (readMap body e).
Proof.
  intros Hb. unfold readMap. eapply Safe_bind; [apply Safe_readMapHeader|intros count Hc].
  apply Safe_at_len. intros r Hr Hbs Hl Hl0.
  exists (mapLoop (Datatypes.S (Z.to_nat (Len r))) body 0 count e). split; [done|].
  eapply Safe_conseq; [apply Safe_mapLoop; [lia|done|]|lia|done].
  intros. eapply Safe_weaken; [apply Hb|lia|lia|done].
Qed.

Lemma Safe_peek {A} n m (Q : A -> Prop) (f : Z -> M Buffer A) e :
  (forall t, is_byte t -> Safe n m Q (f t)) ->
  Safe n m Q (fun r => match peekType r with
                       | (Ok t, _) => f t r
                       | (Err _, _) => (Err e, r)
                       | (Panic p, _) => (Panic p, r)
                       | (OutOfFuel, _) => (OutOfFuel, r)
                       end).
Proof.
  intros H r Hr Hb Hl. destruct (wf_at r Hr) as (pre & [|c rest] & ->).
  - unfold peekType. rewrite PeekByte_eof. split; [by apply advances_refl|done].
  - unfold peekType. rewrite PeekByte_at. apply H; try done.
    cbn in Hb. apply bytes_ok_app in Hb as [_ Hb]. by apply Forall_cons in Hb as [? _].
Qed.

(** ** Values that contain values *)

Section Any.
Context (N : Z) (rec : M Buffer value) (Hrec : forall n, n < N -> Safe n 1 any rec).

Lemma Safe_rec n : n < N -> Safe n 1 any rec.
Proof. auto. Qed.
Hint Resolve Safe_rec : safe.
Hint Extern 1 (_ < _) => lia : safe.
Hint Extern 1 (_ <= N) => lia : safe.

(** A map whose entries are decoded by [k] and then [rec]. *)
Lemma Safe_entries n {K V} (k : M Buffer K) (f : list (K * V) -> K -> value -> M Buffer _) :
  n <= N -> Safe (n - 3) 1 any k -> (forall n m key val, Safe n 0 any (f m key val)) ->
  Safe n 3 any (readMap (fun m => key ← k; val ← rec; f m key val) []).
Proof.
  intros Hn Hk Hf. apply Safe_readMap. intros m. eapply Safe_bind; [exact Hk|intros key _].
  eapply Safe_bind; [apply Safe_rec; lia|intros val _].
  eapply Safe_weaken; [apply (Hf (n - 3 - 1 - 1))|lia|lia|done].
Qed.

Lemma Safe_mapAnyAny n : n <= N -> Safe n 3 any (mapAnyAny_Unmarshal rec).
Proof. intros. apply Safe_entries; [lia|apply Safe_rec; lia|]. intros. safe. Qed.
Lemma Safe_Annotations n : n <= N -> Safe n 3 any (Annotations_Unmarshal rec).
Proof. intros. apply Safe_entries; [lia|apply Safe_rec; lia|]. intros. safe. Qed.
Lemma Safe_mapStringAny n : n <= N -> Safe n 3 any (mapStringAny_Unmarshal rec).
Proof. intros. apply Safe_entries; [lia|safe|]. intros. safe. Qed.
Lemma Safe_list n : n <= N -> Safe n 1 any (list_Unmarshal rec).
Proof.
  intros. unfold list_Unmarshal. safe.
  eapply Safe_conseq; [eapply Safe_readN; [|apply Safe_rec]; lia|lia|done].
Qed.
Hint Resolve Safe_mapAnyAny Safe_Annotations Safe_mapStringAny Safe_list : safe.

Lemma Safe_conseq1 {A} n m (P : A -> Prop) d : Safe n m P d -> 1 <= m -> Safe n 1 any d.
Proof. intros. by eapply Safe_conseq. Qed.

Ltac fields := repeat constructor; cbn [SafeDest Field uf uf_required uf_default];
  try done; try (eapply Safe_conseq1; [eauto with safe|lia]).

Lemma Safe_Error_ n : n <= N -> Safe n 3 any (Error_Unmarshal_ rec).
Proof.
  intros. apply Safe_UnmarshalComposite. fields.
Qed.
Hint Resolve Safe_Error_ : safe.
Lemma Safe_StateReceived n : Safe n 3 any StateReceived_Unmarshal.
Proof. eapply Safe_bind; [apply Safe_UnmarshalComposite; fields|]. safe. Qed.
Lemma Safe_StateAccepted n : Safe n 3 any StateAccepted_Unmarshal.
Proof. apply Safe_UnmarshalComposite. fields. Qed.
Lemma Safe_StateReleased n : Safe n 3 any StateReleased_Unmarshal.
Proof. apply Safe_UnmarshalComposite. fields. Qed.
Lemma Safe_StateRejected n : n <= N -> Safe n 3 any (StateRejected_Unmarshal rec).
Proof.
  intros. eapply Safe_bind; [apply Safe_UnmarshalComposite; fields|safe].
Qed.
Lemma Safe_StateModified n : n <= N -> Safe n 3 any (StateModified_Unmarshal rec).
Proof.
  intros. eapply Safe_bind; [apply Safe_UnmarshalComposite; fields|safe].
Qed.
Hint Resolve Safe_StateReceived Safe_StateAccepted Safe_StateReleased
  Safe_StateRejected Safe_StateModified : safe.

Lemma Safe_DescribedType_ n : n <= N -> Safe n 2 any (DescribedType_Unmarshal_ rec).
Proof. intros. unfold DescribedType_Unmarshal_. safe. Qed.

Lemma Safe_readAnyArray n : Safe n 1 any readAnyArray.
Proof. unfold readAnyArray, readAnyArray_switch. safe. Qed.
Lemma Safe_readAnyMap n : n <= N -> Safe n 1 any (readAnyMap rec).
Proof. intros. unfold readAnyMap. safe. Qed.
Lemma Safe_readAnyList n : n <= N -> Safe n 1 any (readAnyList rec).
Proof. intros. unfold readAnyList. safe. Qed.
Lemma Safe_readDescribed n : n <= N -> Safe n 1 any (readDescribed rec).
Proof. intros. unfold readDescribed. eapply Safe_bind; [by apply Safe_DescribedType_|safe]. Qed.
Hint Resolve Safe_DescribedType_ Safe_readAnyArray Safe_readAnyMap Safe_readAnyList
  Safe_readDescribed : safe.

Lemma Safe_readComposite n : n <= N -> Safe n 1 any (readComposite rec).
Proof.
  intros. unfold readComposite. safe. eapply (Safe_bind _ 0 _ any); safe.
  unfold readComposite_switch. safe.
Qed.
Hint Resolve Safe_readComposite : safe.

Lemma Safe_ReadAny_body n : n <= N -> Safe n 1 any (ReadAny_body rec).
Proof.
  intros. unfold ReadAny_body. apply Safe_tryReadNull_bind; [safe|].
  apply Safe_peek. intros t Ht. unfold ReadAny_switch. safe.
Qed.

Lemma Safe_DeliveryState_ n : n <= N -> Safe n 1 any (DeliveryState_Unmarshal_ rec).
Proof.
  intros. unfold DeliveryState_Unmarshal_. safe.
  eapply Safe_bind; [apply (Safe_lift _ (PeekMessageType a))|intros].
  - unfold PeekMessageType. by repeat dm.
  - safe; (eapply Safe_bind;
      [apply Safe_Unmarshal; cbn; eapply Safe_conseq1; [eauto with safe|lia]|safe]).
Qed.
End Any.

Lemma Safe_ReadAnyFuel fuel n : n < Z.of_nat fuel -> Safe n 1 any (ReadAnyFuel fuel).
Proof.
  revert n. induction fuel as [|fuel IH]; intros n Hn.
  - intros r Hr _ Hl. exfalso. unfold wf, Len in *. lia.
  - cbn [ReadAnyFuel]. apply (Safe_ReadAny_body (Z.of_nat fuel)); [exact IH|lia].
Qed.

Lemma Safe_ReadAny n : Safe n 1 any ReadAny.
Proof.
  apply Safe_at_len. intros r Hr Hb Hl Hl0.
  exists (ReadAnyFuel (S (Z.to_nat (Len r)))). split; [reflexivity|].
  apply Safe_ReadAnyFuel. lia.
Qed.

Lemma Safe_Error n : Safe n 3 any Error_Unmarshal.
Proof. apply (Safe_Error_ (n + 1)); [intros; apply Safe_ReadAny|lia]. Qed.
Lemma Safe_DeliveryState n : Safe n 1 any DeliveryState_Unmarshal.
Proof. apply (Safe_DeliveryState_ (n + 1)); [intros; apply Safe_ReadAny|lia]. Qed.
Lemma Safe_DescribedType n : Safe n 2 any DescribedType_Unmarshal.
Proof. apply (Safe_DescribedType_ (n + 1)); [intros; apply Safe_ReadAny|lia]. Qed.
#[export] Hint Resolve Safe_ReadAny Safe_Error Safe_DeliveryState Safe_DescribedType : safe.

Lemma Safe_Annotations_any n : Safe n 3 any (Annotations_Unmarshal ReadAny).
Proof. apply (Safe_Annotations (n + 1)); [intros; apply Safe_ReadAny|lia]. Qed.
Lemma Safe_mapStringAny_any n : Safe n 3 any (mapStringAny_Unmarshal ReadAny).
Proof. apply (Safe_mapStringAny (n + 1)); [intros; apply Safe_ReadAny|lia]. Qed.
Lemma Safe_mapSymbolAny_any n : Safe n 3 any (mapSymbolAny_Unmarshal ReadAny).
Proof. apply Safe_mapStringAny_any. Qed.
Lemma Safe_list_any n : Safe n 1 any (list_Unmarshal ReadAny).
Proof. apply (Safe_list (n + 1)); [intros; apply Safe_ReadAny|lia]. Qed.

Lemma Safe_Unsettled n : Safe n 3 any Unsettled_Unmarshal.
Proof. apply Safe_readMap. intros. safe. Qed.
Lemma Safe_Filter n : Safe n 3 any Filter_Unmarshal.
Proof.
  apply Safe_readMap. intros. safe.
  eapply Safe_bind; [apply Safe_optional, Safe_Unmarshal; cbn; safe|]. safe.
Qed.
#[export] Hint Resolve Safe_Annotations_any Safe_mapStringAny_any Safe_mapSymbolAny_any
  Safe_list_any Safe_Unsettled Safe_Filter : safe.

(** What safety says of a decoder run on a received byte slice: it terminates
    with a value, an error or the unhashable-key panic, having read a prefix
    of the data. *)
Definition safe_outcome {A} (l : bytes) (min : Z) (x : res A * Buffer) : Prop :=
  match x.1 with
  | Ok _ => min <= i x.2
  | Err _ => True
  | Panic p => p = UnhashableKey
  | OutOfFuel => False
  end /\ b x.2 = l /\ 0 <= i x.2 <= zlen l.

Lemma Safe_outcome {A} (d : M Buffer A) min (P : A -> Prop) l :
  (forall n, Safe n min P d) -> bytes_ok l -> safe_outcome l min (d (New l)).
Proof.
  intros H Hl. assert (wf (New l)) as Hw by (unfold wf; cbn; pose_zlen; lia).
  specialize (H (zlen l) (New l) Hw Hl ltac:(unfold Len; cbn; lia)).
  unfold safe_outcome. destruct (d (New l)) as [x r']. cbn [fst snd].
  destruct H as [([? ?] & E & ?) H]. cbn in E. rewrite E in *. split; [|done].
  destruct x; try done. cbn in H. lia.
Qed.

(** Decoding an arbitrary byte string with [ReadAny] (the decoder of any
    AMQP value, entered for every frame and message a peer sends) terminates,
    never indexes outside the buffer and consumes at least one byte when it
    succeeds; the only panic it can raise is Go's unhashable-map-key panic. *)
Theorem ReadAny_safe l : bytes_ok l -> safe_outcome l 1 (ReadAny (New l)).
Proof. apply (Safe_outcome _ _ any). intros. apply Safe_ReadAny. Qed.

(** A list that nests a map holding a described value and a binary. *)
Definition sample_bytes : bytes :=
  [TypeCodeList8; 16; 1; TypeCodeMap8; 13; 2; TypeCodeStr8; 1; 97;
   0; TypeCodeSmallUlong; 200; TypeCodeVbin8; 2; 1; 2].

Lemma ReadAny_safe_witness :
  bytes_ok sample_bytes /\ safe_outcome sample_bytes 1 (ReadAny (New sample_bytes)).
Proof.
  assert (bytes_ok sample_bytes) by by apply bytes_okb_ok.
  split; [done|]. by apply (ReadAny_safe sample_bytes).
Defined.

(** The panic is real: a peer that sends a map whose key is a described
    type around a list crashes [ReadAny], because the key check of
    [mapAnyAny.Unmarshal] looks only at the outer kind of the key. *)
Theorem ReadAny_unhashable_key :
  exists l, bytes_ok l /\ fst (ReadAny (New l)) = Panic UnhashableKey.
Proof.
  exists [TypeCodeMap8; 6; 2; 0; TypeCodeSmallUlong; 200; TypeCodeList0; TypeCodeNull].
  split; [by apply bytes_okb_ok|]. vm_compute. reflexivity.
Qed.

End CodecSafety.
