(* ===== verification/Wire.v ===== *)
(** * Wire: the bytes of every AMQP value, and that the encoder produces them

    [enc v] is the encoding of a value as a pure function, without the
    placeholder-and-overwrite technique of the source.  [Marshal_wire] shows
    that the writer of [Encode] appends exactly these bytes.  [norm v] is what
    an encoded value decodes to (the wire format forgets some Go types), and
    [vokb v] the decidable condition under which a value can be sent. *)

From S2P Require Import Prelude Buffer Types Encode Decode.
Import Buffer Encode Decode.

Module Wire.

(** ** Pure encodings *)

Definition enc_variable (code8 code32 : Z) (s : bytes) : bytes :=
  if zlen s <? 256 then code8 :: zlen s :: s else code32 :: be_bytes 4 (zlen s) ++ s.

Definition enc_string : bytes -> bytes := enc_variable TypeCodeStr8 TypeCodeStr32.
Definition enc_symbol : bytes -> bytes := enc_variable TypeCodeSym8 TypeCodeSym32.
Definition enc_binary : bytes -> bytes := enc_variable TypeCodeVbin8 TypeCodeVbin32.

Definition enc_bool (t : bool) : bytes := [if t then TypeCodeBoolTrue else TypeCodeBoolFalse].
Definition enc_uint32 (n : Z) : bytes :=
  if n =? 0 then [TypeCodeUint0]
  else if n <? 256 then [TypeCodeSmallUint; n] else TypeCodeUint :: be_bytes 4 n.
Definition enc_uint64 (n : Z) : bytes :=
  if n =? 0 then [TypeCodeUlong0]
  else if n <? 256 then [TypeCodeSmallUlong; n] else TypeCodeUlong :: be_bytes 8 n.
Definition enc_int32 (n : Z) : bytes :=
  if (n <? 128) && (n >=? -128) then [TypeCodeSmallint; u8 n] else TypeCodeInt :: be_bytes 4 n.
Definition enc_int64 (n : Z) : bytes :=
  if (n <? 128) && (n >=? -128) then [TypeCodeSmalllong; u8 n] else TypeCodeLong :: be_bytes 8 n.

(** A 32-bit sized body: size (of count and body), count, body. *)
Definition enc_sized (code count : Z) (body : bytes) : bytes :=
  code :: be_bytes 4 (zlen body + 4) ++ be_bytes 4 count ++ body.

Definition enc_list (bs : list bytes) : bytes :=
  match bs with
  | [] => [TypeCodeList0]
  | _ => enc_sized TypeCodeList32 (zlen bs) (concat bs)
  end.

Definition enc_map (kvs : list (bytes * bytes)) : bytes :=
  enc_sized TypeCodeMap32 (zlen kvs * 2) (concat (map (fun kv => kv.1 ++ kv.2) kvs)).

(** A composite's fields, [None] for an omitted one; trailing omitted fields
    are not written. *)
Fixpoint trim {A} (fields : list (option A)) : list (option A) :=
  match fields with
  | [] => []
  | o :: fs => match trim fs, o with
               | [], None => []
               | t, _ => o :: t
               end
  end.

Definition enc_field (o : option bytes) : bytes :=
  match o with
  | Some bs => bs
  | None => [TypeCodeNull]
  end.

Definition enc_composite (code : Z) (fields : list (option bytes)) : bytes :=
  [0; TypeCodeSmallUlong; code] ++ enc_list (map enc_field (trim fields)).

(** Arrays: size of the elements, count, element type, elements. *)
Definition enc_array (count type_ : Z) (body : bytes) : bytes :=
  (if zlen body + 2 <=? 255 then [TypeCodeArray8; zlen body + 2; count; type_]
   else TypeCodeArray32 :: be_bytes 4 (zlen body + 5) ++ be_bytes 4 count ++ [type_]) ++ body.

Definition enc_elements {A} (f : A -> bytes) (l : list A) : bytes := concat (map f l).

Definition enc_array_of {A} (type_ : Z) (f : A -> bytes) (l : list A) : bytes :=
  enc_array (zlen l) type_ (enc_elements f l).

Definition enc_narrow (wide : bool) (code code_wide : Z) (k : nat) (l : list Z) : bytes :=
  if wide then enc_array_of code_wide (be_bytes k) l else enc_array_of code (fun x => [u8 x]) l.

Definition enc_strings (code code_wide : Z) (l : list bytes) : bytes :=
  if existsb (fun e => zlen e >? 255) l
  then enc_array_of code_wide (fun e => be_bytes 4 (zlen e) ++ e) l
  else enc_array_of code (fun e => u8 (zlen e) :: e) l.

Definition enc_annotation_key (key : value) : bytes :=
  match key with
  | VString s | VSymbol s => enc_symbol s
  | VInt64 n | VInt n => enc_int64 n
  | _ => []
  end.

Section Nested.
Context (enc : value -> bytes).

Definition enc_error_ (e : Error) : bytes :=
  match e with
  | mkError condition description info =>
      enc_composite TypeCodeError
        [Some (enc_symbol condition);
         if bool_decide (description = []) then None else Some (enc_string description);
         match info with
         | [] => None
         | _ => Some (enc_map (map (fun kv => match kv with (k, x) => (enc_string k, enc x) end) info))
         end]
  end.

Definition enc_annotations_ (m : list (value * value)) : bytes :=
  enc_map (map (fun kv => match kv with (k, x) => (enc_annotation_key k, enc x) end) m).

Definition enc_state_ (s : DeliveryState) : bytes :=
  match s with
  | StateReceived n off =>
      enc_composite TypeCodeStateReceived [Some (enc_uint32 n); Some (enc_uint64 off)]
  | StateAccepted => enc_composite TypeCodeStateAccepted []
  | StateRejected None => enc_composite TypeCodeStateRejected [None]
  | StateRejected (Some e) => enc_composite TypeCodeStateRejected [Some (enc_error_ e)]
  | StateReleased => enc_composite TypeCodeStateReleased []
  | StateModified failed undeliverable ann =>
      enc_composite TypeCodeStateModified
        [if failed then Some (enc_bool true) else None;
         if undeliverable then Some (enc_bool true) else None;
         match ann with Some m => Some (enc_annotations_ m) | None => None end]
  end.
End Nested.

Fixpoint enc (v : value) : bytes :=
  match v with
  | VNil => [TypeCodeNull]
  | VBool t => enc_bool t
  | VUint n | VUint64 n => enc_uint64 n
  | VUint32 n => enc_uint32 n
  | VUint16 n => TypeCodeUshort :: be_bytes 2 n
  | VUint8 n => [TypeCodeUbyte; n]
  | VInt n | VInt64 n => enc_int64 n
  | VInt32 n => enc_int32 n
  | VInt16 n => TypeCodeShort :: be_bytes 2 n
  | VInt8 n => [TypeCodeByte; u8 n]
  | VFloat32 f => TypeCodeFloat :: be_bytes 4 f
  | VFloat64 f => TypeCodeDouble :: be_bytes 8 f
  | VString s => enc_string s
  | VSymbol s => enc_symbol s
  | VBinary s => enc_binary s
  | VTime t => TypeCodeTimestamp :: be_bytes 8 (time_ms t)
  | VUUID u => TypeCodeUUID :: u
  | VArrayUByte a => enc_array (zlen a) TypeCodeUbyte a
  | VArrayInt8 a => enc_array_of TypeCodeByte (fun x => [u8 x]) a
  | VArrayUint16 a => enc_array_of TypeCodeUshort (be_bytes 2) a
  | VArrayInt16 a => enc_array_of TypeCodeShort (be_bytes 2) a
  | VArrayUint32 a =>
      enc_narrow (existsb (fun n => n >? 255) a) TypeCodeSmallUint TypeCodeUint 4 a
  | VArrayInt32 a =>
      enc_narrow (existsb (fun n => n >? 127) a) TypeCodeSmallint TypeCodeInt 4 a
  | VArrayUint64 a =>
      enc_narrow (existsb (fun n => n >? 255) a) TypeCodeSmallUlong TypeCodeUlong 8 a
  | VArrayInt64 a =>
      enc_narrow (existsb (fun n => n >? 127) a) TypeCodeSmalllong TypeCodeLong 8 a
  | VArrayFloat a => enc_array_of TypeCodeFloat (be_bytes 4) a
  | VArrayDouble a => enc_array_of TypeCodeDouble (be_bytes 8) a
  | VArrayBool a => enc_array_of TypeCodeBool (fun x : bool => [if x then 1 else 0]) a
  | VArrayString a => enc_strings TypeCodeStr8 TypeCodeStr32 a
  | VArraySymbol a => enc_strings TypeCodeSym8 TypeCodeSym32 a
  | VArrayBinary a => enc_strings TypeCodeVbin8 TypeCodeVbin32 a
  | VArrayTimestamp a => enc_array_of TypeCodeTimestamp (fun t => be_bytes 8 (time_ms t)) a
  | VArrayUUID a => enc_array_of TypeCodeUUID (fun u => u) a
  | VList l => enc_list (map enc l)
  | VMapAnyAny m => enc_map (map (fun kv => match kv with (k, x) => (enc k, enc x) end) m)
  | VMapStringAny m => enc_map (map (fun kv => match kv with (k, x) => (enc_string k, enc x) end) m)
  | VMapSymbolAny m => enc_map (map (fun kv => match kv with (k, x) => (enc_symbol k, enc x) end) m)
  | VAnnotations m => enc_annotations_ enc m
  | VDescribed d x => 0 :: enc d ++ enc x
  | VLifetimePolicy p => [0; TypeCodeSmallUlong; p; TypeCodeList0]
  | VError e => enc_error_ enc e
  | VDeliveryState s => enc_state_ enc s
  | VUnsupported => []
  end.

(** ** What a value decodes to *)

Definition norm_time (t : time) : time := ms_time (time_ms t).

Definition norm_key (k : value) : value :=
  match k with
  | VSymbol s => VString s
  | VInt n => VInt64 n
  | k => k
  end.

(** A decoded map becomes a [map[string]any] when all keys are strings. *)
Definition norm_map (m : list (value * value)) : value :=
  match m with
  | [] => VMapAnyAny []
  | _ => if forallb (fun kv => is_string_key kv.1) m
         then VMapStringAny (map (fun kv => (string_key kv.1, kv.2)) m)
         else VMapAnyAny m
  end.

Section Norm.
Context (norm : value -> value).
Definition norm_entries (m : list (bytes * value)) : list (bytes * value) :=
  map (fun kv => match kv with (k, x) => (k, norm x) end) m.
Definition norm_pairs (m : list (value * value)) : list (value * value) :=
  map (fun kv => match kv with (k, x) => (norm k, norm x) end) m.
Definition norm_annotations (m : list (value * value)) : list (value * value) :=
  map (fun kv => match kv with (k, x) => (norm_key k, norm x) end) m.
Definition string_pairs (m : list (bytes * value)) : list (value * value) :=
  map (fun kv => match kv with (k, x) => (VString k, norm x) end) m.
Definition norm_error_ (e : Error) : Error :=
  match e with mkError c d i => mkError c d (norm_entries i) end.
Definition norm_state_ (s : DeliveryState) : DeliveryState :=
  match s with
  | StateRejected (Some e) => StateRejected (Some (norm_error_ e))
  | StateModified f u (Some m) => StateModified f u (Some (norm_annotations m))
  | s => s
  end.
End Norm.

Fixpoint norm (v : value) : value :=
  match v with
  | VUint n => VUint64 n
  | VInt n => VInt64 n
  | VSymbol s => VString s
  | VTime t => VTime (norm_time t)
  | VArrayTimestamp a => VArrayTimestamp (map norm_time a)
  | VList l => VList (map norm l)
  | VMapAnyAny m => norm_map (norm_pairs norm m)
  | VMapStringAny m => norm_map (string_pairs norm m)
  | VMapSymbolAny m => norm_map (string_pairs norm m)
  | VAnnotations m => norm_map (norm_annotations norm m)
  | VDescribed d x => VDescribed (norm d) (norm x)
  | VError e => VError (norm_error_ norm e)
  | VDeliveryState s => VDeliveryState (norm_state_ norm s)
  | v => v
  end.

(** ** Which values can be sent and come back *)

Definition inu (w n : Z) : bool := (0 <=? n) && (n <? 2 ^ w).
Definition ini (w n : Z) : bool := (- 2 ^ (w - 1) <=? n) && (n <? 2 ^ (w - 1)).

(** No key equals an earlier one. *)
Fixpoint freshb {K} (eqb : K -> K -> bool) (seen l : list K) : bool :=
  match l with
  | [] => true
  | k :: l' => forallb (fun k' => negb (eqb k' k)) seen && freshb eqb (seen ++ [k]) l'
  end.

(** The descriptors that [readComposite] does not treat as described types. *)
Definition reserved (code : Z) : bool :=
  (code <=? 255) &&
  existsb (Z.eqb code)
    ([TypeCodeError; TypeCodeDeleteOnClose; TypeCodeDeleteOnNoMessages; TypeCodeDeleteOnNoLinks;
      TypeCodeDeleteOnNoLinksOrMessages; TypeCodeStateAccepted; TypeCodeStateModified;
      TypeCodeStateReceived; TypeCodeStateRejected; TypeCodeStateReleased]
     ++ composite_not_implemented).

Definition descriptor_ok (d : value) : bool :=
  match d with
  | VUint n | VUint64 n => negb (reserved n)
  | _ => true
  end.

Definition map_key_ok (k : value) : bool := negb (slice_or_map k) && hashable k.
Definition annotation_key_ok (k : value) : bool :=
  match k with
  | VString _ | VSymbol _ => true
  | VInt n | VInt64 n => ini 64 n
  | _ => false
  end.

(** The room check of the variable-size array decoders: two bytes for every
    element must be left after the header. *)
Definition strings_room (a : list bytes) : bool :=
  let k := if existsb (fun e => zlen e >? 255) a then 4 else 1 in
  zlen a * 2 <=? 1 + elementsSize a + zlen a * k.

(** A signed array is written with one byte per element unless an element
    exceeds 127. *)
Definition signed_narrow_ok (a : list Z) : bool :=
  existsb (fun n => n >? 127) a || forallb (fun n => n >=? -128) a.

Section Ok.
Context (vokb : value -> bool).
Definition errorokb_ (e : Error) : bool :=
  match e with
  | mkError c d i =>
      utf8_valid d && forallb (fun kv => match kv with (k, x) => utf8_valid k && vokb x end) i
      && freshb bytes_eqb [] (map fst i)
  end.
Definition annotationsokb_ (m : list (value * value)) : bool :=
  forallb (fun kv => match kv with (k, x) => annotation_key_ok k && vokb x end) m
  && freshb key_eqb [] (map norm_key (map fst m)).
Definition stateokb_ (s : DeliveryState) : bool :=
  match s with
  | StateReceived n off => inu 32 n && inu 64 off
  | StateRejected (Some e) => errorokb_ e
  | StateModified _ _ (Some m) => annotationsokb_ m
  | _ => true
  end.
End Ok.

Fixpoint vokb (v : value) : bool :=
  match v with
  | VNil | VBool _ | VArrayBool _ | VTime _ | VSymbol _ | VBinary _ | VArrayUByte _ => true
  | VUint n | VUint64 n => inu 64 n
  | VUint32 n | VFloat32 n => inu 32 n
  | VUint16 n => inu 16 n
  | VUint8 n => inu 8 n
  | VInt n | VInt64 n => ini 64 n
  | VInt32 n => ini 32 n
  | VInt16 n => ini 16 n
  | VInt8 n => ini 8 n
  | VFloat64 n => inu 64 n
  | VString s => utf8_valid s
  | VUUID u => zlen u =? 16
  | VArrayInt8 a => forallb (ini 8) a
  | VArrayUint16 a => forallb (inu 16) a
  | VArrayInt16 a => forallb (ini 16) a
  | VArrayUint32 a => forallb (inu 32) a
  | VArrayInt32 a => forallb (ini 32) a && signed_narrow_ok a
  | VArrayUint64 a => forallb (inu 64) a
  | VArrayInt64 a => forallb (ini 64) a && signed_narrow_ok a
  | VArrayFloat a => forallb (inu 32) a
  | VArrayDouble a => forallb (inu 64) a
  | VArrayString a => forallb utf8_valid a && strings_room a
  | VArraySymbol a | VArrayBinary a => strings_room a
  | VArrayTimestamp _ => true
  | VArrayUUID a => forallb (fun u => zlen u =? 16) a
  | VList l => forallb vokb l
  | VMapAnyAny m =>
      forallb (fun kv => match kv with (k, x) => vokb k && vokb x && map_key_ok (norm k) end) m
      && freshb key_eqb [] (map norm (map fst m))
  | VMapStringAny m =>
      forallb (fun kv => match kv with (k, x) => utf8_valid k && vokb x end) m
      && freshb bytes_eqb [] (map fst m)
  | VMapSymbolAny m =>
      forallb (fun kv => match kv with (k, x) => vokb x end) m && freshb bytes_eqb [] (map fst m)
  | VAnnotations m => annotationsokb_ vokb m
  | VDescribed d x => vokb d && vokb x && descriptor_ok d
  | VLifetimePolicy p =>
      existsb (Z.eqb p) [TypeCodeDeleteOnClose; TypeCodeDeleteOnNoMessages;
                         TypeCodeDeleteOnNoLinks; TypeCodeDeleteOnNoLinksOrMessages]
  | VError e => errorokb_ vokb e
  | VDeliveryState s => stateokb_ vokb s
  | VUnsupported => false
  end.

(** ** The writers produce the pure encodings *)

Lemma be_bytes_mod k n m : n mod 256 ^ Z.of_nat k = m mod 256 ^ Z.of_nat k -> be_bytes k n = be_bytes k m.
Proof.
  revert n m. induction k as [|k IH]; intros n m H; [done|].
  cbn [be_bytes]. rewrite !Z.shiftr_div_pow2 by lia.
  assert (256 ^ Z.of_nat (S k) = 256 ^ Z.of_nat k * 256) as Ep
    by (rewrite Nat2Z.inj_succ, Z.pow_succ_r by lia; ring).
  assert (0 < 256 ^ Z.of_nat k) as Hp by (apply Z.pow_pos_nonneg; lia).
  replace (2 ^ (8 * Z.of_nat k)) with (256 ^ Z.of_nat k)
    by (rewrite Z.pow_mul_r by lia; done).
  rewrite Ep, !Z.rem_mul_r in H by lia. set (p := 256 ^ Z.of_nat k) in *.
  pose proof (Z.mod_pos_bound n p Hp). pose proof (Z.mod_pos_bound m p Hp).
  destruct (Z.div_mod_unique p (n / p mod 256) (m / p mod 256) (n mod p) (m mod p))
    as [E1 E2]; [lia..|]. unfold u8. change (2 ^ 8) with 256. f_equal; [exact E1|by apply IH].
Qed.

Lemma be_bytes2_u16 n : be_bytes 2 (u16 n) = be_bytes 2 n.
Proof. apply be_bytes_mod. apply Z.mod_mod. done. Qed.
Lemma be_bytes4_u32 n : be_bytes 4 (u32 n) = be_bytes 4 n.
Proof. apply be_bytes_mod. apply Z.mod_mod. done. Qed.
Lemma be_bytes8_u64 n : be_bytes 8 (u64 n) = be_bytes 8 n.
Proof. apply be_bytes_mod. apply Z.mod_mod. done. Qed.

(** Symbolic execution of a writer: [Encodes] goals are decomposed along the
    binds, the byte strings are compared at the end. *)
Create HintDb encodes.
#[export] Hint Resolve Encodes_ret Encodes_Append Encodes_AppendUint16 Encodes_AppendUint32
  Encodes_AppendUint64 Encodes_bind : encodes.
#[export] Hint Extern 1 (Encodes (AppendByte _) _) => apply Encodes_Append : encodes.

Ltac encodes := eapply Encodes_cons_eq; [solve [eauto with encodes]|].

Lemma Encodes_writeInt32 n : Encodes (writeInt32 n) (enc_int32 n).
Proof.
  unfold writeInt32, enc_int32. destruct (_ && _); encodes; [done|]. by rewrite be_bytes4_u32.
Qed.
Lemma Encodes_writeInt64 n : Encodes (writeInt64 n) (enc_int64 n).
Proof.
  unfold writeInt64, enc_int64. destruct (_ && _); encodes; [done|]. by rewrite be_bytes8_u64.
Qed.
Lemma Encodes_writeUint32 n : 0 <= n -> Encodes (writeUint32 n) (enc_uint32 n).
Proof.
  intros. unfold writeUint32, enc_uint32. destruct (n =? 0); [encodes; done|].
  destruct (Z.ltb_spec n 256); encodes; [|done]. rewrite u8_small by (unfold is_u; lia). done.
Qed.
Lemma Encodes_writeUint64 n : 0 <= n -> Encodes (writeUint64 n) (enc_uint64 n).
Proof.
  intros. unfold writeUint64, enc_uint64. destruct (n =? 0); [encodes; done|].
  destruct (Z.ltb_spec n 256); encodes; [|done]. rewrite u8_small by (unfold is_u; lia). done.
Qed.
Lemma Encodes_writeBool t : Encodes (writeBool t) (enc_bool t).
Proof. destruct t; apply Encodes_Append. Qed.

Lemma Encodes_writeVariable c8 c32 s :
  zlen s < MaxUint32 -> Encodes (writeVariable c8 c32 s) (enc_variable c8 c32 s).
Proof.
  intros H. unfold writeVariable, enc_variable. destruct (Z.ltb_spec (zlen s) 256).
  - encodes. cbn. rewrite u8_small; [done|]. unfold is_u. pose_zlen. lia.
  - replace (zlen s <? MaxUint32) with true by lia. encodes. cbn [app].
    by rewrite be_bytes4_u32.
Qed.
Lemma Encodes_writeString s :
  utf8_valid s = true -> zlen s < MaxUint32 -> Encodes (writeString s) (enc_string s).
Proof. intros Hv H. unfold writeString. rewrite Hv. by apply Encodes_writeVariable. Qed.
Lemma Encodes_Symbol s : zlen s < MaxUint32 -> Encodes (Symbol_Marshal s) (enc_symbol s).
Proof. apply Encodes_writeVariable. Qed.
Lemma Encodes_WriteBinary s : zlen s < MaxUint32 -> Encodes (WriteBinary s) (enc_binary s).
Proof. apply Encodes_writeVariable. Qed.

(** *** Sized bodies: placeholders and their overwriting *)

Lemma getLen_app r x :
  getLen (mkBuffer (b r ++ x) (i r)) = (Ok (Len r + zlen x), mkBuffer (b r ++ x) (i r)).
Proof. unfold getLen, Len; cbn [b i]. do 2 f_equal. zlia. Qed.

Lemma PutUint32_patch r x p y n idx :
  wf r -> zlen p = 4 -> idx = Len r + zlen x ->
  PutUint32 idx n (mkBuffer (b r ++ x ++ p ++ y) (i r))
  = (Ok tt, mkBuffer (b r ++ x ++ be_bytes 4 n ++ y) (i r)).
Proof.
  intros [H0 H1] Hp ->. unfold PutUint32, Len; cbn [b i].
  replace (_ && _ && _) with true by zlia.
  replace (i r + (zlen (b r) - i r + zlen x)) with (zlen (b r ++ x)) by zlia.
  rewrite to_nat_zlen, !app_assoc, <- (app_assoc _ p y), take_app_length.
  do 3 f_equal. rewrite <- app_assoc. do 2 f_equal.
  rewrite (app_assoc (b r)), <- drop_drop, drop_app_length, drop_app_length'; [done|].
  unfold zlen in Hp. lia.
Qed.

Lemma Encodes_at m bs r x :
  Encodes m bs -> wf r -> m (mkBuffer (b r ++ x) (i r)) = (Ok tt, mkBuffer (b r ++ x ++ bs) (i r)).
Proof.
  intros H Hr. rewrite (H (mkBuffer (b r ++ x) (i r))) by by apply wf_append.
  cbn [b i]. by rewrite <- app_assoc.
Qed.

(** A list body: the size placeholder is overwritten with what follows it. *)
Lemma Encodes_sized_list count m body :
  Encodes m body ->
  Encodes (_ ← AppendByte TypeCodeList32;
           sizeIdx ← getLen;
           _ ← Append [0; 0; 0; 0];
           preFieldLen ← getLen;
           _ ← AppendUint32 (u32 count);
           _ ← m;
           l ← getLen;
           PutUint32 sizeIdx (u32 (l - preFieldLen)))
          (enc_sized TypeCodeList32 count body).
Proof.
  intros Hm r Hr. unfold mbind, M_bind, AppendByte.
  rewrite (Encodes_Append [TypeCodeList32] r Hr), getLen_app.
  rewrite (Encodes_at _ _ r _ (Encodes_Append _) Hr), getLen_app.
  rewrite (Encodes_at _ _ r _ (Encodes_AppendUint32 _) Hr), (Encodes_at _ _ r _ Hm Hr), getLen_app.
  rewrite <- !app_assoc, (PutUint32_patch r [TypeCodeList32] [0; 0; 0; 0]) by done.
  unfold enc_sized. rewrite !be_bytes4_u32. do 5 f_equal.
  do 2 f_equal. zlia.
Qed.

Lemma Encodes_writeAll {A} (w : A -> M Buffer unit) (f : A -> bytes) l :
  Forall (fun x => Encodes (w x) (f x)) l -> Encodes (writeAll w l) (concat (map f l)).
Proof.
  induction 1 as [|x l Hx Hl IH]; cbn [writeAll map concat]; [apply Encodes_ret|].
  by apply Encodes_bind.
Qed.

Lemma Encodes_list_Marshal {A} (w : A -> M Buffer unit) (f : A -> bytes) l :
  Forall (fun x => Encodes (w x) (f x)) l -> Encodes (list_Marshal w l) (enc_list (map f l)).
Proof.
  intros H. unfold list_Marshal. destruct l as [|x l]; [apply Encodes_Append|].
  replace (zlen (x :: l) =? 0) with false by zlia.
  cbn [map enc_list]. rewrite <- (map_cons f), zlen_map.
  intros r Hr. rewrite <- (Encodes_sized_list (zlen (x :: l)) _ _ (Encodes_writeAll w f _ H) r Hr).
  unfold mbind, M_bind, AppendByte.
  rewrite (Encodes_Append [TypeCodeList32] r Hr), getLen_app.
  rewrite (Encodes_at _ _ r _ (Encodes_Append _) Hr), getLen_app.
  do 3 (case_match; [|done..]). by rewrite zlen_app, Z.add_assoc.
Qed.

Lemma Encodes_writeEntries {K V} (wk : K -> M Buffer unit) (wv : V -> M Buffer unit)
  (fk : K -> bytes) (fv : V -> bytes) m :
  Forall (fun kv => Encodes (wk kv.1) (fk kv.1) /\ Encodes (wv kv.2) (fv kv.2)) m ->
  Encodes (writeEntries wk wv m)
    (concat (map (fun kv => kv.1 ++ kv.2) (map (fun kv => match kv with (k, x) => (fk k, fv x) end) m))).
Proof.
  induction 1 as [|[k x] m [Hk Hv] Hm IH]; cbn [writeEntries map concat]; [apply Encodes_ret|].
  cbn [fst snd] in *. rewrite <- app_assoc. by do 2 (apply Encodes_bind; [done|]).
Qed.

Lemma Encodes_writeMap pairs m body :
  Encodes m body -> pairs <= MaxUint32 - 4 ->
  Encodes (writeMap pairs m) (enc_sized TypeCodeMap32 pairs body).
Proof.
  intros Hm Hp r Hr. unfold writeMap, mbind, M_bind.
  assert (getLen r = (Ok (Len r), r)) as -> by done.
  rewrite (Encodes_Append _ r Hr), (Encodes_at _ _ r _ Hm Hr).
  replace (pairs >? MaxUint32 - 4) with false by lia. rewrite getLen_app.
  rewrite (PutUint32_patch r [TypeCodeMap32] [0; 0; 0; 0] ([0; 0; 0; 0] ++ body)) by done.
  rewrite be_bytes4_u32, (app_assoc [TypeCodeMap32]).
  rewrite (PutUint32_patch r _ [0; 0; 0; 0] body) by (done || zlia).
  rewrite be_bytes4_u32. unfold enc_sized. rewrite <- app_assoc. cbn [app].
  do 5 f_equal. f_equal. zlia.
Qed.

(** *** Composites *)

Definition field_bytes (f : MarshalField) (o : option bytes) : Prop :=
  match o with
  | None => Omit f = true
  | Some bs => Omit f = false /\ Encodes (Value f) bs
  end.

Lemma lastSetIdx_from_trim fields os idx last :
  Forall2 field_bytes fields os ->
  lastSetIdx_from idx last fields
  = if decide (trim os = []) then last else idx + zlen (trim os) - 1.
Proof.
  intros H. revert idx last. induction H as [|f o fs os Hf H IH]; intros idx last; [done|].
  cbn [lastSetIdx_from trim]. rewrite IH. destruct o as [bs|]; cbn in Hf.
  - destruct Hf as [-> _]. destruct (trim os); repeat case_decide; try done; zlia.
  - rewrite Hf. destruct (trim os); repeat case_decide; try done; zlia.
Qed.

Lemma lastSetIdx_trim fields os :
  Forall2 field_bytes fields os -> lastSetIdx fields = zlen (trim os) - 1.
Proof.
  intros H. unfold lastSetIdx. rewrite (lastSetIdx_from_trim _ _ _ _ H).
  case_decide as E; [by rewrite E|lia].
Qed.

Lemma trim_prefix {A} (os : list (option A)) : trim os = take (length (trim os)) os.
Proof.
  induction os as [|o os IH]; [done|]. cbn [trim].
  destruct (trim os) as [|t ts] eqn:E, o as [bs|]; cbn [length take]; try done; by f_equal.
Qed.

Lemma Encodes_marshalFields fields os :
  Forall2 field_bytes fields os -> Encodes (marshalFields fields) (concat (map enc_field os)).
Proof.
  induction 1 as [|f o fs os Hf H IH]; cbn [marshalFields map concat]; [apply Encodes_ret|].
  apply Encodes_bind; [|done]. destruct o as [bs|]; cbn in *.
  - destruct Hf as [-> ?]. done.
  - rewrite Hf. apply Encodes_Append.
Qed.

Lemma Encodes_MarshalComposite code fields os :
  Forall2 field_bytes fields os -> Encodes (MarshalComposite code fields) (enc_composite code os).
Proof.
  intros H. unfold MarshalComposite, enc_composite. rewrite (lastSetIdx_trim _ _ H).
  destruct (trim os) as [|t ts] eqn:E; [apply Encodes_Append|].
  replace (zlen (t :: ts) - 1 =? -1) with false by zlia.
  apply Encodes_bind; [apply Encodes_Append|]. cbn [map enc_list].
  replace (zlen (t :: ts) - 1 + 1) with (zlen (map enc_field (t :: ts))) by zlia.
  apply Encodes_sized_list. rewrite <- (map_cons enc_field), <- E, (trim_prefix os).
  rewrite zlen_map, to_nat_zlen, length_take_le.
  - by apply Encodes_marshalFields, Forall2_take.
  - rewrite trim_prefix, length_take. lia.
Qed.

(** *** Arrays *)

Lemma zlen_concat_const {A} (f : A -> bytes) k l :
  Forall (fun x => zlen (f x) = k) l -> zlen (concat (map f l)) = zlen l * k.
Proof. induction 1; cbn [map concat]; zlia. Qed.

Lemma Encodes_writeArrayHeader n sz ty body m :
  1 <= sz -> 0 <= n -> zlen body = n * sz -> Encodes m body ->
  Encodes (writeArrayHeader n sz ty ≫= fun _ => m) (enc_array n ty body).
Proof.
  intros Hsz Hn Hb Hm. unfold writeArrayHeader, enc_array.
  replace (zlen body + 2 <=? 255) with (n * sz + array8TLSize <=? MaxUint8)
    by (unfold array8TLSize, MaxUint8; by rewrite Hb).
  destruct (Z.leb_spec (n * sz + array8TLSize) MaxUint8) as [Hl|Hl];
    unfold array8TLSize, array32TLSize, MaxUint8 in *; (apply Encodes_bind; [|done]).
  - eapply Encodes_cons_eq; [apply Encodes_Append|].
    rewrite !u8_small by (unfold is_u; nia). by rewrite Hb.
  - encodes. rewrite !be_bytes4_u32. cbn [app]. by rewrite Hb.
Qed.

(** A fixed-size array: header and one writer per element. *)
Lemma Encodes_fixed_array {A} (k : nat) ty (w : A -> M Buffer unit) (f : A -> bytes) (l : list A) :
  (1 <= k)%nat -> (forall x, Encodes (w x) (f x)) ->
  Forall (fun x => zlen (f x) = Z.of_nat k) l ->
  Encodes (writeArrayHeader (zlen l) (Z.of_nat k) ty ≫= fun _ => writeAll w l)
    (enc_array_of ty f l).
Proof.
  intros Hk Hw Hf. apply Encodes_writeArrayHeader; [lia|apply zlen_nonneg| |].
  - by apply zlen_concat_const.
  - apply Encodes_writeAll, Forall_true. done.
Qed.

Lemma Forall_all {A} (P : A -> Prop) l : (forall x, P x) -> Forall P l.
Proof. intros. by apply Forall_true. Qed.

Lemma Encodes_narrow (wide : bool) code code_wide k (w : Z -> M Buffer unit) (a : list Z) :
  code <> code_wide -> (1 <= k)%nat -> (forall x, Encodes (w x) (be_bytes k x)) ->
  Encodes (writeArrayHeader (zlen a) (if wide then Z.of_nat k else 1)
             (if wide then code_wide else code) ≫= fun _ =>
           if (if wide then code_wide else code) =? code_wide then writeAll w a
           else writeAll (fun x => AppendByte (u8 x)) a)
    (enc_narrow wide code code_wide k a).
Proof.
  intros Hc Hk Hw. unfold enc_narrow. destruct wide.
  - rewrite Z.eqb_refl. apply Encodes_fixed_array; [done..|]. apply Forall_all. intros.
    apply zlen_be_bytes.
  - replace (code =? code_wide) with false by lia.
    apply (Encodes_fixed_array 1); [lia| |by apply Forall_all]. intros. apply Encodes_Append.
Qed.

Lemma elementsSize_acc a n : fold_left (fun n e => n + zlen e) a n = n + elementsSize a.
Proof.
  unfold elementsSize. revert n. induction a as [|e a IH]; intros n; cbn [fold_left]; [lia|].
  rewrite IH, (IH (0 + _)). lia.
Qed.

Lemma zlen_elements k (f : bytes -> bytes) a :
  (forall e, zlen (f e) = k + zlen e) ->
  zlen (enc_elements f a) = elementsSize a + zlen a * k.
Proof.
  intros Hf. unfold enc_elements. induction a as [|e a IH]; cbn [map concat]; [done|].
  unfold elementsSize. cbn [fold_left]. rewrite elementsSize_acc, zlen_app, Hf, IH, zlen_cons. lia.
Qed.

Lemma Encodes_writeVariableArrayHeader n total ty body m :
  let k := if Z.land ty 240 =? 176 then 4 else 1 in
  0 <= n -> 0 <= total -> zlen body = total + n * k -> Encodes m body ->
  Encodes (writeVariableArrayHeader n total ty ≫= fun _ => m) (enc_array n ty body).
Proof.
  intros k Hn Ht Hb Hm.
  unfold writeVariableArrayHeader, enc_array. fold k.
  assert (1 <= k) by (subst k; destruct (_ =? _); lia).
  replace (zlen body + 2 <=? 255) with (total + n * k + array8TLSize <=? MaxUint8)
    by (unfold array8TLSize, MaxUint8; by rewrite Hb).
  destruct (Z.leb_spec (total + n * k + array8TLSize) MaxUint8) as [Hl|Hl];
    unfold array8TLSize, array32TLSize, MaxUint8 in *; (apply Encodes_bind; [|done]).
  - eapply Encodes_cons_eq; [apply Encodes_Append|].
    rewrite !u8_small by (unfold is_u; nia). by rewrite Hb.
  - encodes. rewrite !be_bytes4_u32. cbn [app]. by rewrite Hb.
Qed.

Lemma elementsSize_nonneg a : 0 <= elementsSize a.
Proof.
  induction a as [|e a IH]; [done|]. unfold elementsSize. cbn [fold_left].
  rewrite elementsSize_acc. zlia.
Qed.

Lemma Encodes_strings code code_wide a :
  code <> code_wide -> Z.land code 240 <> 176 -> Z.land code_wide 240 = 176 ->
  let ty := if existsb (fun e => zlen e >? MaxUint8) a then code_wide else code in
  Encodes (writeVariableArrayHeader (zlen a) (elementsSize a) ty ≫= fun _ =>
           writeElements (ty =? code_wide) a)
    (enc_strings code code_wide a).
Proof.
  intros Hc Hn Hw ty. unfold enc_strings, enc_array_of, writeElements.
  change (fun e => zlen e >? 255) with (fun e : bytes => zlen e >? MaxUint8).
  pose proof (zlen_nonneg a). pose proof (elementsSize_nonneg a).
  destruct (existsb _ a) in *; subst ty; cbn [negb].
  - rewrite Z.eqb_refl. apply Encodes_writeVariableArrayHeader; [done..| |].
    + rewrite Hw. apply zlen_elements. intros e. by rewrite zlen_app, zlen_be_bytes4.
    + apply Encodes_writeAll, Forall_all. intros e. encodes. by rewrite be_bytes4_u32.
  - replace (code =? code_wide) with false by lia.
    apply Encodes_writeVariableArrayHeader; [done..| |].
    + replace (Z.land code 240 =? 176) with false by lia. apply zlen_elements. intros. zlia.
    + apply Encodes_writeAll, Forall_all. intros e. encodes. done.
Qed.

(** *** Sizes *)

Lemma zlen_concat_in (x : bytes) l : In x l -> zlen x <= zlen (concat l).
Proof.
  induction l as [|y l IH]; [done|]. cbn [In concat]. intros [->|H]; [zlia|].
  specialize (IH H). zlia.
Qed.

Lemma zlen_enc_sized code n body : zlen (enc_sized code n body) = 9 + zlen body.
Proof. unfold enc_sized. zlia. Qed.

Lemma zlen_enc_list l : zlen (concat l) < zlen (enc_list l).
Proof. destruct l as [|x l]; [done|]. cbn [enc_list]. rewrite zlen_enc_sized. lia. Qed.

Lemma zlen_enc_list_pos l : 1 <= zlen (enc_list l).
Proof. pose proof (zlen_enc_list l). pose_zlen. lia. Qed.

Lemma zlen_enc_map_pos kvs : 1 <= zlen (enc_map kvs).
Proof. unfold enc_map. rewrite zlen_enc_sized. zlia. Qed.

Lemma zlen_enc_composite_pos code os : 1 <= zlen (enc_composite code os).
Proof. unfold enc_composite. zlia. Qed.

Lemma zlen_enc_variable c8 c32 s : 2 + zlen s <= zlen (enc_variable c8 c32 s).
Proof. unfold enc_variable. destruct (_ <? _); zlia. Qed.

Lemma zlen_enc_array_pos n ty body : 1 <= zlen (enc_array n ty body).
Proof. unfold enc_array. destruct (_ <=? _); zlia. Qed.

Lemma zlen_enc_uint64_pos n : 1 <= zlen (enc_uint64 n).
Proof. unfold enc_uint64. repeat dm; zlia. Qed.
Lemma zlen_enc_uint32_pos n : 1 <= zlen (enc_uint32 n).
Proof. unfold enc_uint32. repeat dm; zlia. Qed.
Lemma zlen_enc_int64_pos n : 1 <= zlen (enc_int64 n).
Proof. unfold enc_int64. repeat dm; zlia. Qed.
Lemma zlen_enc_int32_pos n : 1 <= zlen (enc_int32 n).
Proof. unfold enc_int32. repeat dm; zlia. Qed.

Lemma enc_variable_pos c8 c32 s : 1 <= zlen (enc_variable c8 c32 s).
Proof. pose proof (zlen_enc_variable c8 c32 s). pose_zlen. lia. Qed.

Lemma cons_pos {A} (x : A) l : 1 <= zlen (x :: l).
Proof. zlia. Qed.

Create HintDb encpos.
#[export] Hint Resolve zlen_enc_list_pos zlen_enc_map_pos zlen_enc_composite_pos
  zlen_enc_array_pos zlen_enc_uint64_pos zlen_enc_uint32_pos zlen_enc_int64_pos
  zlen_enc_int32_pos enc_variable_pos cons_pos : encpos.

Lemma enc_error_pos_ f e : 1 <= zlen (enc_error_ f e).
Proof. destruct e. apply zlen_enc_composite_pos. Qed.
Lemma enc_state_pos_ f s : 1 <= zlen (enc_state_ f s).
Proof. destruct s as [| |[]| |]; apply zlen_enc_composite_pos. Qed.
Lemma enc_narrow_pos w c c' k a : 1 <= zlen (enc_narrow w c c' k a).
Proof. destruct w; apply zlen_enc_array_pos. Qed.
Lemma enc_strings_pos c c' a : 1 <= zlen (enc_strings c c' a).
Proof. unfold enc_strings. destruct (existsb _ _); apply zlen_enc_array_pos. Qed.
#[export] Hint Resolve enc_error_pos_ enc_state_pos_ enc_narrow_pos enc_strings_pos : encpos.

Lemma enc_pos v : vokb v = true -> 1 <= zlen (enc v).
Proof.
  destruct v; intros Hv; try done; cbn [enc];
    unfold enc_string, enc_symbol, enc_binary, enc_bool, enc_array_of, enc_annotations_;
    auto with encpos.
Qed.

Lemma enc_annotation_key_pos k : annotation_key_ok k = true -> 1 <= zlen (enc_annotation_key k).
Proof. destruct k; intros; try done; cbn; unfold enc_symbol; auto with encpos. Qed.

(** Entry encodings are parts of the map's encoding, and at least two bytes. *)
Definition entries {K V} (fk : K -> bytes) (fv : V -> bytes) (m : list (K * V)) :=
  map (fun kv => match kv with (k, x) => (fk k, fv x) end) m.

Lemma entries_size {K V} (fk : K -> bytes) (fv : V -> bytes) m :
  Forall (fun kv => 1 <= zlen (fk kv.1) /\ 1 <= zlen (fv kv.2)) m ->
  zlen m * 2 <= zlen (concat (map (fun kv => kv.1 ++ kv.2) (entries fk fv m))).
Proof.
  induction 1 as [|[k x] m [? ?] H IH]; cbn [entries map concat] in *; [done|].
  cbn [fst snd] in *. rewrite zlen_cons, !zlen_app. unfold entries in IH. lia.
Qed.

Lemma entries_in {K V} (fk : K -> bytes) (fv : V -> bytes) m kv :
  In kv m ->
  zlen (fk kv.1) + zlen (fv kv.2)
  <= zlen (concat (map (fun kv => kv.1 ++ kv.2) (entries fk fv m))).
Proof.
  intros H. rewrite <- zlen_app. apply zlen_concat_in, in_map_iff.
  exists (fk kv.1, fv kv.2). split; [done|]. apply in_map_iff. exists kv.
  split; [by destruct kv|done].
Qed.

Lemma Encodes_map {K V} (wk : K -> M Buffer unit) (wv : V -> M Buffer unit) fk fv m :
  Forall (fun kv => 1 <= zlen (fk kv.1) /\ 1 <= zlen (fv kv.2) /\
            (zlen (fk kv.1) < 2 ^ 32 -> zlen (fv kv.2) < 2 ^ 32 ->
             Encodes (wk kv.1) (fk kv.1) /\ Encodes (wv kv.2) (fv kv.2))) m ->
  zlen (enc_map (entries fk fv m)) < 2 ^ 32 ->
  Encodes (writeMap (zlen m * 2) (writeEntries wk wv m)) (enc_map (entries fk fv m)).
Proof.
  intros H Hs. unfold enc_map in *. rewrite zlen_enc_sized in Hs.
  assert (zlen (entries fk fv m) = zlen m) as E by apply zlen_map. rewrite E.
  pose proof (entries_size fk fv m) as Hsz. apply Encodes_writeMap.
  - apply Encodes_writeEntries. rewrite List.Forall_forall in *. intros kv Hin.
    pose proof (entries_in fk fv m kv Hin). destruct (H kv Hin) as (? & ? & He).
    apply He; lia.
  - unfold MaxUint32. assert (zlen m * 2 <= zlen (concat (map (fun kv => kv.1 ++ kv.2)
      (entries fk fv m)))); [apply Hsz|lia].
    eapply List.Forall_impl; [|exact H]. cbn. tauto.
Qed.

Lemma trim_in {A} (x : A) os : In (Some x) os -> In (Some x) (trim os).
Proof.
  induction os as [|o os IH]; [done|]. cbn [In trim]. intros [->|H].
  - destruct (trim os); by left.
  - specialize (IH H). destruct (trim os) as [|t ts], o; try done; by right.
Qed.

Lemma composite_in code bs os : In (Some bs) os -> zlen bs < zlen (enc_composite code os).
Proof.
  intros H. unfold enc_composite. rewrite zlen_app.
  pose proof (zlen_enc_list (map enc_field (trim os))).
  assert (zlen bs <= zlen (concat (map enc_field (trim os)))); [|pose_zlen; zlia].
  apply zlen_concat_in, in_map_iff. exists (Some bs). split; [done|by apply trim_in].
Qed.

(** *** The whole encoder *)

Lemma Encodes_variable_size c8 c32 s :
  zlen (enc_variable c8 c32 s) < 2 ^ 32 -> Encodes (writeVariable c8 c32 s) (enc_variable c8 c32 s).
Proof.
  intros H. apply Encodes_writeVariable. pose proof (zlen_enc_variable c8 c32 s).
  unfold MaxUint32. lia.
Qed.

Lemma Encodes_string_size s :
  utf8_valid s = true -> zlen (enc_string s) < 2 ^ 32 -> Encodes (writeString s) (enc_string s).
Proof.
  intros Hv H. apply Encodes_writeString; [done|].
  pose proof (zlen_enc_variable TypeCodeStr8 TypeCodeStr32 s). unfold enc_string, MaxUint32 in *. lia.
Qed.

Lemma Encodes_annotation_key k :
  annotation_key_ok k = true -> zlen (enc_annotation_key k) < 2 ^ 32 ->
  Encodes (writeAnnotationKey k) (enc_annotation_key k).
Proof.
  destruct k; intros Hk Hs; try done; cbn in *;
    first [apply Encodes_writeInt64 | by apply Encodes_variable_size].
Qed.

(** What the induction over values provides for a nested value. *)
Definition wire_ok (w : value -> M Buffer unit) (v : value) : Prop :=
  vokb v = true -> zlen (enc v) < 2 ^ 32 -> Encodes (w v) (enc v).

Lemma Encodes_mapStringAny_ w m :
  Forall (fun kv => wire_ok w kv.2) m ->
  forallb (fun kv => match kv with (k, x) => utf8_valid k && vokb x end) m = true ->
  zlen (enc_map (entries enc_string enc m)) < 2 ^ 32 ->
  Encodes (writeMapStringAny w m) (enc_map (entries enc_string enc m)).
Proof.
  rewrite forallb_forall, List.Forall_forall. intros H Hok Hs. apply Encodes_map; [|done].
  apply List.Forall_forall. intros [k x] Hin. specialize (Hok _ Hin). specialize (H _ Hin).
  cbn in *. apply andb_prop in Hok as [Hk Hx]. split_and!; [apply enc_variable_pos|by apply enc_pos|].
  intros. split; [by apply Encodes_string_size|by apply H].
Qed.

Lemma Encodes_annotations_ w m :
  Forall (fun kv => wire_ok w kv.1 /\ wire_ok w kv.2) m ->
  annotationsokb_ vokb m = true ->
  zlen (enc_annotations_ enc m) < 2 ^ 32 ->
  Encodes (writeAnnotations w m) (enc_annotations_ enc m).
Proof.
  intros H Hok Hs. unfold annotationsokb_ in Hok. apply andb_prop in Hok as [Hok _].
  rewrite forallb_forall in Hok. rewrite List.Forall_forall in H.
  apply (Encodes_map _ _ enc_annotation_key enc); [|done].
  apply List.Forall_forall. intros [k x] Hin. specialize (Hok _ Hin). destruct (H _ Hin) as [_ Hx].
  cbn in *. apply andb_prop in Hok as [Hk Hv].
  split_and!; [by apply enc_annotation_key_pos|by apply enc_pos|].
  intros. split; [by apply Encodes_annotation_key|by apply Hx].
Qed.

Lemma Encodes_error_ w e :
  PError (wire_ok w) e -> errorokb_ vokb e = true -> zlen (enc_error_ enc e) < 2 ^ 32 ->
  Encodes (Error_Marshal_ w e) (enc_error_ enc e).
Proof.
  destruct e as [c d info]. unfold PError, errorokb_, enc_error_. cbn [Info]. intros H Hok Hs.
  apply andb_prop in Hok as [Hok _]. apply andb_prop in Hok as [Hd Hi].
  apply Encodes_MarshalComposite. constructor; [|constructor; [|constructor; [|constructor]]].
  - split; [done|]. apply Encodes_variable_size.
    eapply Z.lt_trans; [|exact Hs]; apply composite_in; by left.
  - case_bool_decide; [done|]. split; [done|]. apply Encodes_string_size; [done|].
    eapply Z.lt_trans; [|exact Hs]. apply composite_in. cbn. auto.
  - destruct info as [|kv info]; [done|]. split; [cbn; zlia|].
    apply Encodes_mapStringAny_; [done..|]. eapply Z.lt_trans; [|exact Hs].
    apply composite_in. cbn. auto.
Qed.

Lemma Encodes_state_ w s :
  PState (wire_ok w) s -> stateokb_ vokb s = true -> zlen (enc_state_ enc s) < 2 ^ 32 ->
  Encodes (DeliveryState_Marshal_ w s) (enc_state_ enc s).
Proof.
  destruct s as [n off| |[e|]| |f u [m|]]; cbn [PState stateokb_ enc_state_ DeliveryState_Marshal_];
    intros H Hok Hs; apply Encodes_MarshalComposite; repeat (apply List.Forall2_cons);
    try apply List.Forall2_nil; cbn [field_bytes Omit Value]; try done;
    try destruct f; try destruct u; try done; (split; [done|]); try apply Encodes_writeBool.
  all: try (apply Encodes_annotations_; [done..|]; eapply Z.lt_trans; [|exact Hs];
    apply composite_in; cbn; auto).
  - apply Encodes_writeUint32. unfold inu in Hok. lia.
  - apply Encodes_writeUint64. unfold inu in Hok. lia.
  - apply Encodes_error_; [done..|]. eapply Z.lt_trans; [|exact Hs]; apply composite_in; by left.
Qed.

Lemma zlen_u64_pos w n : inu w n = true -> 0 <= n.
Proof. unfold inu. lia. Qed.

Lemma Encodes_arrayUint32 a : Encodes (arrayUint32_Marshal a) (enc (VArrayUint32 a)).
Proof.
  apply (Encodes_narrow _ TypeCodeSmallUint TypeCodeUint 4 AppendUint32); [done|lia|].
  apply Encodes_AppendUint32.
Qed.
Lemma Encodes_arrayInt32 a : Encodes (arrayInt32_Marshal a) (enc (VArrayInt32 a)).
Proof.
  apply (Encodes_narrow _ TypeCodeSmallint TypeCodeInt 4 (fun x => AppendUint32 (u32 x)));
    [done|lia|]. intros. encodes. apply be_bytes4_u32.
Qed.
Lemma Encodes_arrayUint64 a : Encodes (arrayUint64_Marshal a) (enc (VArrayUint64 a)).
Proof.
  apply (Encodes_narrow _ TypeCodeSmallUlong TypeCodeUlong 8 AppendUint64); [done|lia|].
  apply Encodes_AppendUint64.
Qed.
Lemma Encodes_arrayInt64 a : Encodes (arrayInt64_Marshal a) (enc (VArrayInt64 a)).
Proof.
  apply (Encodes_narrow _ TypeCodeSmalllong TypeCodeLong 8 (fun x => AppendUint64 (u64 x)));
    [done|lia|]. intros. encodes. apply be_bytes8_u64.
Qed.

Lemma wire_leaf v : is_leaf v = true -> wire_ok Marshal v.
Proof.
  intros Hl Hok Hs. destruct v; try done; cbn [enc Marshal] in *.
  all: try apply Encodes_Append.
  all: try apply Encodes_writeBool.
  all: try (apply Encodes_writeUint64; by eapply zlen_u64_pos).
  all: try (apply Encodes_writeUint32; by eapply zlen_u64_pos).
  all: try apply Encodes_writeInt64.
  all: try apply Encodes_writeInt32.
  all: try (by apply Encodes_string_size).
  all: try (by apply Encodes_variable_size).
  all: try match goal with
    | |- Encodes (arrayUint32_Marshal _) _ => apply Encodes_arrayUint32
    | |- Encodes (arrayInt32_Marshal _) _ => apply Encodes_arrayInt32
    | |- Encodes (arrayUint64_Marshal _) _ => apply Encodes_arrayUint64
    | |- Encodes (arrayInt64_Marshal _) _ => apply Encodes_arrayInt64
    | |- Encodes (arraySymbol_Marshal _) _ => by apply Encodes_strings
    | |- Encodes (arrayBinary_Marshal _) _ => by apply Encodes_strings
    end.
  - (* uint16 *) unfold writeUint16. encodes. done.
  - (* int16 *) unfold writeInt16. encodes. by rewrite be_bytes2_u16.
  - (* float32 *) unfold writeFloat. encodes. done.
  - (* float64 *) unfold writeDouble. encodes. done.
  - (* time *) unfold writeTimestamp. encodes. by rewrite be_bytes8_u64.
  - (* uuid *) unfold UUID_Marshal. encodes. done.
  - (* ubyte array *) apply Encodes_writeArrayHeader; [lia|apply zlen_nonneg|lia|apply Encodes_Append].
  - (* int8 array *) apply (Encodes_fixed_array 1); [lia|intros; apply Encodes_Append|by apply Forall_all].
  - (* uint16 array *)
    apply (Encodes_fixed_array 2); [lia|apply Encodes_AppendUint16|by apply Forall_all].
  - (* int16 array *)
    apply (Encodes_fixed_array 2); [lia|intros; encodes; apply be_bytes2_u16|by apply Forall_all].
  - (* float array *)
    apply (Encodes_fixed_array 4); [lia|apply Encodes_AppendUint32|by apply Forall_all].
  - (* double array *)
    apply (Encodes_fixed_array 8); [lia|apply Encodes_AppendUint64|by apply Forall_all].
  - (* bool array *)
    apply (Encodes_fixed_array 1); [lia|intros; apply Encodes_Append|by apply Forall_all].
  - (* string array *)
    unfold arrayString_Marshal. cbn in Hok. apply andb_prop in Hok as [Hu _].
    replace (existsb _ a) with false; [by apply Encodes_strings|].
    symmetry. apply not_true_iff_false. rewrite existsb_exists. intros (e & Hin & He).
    rewrite forallb_forall in Hu. by rewrite (Hu e Hin) in He.
  - (* time array *)
    apply (Encodes_fixed_array 8); [lia|intros; encodes; apply be_bytes8_u64|by apply Forall_all].
  - (* uuid array *)
    apply (Encodes_fixed_array 16); [lia|intros; apply Encodes_Append|].
    cbn in Hok. rewrite forallb_forall in Hok. apply List.Forall_forall. intros u Hu.
    specialize (Hok u Hu). lia.
Qed.

Lemma wire_map m :
  Forall (fun kv => wire_ok Marshal kv.1 /\ wire_ok Marshal kv.2) m -> wire_ok Marshal (VMapAnyAny m).
Proof.
  intros H Hok Hs. cbn [enc Marshal vokb] in *. apply andb_prop in Hok as [Hok _].
  rewrite forallb_forall in Hok. rewrite List.Forall_forall in H.
  apply (Encodes_map _ _ enc enc); [|done].
  apply List.Forall_forall. intros [k x] Hin. specialize (Hok _ Hin).
  destruct (H _ Hin) as [Hk Hx]. cbn in *. rewrite !andb_true_iff in Hok.
  destruct Hok as [[? ?] _]. split_and!; [by apply enc_pos..|].
  intros. split; [by apply Hk|by apply Hx].
Qed.

Lemma wire_mapSymbol m :
  Forall (fun kv => wire_ok Marshal kv.2) m -> wire_ok Marshal (VMapSymbolAny m).
Proof.
  intros H Hok Hs. cbn [enc Marshal vokb] in *. apply andb_prop in Hok as [Hok _].
  rewrite forallb_forall in Hok. rewrite List.Forall_forall in H.
  apply (Encodes_map _ _ enc_symbol enc); [|done].
  apply List.Forall_forall. intros [k x] Hin. specialize (Hok _ Hin). specialize (H _ Hin).
  cbn in *. split_and!; [apply enc_variable_pos|by apply enc_pos|].
  intros. split; [by apply Encodes_variable_size|by apply H].
Qed.

Lemma wire_all v : wire_ok Marshal v.
Proof.
  induction v as [v Hl|l H|m H|m H|m H|m H|d v Hd Hv|e He|s Hs] using value_nested_ind.
  - by apply wire_leaf.
  - intros Hok Hs. cbn [enc Marshal vokb] in *. apply Encodes_list_Marshal.
    rewrite forallb_forall in Hok. rewrite List.Forall_forall in *. intros x Hin.
    apply (H x Hin); [by apply Hok|]. pose proof (zlen_enc_list (map enc l)).
    pose proof (zlen_concat_in (enc x) (map enc l) ltac:(by apply in_map)). lia.
  - by apply wire_map.
  - intros Hok Hs. cbn [vokb] in Hok. apply andb_prop in Hok as [Hok _].
    by apply Encodes_mapStringAny_.
  - by apply wire_mapSymbol.
  - intros Hok Hs. by apply Encodes_annotations_.
  - intros Hok Hs. cbn [enc Marshal vokb] in *. rewrite !andb_true_iff in Hok.
    destruct Hok as [[? ?] _]. unfold DescribedType_Marshal_.
    apply (Encodes_bind _ _ [0]); [apply Encodes_Append|].
    apply Encodes_bind; [apply Hd|apply Hv]; try done; zlia.
  - intros Hok Hz. by apply Encodes_error_.
  - intros Hok Hz. by apply Encodes_state_.
Qed.

(** C11: C11: [Marshal], which writes headers with placeholder sizes and overwrites
    them afterwards, appends exactly the wire encoding [enc v] of the value to
    whatever the buffer holds, and returns no error, for every sendable value
    whose encoding is shorter than 4 GiB. *)
Theorem Marshal_wire v :
  vokb v = true -> zlen (enc v) < 2 ^ 32 -> Encodes (Marshal v) (enc v).
Proof. apply wire_all. Qed.

(** A value that nests maps, arrays, described types, errors and states. *)
Definition sample_value : value :=
  VList
    [VMapStringAny [([107], VInt (-5)); ([107; 50], VArrayInt32 [1; -2; 70000])];
     VMapAnyAny [(VUint32 7, VSymbol [120]); (VString [97], VNil)];
     VAnnotations [(VInt 3, VBool true); (VSymbol [115], VBinary [0; 255])];
     VDescribed (VUint64 1000) (VArrayString [[97; 98]; [99]]);
     VDeliveryState (StateRejected (Some (mkError [101] [100] [([105], VTime (mkTime 5 1500000))])));
     VDeliveryState (StateModified true false (Some [(VString [97], VUint16 9)]));
     VLifetimePolicy TypeCodeDeleteOnClose; VUUID (replicate 16 7)].

Lemma Marshal_wire_witness :
  vokb sample_value = true /\ Encodes (Marshal sample_value) (enc sample_value).
Proof.
  split; [vm_compute; reflexivity|].
  apply (Marshal_wire sample_value); vm_compute; reflexivity.
Defined.

End Wire.
