(* ===== verification/CodecRoundtrip.v ===== *)
(** * CodecRoundtrip: decoding inverts encoding

    One [Decodes] lemma per wire encoding of [Wire], composed along the
    structure of the decoder: scalars, strings, headers, composites, lists,
    maps, arrays, and the values that contain no other value.
    [ValueRoundtrip] closes the recursion. *)

From S2P Require Import Prelude Buffer Types Encode Decode Wire CodecSafety.
Import Buffer Encode Decode Wire CodecSafety.

Module CodecRoundtrip.

(** ** Rules for the decoder's control flow *)

Lemma Decodes_type {A} (f : Z -> M Buffer A) c bs k a :
  Decodes (f c) bs k a -> Decodes (readType ≫= f) (c :: bs) k a.
Proof.
  intros H pre rest Hr. cbn [app]. erewrite bind_Ok by apply ReadByte_at.
  rewrite H by done. by rewrite <- app_assoc.
Qed.

Lemma Decodes_fmap {A B} (g : A -> B) (d : M Buffer A) bs k a :
  Decodes d bs k a -> Decodes (g <$> d) bs k (g a).
Proof.
  intros H pre rest Hr. unfold fmap, M_fmap. by rewrite (bind_Ok _ _ _ _ _ (H pre rest Hr)).
Qed.

Lemma Decodes_then {A B} (d : M Buffer A) (g : A -> B) bs k a :
  Decodes d bs k a -> Decodes (d ≫= fun x => mret (g x)) bs k (g a).
Proof. apply Decodes_fmap. Qed.

Lemma Decodes_getLen {A} (f : Z -> M Buffer A) bs k a :
  (forall n, zlen bs + k <= n -> Decodes (f n) bs k a) -> Decodes (getLen ≫= f) bs k a.
Proof.
  intros H pre rest Hr. erewrite bind_Ok by apply getLen_at.
  apply H; [|done]. zlia.
Qed.

Lemma Decodes_getBytes {A} (f : bytes -> M Buffer A) bs k a :
  (forall tail, k <= zlen tail -> Decodes (f (bs ++ tail)) bs k a) ->
  Decodes (getBytes ≫= f) bs k a.
Proof.
  intros H pre rest Hr. erewrite bind_Ok by apply getBytes_at. by apply H.
Qed.

Lemma Decodes_NextOr n e bs k : n = zlen bs -> Decodes (NextOr n e) bs k bs.
Proof.
  intros -> pre rest Hr. unfold NextOr. erewrite bind_Ok by by apply Next_at. done.
Qed.

Lemma Decodes_eq {A} (d : M Buffer A) bs k a a' : Decodes d bs k a -> a = a' -> Decodes d bs k a'.
Proof. by intros H ->. Qed.

Lemma Decodes_seq {A B} (d : M Buffer A) (f : A -> M Buffer B) bs1 bs2 k a c :
  Decodes d bs1 (zlen bs2 + k) a -> Decodes (f a) bs2 k c ->
  Decodes (d ≫= f) (bs1 ++ bs2) k c.
Proof. intros H1 H2. eapply Decodes_bind; [exact H1|exact H2|lia]. Qed.

Lemma Decodes_nil {A B} (d : M Buffer A) (f : A -> M Buffer B) bs k a c :
  Decodes d bs k a -> Decodes (f a) [] k c -> Decodes (d ≫= f) bs k c.
Proof.
  intros H1 H2. rewrite <- (app_nil_r bs). apply (Decodes_seq _ _ _ _ _ a); [|done].
  eapply Decodes_weaken; [exact H1|]. rewrite zlen_nil. lia.
Qed.

(** Bytes that do not start with the null code. *)
Definition notnull (bs : bytes) : Prop := exists c l, bs = c :: l /\ c <> TypeCodeNull.

Lemma Decodes_tryReadNull {A} (f : bool -> M Buffer A) bs k a :
  notnull bs -> Decodes (f false) bs k a -> Decodes (tryReadNull ≫= f) bs k a.
Proof.
  intros (c & l & -> & Hc) H pre rest Hr. unfold mbind, M_bind.
  rewrite tryReadNull_at. cbn [app]. replace (c =? TypeCodeNull) with false by lia. by apply H.
Qed.

Lemma tryReadNull_null pre rest :
  tryReadNull (at_ pre (TypeCodeNull :: rest)) = (Ok true, at_ (pre ++ [TypeCodeNull]) rest).
Proof. by rewrite tryReadNull_at. Qed.

(** ** Scalars *)

Lemma inu_is w n : inu w n = true -> is_u w n.
Proof. unfold inu, is_u. lia. Qed.
Lemma ini_is w n : ini w n = true -> is_i w n.
Proof. unfold ini, is_i. lia. Qed.

Lemma i8_u8 n : is_i 8 n -> i8 (u8 n) = n.
Proof. ilia. Qed.
Lemma i16_u16 n : is_i 16 n -> i16 (u16 n) = n.
Proof. ilia. Qed.
Lemma i32_u32 n : is_i 32 n -> i32 (u32 n) = n.
Proof. ilia. Qed.
Lemma i64_u64 n : is_i 64 n -> i64 (u64 n) = n.
Proof. ilia. Qed.

Lemma Decodes_ReadByte' c k : Decodes ReadByte [c] k c.
Proof. intros pre rest _. apply ReadByte_at. Qed.

Lemma Decodes_readUlong n k : is_u 64 n -> Decodes readUlong (enc_uint64 n) k n.
Proof.
  intros Hn. unfold enc_uint64. destruct (Z.eqb_spec n 0) as [->|]; [|destruct (n <? 256)].
  - apply Decodes_type. cbn. apply Decodes_ret.
  - apply Decodes_type, Decodes_ReadByte'.
  - by apply Decodes_type, Decodes_ReadUint64.
Qed.

Lemma Decodes_readUint32 n k : is_u 32 n -> Decodes readUint32 (enc_uint32 n) k n.
Proof.
  intros Hn. unfold enc_uint32. destruct (Z.eqb_spec n 0) as [->|]; [|destruct (n <? 256)].
  - apply Decodes_type. cbn. apply Decodes_ret.
  - apply Decodes_type, Decodes_ReadByte'.
  - by apply Decodes_type, Decodes_ReadUint32.
Qed.

Lemma Decodes_readLong n k : is_i 64 n -> Decodes readLong (enc_int64 n) k n.
Proof.
  intros Hn. unfold enc_int64. destruct ((n <? 128) && (n >=? -128)) eqn:E; apply Decodes_type.
  - rewrite <- (i8_u8 n) at 2 by (unfold is_i; lia). apply Decodes_then, Decodes_ReadByte'.
  - rewrite <- (i64_u64 n) at 2 by done. apply Decodes_then. rewrite <- be_bytes8_u64.
    apply Decodes_ReadUint64, u64_range.
Qed.

Lemma Decodes_readInt32 n k : is_i 32 n -> Decodes readInt32 (enc_int32 n) k n.
Proof.
  intros Hn. unfold enc_int32. destruct ((n <? 128) && (n >=? -128)) eqn:E; apply Decodes_type.
  - rewrite <- (i8_u8 n) at 2 by (unfold is_i; lia). apply Decodes_then, Decodes_ReadByte'.
  - rewrite <- (i32_u32 n) at 2 by done. apply Decodes_then. rewrite <- be_bytes4_u32.
    apply Decodes_ReadUint32, u32_range.
Qed.

Lemma Decodes_readBool t k : Decodes readBool (enc_bool t) k t.
Proof. destruct t; apply Decodes_type; apply Decodes_ret. Qed.

Lemma time_ms_range t : is_i 64 (time_ms t).
Proof.
  unfold time_ms. pose proof (i64_range (sec t * 1000000000 + nsec t)) as H.
  change (i64 _) with (UnixNano t) in H. unfold is_i in *.
  Z.to_euclidean_division_equations; lia.
Qed.

Lemma Decodes_readTimestamp t k :
  Decodes readTimestamp (TypeCodeTimestamp :: be_bytes 8 (time_ms t)) k (norm_time t).
Proof.
  apply Decodes_type. unfold norm_time.
  rewrite <- (i64_u64 (time_ms t)) at 2 by apply time_ms_range.
  apply (Decodes_then _ (fun n => ms_time (i64 n))). rewrite <- be_bytes8_u64.
  apply Decodes_ReadUint64, u64_range.
Qed.


(** ** Strings and binary *)

Lemma Uint32_be4 n : is_u 32 n -> Uint32 (be_bytes 4 n) = n.
Proof. intros H. rewrite <- (app_nil_r (be_bytes 4 n)). by apply Uint32_be_bytes. Qed.

Lemma Decodes_len32 n e k :
  is_u 32 n -> Decodes (buf ← NextOr 4 e; mret (Uint32 buf)) (be_bytes 4 n) k n.
Proof.
  intros H. rewrite <- (Uint32_be4 n) at 2 by done. by apply Decodes_then, Decodes_NextOr.
Qed.

Lemma Decodes_ReadString_ c8 c32 s k :
  (c8, c32) = (TypeCodeStr8, TypeCodeStr32) \/ (c8, c32) = (TypeCodeSym8, TypeCodeSym32) ->
  zlen s < 2 ^ 32 -> Decodes ReadString (enc_variable c8 c32 s) k s.
Proof.
  intros Hc Hs. unfold enc_variable. destruct (zlen s <? 256); apply Decodes_type.
  - apply (Decodes_seq _ _ [zlen s] s _ (zlen s)); [|by apply Decodes_NextOr].
    destruct Hc as [[= -> ->]|[= -> ->]]; apply Decodes_ReadByte'.
  - apply (Decodes_seq _ _ _ _ _ (zlen s)); [|by apply Decodes_NextOr].
    destruct Hc as [[= -> ->]|[= -> ->]]; apply Decodes_len32; split; (apply zlen_nonneg || done).
Qed.

Lemma Decodes_readString s k : zlen s < 2 ^ 32 -> Decodes ReadString (enc_string s) k s.
Proof. apply Decodes_ReadString_. by left. Qed.
Lemma Decodes_readSymbol s k : zlen s < 2 ^ 32 -> Decodes ReadString (enc_symbol s) k s.
Proof. apply Decodes_ReadString_. by right. Qed.

Lemma Decodes_readBinary s k : zlen s < 2 ^ 32 -> Decodes readBinary (enc_binary s) k s.
Proof.
  intros Hs. assert (forall k, Decodes (if zlen s =? 0 then mret [] else NextOr (zlen s) invalidLength) s k s) as Hn.
  { intros k'. destruct (Z.eqb_spec (zlen s) 0) as [E|E]; [|by apply Decodes_NextOr].
    rewrite (zlen_0_nil _ E). apply Decodes_ret. }
  unfold enc_binary, enc_variable. destruct (zlen s <? 256); apply Decodes_type.
  - apply (Decodes_seq _ _ [zlen s] s _ (zlen s)); [apply Decodes_ReadByte'|apply Hn].
  - apply (Decodes_seq _ _ _ _ _ (zlen s)); [|apply Hn].
    apply Decodes_len32. split; [apply zlen_nonneg|done].
Qed.

(** ** Headers *)

Lemma Decodes_header32 size count k n e :
  is_u 32 size -> is_u 32 count -> size + 4 <= n ->
  Decodes (readHeader32 n e) (be_bytes 4 size ++ be_bytes 4 count) k count.
Proof.
  intros Hs Hc Hn. unfold readHeader32.
  eapply Decodes_nil; [apply Decodes_NextOr; zlia|].
  rewrite (take_app_length' _ _ 4), (drop_app_length' _ _ 4) by done.
  rewrite !Uint32_be4 by done. replace (_ >? _) with false by lia. apply Decodes_ret.
Qed.

(** The header of [enc_sized] for a list. *)
Lemma Decodes_listHeader count (body : bytes) :
  zlen body + 4 < 2 ^ 32 -> is_u 32 count ->
  Decodes readListHeader (TypeCodeList32 :: be_bytes 4 (zlen body + 4) ++ be_bytes 4 count)
    (zlen body) count.
Proof.
  intros Hb Hc. apply Decodes_type, Decodes_getLen. intros n Hn. cbn.
  apply Decodes_header32; [split; pose_zlen; lia|done|zlia].
Qed.

Lemma Decodes_mapHeader count (body : bytes) :
  zlen body + 4 < 2 ^ 32 -> 0 <= count <= zlen body ->
  Decodes readMapHeader (TypeCodeMap32 :: be_bytes 4 (zlen body + 4) ++ be_bytes 4 count)
    (zlen body) count.
Proof.
  intros Hb Hc. apply Decodes_type, Decodes_getLen. intros n Hn. cbn.
  eapply Decodes_nil; [apply Decodes_header32; [split; pose_zlen; lia|split; lia|zlia]|].
  apply Decodes_getLen. intros m Hm. rewrite zlen_nil in Hm.
  replace (count >? m) with false by lia. apply Decodes_ret.
Qed.

(** ** Composites *)

Lemma Decodes_Unmarshal {A} (u : M Buffer A) bs k a :
  notnull bs -> Decodes u bs k a -> Decodes (Unmarshal (DUnmarshaler u)) bs k (Some a).
Proof. intros Hn H. apply Decodes_tryReadNull; [done|]. by apply (Decodes_fmap Some). Qed.

(** [fields] decode the field encodings [os] and turn the struct [s] into [s']. *)
Inductive FieldsDec {S} : list (UnmarshalField S) -> list (option bytes) -> S -> S -> Prop :=
| FD_nil s : FieldsDec [] [] s s
| FD_some f fs bs os s a s' :
    notnull bs -> Decodes (Unmarshal (Field f)) bs 0 (Some a) ->
    FieldsDec fs os (uf_set f a s) s' ->
    FieldsDec (f :: fs) (Some bs :: os) s s'
| FD_none f fs os s s1 s' :
    match HandleNull f with None => Ok s | Some h => h s end = Ok s1 ->
    FieldsDec fs os s1 s' ->
    FieldsDec (f :: fs) (None :: os) s s'.

(** The rules for the three kinds of fields. *)
Lemma FD_uf {S A} (d : dest A) set a bs (fs : list (UnmarshalField S)) os s s' :
  notnull bs -> Decodes (Unmarshal d) bs 0 (Some a) -> FieldsDec fs os (set a s) s' ->
  FieldsDec (uf d set :: fs) (Some bs :: os) s s'.
Proof. intros. by eapply (FD_some (uf d set)). Qed.
Lemma FD_required {S A} (d : dest A) set msg a bs (fs : list (UnmarshalField S)) os s s' :
  notnull bs -> Decodes (Unmarshal d) bs 0 (Some a) -> FieldsDec fs os (set a s) s' ->
  FieldsDec (uf_required d set msg :: fs) (Some bs :: os) s s'.
Proof. intros. by eapply (FD_some (uf_required d set msg)). Qed.
Lemma FD_default {S A} (d : dest A) set v a bs (fs : list (UnmarshalField S)) os s s' :
  notnull bs -> Decodes (Unmarshal d) bs 0 (Some a) -> FieldsDec fs os (set a s) s' ->
  FieldsDec (uf_default d set v :: fs) (Some bs :: os) s s'.
Proof. intros. by eapply (FD_some (uf_default d set v)). Qed.
Lemma FD_uf_null {S A} (d : dest A) set (fs : list (UnmarshalField S)) os s s' :
  FieldsDec fs os s s' -> FieldsDec (uf d set :: fs) (None :: os) s s'.
Proof. intros. by eapply FD_none. Qed.
Lemma FD_default_null {S A} (d : dest A) set v (fs : list (UnmarshalField S)) os s s' :
  FieldsDec fs os (set v s) s' -> FieldsDec (uf_default d set v :: fs) (None :: os) s s'.
Proof. intros. by eapply FD_none. Qed.

Lemma FieldsDec_length {S} (fs : list (UnmarshalField S)) os s s' :
  FieldsDec fs os s s' -> length fs = length os.
Proof. induction 1; cbn; congruence. Qed.

Lemma runHandleNull_ok {S} (f : UnmarshalField S) s s1 r :
  match HandleNull f with None => Ok s | Some h => h s end = Ok s1 ->
  runHandleNull f s r = (Ok s1, r).
Proof. unfold runHandleNull. destruct (HandleNull f); [by intros ->|by intros [= ->]]. Qed.

Lemma handleNulls_ok {S} (fs : list (UnmarshalField S)) os s s' r :
  FieldsDec fs os s s' -> trim os = [] -> handleNulls fs s r = (Ok s', r).
Proof.
  induction 1 as [s|f fs bs os s a s' Hn Hd H IH|f fs os s s1 s' Hh H IH]; intros Ht; [done| |].
  - cbn in Ht. by destruct (trim os).
  - cbn [handleNulls]. unfold mbind, M_bind. rewrite (runHandleNull_ok _ _ _ _ Hh). apply IH.
    cbn in Ht. by destruct (trim os).
Qed.

(** The written fields, then the null handlers of the omitted tail. *)
Lemma Decodes_fields {S} (fs : list (UnmarshalField S)) os s s' idx n :
  FieldsDec fs os s s' -> n = length (trim os) ->
  Decodes (s1 ← unmarshalFields idx (take n fs) s; handleNulls (drop n fs) s1)
    (concat (map enc_field (trim os))) 0 s'.
Proof.
  intros H. revert idx n. induction H as [s|f fs bs os s a s' Hn Hd H IH|f fs os s s1 s' Hh H IH];
    intros idx n ->.
  - apply Decodes_ret.
  - cbn [trim]. replace (match trim os with [] => _ | _ => _ end) with (Some bs :: trim os)
      by by destruct (trim os).
    cbn [length take drop map concat enc_field]. specialize (IH (idx + 1) _ eq_refl).
    intros pre rest Hr. rewrite <- app_assoc. unfold mbind, M_bind. cbn [unmarshalFields].
    specialize (Hd pre (concat (map enc_field (trim os)) ++ rest) ltac:(zlia)).
    destruct Hn as (c & l & -> & Hc). unfold mbind, M_bind. cbn [app] in *. rewrite tryReadNull_at.
    replace (c =? TypeCodeNull) with false by lia.
    rewrite Hd.
    specialize (IH (pre ++ c :: l) rest Hr). unfold mbind, M_bind in IH. rewrite IH.
    by rewrite <- app_assoc.
  - cbn [trim]. destruct (trim os) as [|t ts] eqn:E.
    + cbn [length take drop map concat]. intros pre rest Hr. cbn.
      rewrite app_nil_r. apply (handleNulls_ok (f :: fs) (None :: os) s); [by econstructor|].
      cbn. by rewrite E.
    + specialize (IH (idx + 1) _ eq_refl).
      cbn [length take drop map concat enc_field]. intros pre rest Hr.
      cbn [app]. unfold mbind, M_bind. cbn [unmarshalFields].
      unfold mbind, M_bind. rewrite tryReadNull_null, (runHandleNull_ok _ _ _ _ Hh).
      specialize (IH (pre ++ [TypeCodeNull]) rest Hr). cbn [length take drop map concat] in IH.
      unfold mbind, M_bind in IH. rewrite IH. by rewrite <- app_assoc.
Qed.

Lemma Decodes_codeHeader code bs k n :
  is_byte code -> Decodes readListHeader bs k n ->
  Decodes readCompositeHeader ([0; TypeCodeSmallUlong; code] ++ bs) k (code, n).
Proof.
  intros Hc H. apply Decodes_type. cbn.
  apply (Decodes_seq _ _ [TypeCodeSmallUlong; code] bs k code).
  - apply Decodes_type, Decodes_ReadByte'.
  - replace (code, n) with (u8 code, n) by by rewrite u8_small.
    by apply (Decodes_then _ (fun fields => (u8 code, fields))).
Qed.

Lemma Decodes_listHeader_of (bs : list bytes) :
  Forall (fun e => 1 <= zlen e) bs -> zlen (enc_list bs) < 2 ^ 32 ->
  exists h, enc_list bs = h ++ concat bs /\ Decodes readListHeader h (zlen (concat bs)) (zlen bs).
Proof.
  intros Hb Hs. destruct bs as [|e bs].
  - exists [TypeCodeList0]. split; [done|]. apply Decodes_type, Decodes_getLen. intros.
    apply Decodes_ret.
  - cbn [enc_list] in *. rewrite zlen_enc_sized in Hs.
    assert (zlen (e :: bs) <= zlen (concat (e :: bs))).
    { clear Hs. induction Hb; cbn [concat]; zlia. }
    eexists. split; [|apply Decodes_listHeader; [lia|split; [apply zlen_nonneg|lia]]].
    unfold enc_sized. cbn [app]. by rewrite <- app_assoc.
Qed.

Lemma notnull_pos bs : notnull bs -> 1 <= zlen bs.
Proof. intros (c & l & -> & _). zlia. Qed.

Lemma FieldsDec_pos {S} (fs : list (UnmarshalField S)) os s s' :
  FieldsDec fs os s s' -> Forall (fun e => 1 <= zlen e) (map enc_field (trim os)).
Proof.
  intros H. assert (Forall (fun o => 1 <= zlen (enc_field o)) os) as Ho.
  { induction H; constructor; try done. by apply notnull_pos. }
  apply List.Forall_map. rewrite trim_prefix. by apply Forall_take.
Qed.

Lemma Decodes_UnmarshalComposite {S} code (fs : list (UnmarshalField S)) os s s' :
  is_byte code -> FieldsDec fs os s s' -> zlen (enc_composite code os) < 2 ^ 32 ->
  Decodes (UnmarshalComposite code fs s) (enc_composite code os) 0 s'.
Proof.
  intros Hc H Hs. unfold enc_composite in *.
  destruct (Decodes_listHeader_of _ (FieldsDec_pos _ _ _ _ H)) as (h & E & Hh).
  { rewrite zlen_app in Hs. pose_zlen. zlia. }
  rewrite E, app_assoc. unfold UnmarshalComposite.
  eapply Decodes_seq; [eapply Decodes_weaken; [by apply Decodes_codeHeader|lia]|].
  cbn beta iota zeta. rewrite Z.eqb_refl. cbn [negb].
  pose proof (FieldsDec_length _ _ _ _ H) as El.
  assert (length (trim os) <= length os)%nat as Hl by (rewrite trim_prefix, length_take; lia).
  replace (_ >? _) with false by (rewrite zlen_map; unfold zlen; lia).
  apply Decodes_fields; [done|]. rewrite zlen_map. unfold zlen. lia.
Qed.

(** ** Lists and maps *)

Lemma Decodes_readN {A B} (d : M Buffer B) (f : A -> bytes) (g : A -> B) l :
  Forall (fun x => Decodes d (f x) 0 (g x)) l ->
  Decodes (readN (length l) d) (concat (map f l)) 0 (map g l).
Proof.
  induction 1 as [|x l Hx Hl IH]; [apply Decodes_ret|]. cbn [readN length map concat].
  eapply Decodes_seq; [eapply Decodes_weaken; [exact Hx|zlia]|].
  by apply (Decodes_then _ (cons (g x))).
Qed.

Lemma Decodes_mapLoop {S E} (body : S -> M Buffer S) (f : E -> bytes) (step : S -> E -> S) l fuel idx count m :
  Forall (fun e => forall m, Decodes (body m) (f e) 0 (step m e)) l ->
  0 <= idx -> count = idx + 2 * zlen l -> count < 2 ^ 32 -> zlen l < Z.of_nat fuel ->
  Decodes (mapLoop fuel body idx count m) (concat (map f l)) 0 (fold_left step l m).
Proof.
  intros H. revert fuel idx m. induction H as [|e l He H IH]; intros fuel idx m Hi Hc Hb Hf;
    (destruct fuel as [|fuel]; [zlia|]); cbn [mapLoop map concat fold_left].
  - replace (idx <? count) with false by zlia. apply Decodes_ret.
  - replace (idx <? count) with true by zlia.
    eapply Decodes_seq; [eapply Decodes_weaken; [apply He|zlia]|].
    rewrite u32_small by (unfold is_u; zlia). apply IH; zlia.
Qed.

Lemma Decodes_readMap {S K V} (body : S -> M Buffer S) (fk : K -> bytes) (fv : V -> bytes)
  (step : S -> K * V -> S) m e :
  Forall (fun kv => 1 <= zlen (fk kv.1) /\ 1 <= zlen (fv kv.2) /\
            forall s, Decodes (body s) (fk kv.1 ++ fv kv.2) 0 (step s kv)) m ->
  zlen (enc_map (entries fk fv m)) < 2 ^ 32 ->
  Decodes (readMap body e) (enc_map (entries fk fv m)) 0 (fold_left step m e).
Proof.
  intros H Hs. unfold enc_map in *. rewrite zlen_enc_sized in Hs.
  assert (zlen (entries fk fv m) = zlen m) as E by apply zlen_map. rewrite E.
  set (bd := concat _) in *.
  assert (zlen m * 2 <= zlen bd) as Hsz.
  { apply entries_size. eapply List.Forall_impl; [|exact H]. cbn. tauto. }
  unfold enc_sized. replace (_ :: _ ++ _) with
    ((TypeCodeMap32 :: be_bytes 4 (zlen bd + 4) ++ be_bytes 4 (zlen m * 2)) ++ bd)
    by (cbn [app]; by rewrite <- app_assoc).
  eapply Decodes_seq; [eapply Decodes_weaken; [apply Decodes_mapHeader; [lia|zlia]|lia]|].
  apply Decodes_getLen. intros n Hn.
  assert (bd = concat (map (fun kv => fk kv.1 ++ fv kv.2) m)) as ->.
  { unfold bd, entries. rewrite map_map. f_equal. apply map_ext. by intros []. }
  apply (Decodes_mapLoop _ (fun kv => fk kv.1 ++ fv kv.2)); try (pose_zlen; lia).
  eapply List.Forall_impl; [|exact H]. cbn. tauto.
Qed.

Lemma freshb_app {K} (eqb : K -> K -> bool) seen l k l' :
  freshb eqb seen (l ++ k :: l') = true -> Forall (fun k' => eqb k' k = false) l.
Proof.
  assert (forall l seen, freshb eqb seen (l ++ k :: l') = true ->
            forallb (fun k' => negb (eqb k' k)) (seen ++ l) = true) as Hg.
  { clear. induction l as [|x l IH]; intros seen H; cbn [app freshb] in *.
    - rewrite app_nil_r. by apply andb_prop in H as [? _].
    - apply andb_prop in H as [_ H]. specialize (IH _ H). by rewrite <- app_assoc in IH. }
  intros H. apply Hg in H. rewrite forallb_app in H. apply andb_prop in H as [_ H].
  rewrite forallb_forall in H. apply List.Forall_forall. intros x Hx.
  specialize (H x Hx). by destruct (eqb x k).
Qed.

Lemma freshb_keys_fresh {K V} (eqb : K -> K -> bool) (m : list (K * V)) :
  freshb eqb [] (map fst m) = true -> keys_fresh eqb m.
Proof.
  intros H l k v l' ->. rewrite map_app in H. cbn [map fst] in H. apply freshb_app in H.
  by apply List.Forall_map in H.
Qed.

Lemma fold_left_map {A B S} (f : S -> B -> S) (g : A -> B) l s :
  fold_left f (map g l) s = fold_left (fun s x => f s (g x)) l s.
Proof. revert s. induction l as [|x l IH]; intros s; cbn; auto. Qed.

(** Storing the entries of a map with distinct keys, renamed by [gk] and [gv]. *)
Lemma fold_assoc_fresh {K V K' V'} (eqb : K' -> K' -> bool) (gk : K -> K') (gv : V -> V') m :
  freshb eqb [] (map gk (map fst m)) = true ->
  fold_left (fun s kv => assoc_set eqb s (gk kv.1) (gv kv.2)) m []
  = map (fun kv => match kv with (k, x) => (gk k, gv x) end) m.
Proof.
  intros H. rewrite <- (fold_assoc_set eqb (map _ m)).
  - rewrite fold_left_map. clear H. revert m.
    assert (forall m s, fold_left (fun s kv => assoc_set eqb s (gk kv.1) (gv kv.2)) m s =
      fold_left (fun s kv => assoc_set eqb s (match kv with (k, x) => (gk k, gv x) end).1
                                (match kv with (k, x) => (gk k, gv x) end).2) m s) as Hf; [|done].
    induction m as [|[k x] m IH]; intros s; cbn; auto.
  - apply freshb_keys_fresh. rewrite map_map in *. erewrite map_ext; [exact H|]. by intros [].
Qed.

(** ** Arrays *)

Lemma enc_array_header count ty body :
  0 <= count -> count <= zlen body \/ body = [] -> zlen (enc_array count ty body) < 2 ^ 32 ->
  count < 2 ^ 32 -> (zlen body + 2 <= 255 -> count < 256) ->
  exists h, enc_array count ty body = h ++ ty :: body
    /\ Decodes readArrayHeader h (1 + zlen body) count
    /\ ((exists s n, h = [TypeCodeArray8; s; n])
        \/ exists l, h = TypeCodeArray32 :: l /\ length l = 8%nat).
Proof.
  intros H0 Hc Hs Hu Hn. unfold enc_array in *. destruct (Z.leb_spec (zlen body + 2) 255).
  - exists [TypeCodeArray8; zlen body + 2; count]. split; [done|]. split; [|left; eauto].
    apply Decodes_type, Decodes_getLen. intros n Hn'. cbn.
    eapply Decodes_nil; [by apply Decodes_NextOr|]. cbn.
    replace (_ >? _) with false by zlia. apply Decodes_ret.
  - exists (TypeCodeArray32 :: be_bytes 4 (zlen body + 5) ++ be_bytes 4 count).
    split; [cbn [app]; by rewrite <- !app_assoc|]. split; [|right; eauto].
    assert (zlen body + 5 < 2 ^ 32) by zlia.
    apply Decodes_type, Decodes_getLen. intros n Hn'. cbn.
    apply Decodes_header32; [split; zlia|split; lia|zlia].
Qed.

Lemma decodeElements_map {A B} (f : A -> bytes) (dec : bytes -> B) (g : A -> B) sz l :
  Forall (fun x => zlen (f x) = Z.of_nat sz /\ forall tail, dec (f x ++ tail) = g x) l ->
  decodeElements (length l) sz dec (concat (map f l)) = map g l.
Proof.
  induction 1 as [|x l [Hz Hd] H IH]; [done|]. cbn [decodeElements length map concat].
  rewrite Hd, drop_app_length' by (unfold zlen in Hz; lia). by rewrite IH.
Qed.

(** The header of an array of fixed-size elements. *)
Lemma enc_array_of_header {A} ty (f : A -> bytes) sz l :
  1 <= sz -> Forall (fun x => zlen (f x) = sz) l -> zlen (enc_array_of ty f l) < 2 ^ 32 ->
  exists h, enc_array_of ty f l = h ++ ty :: concat (map f l)
    /\ Decodes readArrayHeader h (1 + zlen (concat (map f l))) (zlen l)
    /\ ((exists s n, h = [TypeCodeArray8; s; n])
        \/ exists l, h = TypeCodeArray32 :: l /\ length l = 8%nat).
Proof.
  intros Hsz Hf Hs. pose proof (zlen_concat_const f sz l Hf) as E.
  pose proof (zlen_nonneg l).
  assert (zlen (concat (map f l)) < 2 ^ 32) as Hb.
  { unfold enc_array_of, enc_array, enc_elements in Hs. destruct (_ <=? _); rewrite zlen_app in Hs; zlia. }
  apply enc_array_header; unfold enc_elements; try done; try nia.
Qed.

(** Header and element type of an array whose elements are [f x]. *)
Lemma Decodes_array {A B} ty (f : A -> bytes) sz l (d : Z -> M Buffer (list B)) (b : list B) :
  1 <= sz -> Forall (fun x => zlen (f x) = sz) l -> zlen (enc_array_of ty f l) < 2 ^ 32 ->
  Decodes (d (zlen l)) (ty :: concat (map f l)) 0 b ->
  Decodes (readArrayHeader ≫= d) (enc_array_of ty f l) 0 b.
Proof.
  intros Hsz Hf Hs Hd. destruct (enc_array_of_header ty f sz l Hsz Hf Hs) as (h & -> & Hh & _).
  eapply Decodes_seq; [|exact Hd]. eapply Decodes_weaken; [exact Hh|zlia].
Qed.

Lemma concat_singletons {A} (f : A -> Z) l : concat (map (fun x => [f x]) l) = map f l.
Proof. induction l; cbn; congruence. Qed.

(** One-byte elements, decoded by mapping over the bytes. *)
Lemma Decodes_bytes {A B} (f : A -> Z) (dec : Z -> B) (g : A -> B) (l : list A) e :
  Forall (fun x => dec (f x) = g x) l ->
  Decodes (buf ← NextOr (zlen l) e; mret (map dec buf)) (concat (map (fun x => [f x]) l)) 0 (map g l).
Proof.
  intros Hf. rewrite concat_singletons.
  eapply Decodes_nil; [apply Decodes_NextOr; by rewrite zlen_map|].
  rewrite map_map. replace (map _ l) with (map g l); [apply Decodes_ret|].
  apply map_ext_in. rewrite List.Forall_forall in Hf. symmetry. by apply Hf.
Qed.

Lemma Decodes_wide {A B} (f : A -> bytes) (dec : bytes -> B) (g : A -> B) sz l e :
  Forall (fun x => zlen (f x) = Z.of_nat sz /\ forall tail, dec (f x ++ tail) = g x) l ->
  Decodes (buf ← NextOr (zlen l * Z.of_nat sz) e;
           mret (decodeElements (Z.to_nat (zlen l)) sz dec buf))
    (concat (map f l)) 0 (map g l).
Proof.
  intros Hf.
  eapply Decodes_nil; [apply Decodes_NextOr; rewrite (zlen_concat_const f (Z.of_nat sz)); [done|]|].
  - eapply List.Forall_impl; [|exact Hf]; cbn; tauto.
  - rewrite to_nat_zlen, (decodeElements_map f dec g) by done. apply Decodes_ret.
Qed.

Lemma existsb_false_forall {A} (p : A -> bool) l :
  existsb p l = false -> Forall (fun x => p x = false) l.
Proof.
  intros H. apply List.Forall_forall. intros x Hx. apply not_true_iff_false. intros Hp.
  apply not_true_iff_false in H. apply H, existsb_exists. eauto.
Qed.

Lemma Forall_forallb {A} (p : A -> bool) (P : A -> Prop) l :
  (forall x, p x = true -> P x) -> forallb p l = true -> Forall P l.
Proof.
  intros HP H. rewrite forallb_forall in H. apply List.Forall_forall. auto.
Qed.

Lemma map_id_in {A} (g : A -> A) l : Forall (fun x => g x = x) l -> map g l = l.
Proof. induction 1; cbn; congruence. Qed.

Lemma Uint16_be_bytes_u n tail : Uint16 (be_bytes 2 n ++ tail) = u16 n.
Proof. rewrite <- be_bytes2_u16. apply Uint16_be_bytes, u16_range. Qed.
Lemma Uint32_be_bytes_u n tail : Uint32 (be_bytes 4 n ++ tail) = u32 n.
Proof. rewrite <- be_bytes4_u32. apply Uint32_be_bytes, u32_range. Qed.
Lemma Uint64_be_bytes_u n tail : Uint64 (be_bytes 8 n ++ tail) = u64 n.
Proof. rewrite <- be_bytes8_u64. apply Uint64_be_bytes, u64_range. Qed.

Lemma Decodes_readFixedArray {A B} ty sz msg (dec : bytes -> B) (f : A -> bytes) (g : A -> B) l :
  (1 <= sz)%nat ->
  Forall (fun x => zlen (f x) = Z.of_nat sz /\ forall tail, dec (f x ++ tail) = g x) l ->
  zlen (enc_array_of ty f l) < 2 ^ 32 ->
  Decodes (readFixedArray ty sz msg dec) (enc_array_of ty f l) 0 (map g l).
Proof.
  intros Hsz Hf Hs. apply (Decodes_array ty f (Z.of_nat sz)); [lia| |done|].
  - eapply List.Forall_impl; [|exact Hf]; cbn; tauto.
  - apply Decodes_type. rewrite Z.eqb_refl. by apply Decodes_wide.
Qed.

(** The same when decoding an element gives it back. *)
Lemma Decodes_fixed_id {A} ty sz msg (dec : bytes -> A) (f : A -> bytes) l :
  (1 <= sz)%nat -> (forall x, zlen (f x) = Z.of_nat sz) ->
  Forall (fun x => forall tail, dec (f x ++ tail) = x) l ->
  zlen (enc_array_of ty f l) < 2 ^ 32 ->
  Decodes (readFixedArray ty sz msg dec) (enc_array_of ty f l) 0 l.
Proof.
  intros Hsz Hz Hf Hs. rewrite <- (map_id_in id l) at 2 by by apply Forall_all.
  apply Decodes_readFixedArray; [done| |done].
  eapply List.Forall_impl; [|exact Hf]. intros x Hx. split; [apply Hz|apply Hx].
Qed.

(** Arrays with a narrow and a wide element encoding. *)
Lemma Decodes_narrow {A} (d : Z -> M Buffer (list A)) wide code code_wide k
  (dec8 : Z -> A) (dec : bytes -> A) (g : Z -> A) (l : list Z) e e' :
  (1 <= k)%nat ->
  zlen (enc_narrow wide code code_wide k l) < 2 ^ 32 ->
  (wide = false -> Forall (fun x => dec8 (u8 x) = g x) l) ->
  Forall (fun x => forall tail, dec (be_bytes k x ++ tail) = g x) l ->
  (forall bs b, Decodes (buf ← NextOr (zlen l) e; mret (map dec8 buf)) bs 0 b ->
     Decodes (d (zlen l)) (code :: bs) 0 b) ->
  (forall bs b, Decodes (buf ← NextOr (zlen l * Z.of_nat k) e';
                         mret (decodeElements (Z.to_nat (zlen l)) k dec buf)) bs 0 b ->
     Decodes (d (zlen l)) (code_wide :: bs) 0 b) ->
  Decodes (readArrayHeader ≫= d) (enc_narrow wide code code_wide k l) 0 (map g l).
Proof.
  intros Hk Hs Hn Hw H8 H32. unfold enc_narrow in *. destruct wide.
  - apply (Decodes_array _ _ (Z.of_nat k)); [lia|apply Forall_all; intros; apply zlen_be_bytes|done|].
    apply H32, Decodes_wide. eapply List.Forall_impl; [|exact Hw]. intros x Hx.
    split; [apply zlen_be_bytes|apply Hx].
  - apply (Decodes_array _ _ 1); [lia|by apply Forall_all|done|].
    apply H8, Decodes_bytes. auto.
Qed.

Lemma Decodes_map_id (d : M Buffer (list Z)) bs k a :
  Decodes (buf ← d; mret (map (fun x => x) buf)) bs k a -> Decodes d bs k a.
Proof.
  intros H pre rest Hr. specialize (H pre rest Hr). unfold mbind, M_bind in H.
  destruct (d _) as [[x|e|p|] r']; try done. by rewrite map_id in H.
Qed.

Lemma unsigned_narrow w l :
  Forall (is_u w) l -> existsb (fun n => n >? 255) l = false -> Forall (fun x => u8 x = x) l.
Proof.
  intros Hl E. apply existsb_false_forall in E. rewrite List.Forall_forall in *.
  intros x Hx. specialize (Hl x Hx). specialize (E x Hx). apply u8_small. unfold is_u in *. lia.
Qed.

Lemma Decodes_arrayUint32 l :
  forallb (inu 32) l = true -> zlen (enc (VArrayUint32 l)) < 2 ^ 32 ->
  Decodes arrayUint32_Unmarshal (enc (VArrayUint32 l)) 0 l.
Proof.
  intros Hl Hs. rewrite <- (map_id l) at 2.
  apply (Forall_forallb _ _ _ (inu_is 32)) in Hl. cbn [enc] in *.
  eapply (Decodes_narrow _ _ _ _ 4 (fun x => x) Uint32 (fun x => x)); [lia|done| | | |].
  - by eapply unsigned_narrow.
  - eapply Forall_impl; [exact Hl|]. intros x Hx tail. by apply Uint32_be_bytes.
  - intros bs b H. apply Decodes_type. cbn. by apply Decodes_map_id.
  - intros bs b H. apply Decodes_type. exact H.
Qed.

Lemma Decodes_arrayUint64 l :
  forallb (inu 64) l = true -> zlen (enc (VArrayUint64 l)) < 2 ^ 32 ->
  Decodes arrayUint64_Unmarshal (enc (VArrayUint64 l)) 0 l.
Proof.
  intros Hl Hs. rewrite <- (map_id l) at 2.
  apply (Forall_forallb _ _ _ (inu_is 64)) in Hl. cbn [enc] in *.
  eapply (Decodes_narrow _ _ _ _ 8 (fun x => x) Uint64 (fun x => x)); [lia|done| | | |].
  - by eapply unsigned_narrow.
  - eapply Forall_impl; [exact Hl|]. intros x Hx tail. by apply Uint64_be_bytes.
  - intros bs b H. apply Decodes_type. cbn. by apply Decodes_map_id.
  - intros bs b H. apply Decodes_type. exact H.
Qed.

(** Elements up to 127 fit in a byte when none is below -128. *)
Lemma signed_narrow l :
  signed_narrow_ok l = true -> existsb (fun n => n >? 127) l = false ->
  Forall (fun x => i8 (u8 x) = x) l.
Proof.
  unfold signed_narrow_ok. intros H E. rewrite E in H. cbn in H.
  apply existsb_false_forall in E. rewrite forallb_forall in H.
  rewrite List.Forall_forall in *. intros x Hx. specialize (H x Hx). specialize (E x Hx).
  apply i8_u8. unfold is_i. lia.
Qed.

Lemma Decodes_arrayInt32 l :
  forallb (ini 32) l = true -> signed_narrow_ok l = true ->
  zlen (enc (VArrayInt32 l)) < 2 ^ 32 ->
  Decodes arrayInt32_Unmarshal (enc (VArrayInt32 l)) 0 l.
Proof.
  intros Hl Hn Hs. rewrite <- (map_id l) at 2.
  apply (Forall_forallb _ _ _ (ini_is 32)) in Hl. cbn [enc] in *.
  eapply (Decodes_narrow _ _ _ _ 4 i8 (fun buf => i32 (Uint32 buf)) (fun x => x)); [lia|done| | | |].
  - by apply signed_narrow.
  - eapply Forall_impl; [exact Hl|]. intros x Hx tail. rewrite Uint32_be_bytes_u. by apply i32_u32.
  - intros bs b H. apply Decodes_type. exact H.
  - intros bs b H. apply Decodes_type. exact H.
Qed.

Lemma Decodes_arrayInt64 l :
  forallb (ini 64) l = true -> signed_narrow_ok l = true ->
  zlen (enc (VArrayInt64 l)) < 2 ^ 32 ->
  Decodes arrayInt64_Unmarshal (enc (VArrayInt64 l)) 0 l.
Proof.
  intros Hl Hn Hs. rewrite <- (map_id l) at 2.
  apply (Forall_forallb _ _ _ (ini_is 64)) in Hl. cbn [enc] in *.
  eapply (Decodes_narrow _ _ _ _ 8 i8 (fun buf => i64 (Uint64 buf)) (fun x => x)); [lia|done| | | |].
  - by apply signed_narrow.
  - eapply Forall_impl; [exact Hl|]. intros x Hx tail. rewrite Uint64_be_bytes_u. by apply i64_u64.
  - intros bs b H. apply Decodes_type. exact H.
  - intros bs b H. apply Decodes_type. exact H.
Qed.

Lemma Decodes_ArrayUByte l :
  zlen (enc (VArrayUByte l)) < 2 ^ 32 -> Decodes ArrayUByte_Unmarshal (enc (VArrayUByte l)) 0 l.
Proof.
  cbn [enc]. intros Hs.
  assert (zlen l < 2 ^ 32) by (unfold enc_array in Hs; destruct (_ <=? _); zlia).
  destruct (enc_array_header (zlen l) TypeCodeUbyte l) as (h & -> & Hh & _);
    [apply zlen_nonneg|lia|done|done|lia|].
  eapply Decodes_seq; [eapply Decodes_weaken; [exact Hh|zlia]|]. apply Decodes_type. cbn.
  by apply Decodes_NextOr.
Qed.

Lemma Decodes_arrayInt8 l :
  forallb (ini 8) l = true -> zlen (enc (VArrayInt8 l)) < 2 ^ 32 ->
  Decodes arrayInt8_Unmarshal (enc (VArrayInt8 l)) 0 l.
Proof.
  intros Hl Hs. cbn [enc] in *. apply (Forall_forallb _ _ _ (ini_is 8)) in Hl.
  apply (Decodes_array _ _ 1); [lia|by apply Forall_all|done|]. apply Decodes_type. cbn.
  eapply Decodes_eq; [apply (Decodes_bytes u8 i8 (fun x => x))|apply map_id]. eapply Forall_impl; [exact Hl|]. apply i8_u8.
Qed.

Lemma Decodes_arrayBool l :
  zlen (enc (VArrayBool l)) < 2 ^ 32 -> Decodes arrayBool_Unmarshal (enc (VArrayBool l)) 0 l.
Proof.
  intros Hs. cbn [enc] in *.
  apply (Decodes_array _ _ 1); [lia|by apply Forall_all|done|]. apply Decodes_type. cbn.
  eapply Decodes_eq; [apply (Decodes_bytes (fun x : bool => if x then 1 else 0)
    (fun c => negb (c =? 0)) (fun x => x))|apply map_id].
  apply Forall_all. by intros [].
Qed.

Lemma Decodes_element8 e err k : zlen e <= 255 -> Decodes (readElement8 err) (u8 (zlen e) :: e) k e.
Proof.
  intros H. rewrite u8_small by (unfold is_u; pose_zlen; lia).
  apply (Decodes_seq _ _ [zlen e] e _ (zlen e)); [apply Decodes_ReadByte'|by apply Decodes_NextOr].
Qed.

Lemma Decodes_element32 e k : zlen e < 2 ^ 32 -> Decodes readElement32 (be_bytes 4 (zlen e) ++ e) k e.
Proof.
  intros H. eapply Decodes_seq; [by apply Decodes_NextOr|].
  apply Decodes_NextOr. rewrite Uint32_be4; [done|]. split; [apply zlen_nonneg|done].
Qed.

(** Header, room check and elements of a variable-size array. *)
Lemma Decodes_variable_array ty (f : bytes -> bytes) k elem a (d : Z -> M Buffer (list bytes)) :
  1 <= k -> (forall e, zlen (f e) = k + zlen e) ->
  Forall (fun e => zlen (f e) < 2 ^ 32 -> Decodes elem (f e) 0 e) a ->
  zlen a * 2 <= 1 + elementsSize a + zlen a * k ->
  zlen (enc_array_of ty f a) < 2 ^ 32 ->
  (forall bs b, Decodes (readN (length a) elem) bs 0 b -> Decodes (d (zlen a)) (ty :: bs) 0 b) ->
  Decodes (length ← readArrayHeader; n ← getLen;
           if length * 2 >? n then errorf "invalid length %d" [length] else d length)
    (enc_array_of ty f a) 0 a.
Proof.
  intros Hk Hf He Hr Hs Hd. pose proof (zlen_elements k f a Hf) as Ez.
  pose proof (elementsSize_nonneg a). pose proof (zlen_nonneg a).
  assert (zlen a <= zlen (enc_elements f a)) by (rewrite Ez; nia).
  assert (zlen (enc_elements f a) < 2 ^ 32) as Hb
    by (unfold enc_array_of, enc_array in Hs; destruct (_ <=? _) in Hs; zlia).
  unfold enc_array_of in *.
  destruct (enc_array_header (zlen a) ty (enc_elements f a)) as (h & -> & Hh & _);
    [done|by left|done|lia|lia|].
  eapply Decodes_seq; [eapply Decodes_weaken; [exact Hh|zlia]|].
  apply Decodes_getLen. intros n Hn. replace (_ >? _) with false by (rewrite zlen_cons in Hn; lia).
  apply Hd. eapply Decodes_eq; [apply (Decodes_readN _ f (fun e => e))|apply map_id].
  rewrite List.Forall_forall in *. intros e Hin. apply He; [done|].
  pose proof (zlen_concat_in (f e) (map f a) ltac:(by apply in_map)). unfold enc_elements in Hb. lia.
Qed.

Lemma Decodes_strings c8 c32 msg e8 a :
  c8 <> c32 -> strings_room a = true -> zlen (enc_strings c8 c32 a) < 2 ^ 32 ->
  Decodes (readVariableArray c8 c32 msg e8) (enc_strings c8 c32 a) 0 a.
Proof.
  intros Hc Hr Hs. unfold strings_room, enc_strings in *.
  destruct (existsb (fun e => zlen e >? 255) a) eqn:E.
  - eapply (Decodes_variable_array c32 _ 4 readElement32); [lia|intros; zlia| |lia|done|].
    + apply Forall_all. intros e He. apply Decodes_element32. zlia.
    + intros bs b H. apply Decodes_type. replace (c32 =? c8) with false by lia.
      by rewrite Z.eqb_refl, to_nat_zlen.
  - eapply (Decodes_variable_array c8 _ 1 (readElement8 (e8 (zlen a)))); [lia|intros; zlia| |lia|done|].
    + apply existsb_false_forall in E. eapply Forall_impl; [exact E|]. intros e He _.
      apply Decodes_element8. cbn in He. lia.
    + intros bs b H. apply Decodes_type. by rewrite Z.eqb_refl, to_nat_zlen.
Qed.

(** ** ReadAny *)

(** [bs] starts with a type code that [ReadAny] decodes with [d]. *)
Definition starts (rec : M Buffer value) (bs : bytes) (d : M Buffer value) : Prop :=
  exists c l, bs = c :: l /\ c <> TypeCodeNull /\ ReadAny_switch rec c = d.

Lemma starts_notnull rec bs d : starts rec bs d -> notnull bs.
Proof. intros (c & l & -> & Hc & _). by exists c, l. Qed.

Lemma Decodes_any rec bs d a : starts rec bs d -> Decodes d bs 0 a -> Decodes (ReadAny_body rec) bs 0 a.
Proof.
  intros Hs H. apply Decodes_tryReadNull; [by eapply starts_notnull|].
  destruct Hs as (c & l & -> & _ & E). intros pre rest Hr. cbn [app].
  unfold peekType. rewrite PeekByte_at, E. by apply H.
Qed.

Ltac starts :=
  repeat match goal with |- starts _ (if ?b then _ else _) _ => destruct b end;
  eexists _, _; (split; [reflexivity|split; [done|reflexivity]]).

Lemma starts_uint64 rec n : starts rec (enc_uint64 n) (VUint64 <$> readUlong).
Proof. unfold enc_uint64. starts. Qed.
Lemma starts_uint32 rec n : starts rec (enc_uint32 n) (VUint32 <$> readUint32).
Proof. unfold enc_uint32. starts. Qed.
Lemma starts_int64 rec n : starts rec (enc_int64 n) (VInt64 <$> readLong).
Proof. unfold enc_int64. starts. Qed.
Lemma starts_int32 rec n : starts rec (enc_int32 n) (VInt32 <$> readInt32).
Proof. unfold enc_int32. starts. Qed.
Lemma starts_bool rec t : starts rec (enc_bool t) (VBool <$> readBool).
Proof. destruct t; starts. Qed.
Lemma starts_string rec s : starts rec (enc_string s) (VString <$> ReadString).
Proof. unfold enc_string, enc_variable. starts. Qed.
Lemma starts_symbol rec s : starts rec (enc_symbol s) (VString <$> ReadString).
Proof. unfold enc_symbol, enc_variable. starts. Qed.
Lemma starts_binary rec s : starts rec (enc_binary s) (VBinary <$> readBinary).
Proof. unfold enc_binary, enc_variable. starts. Qed.
Lemma starts_array rec n ty body : starts rec (enc_array n ty body) readAnyArray.
Proof. unfold enc_array. destruct (_ <=? _); starts. Qed.
Lemma starts_array_of {A} rec ty (f : A -> bytes) l : starts rec (enc_array_of ty f l) readAnyArray.
Proof. apply starts_array. Qed.
Lemma starts_list rec l : starts rec (enc_list l) (readAnyList rec).
Proof. destruct l; starts. Qed.
Lemma starts_map rec l : starts rec (enc_map l) (readAnyMap rec).
Proof. starts. Qed.
Lemma starts_zero rec l : starts rec (0 :: l) (readComposite rec).
Proof. starts. Qed.

(** The element type is found where [readAnyArray] looks for it. *)
Lemma Decodes_readAnyArray n ty body a :
  Decodes (readAnyArray_switch ty) (enc_array n ty body) 0 a ->
  Decodes readAnyArray (enc_array n ty body) 0 a.
Proof.
  intros H. apply Decodes_getBytes. intros tail _.
  replace (_ <? 1) with false by (pose proof (zlen_enc_array_pos n ty body); zlia).
  revert H. unfold enc_array. destruct (zlen body + 2 <=? 255); intros H.
  - cbn [app nthb lookup list_lookup default]. cbn -[zlen Z.ltb].
    replace (_ <? 3 + 1) with false by zlia. exact H.
  - unfold nthb. cbn -[zlen Z.ltb].
    replace (_ <? 9 + 1) with false; [exact H|].
    rewrite !zlen_cons, zlen_app. pose_zlen. lia.
Qed.

Lemma Decodes_array_of {A} rec ty (f : A -> bytes) l (d : M Buffer value) a :
  readAnyArray_switch ty = d -> Decodes d (enc_array_of ty f l) 0 a ->
  Decodes (ReadAny_body rec) (enc_array_of ty f l) 0 a.
Proof.
  intros <- H. eapply Decodes_any; [apply starts_array|]. by apply Decodes_readAnyArray.
Qed.

(** ** Composites inside values *)

Lemma Decodes_readComposite rec code bs d a :
  readComposite_switch rec code = d -> Decodes d ([0; TypeCodeSmallUlong; code] ++ bs) 0 a ->
  Decodes (readComposite rec) ([0; TypeCodeSmallUlong; code] ++ bs) 0 a.
Proof.
  intros <- H. apply Decodes_getBytes. intros tail _. cbn -[zlen Z.ltb].
  rewrite !zlen_cons. replace (_ <? 2) with false by (pose_zlen; lia).
  replace (_ <? 3) with false by (pose_zlen; lia).
  intros pre rest Hr. erewrite bind_Ok by reflexivity. by apply H.
Qed.

Lemma Decodes_any_composite rec code bs d a :
  readComposite_switch rec code = d -> Decodes d ([0; TypeCodeSmallUlong; code] ++ bs) 0 a ->
  Decodes (ReadAny_body rec) ([0; TypeCodeSmallUlong; code] ++ bs) 0 a.
Proof.
  intros E H. eapply Decodes_any; [apply starts_zero|]. by eapply Decodes_readComposite.
Qed.

Lemma Decodes_LifetimePolicy p :
  is_byte p -> Decodes LifetimePolicy_Unmarshal [0; TypeCodeSmallUlong; p; TypeCodeList0] 0 p.
Proof.
  intros Hp. eapply Decodes_nil; [apply (Decodes_codeHeader p [TypeCodeList0] 0 0 Hp)|].
  - apply Decodes_type, Decodes_getLen. intros. apply Decodes_ret.
  - cbn. apply Decodes_ret.
Qed.

Lemma rt_LifetimePolicy rec p :
  vokb (VLifetimePolicy p) = true ->
  Decodes (ReadAny_body rec) (enc (VLifetimePolicy p)) 0 (VLifetimePolicy p).
Proof.
  intros H. cbn [vokb existsb] in H. cbn [enc].
  assert (is_byte p /\ readComposite_switch rec p = VLifetimePolicy <$> LifetimePolicy_Unmarshal)
    as [Hb E].
  { rewrite !orb_true_iff, !Z.eqb_eq in H. destruct H as [->|[->|[->|[->|]]]]; done. }
  apply (Decodes_any_composite rec p [TypeCodeList0] _ _ E).
  apply Decodes_fmap. by apply Decodes_LifetimePolicy.
Qed.

(** ** Values without nested values *)

Lemma Decodes_any_narrow rec w c c' k l d a :
  readAnyArray_switch c = d -> readAnyArray_switch c' = d ->
  Decodes d (enc_narrow w c c' k l) 0 a -> Decodes (ReadAny_body rec) (enc_narrow w c c' k l) 0 a.
Proof. unfold enc_narrow. intros. destruct w; by eapply Decodes_array_of. Qed.

Lemma Decodes_any_strings rec c c' l d a :
  readAnyArray_switch c = d -> readAnyArray_switch c' = d ->
  Decodes d (enc_strings c c' l) 0 a -> Decodes (ReadAny_body rec) (enc_strings c c' l) 0 a.
Proof. unfold enc_strings. intros. destruct (existsb _ l); by eapply Decodes_array_of. Qed.

Lemma rt_integer_arrays rec v :
  match v with
  | VArrayUByte _ | VArrayInt8 _ | VArrayUint16 _ | VArrayInt16 _ | VArrayUint32 _
  | VArrayInt32 _ | VArrayUint64 _ | VArrayInt64 _ => True
  | _ => False
  end -> vokb v = true -> zlen (enc v) < 2 ^ 32 ->
  Decodes (ReadAny_body rec) (enc v) 0 (norm v).
Proof.
  intros Hv Hok Hs. destruct v; try done; cbn [vokb norm] in *.
  - eapply Decodes_any; [apply starts_array|]. apply Decodes_readAnyArray, (Decodes_fmap VArrayUByte).
    by apply Decodes_ArrayUByte.
  - eapply Decodes_array_of; [reflexivity|]. apply (Decodes_fmap VArrayInt8). by apply Decodes_arrayInt8.
  - eapply Decodes_array_of; [reflexivity|]. apply (Decodes_fmap VArrayUint16).
    apply Decodes_fixed_id; [lia|done| |done]. apply (Forall_forallb _ _ _ (inu_is 16)) in Hok.
    eapply Forall_impl; [exact Hok|]. intros. by apply Uint16_be_bytes.
  - eapply Decodes_array_of; [reflexivity|]. apply (Decodes_fmap VArrayInt16).
    apply Decodes_fixed_id; [lia|done| |done]. apply (Forall_forallb _ _ _ (ini_is 16)) in Hok.
    eapply Forall_impl; [exact Hok|]. intros. rewrite Uint16_be_bytes_u. by apply i16_u16.
  - eapply Decodes_any_narrow; [reflexivity..|]. apply (Decodes_fmap VArrayUint32).
    by apply Decodes_arrayUint32.
  - apply andb_prop in Hok as [? ?]. eapply Decodes_any_narrow; [reflexivity..|].
    apply (Decodes_fmap VArrayInt32). by apply Decodes_arrayInt32.
  - eapply Decodes_any_narrow; [reflexivity..|]. apply (Decodes_fmap VArrayUint64).
    by apply Decodes_arrayUint64.
  - apply andb_prop in Hok as [? ?]. eapply Decodes_any_narrow; [reflexivity..|].
    apply (Decodes_fmap VArrayInt64). by apply Decodes_arrayInt64.
Qed.

Lemma rt_other_arrays rec v :
  match v with
  | VArrayFloat _ | VArrayDouble _ | VArrayBool _ | VArrayString _ | VArraySymbol _
  | VArrayBinary _ | VArrayTimestamp _ | VArrayUUID _ => True
  | _ => False
  end -> vokb v = true -> zlen (enc v) < 2 ^ 32 ->
  Decodes (ReadAny_body rec) (enc v) 0 (norm v).
Proof.
  intros Hv Hok Hs. destruct v; try done; cbn [vokb norm] in *.
  - eapply Decodes_array_of; [reflexivity|]. apply (Decodes_fmap VArrayFloat).
    apply Decodes_fixed_id; [lia|done| |done]. apply (Forall_forallb _ _ _ (inu_is 32)) in Hok.
    eapply Forall_impl; [exact Hok|]. intros. by apply Uint32_be_bytes.
  - eapply Decodes_array_of; [reflexivity|]. apply (Decodes_fmap VArrayDouble).
    apply Decodes_fixed_id; [lia|done| |done]. apply (Forall_forallb _ _ _ (inu_is 64)) in Hok.
    eapply Forall_impl; [exact Hok|]. intros. by apply Uint64_be_bytes.
  - eapply Decodes_array_of; [reflexivity|]. apply (Decodes_fmap VArrayBool). by apply Decodes_arrayBool.
  - apply andb_prop in Hok as [_ ?]. eapply Decodes_any_strings; [reflexivity..|].
    apply (Decodes_fmap VArrayString). by apply Decodes_strings.
  - eapply Decodes_any_strings; [reflexivity..|]. apply (Decodes_fmap VArraySymbol).
    by apply Decodes_strings.
  - eapply Decodes_any_strings; [reflexivity..|]. apply (Decodes_fmap VArrayBinary).
    by apply Decodes_strings.
  - eapply Decodes_array_of; [reflexivity|]. apply (Decodes_fmap VArrayTimestamp).
    apply Decodes_readFixedArray; [lia| |done]. apply Forall_all. intros t. split; [done|].
    intros tail. rewrite Uint64_be_bytes_u, i64_u64 by apply time_ms_range. done.
  - eapply Decodes_array_of; [reflexivity|]. apply (Decodes_fmap VArrayUUID).
    eapply Decodes_eq; [apply (Decodes_readFixedArray _ 16 _ _ _ (fun u => u))|apply map_id]; [lia| |done].
    apply (Forall_forallb _ (fun u => zlen u = 16)) in Hok; [|intros; lia].
    eapply Forall_impl; [exact Hok|]. cbn. intros u Hu. split; [done|]. intros tail.
    rewrite take_app_length'; [done|]. unfold zlen in Hu. lia.
Qed.

Lemma variable_size c8 c32 s N : zlen (enc_variable c8 c32 s) < N -> zlen s < N.
Proof. pose proof (zlen_enc_variable c8 c32 s). lia. Qed.

Lemma rt_leaf rec v :
  is_leaf v = true -> vokb v = true -> zlen (enc v) < 2 ^ 32 ->
  Decodes (ReadAny_body rec) (enc v) 0 (norm v).
Proof.
  intros Hl Hok Hs.
  destruct v; try done; try (by apply rt_integer_arrays); try (by apply rt_other_arrays);
    try (by apply rt_LifetimePolicy); cbn [enc norm vokb] in *.
  - intros pre rest _. unfold ReadAny_body, mbind, M_bind. cbn [app]. by rewrite tryReadNull_null.
  - eapply Decodes_any; [apply starts_bool|]. apply Decodes_fmap, Decodes_readBool.
  - eapply Decodes_any; [apply starts_uint64|]. by apply Decodes_fmap, Decodes_readUlong, inu_is.
  - eapply Decodes_any; [apply starts_uint64|]. by apply Decodes_fmap, Decodes_readUlong, inu_is.
  - eapply Decodes_any; [apply starts_uint32|]. by apply Decodes_fmap, Decodes_readUint32, inu_is.
  - eapply Decodes_any; [starts|]. by apply Decodes_fmap, Decodes_type, Decodes_ReadUint16, inu_is.
  - eapply Decodes_any; [starts|]. apply Decodes_fmap, Decodes_type, Decodes_ReadByte'.
  - eapply Decodes_any; [apply starts_int64|]. by apply Decodes_fmap, Decodes_readLong, ini_is.
  - eapply Decodes_any; [apply starts_int64|]. by apply Decodes_fmap, Decodes_readLong, ini_is.
  - eapply Decodes_any; [apply starts_int32|]. by apply Decodes_fmap, Decodes_readInt32, ini_is.
  - eapply Decodes_any; [starts|]. apply Decodes_fmap, Decodes_type.
    rewrite <- (i16_u16 n) at 2 by by apply ini_is. rewrite <- be_bytes2_u16.
    apply Decodes_then, Decodes_ReadUint16, u16_range.
  - eapply Decodes_any; [starts|]. apply Decodes_fmap, Decodes_type.
    rewrite <- (i8_u8 n) at 2 by by apply ini_is. apply Decodes_then, Decodes_ReadByte'.
  - eapply Decodes_any; [starts|]. by apply Decodes_fmap, Decodes_type, Decodes_ReadUint32, inu_is.
  - eapply Decodes_any; [starts|]. by apply Decodes_fmap, Decodes_type, Decodes_ReadUint64, inu_is.
  - eapply Decodes_any; [apply starts_string|]. apply Decodes_fmap, Decodes_readString.
    by eapply variable_size.
  - eapply Decodes_any; [apply starts_symbol|]. apply Decodes_fmap, Decodes_readSymbol.
    by eapply variable_size.
  - eapply Decodes_any; [apply starts_binary|]. apply Decodes_fmap, Decodes_readBinary.
    by eapply variable_size.
  - eapply Decodes_any; [starts|]. apply Decodes_fmap, Decodes_readTimestamp.
  - eapply Decodes_any; [starts|]. apply Decodes_fmap, Decodes_type. cbn.
    apply Decodes_NextOr. lia.
Qed.

End CodecRoundtrip.
