(* ===== verification/ValueRoundtrip.v ===== *)
(** * ValueRoundtrip: the round trip of arbitrary nested values

    [ReadAny] reads back [norm v] from the bytes of [v], consuming exactly
    them, for lists, maps, annotations, described types, errors and delivery
    states nested to any depth. *)

From S2P Require Import Prelude Buffer Types Encode Decode Wire CodecSafety CodecRoundtrip.
Import Buffer Encode Decode Wire CodecSafety CodecRoundtrip.

Module ValueRoundtrip.

(** ** Nested values *)

(** [rec] decodes the sendable values whose encoding has at most [N] bytes. *)
Definition dec_ok (N : Z) (rec : M Buffer value) (v : value) : Prop :=
  vokb v = true -> zlen (enc v) <= N -> Decodes rec (enc v) 0 (norm v).

Section Nested.
Context (N : Z) (HN : N + 1 < 2 ^ 32) (rec : M Buffer value)
  (Hleaf : forall v, is_leaf v = true -> dec_ok N rec v).

Lemma Decodes_list l :
  Forall (dec_ok N rec) l -> forallb vokb l = true -> zlen (enc_list (map enc l)) <= N + 1 ->
  Decodes (list_Unmarshal rec) (enc_list (map enc l)) 0 (map norm l).
Proof.
  intros H Hok Hs. rewrite forallb_forall in Hok. rewrite List.Forall_forall in H.
  destruct (Decodes_listHeader_of (map enc l)) as (h & E & Hh); [|lia|].
  { apply List.Forall_map, List.Forall_forall. intros x Hx. apply enc_pos. auto. }
  pose proof (zlen_enc_list (map enc l)). rewrite E, zlen_map in *.
  eapply Decodes_seq; [eapply Decodes_weaken; [exact Hh|lia]|].
  apply Decodes_getLen. intros n Hn.
  assert (zlen l <= zlen (concat (map enc l))) as Hl.
  { clear - Hok. induction l as [|x l IH]; cbn [map concat]; [done|].
    pose proof (enc_pos x (Hok x (or_introl eq_refl))).
    specialize (IH (fun y Hy => Hok y (or_intror Hy))). zlia. }
  replace (_ >? _) with false by lia. rewrite to_nat_zlen. apply Decodes_readN.
  apply List.Forall_forall. intros x Hx. apply H; [done|by apply Hok|].
  pose proof (zlen_concat_in (enc x) (map enc l) ltac:(by apply in_map)). lia.
Qed.

(** The entries of a map: [k] is written as [fk k] and read back as [gk k]. *)
Definition entry_ok {K K'} (d : M Buffer K') (fk : K -> bytes) (gk : K -> K') (kv : K * value) : Prop :=
  1 <= zlen (fk kv.1) /\ vokb kv.2 = true /\ dec_ok N rec kv.2 /\
  (zlen (fk kv.1) <= N -> Decodes d (fk kv.1) 0 (gk kv.1)).

Lemma Decodes_entry {K K' S} (d : M Buffer K') (fk : K -> bytes) (gk : K -> K')
  (f : K' -> value -> M Buffer S) kv s :
  entry_ok d fk gk kv -> zlen (fk kv.1) + zlen (enc kv.2) <= N ->
  Decodes (f (gk kv.1) (norm kv.2)) [] 0 s ->
  Decodes (key ← d; val ← rec; f key val) (fk kv.1 ++ enc kv.2) 0 s.
Proof.
  intros (H1 & Hok & Hv & Hk) Hs Hf. pose proof (zlen_nonneg (enc kv.2)).
  eapply Decodes_seq; [eapply Decodes_weaken; [apply Hk; lia|lia]|].
  eapply Decodes_nil; [apply Hv; [done|lia]|done].
Qed.

Lemma Decodes_entries {K K'} (d : M Buffer K') (eqb : K' -> K' -> bool) (fk : K -> bytes)
  (gk : K -> K') (store : list (K' * value) -> K' -> value -> M Buffer (list (K' * value))) m :
  Forall (entry_ok d fk gk) m ->
  Forall (fun kv => forall s x, Decodes (store s (gk kv.1) x) [] 0 (assoc_set eqb s (gk kv.1) x)) m ->
  freshb eqb [] (map gk (map fst m)) = true ->
  zlen (enc_map (entries fk enc m)) <= N + 1 ->
  Decodes (readMap (fun s => key ← d; val ← rec; store s key val) []) (enc_map (entries fk enc m)) 0
    (map (fun kv => match kv with (k, x) => (gk k, norm x) end) m).
Proof.
  intros H Hst Hf Hs. rewrite <- (fold_assoc_fresh eqb gk norm) by done.
  apply (Decodes_readMap _ fk enc (fun s kv => assoc_set eqb s (gk kv.1) (norm kv.2))); [|lia].
  rewrite List.Forall_forall in *. intros kv Hin. pose proof (H kv Hin) as (H1 & Hok & _).
  split_and!; [done|by apply enc_pos|]. intros s.
  apply (Decodes_entry d fk gk (fun key val => store s key val)); [by apply H| |by apply Hst].
  pose proof (entries_in fk enc m kv Hin). unfold enc_map in Hs. rewrite zlen_enc_sized in Hs. lia.
Qed.

Lemma store_any (s : list (value * value)) k x :
  map_key_ok k = true ->
  Decodes (if slice_or_map k then errorf "invalid map key" []
           else if negb (hashable k) then panics UnhashableKey
           else mret (assoc_set key_eqb s k x)) [] 0 (assoc_set key_eqb s k x).
Proof.
  unfold map_key_ok. intros H. apply andb_prop in H as [H ->].
  apply negb_true_iff in H as ->. apply Decodes_ret.
Qed.

Lemma store_hashable (s : list (value * value)) k x :
  hashable k = true ->
  Decodes (if negb (hashable k) then panics UnhashableKey
           else mret (assoc_set key_eqb s k x)) [] 0 (assoc_set key_eqb s k x).
Proof. intros ->. apply Decodes_ret. Qed.

Lemma Decodes_mapAnyAny {K} (fk : K -> bytes) (gk : K -> value) m :
  Forall (entry_ok rec fk gk) m -> Forall (fun kv => map_key_ok (gk kv.1) = true) m ->
  freshb key_eqb [] (map gk (map fst m)) = true ->
  zlen (enc_map (entries fk enc m)) <= N + 1 ->
  Decodes (mapAnyAny_Unmarshal rec) (enc_map (entries fk enc m)) 0
    (map (fun kv => match kv with (k, x) => (gk k, norm x) end) m).
Proof.
  intros H Hk. apply Decodes_entries; [done|]. eapply Forall_impl; [exact Hk|].
  intros. by apply store_any.
Qed.

Lemma Decodes_Annotations {K} (fk : K -> bytes) (gk : K -> value) m :
  Forall (entry_ok rec fk gk) m -> Forall (fun kv => hashable (gk kv.1) = true) m ->
  freshb key_eqb [] (map gk (map fst m)) = true ->
  zlen (enc_map (entries fk enc m)) <= N + 1 ->
  Decodes (Annotations_Unmarshal rec) (enc_map (entries fk enc m)) 0
    (map (fun kv => match kv with (k, x) => (gk k, norm x) end) m).
Proof.
  intros H Hk. apply Decodes_entries; [done|]. eapply Forall_impl; [exact Hk|].
  intros. by apply store_hashable.
Qed.

Lemma Decodes_mapStringAny (fk : bytes -> bytes) m :
  Forall (entry_ok ReadString fk (fun k => k)) m ->
  freshb bytes_eqb [] (map fst m) = true ->
  zlen (enc_map (entries fk enc m)) <= N + 1 ->
  Decodes (mapStringAny_Unmarshal rec) (enc_map (entries fk enc m)) 0 (norm_entries norm m).
Proof.
  intros H Hf. apply (Decodes_entries ReadString bytes_eqb fk (fun k => k)); [done| |].
  - apply Forall_all. intros. apply Decodes_ret.
  - by rewrite map_id.
Qed.

(** *** Keys *)

Definition annotation_symbol (k : value) : value :=
  match k with VString s => VSymbol s | k => k end.

Lemma Decodes_annotation_key k :
  annotation_key_ok k = true -> zlen (enc_annotation_key k) <= N ->
  Decodes rec (enc_annotation_key k) 0 (norm_key k).
Proof.
  intros Hk Hs. replace (norm_key k) with (norm (annotation_symbol k)) by by destruct k.
  replace (enc_annotation_key k) with (enc (annotation_symbol k)) in * by by destruct k.
  apply Hleaf; [by destruct k|by destruct k|done].
Qed.

Lemma entry_string m kv :
  Forall (fun kv => dec_ok N rec kv.2) m ->
  forallb (fun kv => match kv with (k, x) => utf8_valid k && vokb x end) m = true ->
  In kv m -> entry_ok rec enc_string VString kv.
Proof.
  rewrite forallb_forall, List.Forall_forall. intros H Hok Hin. specialize (Hok kv Hin).
  specialize (H kv Hin). destruct kv as [k x]. cbn in *. apply andb_prop in Hok as [Hk Hx].
  split_and!; [apply enc_variable_pos|done..|]. cbn. intros. by apply (Hleaf (VString k)).
Qed.

Lemma entry_string_key m kv :
  Forall (fun kv => dec_ok N rec kv.2) m ->
  forallb (fun kv => match kv with (k, x) => utf8_valid k && vokb x end) m = true ->
  In kv m -> entry_ok ReadString enc_string (fun k => k) kv.
Proof.
  intros H Hok Hin. destruct (entry_string m kv H Hok Hin) as (? & ? & ? & _).
  split_and!; try done. intros Hs. apply Decodes_readString.
  pose proof (zlen_enc_variable TypeCodeStr8 TypeCodeStr32 kv.1). unfold enc_string in Hs. lia.
Qed.

Lemma entry_symbol m kv :
  Forall (fun kv => dec_ok N rec kv.2) m ->
  forallb (fun kv : bytes * value => match kv with (k, x) => vokb x end) m = true ->
  In kv m -> entry_ok rec enc_symbol VString kv.
Proof.
  rewrite forallb_forall, List.Forall_forall. intros H Hok Hin. specialize (Hok kv Hin).
  specialize (H kv Hin). destruct kv as [k x]. cbn in *.
  split_and!; [apply enc_variable_pos|done..|]. cbn. intros. by apply (Hleaf (VSymbol k)).
Qed.

Lemma entry_annotation m kv :
  Forall (fun kv => dec_ok N rec kv.1 /\ dec_ok N rec kv.2) m ->
  annotationsokb_ vokb m = true -> In kv m -> entry_ok rec enc_annotation_key norm_key kv.
Proof.
  unfold annotationsokb_. rewrite andb_true_iff, forallb_forall, List.Forall_forall.
  intros H [Hok _] Hin. specialize (Hok kv Hin). destruct (H kv Hin) as [_ Hv].
  destruct kv as [k x]. cbn in *. apply andb_prop in Hok as [Hk Hx].
  split_and!; [by apply enc_annotation_key_pos|done..|]. intros. by apply Decodes_annotation_key.
Qed.

Lemma annotation_key_hashable k : annotation_key_ok k = true -> hashable (norm_key k) = true.
Proof. by destruct k. Qed.
Lemma annotation_map_key k : annotation_key_ok k = true -> map_key_ok (norm_key k) = true.
Proof. by destruct k. Qed.

Lemma annotation_keys m kv :
  annotationsokb_ vokb m = true -> In kv m -> annotation_key_ok kv.1 = true.
Proof.
  unfold annotationsokb_. rewrite andb_true_iff, forallb_forall. intros [H _] Hin.
  specialize (H kv Hin). destruct kv. by apply andb_prop in H as [? _].
Qed.

Lemma Decodes_annotations m :
  Forall (fun kv => dec_ok N rec kv.1 /\ dec_ok N rec kv.2) m ->
  annotationsokb_ vokb m = true -> zlen (enc_annotations_ enc m) <= N + 1 ->
  Decodes (Annotations_Unmarshal rec) (enc_annotations_ enc m) 0 (norm_annotations norm m).
Proof.
  intros H Hok Hs. apply (Decodes_Annotations enc_annotation_key norm_key); [| | |done].
  - apply List.Forall_forall. intros. by eapply entry_annotation.
  - apply List.Forall_forall. intros. apply annotation_key_hashable. by eapply annotation_keys.
  - unfold annotationsokb_ in Hok. by apply andb_prop in Hok as [_ ?].
Qed.

(** *** Maps behind [any] *)

Lemma freshb_map {K K'} (eqb : K -> K -> bool) (eqb' : K' -> K' -> bool) (g : K -> K') l seen :
  (forall x y, In x (seen ++ l) -> In y (seen ++ l) -> eqb' (g x) (g y) = eqb x y) ->
  freshb eqb' (map g seen) (map g l) = freshb eqb seen l.
Proof.
  revert seen. induction l as [|k l IH]; intros seen H; [done|]. cbn [map freshb].
  replace (map g seen ++ [g k]) with (map g (seen ++ [k])) by by rewrite map_app.
  rewrite IH by (intros; apply H; rewrite <- app_assoc in *; done). f_equal.
  assert (forall x, In x seen -> eqb' (g x) (g k) = eqb x k) as Hk.
  { intros. apply H; apply in_app_iff; cbn; auto. }
  clear - Hk. induction seen as [|x seen IH]; cbn; [done|].
  rewrite Hk, IH; cbn; auto. intros. apply Hk. cbn. auto.
Qed.

Lemma norm_map_spec m :
  (forall kv, In kv m -> forall s, kv.1 <> VSymbol s) -> freshb key_eqb [] (map fst m) = true ->
  (if zlen m =? 0 then VMapAnyAny m
   else if forallb (fun kv => is_string_key kv.1) m then
     VMapStringAny (fold_left (fun mm kv => assoc_set bytes_eqb mm (string_key kv.1) kv.2) m [])
   else VMapAnyAny m) = norm_map m.
Proof.
  intros Hs Hf. destruct m as [|kv m]; [done|]. unfold norm_map.
  replace (zlen (kv :: m) =? 0) with false by zlia. destruct (forallb _ _) eqn:E; [|done].
  f_equal. rewrite (fold_assoc_fresh bytes_eqb string_key (fun x => x)).
  - apply map_ext. by intros [].
  - rewrite <- Hf. apply (freshb_map _ _ string_key (map fst (kv :: m)) []). cbn [app].
    assert (forall x, In x (map fst (kv :: m)) -> exists s, x = VString s) as Hx.
    { intros x (y & <- & Hy)%in_map_iff. rewrite forallb_forall in E.
      specialize (E y Hy). specialize (Hs y Hy). destruct (y.1); try done; eauto.
      by destruct (Hs s). }
    intros x y (sx & ->)%Hx (sy & ->)%Hx. done.
Qed.

Lemma Decodes_readAnyMap bs m :
  Decodes (mapAnyAny_Unmarshal rec) bs 0 m ->
  (forall kv, In kv m -> forall s, kv.1 <> VSymbol s) -> freshb key_eqb [] (map fst m) = true ->
  Decodes (readAnyMap rec) bs 0 (norm_map m).
Proof.
  intros H Hs Hf. rewrite <- norm_map_spec by done. unfold readAnyMap.
  eapply Decodes_nil; [exact H|]. destruct (zlen m =? 0); [apply Decodes_ret|].
  destruct (forallb _ m); apply Decodes_ret.
Qed.

Lemma norm_not_symbol v s : norm v <> VSymbol s.
Proof. destruct v; cbn; try done; unfold norm_map; repeat case_match; done. Qed.

(** A map whose keys are read back as [gk k], through [readAnyMap]. *)
Lemma Decodes_any_map {K} (fk : K -> bytes) (gk : K -> value) m :
  Forall (entry_ok rec fk gk) m -> Forall (fun kv => map_key_ok (gk kv.1) = true) m ->
  (forall k s, gk k <> VSymbol s) -> freshb key_eqb [] (map gk (map fst m)) = true ->
  zlen (enc_map (entries fk enc m)) <= N + 1 ->
  Decodes (readAnyMap rec) (enc_map (entries fk enc m)) 0
    (norm_map (map (fun kv => match kv with (k, x) => (gk k, norm x) end) m)).
Proof.
  intros H Hk Hs Hf Hz. apply Decodes_readAnyMap; [by apply Decodes_mapAnyAny| |].
  - intros kv ([k x] & <- & _)%in_map_iff s. apply Hs.
  - rewrite map_map in *. erewrite map_ext; [exact Hf|]. by intros [].
Qed.

Lemma Decodes_map m :
  Forall (fun kv => dec_ok N rec kv.1 /\ dec_ok N rec kv.2) m ->
  vokb (VMapAnyAny m) = true -> zlen (enc (VMapAnyAny m)) <= N + 1 ->
  Decodes (readAnyMap rec) (enc (VMapAnyAny m)) 0 (norm (VMapAnyAny m)).
Proof.
  cbn [vokb]. rewrite andb_true_iff, forallb_forall, List.Forall_forall. intros H [Hok Hf] Hs.
  assert (forall kv, In kv m -> vokb kv.1 = true /\ vokb kv.2 = true /\ map_key_ok (norm kv.1) = true) as Hok'.
  { intros [k x] Hin. specialize (Hok _ Hin). cbn in *. rewrite !andb_true_iff in Hok. tauto. }
  apply (Decodes_any_map enc norm); [| |apply norm_not_symbol|done|done];
    apply List.Forall_forall; intros kv Hin; destruct (Hok' kv Hin) as (? & ? & ?); [|done].
  destruct (H kv Hin). split_and!; [by apply enc_pos|done|done|auto].
Qed.

Lemma fresh_strings (m : list (bytes * value)) :
  freshb bytes_eqb [] (map fst m) = true -> freshb key_eqb [] (map VString (map fst m)) = true.
Proof. intros <-. by apply (freshb_map bytes_eqb key_eqb VString _ []). Qed.

Lemma Decodes_mapString m :
  Forall (fun kv => dec_ok N rec kv.2) m -> vokb (VMapStringAny m) = true ->
  zlen (enc (VMapStringAny m)) <= N + 1 ->
  Decodes (readAnyMap rec) (enc (VMapStringAny m)) 0 (norm (VMapStringAny m)).
Proof.
  cbn [vokb]. rewrite andb_true_iff. intros H [Hok Hf] Hs.
  apply (Decodes_any_map enc_string VString); [| |done|by apply fresh_strings|done].
  - apply List.Forall_forall. intros. by eapply entry_string.
  - by apply Forall_all.
Qed.

Lemma Decodes_mapSymbol m :
  Forall (fun kv => dec_ok N rec kv.2) m -> vokb (VMapSymbolAny m) = true ->
  zlen (enc (VMapSymbolAny m)) <= N + 1 ->
  Decodes (readAnyMap rec) (enc (VMapSymbolAny m)) 0 (norm (VMapSymbolAny m)).
Proof.
  cbn [vokb]. rewrite andb_true_iff. intros H [Hok Hf] Hs.
  apply (Decodes_any_map enc_symbol VString); [| |done|by apply fresh_strings|done].
  - apply List.Forall_forall. intros. by eapply entry_symbol.
  - by apply Forall_all.
Qed.

Lemma norm_key_not_symbol k s : norm_key k <> VSymbol s.
Proof. by destruct k. Qed.

Lemma Decodes_annotations_any m :
  Forall (fun kv => dec_ok N rec kv.1 /\ dec_ok N rec kv.2) m ->
  vokb (VAnnotations m) = true -> zlen (enc (VAnnotations m)) <= N + 1 ->
  Decodes (readAnyMap rec) (enc (VAnnotations m)) 0 (norm (VAnnotations m)).
Proof.
  cbn [vokb]. intros H Hok Hs.
  apply (Decodes_any_map enc_annotation_key norm_key); [| |apply norm_key_not_symbol| |done].
  - apply List.Forall_forall. intros. by eapply entry_annotation.
  - apply List.Forall_forall. intros. apply annotation_map_key. by eapply annotation_keys.
  - unfold annotationsokb_ in Hok. by apply andb_prop in Hok as [_ ?].
Qed.

(** *** Errors and delivery states *)

Lemma notnull_variable c8 c32 s :
  c8 <> TypeCodeNull -> c32 <> TypeCodeNull -> notnull (enc_variable c8 c32 s).
Proof. intros. unfold enc_variable. destruct (_ <? _); eexists _, _; by split. Qed.
Lemma notnull_map kvs : notnull (enc_map kvs).
Proof. eexists _, _; by split. Qed.
Lemma notnull_composite code os : notnull (enc_composite code os).
Proof. eexists _, _; by split. Qed.
Lemma notnull_bool t : notnull (enc_bool t).
Proof. destruct t; eexists _, _; by split. Qed.
Lemma notnull_uint32 n : notnull (enc_uint32 n).
Proof. by eapply starts_notnull, (starts_uint32 rec). Qed.
Lemma notnull_uint64 n : notnull (enc_uint64 n).
Proof. by eapply starts_notnull, (starts_uint64 rec). Qed.

Lemma composite_le code bs os : In (Some bs) os -> zlen (enc_composite code os) <= N + 1 -> zlen bs <= N.
Proof. intros H. pose proof (composite_in code bs os H). lia. Qed.
Lemma composite_le1 code bs os : In (Some bs) os -> zlen (enc_composite code os) <= N + 1 -> zlen bs <= N + 1.
Proof. intros H Hs. pose proof (composite_le _ _ _ H Hs). lia. Qed.
Lemma variable_le c8 c32 s : zlen (enc_variable c8 c32 s) <= N -> zlen s < 2 ^ 32.
Proof. pose proof (zlen_enc_variable c8 c32 s). lia. Qed.

Lemma Decodes_error e :
  PError (dec_ok N rec) e -> errorokb_ vokb e = true -> zlen (enc_error_ enc e) <= N + 1 ->
  Decodes (Error_Unmarshal_ rec) (enc_error_ enc e) 0 (norm_error_ norm e).
Proof.
  destruct e as [c d info]. unfold PError, errorokb_, enc_error_. cbn [Info]. intros H Hok Hs.
  rewrite !andb_true_iff in Hok. destruct Hok as [[Hd Hi] Hf].
  apply Decodes_UnmarshalComposite; [done| |lia].
  apply (FD_required _ _ _ c); [by apply notnull_variable| |].
  { apply Decodes_Unmarshal; [by apply notnull_variable|]. apply Decodes_readSymbol.
    eapply variable_le, composite_le; [|exact Hs]. by left. }
  assert (forall s, s = mkError c d [] ->
    FieldsDec [uf (DUnmarshaler (mapStringAny_Unmarshal rec)) set_Info]
      [match info with [] => None | _ => Some (enc_map (entries enc_string enc info)) end]
      s (mkError c d (norm_entries norm info))) as Htail.
  { intros s ->. destruct info as [|kv info]; [apply FD_uf_null, FD_nil|].
    apply (FD_uf _ _ (norm_entries norm (kv :: info))); [apply notnull_map| |apply FD_nil].
    apply Decodes_Unmarshal; [apply notnull_map|]. apply Decodes_mapStringAny; [|done|].
    - apply List.Forall_forall. intros. by eapply entry_string_key.
    - eapply composite_le1; [|exact Hs]. cbn. auto. }
  case_bool_decide as E; [subst d; by apply FD_uf_null, Htail|].
  apply (FD_uf _ _ d); [by apply notnull_variable| |by apply Htail].
  apply Decodes_tryReadNull; [by apply notnull_variable|]. apply (Decodes_fmap Some).
  apply Decodes_readString. eapply variable_le, composite_le; [|exact Hs]. cbn. auto.
Qed.

(** The decoder of each kind of state, and its code. *)
Definition state_decoder (s : DeliveryState) : M Buffer DeliveryState :=
  match s with
  | StateReceived _ _ => StateReceived_Unmarshal
  | StateAccepted => StateAccepted_Unmarshal
  | StateRejected _ => StateRejected_Unmarshal rec
  | StateReleased => StateReleased_Unmarshal
  | StateModified _ _ _ => StateModified_Unmarshal rec
  end.
Definition state_code (s : DeliveryState) : Z :=
  match s with
  | StateReceived _ _ => TypeCodeStateReceived
  | StateAccepted => TypeCodeStateAccepted
  | StateRejected _ => TypeCodeStateRejected
  | StateReleased => TypeCodeStateReleased
  | StateModified _ _ _ => TypeCodeStateModified
  end.

Lemma enc_state_code s : exists l, enc_state_ enc s = [0; TypeCodeSmallUlong; state_code s] ++ l.
Proof. destruct s as [| |[]| |]; eexists; reflexivity. Qed.

Lemma Decodes_modified f u ann :
  PState (dec_ok N rec) (StateModified f u ann) ->
  stateokb_ vokb (StateModified f u ann) = true ->
  zlen (enc_state_ enc (StateModified f u ann)) <= N + 1 ->
  Decodes (StateModified_Unmarshal rec) (enc_state_ enc (StateModified f u ann)) 0
    (norm_state_ norm (StateModified f u ann)).
Proof.
  intros H Hok Hs. cbn [enc_state_ PState stateokb_] in *.
  set (ann' := match ann with Some m => Some (norm_annotations norm m) | None => None end).
  replace (norm_state_ _ _) with (StateModified f u ann') by by destruct ann.
  apply (Decodes_then _ (fun s => StateModified s.1.1 s.1.2 s.2) _ _ (f, u, ann')).
  apply Decodes_UnmarshalComposite; [done| |lia].
  assert (FieldsDec [uf (DUnmarshaler (Annotations_Unmarshal rec))
      (fun m (s : bool * bool * option (list (value * value))) => (s.1, Some m))]
    [match ann with Some m => Some (enc_annotations_ enc m) | None => None end]
    (f, u, None) (f, u, ann')) as Htail.
  { destruct ann as [m|]; [|apply FD_uf_null, FD_nil].
    eapply FD_uf; [apply notnull_map| |apply FD_nil].
    apply Decodes_Unmarshal; [apply notnull_map|]. apply Decodes_annotations; [done..|].
    eapply composite_le1; [|exact Hs]. cbn. auto. }
  assert (forall b, Decodes (Unmarshal DBool) (enc_bool b) 0 (Some b)) as Hb.
  { intros b. apply Decodes_tryReadNull; [apply notnull_bool|].
    apply (Decodes_fmap Some), Decodes_readBool. }
  destruct f; [eapply FD_uf; [apply notnull_bool|apply Hb|]|apply FD_uf_null];
    (destruct u; [eapply FD_uf; [apply notnull_bool|apply Hb|]|apply FD_uf_null]); apply Htail.
Qed.

Lemma Decodes_received n off :
  stateokb_ vokb (StateReceived n off) = true -> zlen (enc_state_ enc (StateReceived n off)) <= N + 1 ->
  Decodes StateReceived_Unmarshal (enc_state_ enc (StateReceived n off)) 0 (StateReceived n off).
Proof.
  cbn [stateokb_ enc_state_]. intros [Hn Ho]%andb_prop Hs.
  apply (Decodes_then _ (fun s => StateReceived s.1 s.2) _ _ (n, off)).
  apply Decodes_UnmarshalComposite; [done| |lia].
  apply (FD_required _ _ _ n); [apply notnull_uint32| |
    apply (FD_required _ _ _ off); [apply notnull_uint64| |apply FD_nil]].
  - apply Decodes_tryReadNull; [apply notnull_uint32|].
    by apply (Decodes_fmap Some), Decodes_readUint32, inu_is.
  - apply Decodes_tryReadNull; [apply notnull_uint64|].
    by apply (Decodes_fmap Some), Decodes_readUlong, inu_is.
Qed.

Lemma Decodes_rejected e :
  PState (dec_ok N rec) (StateRejected e) -> stateokb_ vokb (StateRejected e) = true ->
  zlen (enc_state_ enc (StateRejected e)) <= N + 1 ->
  Decodes (StateRejected_Unmarshal rec) (enc_state_ enc (StateRejected e)) 0
    (norm_state_ norm (StateRejected e)).
Proof.
  destruct e as [e|]; cbn [enc_state_ PState stateokb_ norm_state_]; intros H Hok Hs.
  - apply (Decodes_then _ StateRejected _ _ (Some (norm_error_ norm e))).
    apply Decodes_UnmarshalComposite; [done| |lia].
    destruct e as [c d i]. eapply FD_uf; [apply notnull_composite| |apply FD_nil].
    apply Decodes_tryReadNull; [apply notnull_composite|].
    apply (Decodes_Unmarshal (Error_Unmarshal_ rec)); [apply notnull_composite|].
    apply (Decodes_error (mkError c d i)); [done..|]. eapply composite_le1; [|exact Hs]. by left.
  - apply (Decodes_then _ StateRejected _ _ None).
    apply Decodes_UnmarshalComposite; [done| |lia]. apply FD_uf_null, FD_nil.
Qed.

Lemma Decodes_state s :
  PState (dec_ok N rec) s -> stateokb_ vokb s = true -> zlen (enc_state_ enc s) <= N + 1 ->
  Decodes (state_decoder s) (enc_state_ enc s) 0 (norm_state_ norm s).
Proof.
  destruct s as [n off| |e| |f u ann]; intros H Hok Hs; cbn [state_decoder].
  - by apply Decodes_received.
  - apply Decodes_UnmarshalComposite; [done|apply FD_nil|cbn in *; lia].
  - by apply Decodes_rejected.
  - apply Decodes_UnmarshalComposite; [done|apply FD_nil|cbn in *; lia].
  - by apply Decodes_modified.
Qed.

Lemma Decodes_any_state s :
  PState (dec_ok N rec) s -> stateokb_ vokb s = true -> zlen (enc_state_ enc s) <= N + 1 ->
  Decodes (ReadAny_body rec) (enc_state_ enc s) 0 (VDeliveryState (norm_state_ norm s)).
Proof.
  intros H Hok Hs. pose proof (Decodes_state s H Hok Hs) as Hd.
  destruct (enc_state_code s) as [l E]. rewrite E in *.
  eapply Decodes_any_composite; [|by apply (Decodes_fmap VDeliveryState)].
  by destruct s.
Qed.

Lemma Decodes_any_error e :
  PError (dec_ok N rec) e -> errorokb_ vokb e = true -> zlen (enc_error_ enc e) <= N + 1 ->
  Decodes (ReadAny_body rec) (enc_error_ enc e) 0 (VError (norm_error_ norm e)).
Proof.
  intros H Hok Hs. pose proof (Decodes_error e H Hok Hs) as Hd.
  assert (exists l, enc_error_ enc e = [0; TypeCodeSmallUlong; TypeCodeError] ++ l) as [l E]
    by (destruct e; eexists; reflexivity).
  rewrite E in *. eapply Decodes_any_composite; [|by apply (Decodes_fmap VError)]. done.
Qed.

(** The [*DeliveryState] destination: the peeked code selects the decoder. *)
Lemma Decodes_DeliveryState s :
  PState (dec_ok N rec) s -> stateokb_ vokb s = true -> zlen (enc_state_ enc s) <= N + 1 ->
  Decodes (DeliveryState_Unmarshal_ rec) (enc_state_ enc s) 0 (norm_state_ norm s).
Proof.
  intros H Hok Hs. pose proof (Decodes_state s H Hok Hs) as Hd.
  destruct (enc_state_code s) as [l E]. rewrite E in *. apply Decodes_getBytes. intros tail _.
  assert (PeekMessageType (([0; TypeCodeSmallUlong; state_code s] ++ l) ++ tail)
          = Ok (state_code s, 3)) as Hp.
  { unfold PeekMessageType. cbn -[zlen Z.ltb Z.eqb]. rewrite !zlen_cons.
    replace (_ <? 3) with false by (pose_zlen; lia). cbn -[zlen].
    replace (_ =? 0) with false by (pose_zlen; lia). done. }
  intros pre rest Hr. rewrite Hp. erewrite bind_Ok by reflexivity. cbn [fst].
  assert (notnull ([0; TypeCodeSmallUlong; state_code s] ++ l)) as Hn
    by (eexists _, _; split; [reflexivity|done]).
  pose proof (Decodes_Unmarshal (state_decoder s) _ 0 _ Hn Hd pre rest Hr) as Hu.
  destruct s; cbn -[Unmarshal at_ app] in *; erewrite bind_Ok by exact Hu; done.
Qed.

(** *** Described types *)

Lemma Decodes_optional_any v :
  vokb v = true -> Decodes rec (enc v) 0 (norm v) ->
  notnull (enc v) \/ v = VNil ->
  Decodes (optional VNil (Unmarshal (DUnmarshaler rec))) (enc v) 0 (norm v).
Proof.
  intros Hok Hd [Hn| ->].
  - eapply Decodes_nil; [by apply Decodes_Unmarshal|]. apply Decodes_ret.
  - intros pre rest Hr. reflexivity || (cbn [enc app norm];
      unfold optional, mbind, M_bind; cbn [Unmarshal]; unfold mbind, M_bind;
      by rewrite tryReadNull_null).
Qed.

Lemma Decodes_readDescribed d x :
  vokb d = true -> vokb x = true -> notnull (enc d) \/ d = VNil -> notnull (enc x) \/ x = VNil ->
  Decodes rec (enc d) 0 (norm d) -> Decodes rec (enc x) 0 (norm x) ->
  Decodes (DescribedType_Unmarshal_ rec) (0 :: enc d ++ enc x) 0 (mkDescribed (norm d) (norm x)).
Proof.
  intros. eapply (Decodes_seq ReadByte _ [0]); [apply Decodes_ReadByte'|]. cbn [negb Z.eqb].
  eapply Decodes_seq; [eapply Decodes_weaken; [by apply Decodes_optional_any|pose_zlen; lia]|].
  eapply Decodes_nil; [by apply Decodes_optional_any|apply Decodes_ret].
Qed.
End Nested.

(** ** The first byte of an encoding *)

Definition not_ulong (v : value) : Prop :=
  match v with VUint _ | VUint64 _ => False | _ => True end.

Definition headed (P : Z -> Prop) (bs : bytes) : Prop := exists c l, bs = c :: l /\ P c.

Definition other (c : Z) : Prop := c <> TypeCodeNull /\ c <> TypeCodeSmallUlong /\ c <> TypeCodeUlong.

Ltac headed :=
  repeat match goal with |- headed _ (if ?b then _ else _) => destruct b end;
  eexists _, _; (split; [reflexivity|done]).

Lemma headed_variable P c8 c32 s : P c8 -> P c32 -> headed P (enc_variable c8 c32 s).
Proof. intros. unfold enc_variable. headed. Qed.
Lemma headed_array n ty body : headed other (enc_array n ty body).
Proof. unfold enc_array. destruct (_ <=? _); headed. Qed.
Lemma headed_list l : headed other (enc_list l).
Proof. destruct l; headed. Qed.
Lemma headed_narrow w c c' k a : headed other (enc_narrow w c c' k a).
Proof. destruct w; apply headed_array. Qed.
Lemma headed_strings c c' a : headed other (enc_strings c c' a).
Proof. unfold enc_strings. destruct (existsb _ _); apply headed_array. Qed.
Lemma headed_error e : headed other (enc_error_ enc e).
Proof. destruct e. headed. Qed.
Lemma headed_state s : headed other (enc_state_ enc s).
Proof. destruct s as [| |[]| |]; headed. Qed.

Lemma enc_head v : vokb v = true -> not_ulong v -> headed other (enc v) \/ v = VNil.
Proof.
  destruct v; intros Hok Hn; try done; try (by right); left; cbn [enc];
    try (by headed);
    try apply headed_array; try apply headed_narrow; try apply headed_strings;
    try apply headed_list; try apply headed_error; try apply headed_state;
    try (by apply headed_variable).
  - unfold enc_bool. destruct v; headed.
  - unfold enc_uint32. headed.
  - unfold enc_int64. headed.
  - unfold enc_int64. headed.
  - unfold enc_int32. headed.
Qed.

Lemma enc_notnull v : vokb v = true -> notnull (enc v) \/ v = VNil.
Proof.
  intros Hok. assert (not_ulong v \/ exists n, enc v = enc_uint64 n) as [Hn|[n E]]
    by (destruct v; cbn; eauto).
  - destruct (enc_head v Hok Hn) as [(c & l & E & Hc & _)| ->]; [left|by right].
    by exists c, l.
  - left. rewrite E. apply (notnull_uint64 (mret VNil)).
Qed.

Lemma switch_described rec n : reserved n = false -> readComposite_switch rec n = readDescribed rec.
Proof.
  unfold reserved, readComposite_switch. destruct (Z.gtb_spec n 255) as [H|H]; [done|].
  replace (n <=? 255) with true by lia. rewrite andb_true_l, existsb_app, orb_false_iff.
  cbn [existsb]. rewrite !orb_false_iff. intros [(-> & -> & -> & -> & -> & -> & -> & -> & -> & -> & _) ->].
  done.
Qed.

(** The code [readComposite] sees before a described type that is not a
    composite it decodes. *)
Lemma Decodes_any_described rec d bs a :
  vokb d = true -> descriptor_ok d = true ->
  Decodes (readDescribed rec) (0 :: enc d ++ bs) 0 a ->
  Decodes (ReadAny_body rec) (0 :: enc d ++ bs) 0 a.
Proof.
  intros Hok Hd H. eapply Decodes_any; [apply starts_zero|].
  apply Decodes_getBytes. intros tail _.
  pose proof (enc_pos d Hok) as Hpos.
  replace (_ <? 2) with false by zlia. cbn [nthb lookup list_lookup app default from_option].
  change (negb (id 0 =? 0)) with false. cbv iota.
  assert (not_ulong d \/ exists n, enc d = enc_uint64 n /\ inu 64 n = true /\ reserved n = false)
    as [Hn|(n & E & Hu & Hr)].
  { destruct d; cbn; auto; right; eexists; (split; [reflexivity|]); cbn in Hok, Hd;
      apply negb_true_iff in Hd; done. }
  - intros pre rest Hr. erewrite bind_Ok; [by rewrite (switch_described _ 0); [apply H|]|].
    destruct (enc_head d Hok Hn) as [(c & l & E & _ & H1 & H2)| ->]; [|done].
    rewrite E. unfold nthb. cbn. replace (c =? TypeCodeSmallUlong) with false by lia.
    by replace (c =? TypeCodeUlong) with false by lia.
  - intros pre rest Hrest. rewrite E in *. unfold enc_uint64 in *.
    destruct (n =? 0) eqn:E0; [|destruct (n <? 256)].
    + erewrite bind_Ok by reflexivity. rewrite switch_described by done. by apply H.
    + cbn -[zlen Z.ltb]. replace (_ <? 3) with false by zlia.
      erewrite bind_Ok by reflexivity. rewrite switch_described by done. by apply H.
    + unfold nthb. cbn -[zlen Z.ltb be_bytes Uint64]. replace (_ <? 10) with false by zlia.
      erewrite bind_Ok by reflexivity.
      rewrite drop_0, <- !app_assoc, Uint64_be_bytes, switch_described by (by apply inu_is || done).
      by apply H.
Qed.

(** ** The whole decoder *)

(** The bound for values nested one level deeper. *)
Lemma dec_ok_mono N N' rec v : dec_ok N rec v -> N' <= N -> dec_ok N' rec v.
Proof. intros H HN Hok Hs. apply H; [done|lia]. Qed.

Lemma dec_leaf N rec v : N < 2 ^ 32 -> is_leaf v = true -> dec_ok N (ReadAny_body rec) v.
Proof. intros HN Hl Hok Hs. apply rt_leaf; [done|done|lia]. Qed.


(** The nested values that the induction over [v] covers. *)
Lemma dec_body N rec v :
  N + 1 < 2 ^ 32 -> (forall v, is_leaf v = true -> dec_ok N rec v) ->
  match v with
  | VList l => Forall (dec_ok N rec) l
  | VMapAnyAny m | VAnnotations m => Forall (fun kv => dec_ok N rec kv.1 /\ dec_ok N rec kv.2) m
  | VMapStringAny m | VMapSymbolAny m => Forall (fun kv => dec_ok N rec kv.2) m
  | VError e => PError (dec_ok N rec) e
  | VDeliveryState s => PState (dec_ok N rec) s
  | VDescribed d x => dec_ok N rec d /\ dec_ok N rec x
  | _ => True
  end ->
  dec_ok (N + 1) (ReadAny_body rec) v.
Proof.
  intros HN Hleaf H Hok Hs.
  destruct (is_leaf v) eqn:El; [apply rt_leaf; [done|done|lia]|].
  destruct v; try done; clear El.
  - eapply Decodes_any; [apply starts_list|]. cbn [norm].
    by apply (Decodes_fmap VList), (Decodes_list N).
  - eapply Decodes_any; [apply starts_map|]. by apply (Decodes_map N).
  - eapply Decodes_any; [apply starts_map|]. by apply (Decodes_mapString N).
  - eapply Decodes_any; [apply starts_map|]. by apply (Decodes_mapSymbol N).
  - eapply Decodes_any; [apply starts_map|]. by apply (Decodes_annotations_any N).
  - cbn [vokb enc norm] in *. rewrite !andb_true_iff in Hok. destruct Hok as [[Hd Hx] Hc].
    destruct H as [H1 H2]. apply Decodes_any_described; [done..|].
    pose proof (enc_pos _ Hd). pose proof (enc_pos _ Hx). rewrite zlen_cons, zlen_app in Hs.
    eapply Decodes_eq; [apply (Decodes_then _ (fun t => VDescribed (Descriptor t) (DValue t)))|].
    + apply Decodes_readDescribed; [done..| | | |]; try by apply enc_notnull.
      * apply H1; [done|lia].
      * apply H2; [done|lia].
    + done.
  - by apply (Decodes_any_error N).
  - by apply (Decodes_any_state N).
Qed.

(** Fuel is one unit per byte of the encoding, up to the size limit. *)
Definition dec_fuel (v : value) : Prop :=
  forall fuel, dec_ok (Z.min (2 ^ 32 - 1) (Z.of_nat fuel)) (ReadAnyFuel fuel) v.

Lemma dec_fuel_leaf v : is_leaf v = true -> dec_fuel v.
Proof.
  intros Hl [|f] Hok Hs; [pose proof (enc_pos _ Hok); lia|]. apply rt_leaf; [done|done|lia].
Qed.

Lemma dec_fuel_child v fuel :
  dec_fuel v -> dec_ok (Z.min (2 ^ 32 - 2) (Z.of_nat fuel)) (ReadAnyFuel fuel) v.
Proof. intros H. eapply dec_ok_mono; [apply H|lia]. Qed.

Lemma dec_fuel_step v :
  (forall fuel, dec_ok (Z.min (2 ^ 32 - 2) (Z.of_nat fuel) + 1) (ReadAny_body (ReadAnyFuel fuel)) v) ->
  dec_fuel v.
Proof.
  intros H [|f] Hok Hs; [pose proof (enc_pos _ Hok); lia|]. apply (H f); [done|lia].
Qed.

Lemma dec_all v : dec_fuel v.
Proof.
  induction v as [v Hl|l H|m H|m H|m H|m H|d v Hd Hv|e H|s H] using value_nested_ind;
    try (by apply dec_fuel_leaf);
    apply dec_fuel_step; intros fuel; apply dec_body; try lia;
    try (intros; apply dec_fuel_child; by apply dec_fuel_leaf).
  - eapply Forall_impl; [exact H|]. intros. by apply dec_fuel_child.
  - eapply Forall_impl; [exact H|]. intros x []. split; by apply dec_fuel_child.
  - eapply Forall_impl; [exact H|]. intros. by apply dec_fuel_child.
  - eapply Forall_impl; [exact H|]. intros. by apply dec_fuel_child.
  - eapply Forall_impl; [exact H|]. intros x []. split; by apply dec_fuel_child.
  - split; by apply dec_fuel_child.
  - eapply Forall_impl; [exact H|]. intros. by apply dec_fuel_child.
  - destruct s as [| |[e|]| |f u [m|]]; cbn [PState] in *; try done;
      (eapply Forall_impl; [exact H|]); intros x Hx; [|destruct Hx; split]; by apply dec_fuel_child.
Qed.

Lemma Decodes_ReadAny v :
  vokb v = true -> zlen (enc v) < 2 ^ 32 -> Decodes ReadAny (enc v) 0 (norm v).
Proof.
  intros Hok Hs pre rest Hr. unfold ReadAny. rewrite Len_at.
  apply (dec_all v); [done| |done]. zlia.
Qed.

(** C10: decoding inverts encoding for every sendable AMQP value: what
    [Marshal] appends is read back by [ReadAny] as the value itself (as its
    wire-level normal form [norm v]: untyped ints become 64-bit, symbols
    strings, string-keyed maps [map[string]any], times are truncated to
    milliseconds), whatever precedes and follows it in the buffer, and exactly
    its bytes are consumed.  Sendable ([vokb]) excludes the values that the codec
    does not read back: arrays of int32 or int64 with an element below -128 and
    none above 127, which the encoder truncates; arrays of strings, symbols or
    binaries with less than two bytes per element, such as empty strings, which
    the decoder refuses; and strings that are not UTF-8. *)
Theorem value_roundtrip v pre rest :
  vokb v = true -> zlen (enc v) < 2 ^ 32 ->
  exists bs, Marshal v (at_ [] pre) = (Ok tt, at_ [] (pre ++ bs)) /\
    ReadAny (at_ pre (bs ++ rest)) = (Ok (norm v), at_ (pre ++ bs) rest).
Proof.
  intros Hok Hs. exists (enc v). split.
  - apply (wire_all v Hok Hs). apply at_wf.
  - apply Decodes_ReadAny; [done..|]. apply zlen_nonneg.
Qed.

Lemma value_roundtrip_witness :
  exists bs, Marshal sample_value (at_ [] [1; 2]) = (Ok tt, at_ [] ([1; 2] ++ bs)) /\
    ReadAny (at_ [1; 2] (bs ++ [3])) = (Ok (norm sample_value), at_ ([1; 2] ++ bs) [3]).
Proof. apply (value_roundtrip sample_value [1; 2] [3]); vm_compute; reflexivity. Defined.

(** A timestamp at or after the epoch comes back with its sub-millisecond
    part dropped, if its nanosecond count fits an int64. *)
Theorem timestamp_truncates t :
  0 <= sec t -> 0 <= nsec t < 1000000000 -> sec t * 1000000000 + nsec t < 2 ^ 63 ->
  norm_time t = mkTime (sec t) (nsec t / 1000000 * 1000000).
Proof.
  intros Hs Hn Hr. unfold norm_time, ms_time, time_ms, UnixNano.
  assert (i64 (sec t * 1000000000 + nsec t) = sec t * 1000000000 + nsec t) as ->
    by (unfold i64; rewrite Z.mod_small by lia; lia).
  assert (Z.quot (sec t * 1000000000 + nsec t) 1000000 = sec t * 1000 + nsec t / 1000000) as ->.
  { rewrite Z.quot_div_nonneg by lia. replace (sec t * 1000000000 + nsec t)
      with (nsec t + (sec t * 1000) * 1000000) by lia. rewrite Z.div_add by lia. lia. }
  assert (0 <= nsec t / 1000000 < 1000) by (split; [apply Z.div_pos; lia|apply Z.div_lt_upper_bound; lia]).
  rewrite Z.quot_div_nonneg, Z.rem_mod_nonneg by lia.
  rewrite Z.add_comm, Z.div_add, Z.mod_add, Z.div_small, Z.mod_small by lia.
  unfold time_Unix. replace (_ || _) with false by lia. reflexivity.
Qed.

Lemma timestamp_truncates_witness :
  norm_time (mkTime 1700000000 123456789) = mkTime 1700000000 123000000.
Proof. apply (timestamp_truncates (mkTime 1700000000 123456789)); cbn; lia. Defined.

(** [arrayInt32.Marshal] picks the one-byte encoding whenever no element
    exceeds 127, also for elements below -128, which are then truncated: the
    array that comes back is not the one that was sent. *)
Theorem arrayInt32_negative_truncated :
  exists a bs a', forallb (ini 32) a = true /\
    Marshal (VArrayInt32 a) (New []) = (Ok tt, at_ [] bs) /\
    fst (ReadAny (at_ [] bs)) = Ok (VArrayInt32 a') /\ a' <> a.
Proof.
  exists [-200], (enc (VArrayInt32 [-200])), [56].
  split_and!; [reflexivity|vm_compute; reflexivity|vm_compute; reflexivity|done].
Qed.

(** An array of empty strings is encoded without error but refused by the
    decoder, which demands two bytes per element. *)
Theorem arrayString_empty_refused :
  exists a bs e, Marshal (VArrayString a) (New []) = (Ok tt, at_ [] bs) /\
    fst (ReadAny (at_ [] bs)) = Err e.
Proof.
  exists [[]; []], (enc (VArrayString [[]; []])), (Errorf "invalid length %d" [2]).
  split; vm_compute; reflexivity.
Qed.

End ValueRoundtrip.
