(* ===== verification/FieldRoundtrip.v ===== *)
(** * FieldRoundtrip: round trips of the fields of a composite

    [FRT m d a]: what the writer [m] of a field appends is read back by
    [Unmarshal] into destination [d] as [a].  One lemma per kind of field that
    the frame bodies and message sections use, and the rule that composes them
    to the round trip of a whole struct. *)

From S2P Require Import Prelude Buffer Types Encode Decode Wire CodecSafety CodecRoundtrip ValueRoundtrip.
Import Buffer Encode Decode Wire CodecSafety CodecRoundtrip ValueRoundtrip.

Module FieldRoundtrip.

(** Writing with [m] and reading with [d] gives [a], if the encoding fits the
    32-bit size fields. *)
Definition Roundtrip {A} (m : M Buffer unit) (d : M Buffer A) (a : A) : Prop :=
  exists bs, Encodes m bs /\ notnull bs /\ (zlen bs < 2 ^ 32 -> Decodes d bs 0 a).

Definition FRT {A} (m : M Buffer unit) (d : dest A) (a : A) : Prop :=
  Roundtrip m (Unmarshal d) (Some a).

(** ** Structs *)

Definition field_rt {S} (m : MarshalField) (f : UnmarshalField S) (s s' : S) : Prop :=
  if Omit m then match HandleNull f with None => Ok s | Some h => h s end = Ok s'
  else exists a, FRT (Value m) (Field f) a /\ s' = uf_set f a s.

Inductive FieldsRT {S} : list MarshalField -> list (UnmarshalField S) -> S -> S -> Prop :=
| FieldsRT_nil s s' : s = s' -> FieldsRT [] [] s s'
| FieldsRT_cons m f ms fs s s1 s' :
    field_rt m f s s1 -> FieldsRT ms fs s1 s' -> FieldsRT (m :: ms) (f :: fs) s s'.

(** Consuming the fields of a prefix, in terms of [FieldsDec]. *)
Lemma FieldsRT_dec {S} ms (fs : list (UnmarshalField S)) s s' :
  FieldsRT ms fs s s' ->
  exists os, Forall2 field_bytes ms os /\
    (Forall (fun o => match o with Some bs => zlen bs < 2 ^ 32 | None => True end) os ->
     FieldsDec fs os s s').
Proof.
  induction 1 as [s s' ->|m f ms fs s s1 s' Hf H (os & Hb & Hd)].
  - exists []. split; [constructor|]. intros. constructor.
  - unfold field_rt in Hf. destruct (Omit m) eqn:E.
    + exists (None :: os). split; [by constructor|]. intros [_ Ho]%Forall_cons.
      eapply FD_none; eauto.
    + destruct Hf as (a & (bs & He & Hn & Hbs) & ->). exists (Some bs :: os).
      split; [by constructor|]. intros [Hz Ho]%Forall_cons. eapply FD_some; eauto.
Qed.

(** The same for a composite, whose encoding starts with its code. *)
Definition CompositeRT {A} (code : Z) (m : M Buffer unit) (d : M Buffer A) (a : A) : Prop :=
  exists l, Encodes m ([0; TypeCodeSmallUlong; code] ++ l) /\
    (zlen ([0; TypeCodeSmallUlong; code] ++ l) < 2 ^ 32 ->
     Decodes d ([0; TypeCodeSmallUlong; code] ++ l) 0 a).

Lemma CompositeRT_Roundtrip {A} code m (d : M Buffer A) a :
  CompositeRT code m d a -> Roundtrip m d a.
Proof.
  intros (l & He & Hd). eexists. split_and!; [exact He| |exact Hd]. eexists _, _. by split.
Qed.

Lemma composite_rt {S} code ms (fs : list (UnmarshalField S)) s s' :
  is_byte code -> FieldsRT ms fs s s' ->
  CompositeRT code (MarshalComposite code ms) (UnmarshalComposite code fs s) s'.
Proof.
  intros Hc H. destruct (FieldsRT_dec _ _ _ _ H) as (os & Hb & Hd).
  exists (enc_list (map enc_field (trim os))). fold (enc_composite code os). split.
  - by apply Encodes_MarshalComposite.
  - intros Hs. apply Decodes_UnmarshalComposite; [done| |done]. apply Hd.
    apply List.Forall_forall. intros [bs|] Hin; [|done].
    pose proof (composite_in code bs os Hin). lia.
Qed.

(** ** Fields *)

Lemma f_required {S A} m (d : dest A) (set : A -> S -> S) msg a ms fs s s' :
  FRT m d a -> FieldsRT ms fs (set a s) s' ->
  FieldsRT (mf m false :: ms) (uf_required d set msg :: fs) s s'.
Proof. intros. eapply FieldsRT_cons; [|eassumption]. exists a. by split. Qed.

Lemma f_uf {S A} m omit (d : dest A) (set : A -> S -> S) a ms fs s s' :
  (omit = false -> FRT m d a) -> (omit = true -> set a s = s) ->
  FieldsRT ms fs (set a s) s' ->
  FieldsRT (mf m omit :: ms) (uf d set :: fs) s s'.
Proof.
  intros Hf Ht H. eapply FieldsRT_cons; [|eassumption]. unfold field_rt. cbn [Omit].
  destruct omit; [cbn; by rewrite Ht|]. exists a. split; [by apply Hf|done].
Qed.

Lemma f_default {S A} m omit (d : dest A) (set : A -> S -> S) v a ms fs s s' :
  (omit = false -> FRT m d a) -> (omit = true -> a = v) ->
  FieldsRT ms fs (set a s) s' ->
  FieldsRT (mf m omit :: ms) (uf_default d set v :: fs) s s'.
Proof.
  intros Hf Ht H. eapply FieldsRT_cons; [|eassumption]. unfold field_rt. cbn [Omit].
  destruct omit; [cbn; by rewrite Ht|]. exists a. split; [by apply Hf|done].
Qed.

(** ** Scalars and strings *)

Lemma FRT_intro {A} m (d : dest A) (r : M Buffer A) a :
  (forall bs, Decodes r bs 0 a -> notnull bs -> Decodes (Unmarshal d) bs 0 (Some a)) ->
  Roundtrip m r a -> FRT m d a.
Proof. intros H (bs & He & Hn & Hd). exists bs. split_and!; auto. Qed.

Lemma FRT_read {A} m (u : M Buffer A) a : Roundtrip m u a -> FRT m (DUnmarshaler u) a.
Proof. apply FRT_intro. intros. by apply Decodes_Unmarshal. Qed.

Lemma FRT_ptr {A} m (d : dest A) a : FRT m d a -> FRT m (DPtr d) a.
Proof.
  intros (bs & He & Hn & Hd). exists bs. split_and!; [done..|]. intros Hs.
  apply Decodes_tryReadNull; [done|]. by apply Hd.
Qed.

Ltac direct := apply FRT_intro; intros; apply Decodes_tryReadNull; [done|];
  by apply (Decodes_fmap Some).

Definition strlen_ok (s : bytes) : bool := zlen s <? MaxUint32.
Definition str_ok (s : bytes) : bool := utf8_valid s && strlen_ok s.

Lemma rt_string s : str_ok s = true -> Roundtrip (writeString s) ReadString s.
Proof.
  unfold str_ok, strlen_ok, MaxUint32. intros [Hu Hl]%andb_prop.
  exists (enc_string s). split_and!; [apply Encodes_writeString; [done|unfold MaxUint32; lia]
    |by apply notnull_variable|]. intros. apply Decodes_readString. lia.
Qed.
Lemma rt_symbol s : strlen_ok s = true -> Roundtrip (Symbol_Marshal s) ReadString s.
Proof.
  unfold strlen_ok, MaxUint32. intros Hl. exists (enc_symbol s).
  split_and!; [by apply Encodes_Symbol; unfold MaxUint32; lia|by apply notnull_variable|].
  intros. apply Decodes_readSymbol. lia.
Qed.
Lemma rt_binary s : strlen_ok s = true -> Roundtrip (WriteBinary s) readBinary s.
Proof.
  unfold strlen_ok, MaxUint32. intros Hl. exists (enc_binary s).
  split_and!; [by apply Encodes_WriteBinary; unfold MaxUint32; lia|by apply notnull_variable|].
  intros. apply Decodes_readBinary. lia.
Qed.
Lemma rt_uint32 n : inu 32 n = true -> Roundtrip (writeUint32 n) readUint32 n.
Proof.
  intros Hn. apply inu_is in Hn. exists (enc_uint32 n). split_and!.
  - apply Encodes_writeUint32. apply Hn.
  - apply (notnull_uint32 (mret VNil)).
  - intros. by apply Decodes_readUint32.
Qed.
Lemma rt_uint64 n : inu 64 n = true -> Roundtrip (writeUint64 n) readUlong n.
Proof.
  intros Hn. apply inu_is in Hn. exists (enc_uint64 n). split_and!.
  - apply Encodes_writeUint64. apply Hn.
  - apply (notnull_uint64 (mret VNil)).
  - intros. by apply Decodes_readUlong.
Qed.
Lemma rt_uint16 n : inu 16 n = true -> Roundtrip (writeUint16 n) readUshort n.
Proof.
  intros Hn. apply inu_is in Hn. exists (TypeCodeUshort :: be_bytes 2 n). split_and!.
  - unfold writeUint16. encodes. done.
  - eexists _, _. by split.
  - intros. by apply Decodes_type, Decodes_ReadUint16.
Qed.
Lemma rt_bool t : Roundtrip (writeBool t) readBool t.
Proof.
  exists (enc_bool t). split_and!; [apply Encodes_writeBool|apply notnull_bool|].
  intros. apply Decodes_readBool.
Qed.
Lemma rt_ubyte n : Roundtrip (Marshal (VUint8 n)) ReadUbyte n.
Proof.
  exists [TypeCodeUbyte; n]. split_and!; [apply Encodes_Append|eexists _, _; by split|].
  intros. apply Decodes_type, Decodes_ReadByte'.
Qed.

Lemma FRT_string s : str_ok s = true -> FRT (writeString s) DString s.
Proof. intros H. apply rt_string in H. revert H. direct. Qed.
Lemma FRT_symbol s : strlen_ok s = true -> FRT (Symbol_Marshal s) DSymbol s.
Proof. intros H. apply rt_symbol in H. revert H. direct. Qed.
Lemma FRT_binary s : strlen_ok s = true -> FRT (WriteBinary s) DBinary s.
Proof. intros H. apply rt_binary in H. revert H. direct. Qed.
Lemma FRT_uint32 n : inu 32 n = true -> FRT (writeUint32 n) DUint32 n.
Proof. intros H. apply rt_uint32 in H. revert H. direct. Qed.
Lemma FRT_uint64 n : inu 64 n = true -> FRT (writeUint64 n) DUint64 n.
Proof. intros H. apply rt_uint64 in H. revert H. direct. Qed.
Lemma FRT_uint16 n : inu 16 n = true -> FRT (writeUint16 n) DUint16 n.
Proof. intros H. apply rt_uint16 in H. revert H. direct. Qed.
Lemma FRT_bool t : FRT (writeBool t) DBool t.
Proof. pose proof (rt_bool t) as H. revert H. direct. Qed.
Lemma FRT_uint8 n : FRT (Marshal (VUint8 n)) DUint8 n.
Proof. pose proof (rt_ubyte n) as H. revert H. direct. Qed.
Lemma FRT_role t : FRT (Role_Marshal t) (DUnmarshaler Role_Unmarshal) t.
Proof. apply FRT_read, rt_bool. Qed.
Lemma FRT_ubyte n : FRT (Marshal (VUint8 n)) (DUnmarshaler ReadUbyte) n.
Proof. apply FRT_read, rt_ubyte. Qed.

Lemma FRT_time t : FRT (writeTimestamp t) DTime (norm_time t).
Proof.
  exists (TypeCodeTimestamp :: be_bytes 8 (time_ms t)). split_and!.
  - unfold writeTimestamp. encodes. by rewrite be_bytes8_u64.
  - eexists _, _. by split.
  - intros. apply Decodes_tryReadNull; [eexists _, _; by split|].
    apply (Decodes_fmap Some), Decodes_readTimestamp.
Qed.

(** ** Named types *)

Lemma FRT_durability n :
  inu 32 n = true -> FRT (Durability_Marshal n) (DUnmarshaler Durability_Unmarshal) n.
Proof.
  intros H. apply FRT_read. destruct (FRT_uint32 n H) as (bs & He & Hn & Hd).
  exists bs. split_and!; [done..|]. intros Hs. eapply Decodes_nil; [by apply Hd|apply Decodes_ret].
Qed.

Definition policy_ok (e : bytes) : bool :=
  match ValidateExpiryPolicy e with Ok _ => true | _ => false end.

Lemma policy_len e : policy_ok e = true -> strlen_ok e = true.
Proof.
  unfold policy_ok, ValidateExpiryPolicy. destruct (_ || _) eqn:E; [|done]. intros _.
  rewrite !orb_true_iff, !bool_decide_eq_true in E. by destruct E as [[[->| ->]| ->]| ->].
Qed.

Lemma FRT_expiry e :
  policy_ok e = true -> FRT (ExpiryPolicy_Marshal e) (DUnmarshaler ExpiryPolicy_Unmarshal) e.
Proof.
  intros H. apply FRT_read. destruct (FRT_symbol e (policy_len e H)) as (bs & He & Hn & Hd).
  exists bs. split_and!; [done..|]. intros Hs.
  eapply Decodes_nil; [eapply Decodes_nil; [by apply Hd|apply Decodes_ret]|]. cbn [default].
  unfold policy_ok in H. destruct (ValidateExpiryPolicy e) as [u| | |] eqn:E; try done.
  intros pre rest Hr. unfold id. rewrite E. cbn. by rewrite app_nil_r.
Qed.

(** Milliseconds: whole milliseconds survive. *)
Definition norm_ms (m : Z) : Z := Z.quot m 1000000 * 1000000.

Lemma readUint_uint32 n k : is_u 32 n -> Decodes readUint (enc_uint32 n) k n.
Proof.
  intros Hn. unfold enc_uint32. destruct (Z.eqb_spec n 0) as [->|]; [|destruct (n <? 256)];
    apply Decodes_type; cbn.
  - apply Decodes_ret.
  - apply Decodes_ReadByte'.
  - by apply Decodes_ReadUint32.
Qed.

Lemma FRT_milliseconds m :
  0 <= Z.quot m 1000000 < 2 ^ 32 ->
  FRT (Milliseconds_Marshal m) (DUnmarshaler Milliseconds_Unmarshal) (norm_ms m).
Proof.
  intros H. apply FRT_read. unfold Milliseconds_Marshal. rewrite u32_small by done.
  exists (enc_uint32 (Z.quot m 1000000)). split_and!.
  - apply Encodes_writeUint32. lia.
  - apply (notnull_uint32 (mret VNil)).
  - intros. unfold norm_ms.
    replace (Z.quot m 1000000 * 1000000) with (i64 (i64 (Z.quot m 1000000) * 1000000)).
    + apply (Decodes_then _ (fun n => i64 (i64 n * 1000000))). by apply readUint_uint32.
    + unfold i64. rewrite !Z.mod_small; rewrite ?Z.mod_small; lia.
Qed.

(** The encoding of a field's value fits the size limit. *)
Definition fits (bs : bytes) : bool := zlen bs <? 2 ^ 32.

Definition multi_ok (ms : list bytes) : bool :=
  vokb (VArraySymbol ms) && fits (enc (VArraySymbol ms)).

Lemma FRT_multi ms :
  multi_ok ms = true -> FRT (MultiSymbol_Marshal ms) (DUnmarshaler MultiSymbol_Unmarshal) ms.
Proof.
  unfold multi_ok, fits. intros [Hok Hs]%andb_prop. apply FRT_read.
  exists (enc (VArraySymbol ms)).
  assert (Decodes arraySymbol_Unmarshal (enc (VArraySymbol ms)) 0 ms) as Hd
    by (apply Decodes_strings; [done|done|cbn in *; lia]).
  assert (exists c l, enc (VArraySymbol ms) = c :: l /\ (c = TypeCodeArray8 \/ c = TypeCodeArray32))
    as (c & l & E & Hc).
  { cbn [enc]. unfold enc_strings, enc_array_of, enc_array.
    destruct (existsb _ _); destruct (_ <=? _); eexists _, _; (split; [reflexivity|auto]). }
  assert (notnull (enc (VArraySymbol ms))) as Hn by (exists c, l; destruct Hc; subst; done).
  split_and!; [apply wire_all; [done|lia]|done|]. intros _.
  intros pre rest Hr. unfold MultiSymbol_Unmarshal. rewrite E. cbn [app].
  erewrite bind_Ok by apply PeekByte_at.
  replace (_ || _) with false by (by destruct Hc; subst). unfold optional.
  assert (Decodes (Unmarshal DArraySymbol) (c :: l) 0 (Some ms)) as Hu.
  { rewrite <- E. apply Decodes_tryReadNull; [done|]. by apply (Decodes_fmap Some). }
  by rewrite (bind_Ok _ _ _ _ _ (Hu pre rest Hr)).
Qed.

(** ** Values, errors and states *)

Lemma any_ok v : dec_ok (2 ^ 32 - 2) ReadAny v.
Proof. intros Hok Hs. apply Decodes_ReadAny; [done|lia]. Qed.

Definition value_ok (v : value) : bool := vokb v && fits (enc v).

Lemma FRT_any v :
  value_ok v = true -> v <> VNil -> FRT (Marshal v) (DUnmarshaler ReadAny) (norm v).
Proof.
  unfold value_ok, fits. intros [Hok Hs]%andb_prop Hn. apply FRT_read. exists (enc v).
  split_and!; [apply wire_all; [done|lia]| |].
  - by destruct (enc_notnull v Hok).
  - intros. by apply Decodes_ReadAny.
Qed.

Definition symbol_map_ok (m : list (bytes * value)) : bool := value_ok (VMapSymbolAny m).

Lemma FRT_symbol_map m :
  symbol_map_ok m = true ->
  FRT (writeMapSymbolAny Marshal m) (DUnmarshaler (mapSymbolAny_Unmarshal ReadAny))
    (norm_entries norm m).
Proof.
  unfold symbol_map_ok, value_ok, fits. intros [Hok Hs]%andb_prop. apply FRT_read.
  exists (enc (VMapSymbolAny m)). split_and!.
  - apply (wire_all (VMapSymbolAny m)); [done|lia].
  - apply notnull_map.
  - intros _. cbn [vokb] in Hok. apply andb_prop in Hok as [Hok Hf].
    apply (Decodes_mapStringAny (2 ^ 32 - 2)); [lia| |done|unfold entries; cbn [enc] in Hs; lia].
    apply List.Forall_forall. intros kv Hin.
    rewrite forallb_forall in Hok. specialize (Hok kv Hin).
    split_and!; [apply enc_variable_pos|by destruct kv|apply any_ok|].
    intros Hk. apply Decodes_readSymbol.
    pose proof (zlen_enc_variable TypeCodeSym8 TypeCodeSym32 kv.1). unfold enc_symbol in Hk. lia.
Qed.

Definition error_ok (e : Error) : bool := value_ok (VError e).

Lemma wire_PError e : PError (wire_ok Marshal) e.
Proof. apply List.Forall_forall. intros. apply wire_all. Qed.
Lemma any_PError e : PError (dec_ok (2 ^ 32 - 2) ReadAny) e.
Proof. apply List.Forall_forall. intros. apply any_ok. Qed.
Lemma wire_PState s : PState (wire_ok Marshal) s.
Proof.
  destruct s as [| |[e|]| |f u [m|]]; try done; [apply wire_PError|].
  apply List.Forall_forall. intros. split; apply wire_all.
Qed.
Lemma any_PState s : PState (dec_ok (2 ^ 32 - 2) ReadAny) s.
Proof.
  destruct s as [| |[e|]| |f u [m|]]; try done; [apply any_PError|].
  apply List.Forall_forall. intros. split; apply any_ok.
Qed.

Lemma rt_error e :
  error_ok e = true -> Roundtrip (Error_Marshal e) Error_Unmarshal (norm_error_ norm e).
Proof.
  unfold error_ok, value_ok, fits. intros [Hok Hs]%andb_prop. cbn [vokb enc] in *.
  exists (enc_error_ enc e). split_and!.
  - apply Encodes_error_; [apply wire_PError|done|lia].
  - destruct e. apply notnull_composite.
  - intros _. apply (Decodes_error (2 ^ 32 - 2)); [lia|intros; apply any_ok|apply any_PError|done|lia].
Qed.

Lemma FRT_error e :
  error_ok e = true ->
  FRT (Error_Marshal e) (DPtr (DUnmarshaler Error_Unmarshal)) (norm_error_ norm e).
Proof. intros. by apply FRT_ptr, FRT_read, rt_error. Qed.

Definition state_ok (s : DeliveryState) : bool := value_ok (VDeliveryState s).

Lemma notnull_state s : notnull (enc_state_ enc s).
Proof. destruct (enc_state_code s) as [l ->]. eexists _, _. by split. Qed.

Lemma state_decodes s :
  stateokb_ vokb s = true -> zlen (enc_state_ enc s) < 2 ^ 32 ->
  Decodes DeliveryState_Unmarshal (enc_state_ enc s) 0 (norm_state_ norm s).
Proof.
  intros Hok Hs.
  apply (Decodes_DeliveryState (2 ^ 32 - 2)); [lia|intros; apply any_ok|apply any_PState|done|lia].
Qed.

Lemma FRT_state s :
  state_ok s = true ->
  FRT (DeliveryState_Marshal s) (DUnmarshaler DeliveryState_Unmarshal) (norm_state_ norm s).
Proof.
  unfold state_ok, value_ok, fits. intros [Hok Hs]%andb_prop. cbn [vokb enc] in *.
  apply FRT_read. exists (enc_state_ enc s). split_and!.
  - apply Encodes_state_; [apply wire_PState|done|lia].
  - apply notnull_state.
  - by apply state_decodes.
Qed.

(** ** Filters and unsettled maps *)

Definition enc_described (t : option DescribedType) : bytes :=
  match t with
  | Some t => 0 :: enc (Descriptor t) ++ enc (DValue t)
  | None => []
  end.
Definition described_ok (t : option DescribedType) : bool :=
  match t with
  | Some t => vokb (Descriptor t) && vokb (DValue t)
  | None => false
  end.
Definition norm_described (t : option DescribedType) : option DescribedType :=
  match t with
  | Some t => Some (mkDescribed (norm (Descriptor t)) (norm (DValue t)))
  | None => None
  end.

Definition filter_ok (f : list (bytes * option DescribedType)) : bool :=
  forallb (fun kv => described_ok kv.2) f && freshb bytes_eqb [] (map fst f)
  && fits (enc_map (entries enc_symbol enc_described f)).

Definition norm_filter (f : list (bytes * option DescribedType)) :=
  map (fun kv => match kv with (k, t) => (k, norm_described t) end) f.

Lemma Encodes_described t :
  described_ok (Some t) = true -> zlen (enc_described (Some t)) < 2 ^ 32 ->
  Encodes (DescribedType_Marshal t) (enc_described (Some t)).
Proof.
  cbn. intros [H1 H2]%andb_prop Hs. rewrite zlen_cons, zlen_app in Hs.
  apply (Encodes_bind _ _ [0]); [apply Encodes_Append|].
  apply Encodes_bind; apply wire_all; try done; pose_zlen; lia.
Qed.

Lemma Decodes_described t :
  described_ok (Some t) = true -> zlen (enc_described (Some t)) < 2 ^ 32 ->
  Decodes DescribedType_Unmarshal (enc_described (Some t)) 0
    (mkDescribed (norm (Descriptor t)) (norm (DValue t))).
Proof.
  cbn [described_ok enc_described]. intros [H1 H2]%andb_prop Hs. rewrite zlen_cons, zlen_app in Hs.
  apply (Decodes_readDescribed ReadAny); try done; try (by apply enc_notnull);
    apply Decodes_ReadAny; try done; pose_zlen; lia.
Qed.

Lemma map_fold_fresh {V V'} (gv : V -> V') (m : list (bytes * V)) :
  freshb bytes_eqb [] (map fst m) = true ->
  fold_left (fun s kv => assoc_set bytes_eqb s kv.1 (gv kv.2)) m []
  = map (fun kv => match kv with (k, x) => (k, gv x) end) m.
Proof. intros H. apply (fold_assoc_fresh bytes_eqb (fun k => k)). by rewrite map_id. Qed.

(** The two map types whose values are not [any]: the key, then the value. *)
Lemma Decodes_typed_map {V W V'} (fk : bytes -> bytes) (fv : V -> bytes) (d : M Buffer W)
  (h : W -> V') (gv : V -> V') m :
  (forall k, 1 <= zlen (fk k)) -> (forall k, zlen (fk k) < 2 ^ 32 -> Decodes ReadString (fk k) 0 k) ->
  Forall (fun kv => 1 <= zlen (fv kv.2) /\
            (zlen (fv kv.2) < 2 ^ 32 -> exists w, Decodes d (fv kv.2) 0 w /\ h w = gv kv.2)) m ->
  freshb bytes_eqb [] (map fst m) = true -> zlen (enc_map (entries fk fv m)) < 2 ^ 32 ->
  Decodes (readMap (fun s => key ← ReadString; val ← d; mret (assoc_set bytes_eqb s key (h val))) [])
    (enc_map (entries fk fv m)) 0 (map (fun kv => match kv with (k, x) => (k, gv x) end) m).
Proof.
  intros Hp Hk Hv Hf Hs. rewrite <- map_fold_fresh by done.
  apply (Decodes_readMap _ fk fv (fun s kv => assoc_set bytes_eqb s kv.1 (gv kv.2))); [|done].
  rewrite List.Forall_forall in *. intros kv Hin. destruct (Hv kv Hin) as [H1 Hd].
  split_and!; [apply Hp|done|]. intros s.
  pose proof (entries_in fk fv m kv Hin) as He. unfold enc_map in Hs. rewrite zlen_enc_sized in Hs.
  pose proof (zlen_nonneg (fk kv.1)).
  eapply Decodes_seq; [eapply Decodes_weaken; [apply Hk; lia|lia]|].
  destruct Hd as (w & Hw & <-); [lia|]. eapply Decodes_nil; [exact Hw|apply Decodes_ret].
Qed.

Lemma symbol_decodes k : zlen (enc_symbol k) < 2 ^ 32 -> Decodes ReadString (enc_symbol k) 0 k.
Proof. intros H. apply Decodes_readSymbol. by eapply variable_size. Qed.
Lemma string_decodes k : zlen (enc_string k) < 2 ^ 32 -> Decodes ReadString (enc_string k) 0 k.
Proof. intros H. apply Decodes_readString. by eapply variable_size. Qed.

Lemma FRT_filter f :
  filter_ok f = true -> FRT (Filter_Marshal f) (DUnmarshaler Filter_Unmarshal) (norm_filter f).
Proof.
  unfold filter_ok, fits. rewrite !andb_true_iff, forallb_forall. intros [[Hok Hf] Hs].
  apply Z.ltb_lt in Hs. apply FRT_read. exists (enc_map (entries enc_symbol enc_described f)).
  assert (forall kv, In kv f -> exists t, kv.2 = Some t /\ described_ok (Some t) = true) as Hd.
  { intros [k [t|]] Hin; specialize (Hok _ Hin); cbn in *; [eauto|done]. }
  split_and!; [|apply notnull_map|intros _].
  - apply Encodes_map; [|done]. apply List.Forall_forall. intros kv Hin.
    destruct (Hd kv Hin) as (t & E & Ht). rewrite E. split_and!; [apply enc_variable_pos|apply cons_pos|].
    intros. split; [by apply Encodes_variable_size|by apply Encodes_described].
  - unfold norm_filter.
    apply (Decodes_typed_map enc_symbol enc_described _ Some norm_described);
      [intros; apply enc_variable_pos|apply symbol_decodes| |done|done].
    apply List.Forall_forall. intros kv Hin. destruct (Hd kv Hin) as (t & E & Ht). rewrite E.
    split; [apply cons_pos|]. intros Hz.
    exists (mkDescribed (norm (Descriptor t)) (norm (DValue t))). split; [|done].
    eapply Decodes_nil; [apply Decodes_Unmarshal; [eexists _, _; by split|by apply Decodes_described]|].
    apply Decodes_ret.
Qed.

Definition enc_state_opt (s : option DeliveryState) : bytes :=
  match s with
  | Some s => enc_state_ enc s
  | None => [TypeCodeNull]
  end.
Definition unsettled_ok (u : list (bytes * option DeliveryState)) : bool :=
  forallb (fun kv => utf8_valid kv.1 && match kv.2 with Some s => stateokb_ vokb s | None => true end) u
  && freshb bytes_eqb [] (map fst u) && fits (enc_map (entries enc_string enc_state_opt u)).
Definition norm_unsettled (u : list (bytes * option DeliveryState)) :=
  map (fun kv => match kv with (k, s) => (k, norm_state_ norm <$> s) end) u.

Lemma FRT_unsettled u :
  unsettled_ok u = true ->
  FRT (Unsettled_Marshal u) (DUnmarshaler Unsettled_Unmarshal) (norm_unsettled u).
Proof.
  unfold unsettled_ok, fits. rewrite !andb_true_iff, forallb_forall. intros [[Hok Hf] Hs].
  apply Z.ltb_lt in Hs. apply FRT_read. exists (enc_map (entries enc_string enc_state_opt u)).
  assert (forall s, 1 <= zlen (enc_state_opt s)) as Hp
    by (intros [s|]; [apply enc_state_pos_|done]).
  split_and!; [|apply notnull_map|intros _].
  - apply Encodes_map; [|done]. apply List.Forall_forall. intros [k s] Hin.
    specialize (Hok _ Hin). cbn in *. apply andb_prop in Hok as [Hk Hst].
    split_and!; [apply enc_variable_pos|apply Hp|]. intros. split; [by apply Encodes_string_size|].
    destruct s; [|apply Encodes_Append]. apply Encodes_state_; [apply wire_PState|done|done].
  - apply (Decodes_typed_map enc_string enc_state_opt _ (fun x => x) (fmap (norm_state_ norm)));
      [intros; apply enc_variable_pos|apply string_decodes| |done|done].
    apply List.Forall_forall. intros [k s] Hin. specialize (Hok _ Hin). cbn [fst snd] in *.
    apply andb_prop in Hok as [Hk Hst]. split; [apply Hp|]. intros Hz.
    exists (norm_state_ norm <$> s). split; [|done]. destruct s as [s|].
    + apply Decodes_Unmarshal; [apply notnull_state|by apply state_decodes].
    + intros pre rest Hr. cbn [enc_state_opt app Unmarshal]. unfold mbind, M_bind.
      by rewrite tryReadNull_null.
Qed.

End FieldRoundtrip.
