(* ===== verification/Frames.v ===== *)
(** * Frames: the AMQP and SASL frame bodies (internal/frames/frames.go)

    Each struct is a record (nil pointers are [None]; a nil map or slice is the
    empty one, except where the code tells them apart), with its Marshal and
    Unmarshal methods as the field tables of the source.  [set_f] is the
    assignment to a field. *)

From S2P Require Import Prelude Buffer Types Encode Decode.
Import Buffer Encode Decode.

Module Frames.

Definition TypeAMQP : Z := 0.
Definition TypeSASL : Z := 1.

(** [s == ""] and [len(m) == 0]. *)
Definition is_empty (s : bytes) : bool := bool_decide (s = []).
Definition no_elems {A} (l : list A) : bool := zlen l =? 0.

(** A pointer field: marshalled when not nil. *)
Definition mf_ptr {A} (w : A -> M Buffer unit) (p : option A) : MarshalField :=
  match p with
  | Some x => mf (w x) false
  | None => mf (mret tt) true
  end.

(** [Marshal] has no case for a pointer to an interface value. *)
Definition Marshal_any_ptr (_ : value) : M Buffer unit :=
  errorf "marshal not implemented for %T" [].

Definition marshalSymbolMap (m : list (bytes * value)) : M Buffer unit :=
  writeMapSymbolAny Marshal m.
Definition DSymbolMap : dest (list (bytes * value)) :=
  DUnmarshaler (mapSymbolAny_Unmarshal ReadAny).
Definition DMultiSymbol : dest (list bytes) := DUnmarshaler MultiSymbol_Unmarshal.
Definition DAny : dest value := DUnmarshaler ReadAny.
Definition DError : dest Error := DPtr (DUnmarshaler Error_Unmarshal).
Definition DState : dest DeliveryState := DUnmarshaler DeliveryState_Unmarshal.

(** Setting a pointer field to a freshly decoded value. *)
Definition ptr {A S} (set : option A -> S -> S) (v : A) (s : S) : S := set (Some v) s.

(** frames.Source *)
Record Source := mkSource {
  s_Address : bytes;
  s_Durable : Z;
  s_ExpiryPolicy : bytes;
  s_Timeout : Z;
  s_Dynamic : bool;
  s_DynamicNodeProperties : list (bytes * value);
  s_DistributionMode : bytes;
  s_Filter : list (bytes * option DescribedType);
  s_DefaultOutcome : value;
  s_Outcomes : list bytes;
  s_Capabilities : list bytes
}.

Definition set_s_Address (v : bytes) (s : Source) : Source :=
  match s with mkSource _ x2 x3 x4 x5 x6 x7 x8 x9 x10 x11 => mkSource v x2 x3 x4 x5 x6 x7 x8 x9
    x10 x11 end.
Definition set_s_Durable (v : Z) (s : Source) : Source :=
  match s with mkSource x1 _ x3 x4 x5 x6 x7 x8 x9 x10 x11 => mkSource x1 v x3 x4 x5 x6 x7 x8 x9
    x10 x11 end.
Definition set_s_ExpiryPolicy (v : bytes) (s : Source) : Source :=
  match s with mkSource x1 x2 _ x4 x5 x6 x7 x8 x9 x10 x11 => mkSource x1 x2 v x4 x5 x6 x7 x8 x9
    x10 x11 end.
Definition set_s_Timeout (v : Z) (s : Source) : Source :=
  match s with mkSource x1 x2 x3 _ x5 x6 x7 x8 x9 x10 x11 => mkSource x1 x2 x3 v x5 x6 x7 x8 x9
    x10 x11 end.
Definition set_s_Dynamic (v : bool) (s : Source) : Source :=
  match s with mkSource x1 x2 x3 x4 _ x6 x7 x8 x9 x10 x11 => mkSource x1 x2 x3 x4 v x6 x7 x8 x9
    x10 x11 end.
Definition set_s_DynamicNodeProperties (v : list (bytes * value)) (s : Source) : Source :=
  match s with mkSource x1 x2 x3 x4 x5 _ x7 x8 x9 x10 x11 => mkSource x1 x2 x3 x4 x5 v x7 x8 x9
    x10 x11 end.
Definition set_s_DistributionMode (v : bytes) (s : Source) : Source :=
  match s with mkSource x1 x2 x3 x4 x5 x6 _ x8 x9 x10 x11 => mkSource x1 x2 x3 x4 x5 x6 v x8 x9
    x10 x11 end.
Definition set_s_Filter (v : list (bytes * option DescribedType)) (s : Source) : Source :=
  match s with mkSource x1 x2 x3 x4 x5 x6 x7 _ x9 x10 x11 => mkSource x1 x2 x3 x4 x5 x6 x7 v x9
    x10 x11 end.
Definition set_s_DefaultOutcome (v : value) (s : Source) : Source :=
  match s with mkSource x1 x2 x3 x4 x5 x6 x7 x8 _ x10 x11 => mkSource x1 x2 x3 x4 x5 x6 x7 x8 v
    x10 x11 end.
Definition set_s_Outcomes (v : list bytes) (s : Source) : Source :=
  match s with mkSource x1 x2 x3 x4 x5 x6 x7 x8 x9 _ x11 => mkSource x1 x2 x3 x4 x5 x6 x7 x8 x9 v
    x11 end.
Definition set_s_Capabilities (v : list bytes) (s : Source) : Source :=
  match s with mkSource x1 x2 x3 x4 x5 x6 x7 x8 x9 x10 _ => mkSource x1 x2 x3 x4 x5 x6 x7 x8 x9
    x10 v end.

Definition newSource : Source := mkSource [] 0 [] 0 false [] [] [] VNil [] [].

Definition value_is_nil (v : value) : bool := match v with VNil => true | _ => false end.

Definition Source_Marshal (s : Source) : M Buffer unit :=
  MarshalComposite TypeCodeSource
    [mf (writeString (s_Address s)) (is_empty (s_Address s));
     mf (Durability_Marshal (s_Durable s)) (s_Durable s =? DurabilityNone);
     mf (ExpiryPolicy_Marshal (s_ExpiryPolicy s))
        (is_empty (s_ExpiryPolicy s) || bytes_eqb (s_ExpiryPolicy s) ExpirySessionEnd);
     mf (writeUint32 (s_Timeout s)) (s_Timeout s =? 0);
     mf (writeBool (s_Dynamic s)) (negb (s_Dynamic s));
     mf (marshalSymbolMap (s_DynamicNodeProperties s)) (no_elems (s_DynamicNodeProperties s));
     mf (Symbol_Marshal (s_DistributionMode s)) (is_empty (s_DistributionMode s));
     mf (Filter_Marshal (s_Filter s)) (no_elems (s_Filter s));
     mf (Marshal_any_ptr (s_DefaultOutcome s)) (value_is_nil (s_DefaultOutcome s));
     mf (MultiSymbol_Marshal (s_Outcomes s)) (no_elems (s_Outcomes s));
     mf (MultiSymbol_Marshal (s_Capabilities s)) (no_elems (s_Capabilities s))].

Definition Source_fields : list (UnmarshalField Source) :=
  [uf DString set_s_Address;
   uf (DUnmarshaler Durability_Unmarshal) set_s_Durable;
   uf_default (DUnmarshaler ExpiryPolicy_Unmarshal) set_s_ExpiryPolicy ExpirySessionEnd;
   uf DUint32 set_s_Timeout;
   uf DBool set_s_Dynamic;
   uf DSymbolMap set_s_DynamicNodeProperties;
   uf DSymbol set_s_DistributionMode;
   uf (DUnmarshaler Filter_Unmarshal) set_s_Filter;
   uf DAny set_s_DefaultOutcome;
   uf DMultiSymbol set_s_Outcomes;
   uf DMultiSymbol set_s_Capabilities].
Definition Source_Unmarshal : M Buffer Source :=
  UnmarshalComposite TypeCodeSource Source_fields newSource.

(** frames.Target *)
Record Target := mkTarget {
  t_Address : bytes;
  t_Durable : Z;
  t_ExpiryPolicy : bytes;
  t_Timeout : Z;
  t_Dynamic : bool;
  t_DynamicNodeProperties : list (bytes * value);
  t_Capabilities : list bytes
}.

Definition set_t_Address (v : bytes) (s : Target) : Target :=
  match s with mkTarget _ x2 x3 x4 x5 x6 x7 => mkTarget v x2 x3 x4 x5 x6 x7 end.
Definition set_t_Durable (v : Z) (s : Target) : Target :=
  match s with mkTarget x1 _ x3 x4 x5 x6 x7 => mkTarget x1 v x3 x4 x5 x6 x7 end.
Definition set_t_ExpiryPolicy (v : bytes) (s : Target) : Target :=
  match s with mkTarget x1 x2 _ x4 x5 x6 x7 => mkTarget x1 x2 v x4 x5 x6 x7 end.
Definition set_t_Timeout (v : Z) (s : Target) : Target :=
  match s with mkTarget x1 x2 x3 _ x5 x6 x7 => mkTarget x1 x2 x3 v x5 x6 x7 end.
Definition set_t_Dynamic (v : bool) (s : Target) : Target :=
  match s with mkTarget x1 x2 x3 x4 _ x6 x7 => mkTarget x1 x2 x3 x4 v x6 x7 end.
Definition set_t_DynamicNodeProperties (v : list (bytes * value)) (s : Target) : Target :=
  match s with mkTarget x1 x2 x3 x4 x5 _ x7 => mkTarget x1 x2 x3 x4 x5 v x7 end.
Definition set_t_Capabilities (v : list bytes) (s : Target) : Target :=
  match s with mkTarget x1 x2 x3 x4 x5 x6 _ => mkTarget x1 x2 x3 x4 x5 x6 v end.

Definition newTarget : Target := mkTarget [] 0 [] 0 false [] [].

Definition Target_Marshal (t : Target) : M Buffer unit :=
  MarshalComposite TypeCodeTarget
    [mf (writeString (t_Address t)) (is_empty (t_Address t));
     mf (Durability_Marshal (t_Durable t)) (t_Durable t =? DurabilityNone);
     mf (ExpiryPolicy_Marshal (t_ExpiryPolicy t))
        (is_empty (t_ExpiryPolicy t) || bytes_eqb (t_ExpiryPolicy t) ExpirySessionEnd);
     mf (writeUint32 (t_Timeout t)) (t_Timeout t =? 0);
     mf (writeBool (t_Dynamic t)) (negb (t_Dynamic t));
     mf (marshalSymbolMap (t_DynamicNodeProperties t)) (no_elems (t_DynamicNodeProperties t));
     mf (MultiSymbol_Marshal (t_Capabilities t)) (no_elems (t_Capabilities t))].

Definition Target_fields : list (UnmarshalField Target) :=
  [uf DString set_t_Address;
   uf (DUnmarshaler Durability_Unmarshal) set_t_Durable;
   uf_default (DUnmarshaler ExpiryPolicy_Unmarshal) set_t_ExpiryPolicy ExpirySessionEnd;
   uf DUint32 set_t_Timeout;
   uf DBool set_t_Dynamic;
   uf DSymbolMap set_t_DynamicNodeProperties;
   uf DMultiSymbol set_t_Capabilities].
Definition Target_Unmarshal : M Buffer Target :=
  UnmarshalComposite TypeCodeTarget Target_fields newTarget.

(** frames.PerformOpen (the idle timeout is a duration in nanoseconds) *)
Record PerformOpen := mkOpen {
  o_ContainerID : bytes;
  o_Hostname : bytes;
  o_MaxFrameSize : Z;
  o_ChannelMax : Z;
  o_IdleTimeout : Z;
  o_OutgoingLocales : list bytes;
  o_IncomingLocales : list bytes;
  o_OfferedCapabilities : list bytes;
  o_DesiredCapabilities : list bytes;
  o_Properties : list (bytes * value)
}.

Definition set_o_ContainerID (v : bytes) (s : PerformOpen) : PerformOpen :=
  match s with mkOpen _ x2 x3 x4 x5 x6 x7 x8 x9 x10 => mkOpen v x2 x3 x4 x5 x6 x7 x8 x9 x10 end.
Definition set_o_Hostname (v : bytes) (s : PerformOpen) : PerformOpen :=
  match s with mkOpen x1 _ x3 x4 x5 x6 x7 x8 x9 x10 => mkOpen x1 v x3 x4 x5 x6 x7 x8 x9 x10 end.
Definition set_o_MaxFrameSize (v : Z) (s : PerformOpen) : PerformOpen :=
  match s with mkOpen x1 x2 _ x4 x5 x6 x7 x8 x9 x10 => mkOpen x1 x2 v x4 x5 x6 x7 x8 x9 x10 end.
Definition set_o_ChannelMax (v : Z) (s : PerformOpen) : PerformOpen :=
  match s with mkOpen x1 x2 x3 _ x5 x6 x7 x8 x9 x10 => mkOpen x1 x2 x3 v x5 x6 x7 x8 x9 x10 end.
Definition set_o_IdleTimeout (v : Z) (s : PerformOpen) : PerformOpen :=
  match s with mkOpen x1 x2 x3 x4 _ x6 x7 x8 x9 x10 => mkOpen x1 x2 x3 x4 v x6 x7 x8 x9 x10 end.
Definition set_o_OutgoingLocales (v : list bytes) (s : PerformOpen) : PerformOpen :=
  match s with mkOpen x1 x2 x3 x4 x5 _ x7 x8 x9 x10 => mkOpen x1 x2 x3 x4 x5 v x7 x8 x9 x10 end.
Definition set_o_IncomingLocales (v : list bytes) (s : PerformOpen) : PerformOpen :=
  match s with mkOpen x1 x2 x3 x4 x5 x6 _ x8 x9 x10 => mkOpen x1 x2 x3 x4 x5 x6 v x8 x9 x10 end.
Definition set_o_OfferedCapabilities (v : list bytes) (s : PerformOpen) : PerformOpen :=
  match s with mkOpen x1 x2 x3 x4 x5 x6 x7 _ x9 x10 => mkOpen x1 x2 x3 x4 x5 x6 x7 v x9 x10 end.
Definition set_o_DesiredCapabilities (v : list bytes) (s : PerformOpen) : PerformOpen :=
  match s with mkOpen x1 x2 x3 x4 x5 x6 x7 x8 _ x10 => mkOpen x1 x2 x3 x4 x5 x6 x7 x8 v x10 end.
Definition set_o_Properties (v : list (bytes * value)) (s : PerformOpen) : PerformOpen :=
  match s with mkOpen x1 x2 x3 x4 x5 x6 x7 x8 x9 _ => mkOpen x1 x2 x3 x4 x5 x6 x7 x8 x9 v end.

Definition newOpen : PerformOpen := mkOpen [] [] 0 0 0 [] [] [] [] [].

Definition PerformOpen_Marshal (o : PerformOpen) : M Buffer unit :=
  MarshalComposite TypeCodeOpen
    [mf (writeString (o_ContainerID o)) false;
     mf (writeString (o_Hostname o)) (is_empty (o_Hostname o));
     mf (writeUint32 (o_MaxFrameSize o)) (o_MaxFrameSize o =? 4294967295);
     mf (writeUint16 (o_ChannelMax o)) (o_ChannelMax o =? 65535);
     mf (Milliseconds_Marshal (o_IdleTimeout o)) (o_IdleTimeout o =? 0);
     mf (MultiSymbol_Marshal (o_OutgoingLocales o)) (no_elems (o_OutgoingLocales o));
     mf (MultiSymbol_Marshal (o_IncomingLocales o)) (no_elems (o_IncomingLocales o));
     mf (MultiSymbol_Marshal (o_OfferedCapabilities o)) (no_elems (o_OfferedCapabilities o));
     mf (MultiSymbol_Marshal (o_DesiredCapabilities o)) (no_elems (o_DesiredCapabilities o));
     mf (marshalSymbolMap (o_Properties o)) (no_elems (o_Properties o))].

Definition PerformOpen_fields : list (UnmarshalField PerformOpen) :=
  [uf_required DString set_o_ContainerID "Open.ContainerID is required";
   uf DString set_o_Hostname;
   uf_default DUint32 set_o_MaxFrameSize 4294967295;
   uf_default DUint16 set_o_ChannelMax 65535;
   uf (DUnmarshaler Milliseconds_Unmarshal) set_o_IdleTimeout;
   uf DMultiSymbol set_o_OutgoingLocales;
   uf DMultiSymbol set_o_IncomingLocales;
   uf DMultiSymbol set_o_OfferedCapabilities;
   uf DMultiSymbol set_o_DesiredCapabilities;
   uf DSymbolMap set_o_Properties].
Definition PerformOpen_Unmarshal : M Buffer PerformOpen :=
  UnmarshalComposite TypeCodeOpen PerformOpen_fields newOpen.

(** frames.PerformBegin (the properties are omitted when the map is nil, not when it is empty) *)
Record PerformBegin := mkBegin {
  b_RemoteChannel : option Z;
  b_NextOutgoingID : Z;
  b_IncomingWindow : Z;
  b_OutgoingWindow : Z;
  b_HandleMax : Z;
  b_OfferedCapabilities : list bytes;
  b_DesiredCapabilities : list bytes;
  b_Properties : option (list (bytes * value))
}.

Definition set_b_RemoteChannel (v : option Z) (s : PerformBegin) : PerformBegin :=
  match s with mkBegin _ x2 x3 x4 x5 x6 x7 x8 => mkBegin v x2 x3 x4 x5 x6 x7 x8 end.
Definition set_b_NextOutgoingID (v : Z) (s : PerformBegin) : PerformBegin :=
  match s with mkBegin x1 _ x3 x4 x5 x6 x7 x8 => mkBegin x1 v x3 x4 x5 x6 x7 x8 end.
Definition set_b_IncomingWindow (v : Z) (s : PerformBegin) : PerformBegin :=
  match s with mkBegin x1 x2 _ x4 x5 x6 x7 x8 => mkBegin x1 x2 v x4 x5 x6 x7 x8 end.
Definition set_b_OutgoingWindow (v : Z) (s : PerformBegin) : PerformBegin :=
  match s with mkBegin x1 x2 x3 _ x5 x6 x7 x8 => mkBegin x1 x2 x3 v x5 x6 x7 x8 end.
Definition set_b_HandleMax (v : Z) (s : PerformBegin) : PerformBegin :=
  match s with mkBegin x1 x2 x3 x4 _ x6 x7 x8 => mkBegin x1 x2 x3 x4 v x6 x7 x8 end.
Definition set_b_OfferedCapabilities (v : list bytes) (s : PerformBegin) : PerformBegin :=
  match s with mkBegin x1 x2 x3 x4 x5 _ x7 x8 => mkBegin x1 x2 x3 x4 x5 v x7 x8 end.
Definition set_b_DesiredCapabilities (v : list bytes) (s : PerformBegin) : PerformBegin :=
  match s with mkBegin x1 x2 x3 x4 x5 x6 _ x8 => mkBegin x1 x2 x3 x4 x5 x6 v x8 end.
Definition set_b_Properties (v : option (list (bytes * value))) (s : PerformBegin) : PerformBegin :=
  match s with mkBegin x1 x2 x3 x4 x5 x6 x7 _ => mkBegin x1 x2 x3 x4 x5 x6 x7 v end.

Definition newBegin : PerformBegin := mkBegin None 0 0 0 0 [] [] None.

Definition PerformBegin_Marshal (b : PerformBegin) : M Buffer unit :=
  MarshalComposite TypeCodeBegin
    [mf_ptr writeUint16 (b_RemoteChannel b);
     mf (writeUint32 (b_NextOutgoingID b)) false;
     mf (writeUint32 (b_IncomingWindow b)) false;
     mf (writeUint32 (b_OutgoingWindow b)) false;
     mf (writeUint32 (b_HandleMax b)) (b_HandleMax b =? 4294967295);
     mf (MultiSymbol_Marshal (b_OfferedCapabilities b)) (no_elems (b_OfferedCapabilities b));
     mf (MultiSymbol_Marshal (b_DesiredCapabilities b)) (no_elems (b_DesiredCapabilities b));
     mf_ptr marshalSymbolMap (b_Properties b)].

Definition PerformBegin_fields : list (UnmarshalField PerformBegin) :=
  [uf (DPtr DUint16) (ptr set_b_RemoteChannel);
   uf_required DUint32 set_b_NextOutgoingID "Begin.NextOutgoingID is required";
   uf_required DUint32 set_b_IncomingWindow "Begin.IncomingWindow is required";
   uf_required DUint32 set_b_OutgoingWindow "Begin.OutgoingWindow is required";
   uf_default DUint32 set_b_HandleMax 4294967295;
   uf DMultiSymbol set_b_OfferedCapabilities;
   uf DMultiSymbol set_b_DesiredCapabilities;
   uf DSymbolMap (ptr set_b_Properties)].
Definition PerformBegin_Unmarshal : M Buffer PerformBegin :=
  UnmarshalComposite TypeCodeBegin PerformBegin_fields newBegin.

(** frames.PerformAttach *)
Record PerformAttach := mkAttach {
  a_Name : bytes;
  a_Handle : Z;
  a_Role : bool;
  a_SenderSettleMode : option Z;
  a_ReceiverSettleMode : option Z;
  a_Source : option Source;
  a_Target : option Target;
  a_Unsettled : list (bytes * option DeliveryState);
  a_IncompleteUnsettled : bool;
  a_InitialDeliveryCount : Z;
  a_MaxMessageSize : Z;
  a_OfferedCapabilities : list bytes;
  a_DesiredCapabilities : list bytes;
  a_Properties : list (bytes * value)
}.

Definition set_a_Name (v : bytes) (s : PerformAttach) : PerformAttach :=
  match s with mkAttach _ x2 x3 x4 x5 x6 x7 x8 x9 x10 x11 x12 x13 x14 => mkAttach v x2 x3 x4 x5
    x6 x7 x8 x9 x10 x11 x12 x13 x14 end.
Definition set_a_Handle (v : Z) (s : PerformAttach) : PerformAttach :=
  match s with mkAttach x1 _ x3 x4 x5 x6 x7 x8 x9 x10 x11 x12 x13 x14 => mkAttach x1 v x3 x4 x5
    x6 x7 x8 x9 x10 x11 x12 x13 x14 end.
Definition set_a_Role (v : bool) (s : PerformAttach) : PerformAttach :=
  match s with mkAttach x1 x2 _ x4 x5 x6 x7 x8 x9 x10 x11 x12 x13 x14 => mkAttach x1 x2 v x4 x5
    x6 x7 x8 x9 x10 x11 x12 x13 x14 end.
Definition set_a_SenderSettleMode (v : option Z) (s : PerformAttach) : PerformAttach :=
  match s with mkAttach x1 x2 x3 _ x5 x6 x7 x8 x9 x10 x11 x12 x13 x14 => mkAttach x1 x2 x3 v x5
    x6 x7 x8 x9 x10 x11 x12 x13 x14 end.
Definition set_a_ReceiverSettleMode (v : option Z) (s : PerformAttach) : PerformAttach :=
  match s with mkAttach x1 x2 x3 x4 _ x6 x7 x8 x9 x10 x11 x12 x13 x14 => mkAttach x1 x2 x3 x4 v
    x6 x7 x8 x9 x10 x11 x12 x13 x14 end.
Definition set_a_Source (v : option Source) (s : PerformAttach) : PerformAttach :=
  match s with mkAttach x1 x2 x3 x4 x5 _ x7 x8 x9 x10 x11 x12 x13 x14 => mkAttach x1 x2 x3 x4 x5
    v x7 x8 x9 x10 x11 x12 x13 x14 end.
Definition set_a_Target (v : option Target) (s : PerformAttach) : PerformAttach :=
  match s with mkAttach x1 x2 x3 x4 x5 x6 _ x8 x9 x10 x11 x12 x13 x14 => mkAttach x1 x2 x3 x4 x5
    x6 v x8 x9 x10 x11 x12 x13 x14 end.
Definition set_a_Unsettled (v : list (bytes * option DeliveryState)) (s : PerformAttach) : PerformAttach :=
  match s with mkAttach x1 x2 x3 x4 x5 x6 x7 _ x9 x10 x11 x12 x13 x14 => mkAttach x1 x2 x3 x4 x5
    x6 x7 v x9 x10 x11 x12 x13 x14 end.
Definition set_a_IncompleteUnsettled (v : bool) (s : PerformAttach) : PerformAttach :=
  match s with mkAttach x1 x2 x3 x4 x5 x6 x7 x8 _ x10 x11 x12 x13 x14 => mkAttach x1 x2 x3 x4 x5
    x6 x7 x8 v x10 x11 x12 x13 x14 end.
Definition set_a_InitialDeliveryCount (v : Z) (s : PerformAttach) : PerformAttach :=
  match s with mkAttach x1 x2 x3 x4 x5 x6 x7 x8 x9 _ x11 x12 x13 x14 => mkAttach x1 x2 x3 x4 x5
    x6 x7 x8 x9 v x11 x12 x13 x14 end.
Definition set_a_MaxMessageSize (v : Z) (s : PerformAttach) : PerformAttach :=
  match s with mkAttach x1 x2 x3 x4 x5 x6 x7 x8 x9 x10 _ x12 x13 x14 => mkAttach x1 x2 x3 x4 x5
    x6 x7 x8 x9 x10 v x12 x13 x14 end.
Definition set_a_OfferedCapabilities (v : list bytes) (s : PerformAttach) : PerformAttach :=
  match s with mkAttach x1 x2 x3 x4 x5 x6 x7 x8 x9 x10 x11 _ x13 x14 => mkAttach x1 x2 x3 x4 x5
    x6 x7 x8 x9 x10 x11 v x13 x14 end.
Definition set_a_DesiredCapabilities (v : list bytes) (s : PerformAttach) : PerformAttach :=
  match s with mkAttach x1 x2 x3 x4 x5 x6 x7 x8 x9 x10 x11 x12 _ x14 => mkAttach x1 x2 x3 x4 x5
    x6 x7 x8 x9 x10 x11 x12 v x14 end.
Definition set_a_Properties (v : list (bytes * value)) (s : PerformAttach) : PerformAttach :=
  match s with mkAttach x1 x2 x3 x4 x5 x6 x7 x8 x9 x10 x11 x12 x13 _ => mkAttach x1 x2 x3 x4 x5
    x6 x7 x8 x9 x10 x11 x12 x13 v end.

Definition newAttach : PerformAttach :=
  mkAttach [] 0 false None None None None [] false 0 0 [] [] [].

Definition PerformAttach_Marshal (a : PerformAttach) : M Buffer unit :=
  MarshalComposite TypeCodeAttach
    [mf (writeString (a_Name a)) false;
     mf (writeUint32 (a_Handle a)) false;
     mf (Role_Marshal (a_Role a)) false;
     mf_ptr SenderSettleMode_Marshal (a_SenderSettleMode a);
     mf_ptr ReceiverSettleMode_Marshal (a_ReceiverSettleMode a);
     mf_ptr Source_Marshal (a_Source a);
     mf_ptr Target_Marshal (a_Target a);
     mf (Unsettled_Marshal (a_Unsettled a)) (no_elems (a_Unsettled a));
     mf (writeBool (a_IncompleteUnsettled a)) (negb (a_IncompleteUnsettled a));
     mf (writeUint32 (a_InitialDeliveryCount a)) (Bool.eqb (a_Role a) RoleReceiver);
     mf (writeUint64 (a_MaxMessageSize a)) (a_MaxMessageSize a =? 0);
     mf (MultiSymbol_Marshal (a_OfferedCapabilities a)) (no_elems (a_OfferedCapabilities a));
     mf (MultiSymbol_Marshal (a_DesiredCapabilities a)) (no_elems (a_DesiredCapabilities a));
     mf (marshalSymbolMap (a_Properties a)) (no_elems (a_Properties a))].

Definition PerformAttach_fields : list (UnmarshalField PerformAttach) :=
  [uf_required DString set_a_Name "Attach.Name is required";
   uf_required DUint32 set_a_Handle "Attach.Handle is required";
   uf_required (DUnmarshaler Role_Unmarshal) set_a_Role "Attach.Role is required";
   uf (DPtr (DUnmarshaler SenderSettleMode_Unmarshal)) (ptr set_a_SenderSettleMode);
   uf (DPtr (DUnmarshaler ReceiverSettleMode_Unmarshal)) (ptr set_a_ReceiverSettleMode);
   uf (DPtr (DUnmarshaler Source_Unmarshal)) (ptr set_a_Source);
   uf (DPtr (DUnmarshaler Target_Unmarshal)) (ptr set_a_Target);
   uf (DUnmarshaler Unsettled_Unmarshal) set_a_Unsettled;
   uf DBool set_a_IncompleteUnsettled;
   uf DUint32 set_a_InitialDeliveryCount;
   uf DUint64 set_a_MaxMessageSize;
   uf DMultiSymbol set_a_OfferedCapabilities;
   uf DMultiSymbol set_a_DesiredCapabilities;
   uf DSymbolMap set_a_Properties].
Definition PerformAttach_Unmarshal : M Buffer PerformAttach :=
  UnmarshalComposite TypeCodeAttach PerformAttach_fields newAttach.

(** frames.PerformFlow *)
Record PerformFlow := mkFlow {
  f_NextIncomingID : option Z;
  f_IncomingWindow : Z;
  f_NextOutgoingID : Z;
  f_OutgoingWindow : Z;
  f_Handle : option Z;
  f_DeliveryCount : option Z;
  f_LinkCredit : option Z;
  f_Available : option Z;
  f_Drain : bool;
  f_Echo : bool;
  f_Properties : list (bytes * value)
}.

Definition set_f_NextIncomingID (v : option Z) (s : PerformFlow) : PerformFlow :=
  match s with mkFlow _ x2 x3 x4 x5 x6 x7 x8 x9 x10 x11 => mkFlow v x2 x3 x4 x5 x6 x7 x8 x9 x10
    x11 end.
Definition set_f_IncomingWindow (v : Z) (s : PerformFlow) : PerformFlow :=
  match s with mkFlow x1 _ x3 x4 x5 x6 x7 x8 x9 x10 x11 => mkFlow x1 v x3 x4 x5 x6 x7 x8 x9 x10
    x11 end.
Definition set_f_NextOutgoingID (v : Z) (s : PerformFlow) : PerformFlow :=
  match s with mkFlow x1 x2 _ x4 x5 x6 x7 x8 x9 x10 x11 => mkFlow x1 x2 v x4 x5 x6 x7 x8 x9 x10
    x11 end.
Definition set_f_OutgoingWindow (v : Z) (s : PerformFlow) : PerformFlow :=
  match s with mkFlow x1 x2 x3 _ x5 x6 x7 x8 x9 x10 x11 => mkFlow x1 x2 x3 v x5 x6 x7 x8 x9 x10
    x11 end.
Definition set_f_Handle (v : option Z) (s : PerformFlow) : PerformFlow :=
  match s with mkFlow x1 x2 x3 x4 _ x6 x7 x8 x9 x10 x11 => mkFlow x1 x2 x3 x4 v x6 x7 x8 x9 x10
    x11 end.
Definition set_f_DeliveryCount (v : option Z) (s : PerformFlow) : PerformFlow :=
  match s with mkFlow x1 x2 x3 x4 x5 _ x7 x8 x9 x10 x11 => mkFlow x1 x2 x3 x4 x5 v x7 x8 x9 x10
    x11 end.
Definition set_f_LinkCredit (v : option Z) (s : PerformFlow) : PerformFlow :=
  match s with mkFlow x1 x2 x3 x4 x5 x6 _ x8 x9 x10 x11 => mkFlow x1 x2 x3 x4 x5 x6 v x8 x9 x10
    x11 end.
Definition set_f_Available (v : option Z) (s : PerformFlow) : PerformFlow :=
  match s with mkFlow x1 x2 x3 x4 x5 x6 x7 _ x9 x10 x11 => mkFlow x1 x2 x3 x4 x5 x6 x7 v x9 x10
    x11 end.
Definition set_f_Drain (v : bool) (s : PerformFlow) : PerformFlow :=
  match s with mkFlow x1 x2 x3 x4 x5 x6 x7 x8 _ x10 x11 => mkFlow x1 x2 x3 x4 x5 x6 x7 x8 v x10
    x11 end.
Definition set_f_Echo (v : bool) (s : PerformFlow) : PerformFlow :=
  match s with mkFlow x1 x2 x3 x4 x5 x6 x7 x8 x9 _ x11 => mkFlow x1 x2 x3 x4 x5 x6 x7 x8 x9 v x11
    end.
Definition set_f_Properties (v : list (bytes * value)) (s : PerformFlow) : PerformFlow :=
  match s with mkFlow x1 x2 x3 x4 x5 x6 x7 x8 x9 x10 _ => mkFlow x1 x2 x3 x4 x5 x6 x7 x8 x9 x10 v
    end.

Definition newFlow : PerformFlow := mkFlow None 0 0 0 None None None None false false [].

Definition PerformFlow_Marshal (f : PerformFlow) : M Buffer unit :=
  MarshalComposite TypeCodeFlow
    [mf_ptr writeUint32 (f_NextIncomingID f);
     mf (writeUint32 (f_IncomingWindow f)) false;
     mf (writeUint32 (f_NextOutgoingID f)) false;
     mf (writeUint32 (f_OutgoingWindow f)) false;
     mf_ptr writeUint32 (f_Handle f);
     mf_ptr writeUint32 (f_DeliveryCount f);
     mf_ptr writeUint32 (f_LinkCredit f);
     mf_ptr writeUint32 (f_Available f);
     mf (writeBool (f_Drain f)) (negb (f_Drain f));
     mf (writeBool (f_Echo f)) (negb (f_Echo f));
     mf (marshalSymbolMap (f_Properties f)) (no_elems (f_Properties f))].

Definition PerformFlow_fields : list (UnmarshalField PerformFlow) :=
  [uf (DPtr DUint32) (ptr set_f_NextIncomingID);
   uf_required DUint32 set_f_IncomingWindow "Flow.IncomingWindow is required";
   uf_required DUint32 set_f_NextOutgoingID "Flow.NextOutgoingID is required";
   uf_required DUint32 set_f_OutgoingWindow "Flow.OutgoingWindow is required";
   uf (DPtr DUint32) (ptr set_f_Handle);
   uf (DPtr DUint32) (ptr set_f_DeliveryCount);
   uf (DPtr DUint32) (ptr set_f_LinkCredit);
   uf (DPtr DUint32) (ptr set_f_Available);
   uf DBool set_f_Drain;
   uf DBool set_f_Echo;
   uf DSymbolMap set_f_Properties].
Definition PerformFlow_Unmarshal : M Buffer PerformFlow :=
  UnmarshalComposite TypeCodeFlow PerformFlow_fields newFlow.

(** frames.PerformTransfer; a nil delivery tag is [None], a channel is identified by a number *)
Record PerformTransfer := mkTransfer {
  tr_Handle : Z;
  tr_DeliveryID : option Z;
  tr_DeliveryTag : option bytes;
  tr_MessageFormat : option Z;
  tr_Settled : bool;
  tr_More : bool;
  tr_ReceiverSettleMode : option Z;
  tr_State : option DeliveryState;
  tr_Resume : bool;
  tr_Aborted : bool;
  tr_Batchable : bool;
  tr_Payload : bytes;
  tr_Done : option Z
}.

Definition set_tr_Handle (v : Z) (s : PerformTransfer) : PerformTransfer :=
  match s with mkTransfer _ x2 x3 x4 x5 x6 x7 x8 x9 x10 x11 x12 x13 => mkTransfer v x2 x3 x4 x5
    x6 x7 x8 x9 x10 x11 x12 x13 end.
Definition set_tr_DeliveryID (v : option Z) (s : PerformTransfer) : PerformTransfer :=
  match s with mkTransfer x1 _ x3 x4 x5 x6 x7 x8 x9 x10 x11 x12 x13 => mkTransfer x1 v x3 x4 x5
    x6 x7 x8 x9 x10 x11 x12 x13 end.
Definition set_tr_DeliveryTag (v : option bytes) (s : PerformTransfer) : PerformTransfer :=
  match s with mkTransfer x1 x2 _ x4 x5 x6 x7 x8 x9 x10 x11 x12 x13 => mkTransfer x1 x2 v x4 x5
    x6 x7 x8 x9 x10 x11 x12 x13 end.
Definition set_tr_MessageFormat (v : option Z) (s : PerformTransfer) : PerformTransfer :=
  match s with mkTransfer x1 x2 x3 _ x5 x6 x7 x8 x9 x10 x11 x12 x13 => mkTransfer x1 x2 x3 v x5
    x6 x7 x8 x9 x10 x11 x12 x13 end.
Definition set_tr_Settled (v : bool) (s : PerformTransfer) : PerformTransfer :=
  match s with mkTransfer x1 x2 x3 x4 _ x6 x7 x8 x9 x10 x11 x12 x13 => mkTransfer x1 x2 x3 x4 v
    x6 x7 x8 x9 x10 x11 x12 x13 end.
Definition set_tr_More (v : bool) (s : PerformTransfer) : PerformTransfer :=
  match s with mkTransfer x1 x2 x3 x4 x5 _ x7 x8 x9 x10 x11 x12 x13 => mkTransfer x1 x2 x3 x4 x5
    v x7 x8 x9 x10 x11 x12 x13 end.
Definition set_tr_ReceiverSettleMode (v : option Z) (s : PerformTransfer) : PerformTransfer :=
  match s with mkTransfer x1 x2 x3 x4 x5 x6 _ x8 x9 x10 x11 x12 x13 => mkTransfer x1 x2 x3 x4 x5
    x6 v x8 x9 x10 x11 x12 x13 end.
Definition set_tr_State (v : option DeliveryState) (s : PerformTransfer) : PerformTransfer :=
  match s with mkTransfer x1 x2 x3 x4 x5 x6 x7 _ x9 x10 x11 x12 x13 => mkTransfer x1 x2 x3 x4 x5
    x6 x7 v x9 x10 x11 x12 x13 end.
Definition set_tr_Resume (v : bool) (s : PerformTransfer) : PerformTransfer :=
  match s with mkTransfer x1 x2 x3 x4 x5 x6 x7 x8 _ x10 x11 x12 x13 => mkTransfer x1 x2 x3 x4 x5
    x6 x7 x8 v x10 x11 x12 x13 end.
Definition set_tr_Aborted (v : bool) (s : PerformTransfer) : PerformTransfer :=
  match s with mkTransfer x1 x2 x3 x4 x5 x6 x7 x8 x9 _ x11 x12 x13 => mkTransfer x1 x2 x3 x4 x5
    x6 x7 x8 x9 v x11 x12 x13 end.
Definition set_tr_Batchable (v : bool) (s : PerformTransfer) : PerformTransfer :=
  match s with mkTransfer x1 x2 x3 x4 x5 x6 x7 x8 x9 x10 _ x12 x13 => mkTransfer x1 x2 x3 x4 x5
    x6 x7 x8 x9 x10 v x12 x13 end.
Definition set_tr_Payload (v : bytes) (s : PerformTransfer) : PerformTransfer :=
  match s with mkTransfer x1 x2 x3 x4 x5 x6 x7 x8 x9 x10 x11 _ x13 => mkTransfer x1 x2 x3 x4 x5
    x6 x7 x8 x9 x10 x11 v x13 end.
Definition set_tr_Done (v : option Z) (s : PerformTransfer) : PerformTransfer :=
  match s with mkTransfer x1 x2 x3 x4 x5 x6 x7 x8 x9 x10 x11 x12 _ => mkTransfer x1 x2 x3 x4 x5
    x6 x7 x8 x9 x10 x11 x12 v end.

Definition newTransfer : PerformTransfer :=
  mkTransfer 0 None None None false false None None false false false [] None.

Definition PerformTransfer_Marshal (t : PerformTransfer) : M Buffer unit :=
  _ ← MarshalComposite TypeCodeTransfer
    [mf (writeUint32 (tr_Handle t)) false;
     mf_ptr writeUint32 (tr_DeliveryID t);
     mf (WriteBinary (default [] (tr_DeliveryTag t))) (no_elems (default [] (tr_DeliveryTag t)));
     mf_ptr writeUint32 (tr_MessageFormat t);
     mf (writeBool (tr_Settled t)) (negb (tr_Settled t));
     mf (writeBool (tr_More t)) (negb (tr_More t));
     mf_ptr ReceiverSettleMode_Marshal (tr_ReceiverSettleMode t);
     mf_ptr DeliveryState_Marshal (tr_State t);
     mf (writeBool (tr_Resume t)) (negb (tr_Resume t));
     mf (writeBool (tr_Aborted t)) (negb (tr_Aborted t));
     mf (writeBool (tr_Batchable t)) (negb (tr_Batchable t))];
  Append (tr_Payload t).

Definition PerformTransfer_fields : list (UnmarshalField PerformTransfer) :=
  [uf_required DUint32 set_tr_Handle "Transfer.Handle is required";
   uf (DPtr DUint32) (ptr set_tr_DeliveryID);
   uf DBinary (ptr set_tr_DeliveryTag);
   uf (DPtr DUint32) (ptr set_tr_MessageFormat);
   uf DBool set_tr_Settled;
   uf DBool set_tr_More;
   uf (DPtr (DUnmarshaler ReceiverSettleMode_Unmarshal)) (ptr set_tr_ReceiverSettleMode);
   uf DState (ptr set_tr_State);
   uf DBool set_tr_Resume;
   uf DBool set_tr_Aborted;
   uf DBool set_tr_Batchable].
Definition PerformTransfer_Unmarshal : M Buffer PerformTransfer :=
  t ← UnmarshalComposite TypeCodeTransfer PerformTransfer_fields newTransfer;
  payload ← getBytes;
  mret (set_tr_Payload payload t).

(** frames.PerformDisposition *)
Record PerformDisposition := mkDisposition {
  dp_Role : bool;
  dp_First : Z;
  dp_Last : option Z;
  dp_Settled : bool;
  dp_State : option DeliveryState;
  dp_Batchable : bool
}.

Definition set_dp_Role (v : bool) (s : PerformDisposition) : PerformDisposition :=
  match s with mkDisposition _ x2 x3 x4 x5 x6 => mkDisposition v x2 x3 x4 x5 x6 end.
Definition set_dp_First (v : Z) (s : PerformDisposition) : PerformDisposition :=
  match s with mkDisposition x1 _ x3 x4 x5 x6 => mkDisposition x1 v x3 x4 x5 x6 end.
Definition set_dp_Last (v : option Z) (s : PerformDisposition) : PerformDisposition :=
  match s with mkDisposition x1 x2 _ x4 x5 x6 => mkDisposition x1 x2 v x4 x5 x6 end.
Definition set_dp_Settled (v : bool) (s : PerformDisposition) : PerformDisposition :=
  match s with mkDisposition x1 x2 x3 _ x5 x6 => mkDisposition x1 x2 x3 v x5 x6 end.
Definition set_dp_State (v : option DeliveryState) (s : PerformDisposition) : PerformDisposition :=
  match s with mkDisposition x1 x2 x3 x4 _ x6 => mkDisposition x1 x2 x3 x4 v x6 end.
Definition set_dp_Batchable (v : bool) (s : PerformDisposition) : PerformDisposition :=
  match s with mkDisposition x1 x2 x3 x4 x5 _ => mkDisposition x1 x2 x3 x4 x5 v end.

Definition newDisposition : PerformDisposition := mkDisposition false 0 None false None false.

Definition PerformDisposition_Marshal (d : PerformDisposition) : M Buffer unit :=
  MarshalComposite TypeCodeDisposition
    [mf (Role_Marshal (dp_Role d)) false;
     mf (writeUint32 (dp_First d)) false;
     mf_ptr writeUint32 (dp_Last d);
     mf (writeBool (dp_Settled d)) (negb (dp_Settled d));
     mf_ptr DeliveryState_Marshal (dp_State d);
     mf (writeBool (dp_Batchable d)) (negb (dp_Batchable d))].

Definition PerformDisposition_fields : list (UnmarshalField PerformDisposition) :=
  [uf_required (DUnmarshaler Role_Unmarshal) set_dp_Role "Disposition.Role is required";
   uf_required DUint32 set_dp_First "Disposition.Handle is required";
   uf (DPtr DUint32) (ptr set_dp_Last);
   uf DBool set_dp_Settled;
   uf DState (ptr set_dp_State);
   uf DBool set_dp_Batchable].
Definition PerformDisposition_Unmarshal : M Buffer PerformDisposition :=
  UnmarshalComposite TypeCodeDisposition PerformDisposition_fields newDisposition.

(** frames.PerformDetach *)
Record PerformDetach := mkDetach {
  dt_Handle : Z;
  dt_Closed : bool;
  dt_Error : option Error
}.

Definition set_dt_Handle (v : Z) (s : PerformDetach) : PerformDetach :=
  match s with mkDetach _ x2 x3 => mkDetach v x2 x3 end.
Definition set_dt_Closed (v : bool) (s : PerformDetach) : PerformDetach :=
  match s with mkDetach x1 _ x3 => mkDetach x1 v x3 end.
Definition set_dt_Error (v : option Error) (s : PerformDetach) : PerformDetach :=
  match s with mkDetach x1 x2 _ => mkDetach x1 x2 v end.

Definition newDetach : PerformDetach := mkDetach 0 false None.

Definition PerformDetach_Marshal (d : PerformDetach) : M Buffer unit :=
  MarshalComposite TypeCodeDetach
    [mf (writeUint32 (dt_Handle d)) false;
     mf (writeBool (dt_Closed d)) (negb (dt_Closed d));
     mf_ptr Error_Marshal (dt_Error d)].

Definition PerformDetach_fields : list (UnmarshalField PerformDetach) :=
  [uf_required DUint32 set_dt_Handle "Detach.Handle is required";
   uf DBool set_dt_Closed;
   uf DError (ptr set_dt_Error)].
Definition PerformDetach_Unmarshal : M Buffer PerformDetach :=
  UnmarshalComposite TypeCodeDetach PerformDetach_fields newDetach.

(** frames.PerformEnd and frames.PerformClose *)
Record PerformEnd := mkEnd { e_Error : option Error }.
Record PerformClose := mkClose { c_Error : option Error }.

Definition PerformEnd_Marshal (e : PerformEnd) : M Buffer unit :=
  MarshalComposite TypeCodeEnd [mf_ptr Error_Marshal (e_Error e)].
Definition PerformEnd_Unmarshal : M Buffer PerformEnd :=
  UnmarshalComposite TypeCodeEnd [uf DError (fun v _ => mkEnd (Some v))] (mkEnd None).

Definition PerformClose_Marshal (c : PerformClose) : M Buffer unit :=
  MarshalComposite TypeCodeClose [mf_ptr Error_Marshal (c_Error c)].
Definition PerformClose_Unmarshal : M Buffer PerformClose :=
  UnmarshalComposite TypeCodeClose [uf DError (fun v _ => mkClose (Some v))] (mkClose None).

(** frames.SASLInit *)
Record SASLInit := mkSASLInit {
  si_Mechanism : bytes;
  si_InitialResponse : bytes;
  si_Hostname : bytes
}.

Definition set_si_Mechanism (v : bytes) (s : SASLInit) : SASLInit :=
  match s with mkSASLInit _ x2 x3 => mkSASLInit v x2 x3 end.
Definition set_si_InitialResponse (v : bytes) (s : SASLInit) : SASLInit :=
  match s with mkSASLInit x1 _ x3 => mkSASLInit x1 v x3 end.
Definition set_si_Hostname (v : bytes) (s : SASLInit) : SASLInit :=
  match s with mkSASLInit x1 x2 _ => mkSASLInit x1 x2 v end.

Definition newSASLInit : SASLInit := mkSASLInit [] [] [].

Definition SASLInit_Marshal (si : SASLInit) : M Buffer unit :=
  MarshalComposite TypeCodeSASLInit
    [mf (Symbol_Marshal (si_Mechanism si)) false;
     mf (WriteBinary (si_InitialResponse si)) false;
     mf (writeString (si_Hostname si)) (no_elems (si_Hostname si))].

Definition SASLInit_fields : list (UnmarshalField SASLInit) :=
  [uf_required DSymbol set_si_Mechanism "saslInit.Mechanism is required";
   uf DBinary set_si_InitialResponse;
   uf DString set_si_Hostname].
Definition SASLInit_Unmarshal : M Buffer SASLInit :=
  UnmarshalComposite TypeCodeSASLInit SASLInit_fields newSASLInit.

(** frames.SASLMechanisms, SASLChallenge, SASLResponse *)
Record SASLMechanisms := mkSASLMechanisms { sm_Mechanisms : list bytes }.
Record SASLChallenge := mkSASLChallenge { sc_Challenge : bytes }.
Record SASLResponse := mkSASLResponse { sr_Response : bytes }.

Definition SASLMechanisms_Marshal (sm : SASLMechanisms) : M Buffer unit :=
  MarshalComposite TypeCodeSASLMechanism [mf (MultiSymbol_Marshal (sm_Mechanisms sm)) false].
Definition SASLMechanisms_Unmarshal : M Buffer SASLMechanisms :=
  UnmarshalComposite TypeCodeSASLMechanism
    [uf_required DMultiSymbol (fun v _ => mkSASLMechanisms v)
       "saslMechanisms.Mechanisms is required"] (mkSASLMechanisms []).

Definition SASLChallenge_Marshal (sc : SASLChallenge) : M Buffer unit :=
  MarshalComposite TypeCodeSASLChallenge [mf (WriteBinary (sc_Challenge sc)) false].
Definition SASLChallenge_Unmarshal : M Buffer SASLChallenge :=
  UnmarshalComposite TypeCodeSASLChallenge
    [uf_required DBinary (fun v _ => mkSASLChallenge v)
       "saslChallenge.Challenge is required"] (mkSASLChallenge []).

Definition SASLResponse_Marshal (sr : SASLResponse) : M Buffer unit :=
  MarshalComposite TypeCodeSASLResponse [mf (WriteBinary (sr_Response sr)) false].
Definition SASLResponse_Unmarshal : M Buffer SASLResponse :=
  UnmarshalComposite TypeCodeSASLResponse
    [uf_required DBinary (fun v _ => mkSASLResponse v)
       "saslResponse.Response is required"] (mkSASLResponse []).

(** frames.SASLOutcome *)
Record SASLOutcome := mkSASLOutcome {
  so_Code : Z;
  so_AdditionalData : bytes
}.

Definition set_so_Code (v : Z) (s : SASLOutcome) : SASLOutcome :=
  match s with mkSASLOutcome _ x2 => mkSASLOutcome v x2 end.
Definition set_so_AdditionalData (v : bytes) (s : SASLOutcome) : SASLOutcome :=
  match s with mkSASLOutcome x1 _ => mkSASLOutcome x1 v end.

Definition newSASLOutcome : SASLOutcome := mkSASLOutcome 0 [].

Definition SASLOutcome_Marshal (so : SASLOutcome) : M Buffer unit :=
  MarshalComposite TypeCodeSASLOutcome
    [mf (SASLCode_Marshal (so_Code so)) false;
     mf (WriteBinary (so_AdditionalData so)) (no_elems (so_AdditionalData so))].
Definition SASLOutcome_fields : list (UnmarshalField SASLOutcome) :=
  [uf_required (DUnmarshaler SASLCode_Unmarshal) set_so_Code "saslOutcome.AdditionalData is required";
   uf DBinary set_so_AdditionalData].
Definition SASLOutcome_Unmarshal : M Buffer SASLOutcome :=
  UnmarshalComposite TypeCodeSASLOutcome SASLOutcome_fields newSASLOutcome.

(** frames.FrameBody: the types that implement the interface *)
Inductive FrameBody :=
| FOpen (o : PerformOpen)
| FBegin (b : PerformBegin)
| FAttach (a : PerformAttach)
| FFlow (f : PerformFlow)
| FTransfer (t : PerformTransfer)
| FDisposition (d : PerformDisposition)
| FDetach (d : PerformDetach)
| FEnd (e : PerformEnd)
| FClose (c : PerformClose)
| FSASLInit (si : SASLInit)
| FSASLMechanisms (sm : SASLMechanisms)
| FSASLChallenge (sc : SASLChallenge)
| FSASLResponse (sr : SASLResponse)
| FSASLOutcome (so : SASLOutcome).

(** frames.Frame *)
Record Frame := mkFrame { Type_ : Z; Channel : Z; Body : FrameBody; Done : option Z }.

(** [encoding.Marshal(buf, fr.Body)]: the marshaler case. *)
Definition FrameBody_Marshal (f : FrameBody) : M Buffer unit :=
  match f with
  | FOpen o => PerformOpen_Marshal o
  | FBegin b => PerformBegin_Marshal b
  | FAttach a => PerformAttach_Marshal a
  | FFlow f => PerformFlow_Marshal f
  | FTransfer t => PerformTransfer_Marshal t
  | FDisposition d => PerformDisposition_Marshal d
  | FDetach d => PerformDetach_Marshal d
  | FEnd e => PerformEnd_Marshal e
  | FClose c => PerformClose_Marshal c
  | FSASLInit si => SASLInit_Marshal si
  | FSASLMechanisms sm => SASLMechanisms_Marshal sm
  | FSASLChallenge sc => SASLChallenge_Marshal sc
  | FSASLResponse sr => SASLResponse_Marshal sr
  | FSASLOutcome so => SASLOutcome_Marshal so
  end.

End Frames.
