(* ===== verification/Parsing.v ===== *)
(** * Parsing: frame headers and frames (internal/frames/parsing.go)

    The frame layout on the wire: an eight-byte header whose size field counts
    the whole frame, then the body. *)

From S2P Require Import Prelude Buffer Types Encode Decode Frames.
Import Buffer Encode Decode Frames.

Module Parsing.

Definition HeaderSize : Z := 8.

(** frames.Header *)
Record Header := mkHeader { Size : Z; DataOffset : Z; FrameType : Z; HChannel : Z }.

Definition ParseHeader : M Buffer Header :=
  buf ← NextOr 8 (Errorf "invalid frameHeader" []);
  let fh := mkHeader (Uint32 (slice buf 0 4)) (nthb buf 4) (nthb buf 5) (Uint16 (slice buf 6 8)) in
  if Size fh <? HeaderSize then errorf "received frame header with invalid size %d" [Size fh]
  else if DataOffset fh <? 2 then
    errorf "received frame header with invalid data offset %d" [DataOffset fh]
  else mret fh.

(** The performative that follows decides the decoder. *)
Definition ParseBody_switch (pType : Z) : M Buffer FrameBody :=
  if pType =? TypeCodeOpen then FOpen <$> PerformOpen_Unmarshal
  else if pType =? TypeCodeBegin then FBegin <$> PerformBegin_Unmarshal
  else if pType =? TypeCodeAttach then FAttach <$> PerformAttach_Unmarshal
  else if pType =? TypeCodeFlow then FFlow <$> PerformFlow_Unmarshal
  else if pType =? TypeCodeTransfer then FTransfer <$> PerformTransfer_Unmarshal
  else if pType =? TypeCodeDisposition then FDisposition <$> PerformDisposition_Unmarshal
  else if pType =? TypeCodeDetach then FDetach <$> PerformDetach_Unmarshal
  else if pType =? TypeCodeEnd then FEnd <$> PerformEnd_Unmarshal
  else if pType =? TypeCodeClose then FClose <$> PerformClose_Unmarshal
  else if pType =? TypeCodeSASLMechanism then FSASLMechanisms <$> SASLMechanisms_Unmarshal
  else if pType =? TypeCodeSASLChallenge then FSASLChallenge <$> SASLChallenge_Unmarshal
  else if pType =? TypeCodeSASLOutcome then FSASLOutcome <$> SASLOutcome_Unmarshal
  else errorf "unknown performative type %02x" [pType].

Definition ParseBody : M Buffer FrameBody :=
  payload ← getBytes;
  n ← getLen;
  if (n <? 3) || negb (nthb payload 0 =? 0) || negb (nthb payload 1 =? TypeCodeSmallUlong)
  then errorf "invalid frame body header" []
  else ParseBody_switch (nthb payload 2).

(** [Write] is given an empty buffer: the size is written at the start of the
    unread bytes. *)
Definition Write (fr : Frame) : M Buffer unit :=
  _ ← Append [0; 0; 0; 0; 2; Type_ fr];
  _ ← AppendUint16 (Channel fr);
  _ ← FrameBody_Marshal (Body fr);
  n ← getLen;
  if n >? MaxUint32 then errorf "frame too large" []
  else
    bufBytes ← getBytes;
    PutUint32 0 (u32 (zlen bufBytes)).

End Parsing.
