(* ===== verification/FrameRoundtrip.v ===== *)
(** * FrameRoundtrip: frame bodies and frames survive the wire

    For every frame body a decidable condition under which it can be sent
    ([body_ok]), the value it comes back as ([norm_body]) and the round trips:
    of each struct through its Marshal and Unmarshal methods, and of whole
    frames through [Write], [ParseHeader] and [ParseBody].  The second part
    shows that the frame parsers are safe on arbitrary input. *)

From S2P Require Import Prelude Buffer Types Encode Decode Wire CodecSafety CodecRoundtrip ValueRoundtrip FieldRoundtrip Frames Parsing.
Import Buffer Encode Decode Wire CodecSafety CodecRoundtrip ValueRoundtrip FieldRoundtrip
  Frames Parsing.

Module FrameRoundtrip.

(** ** What can be sent, and what it comes back as *)

Definition opt_ok {A} (p : A -> bool) (o : option A) : bool :=
  match o with Some x => p x | None => true end.

Definition expiry_ok (e : bytes) : bool := is_empty e || policy_ok e.
Definition norm_expiry (e : bytes) : bytes := if is_empty e then ExpirySessionEnd else e.

Definition source_ok (s : Source) : bool :=
  str_ok (s_Address s) && inu 32 (s_Durable s) && expiry_ok (s_ExpiryPolicy s)
  && inu 32 (s_Timeout s) && symbol_map_ok (s_DynamicNodeProperties s)
  && strlen_ok (s_DistributionMode s) && filter_ok (s_Filter s)
  && value_is_nil (s_DefaultOutcome s) && multi_ok (s_Outcomes s) && multi_ok (s_Capabilities s).
Definition norm_source (s : Source) : Source :=
  mkSource (s_Address s) (s_Durable s) (norm_expiry (s_ExpiryPolicy s)) (s_Timeout s) (s_Dynamic s)
    (norm_entries norm (s_DynamicNodeProperties s)) (s_DistributionMode s)
    (norm_filter (s_Filter s)) (s_DefaultOutcome s) (s_Outcomes s) (s_Capabilities s).

Definition target_ok (t : Target) : bool :=
  str_ok (t_Address t) && inu 32 (t_Durable t) && expiry_ok (t_ExpiryPolicy t)
  && inu 32 (t_Timeout t) && symbol_map_ok (t_DynamicNodeProperties t)
  && multi_ok (t_Capabilities t).
Definition norm_target (t : Target) : Target :=
  mkTarget (t_Address t) (t_Durable t) (norm_expiry (t_ExpiryPolicy t)) (t_Timeout t) (t_Dynamic t)
    (norm_entries norm (t_DynamicNodeProperties t)) (t_Capabilities t).

Definition ms_ok (d : Z) : bool := (0 <=? Z.quot d 1000000) && (Z.quot d 1000000 <? 2 ^ 32).

Definition open_ok (o : PerformOpen) : bool :=
  str_ok (o_ContainerID o) && str_ok (o_Hostname o) && inu 32 (o_MaxFrameSize o)
  && inu 16 (o_ChannelMax o) && ms_ok (o_IdleTimeout o)
  && multi_ok (o_OutgoingLocales o) && multi_ok (o_IncomingLocales o)
  && multi_ok (o_OfferedCapabilities o) && multi_ok (o_DesiredCapabilities o)
  && symbol_map_ok (o_Properties o).
Definition norm_open (o : PerformOpen) : PerformOpen :=
  mkOpen (o_ContainerID o) (o_Hostname o) (o_MaxFrameSize o) (o_ChannelMax o)
    (norm_ms (o_IdleTimeout o)) (o_OutgoingLocales o) (o_IncomingLocales o)
    (o_OfferedCapabilities o) (o_DesiredCapabilities o) (norm_entries norm (o_Properties o)).

Definition begin_ok (b : PerformBegin) : bool :=
  opt_ok (inu 16) (b_RemoteChannel b) && inu 32 (b_NextOutgoingID b) && inu 32 (b_IncomingWindow b)
  && inu 32 (b_OutgoingWindow b) && inu 32 (b_HandleMax b) && multi_ok (b_OfferedCapabilities b)
  && multi_ok (b_DesiredCapabilities b) && opt_ok symbol_map_ok (b_Properties b).
Definition norm_begin (b : PerformBegin) : PerformBegin :=
  mkBegin (b_RemoteChannel b) (b_NextOutgoingID b) (b_IncomingWindow b) (b_OutgoingWindow b)
    (b_HandleMax b) (b_OfferedCapabilities b) (b_DesiredCapabilities b)
    (norm_entries norm <$> b_Properties b).

Definition attach_ok (a : PerformAttach) : bool :=
  str_ok (a_Name a) && inu 32 (a_Handle a) && opt_ok source_ok (a_Source a)
  && opt_ok target_ok (a_Target a) && unsettled_ok (a_Unsettled a)
  && inu 32 (a_InitialDeliveryCount a) && inu 64 (a_MaxMessageSize a)
  && multi_ok (a_OfferedCapabilities a) && multi_ok (a_DesiredCapabilities a)
  && symbol_map_ok (a_Properties a).
(** The initial delivery count is only sent by senders. *)
Definition norm_attach (a : PerformAttach) : PerformAttach :=
  mkAttach (a_Name a) (a_Handle a) (a_Role a) (a_SenderSettleMode a) (a_ReceiverSettleMode a)
    (norm_source <$> a_Source a) (norm_target <$> a_Target a) (norm_unsettled (a_Unsettled a))
    (a_IncompleteUnsettled a) (if a_Role a then 0 else a_InitialDeliveryCount a)
    (a_MaxMessageSize a) (a_OfferedCapabilities a) (a_DesiredCapabilities a)
    (norm_entries norm (a_Properties a)).

Definition flow_ok (f : PerformFlow) : bool :=
  opt_ok (inu 32) (f_NextIncomingID f) && inu 32 (f_IncomingWindow f) && inu 32 (f_NextOutgoingID f)
  && inu 32 (f_OutgoingWindow f) && opt_ok (inu 32) (f_Handle f) && opt_ok (inu 32) (f_DeliveryCount f)
  && opt_ok (inu 32) (f_LinkCredit f) && opt_ok (inu 32) (f_Available f)
  && symbol_map_ok (f_Properties f).
Definition norm_flow (f : PerformFlow) : PerformFlow :=
  set_f_Properties (norm_entries norm (f_Properties f)) f.

Definition transfer_ok (t : PerformTransfer) : bool :=
  inu 32 (tr_Handle t) && opt_ok (inu 32) (tr_DeliveryID t) && opt_ok strlen_ok (tr_DeliveryTag t)
  && opt_ok (inu 32) (tr_MessageFormat t) && opt_ok state_ok (tr_State t).
(** An empty delivery tag is omitted; the Done channel is local to the sender. *)
Definition norm_tag (tag : option bytes) : option bytes :=
  if no_elems (default [] tag) then None else tag.
Definition norm_transfer (t : PerformTransfer) : PerformTransfer :=
  set_tr_Done None (set_tr_State (norm_state_ norm <$> tr_State t)
    (set_tr_DeliveryTag (norm_tag (tr_DeliveryTag t)) t)).

Definition disposition_ok (d : PerformDisposition) : bool :=
  inu 32 (dp_First d) && opt_ok (inu 32) (dp_Last d) && opt_ok state_ok (dp_State d).
Definition norm_disposition (d : PerformDisposition) : PerformDisposition :=
  set_dp_State (norm_state_ norm <$> dp_State d) d.

Definition norm_err (e : option Error) : option Error := norm_error_ norm <$> e.
Definition detach_ok (d : PerformDetach) : bool := inu 32 (dt_Handle d) && opt_ok error_ok (dt_Error d).
Definition norm_detach (d : PerformDetach) : PerformDetach := set_dt_Error (norm_err (dt_Error d)) d.

Definition init_ok (si : SASLInit) : bool :=
  strlen_ok (si_Mechanism si) && strlen_ok (si_InitialResponse si) && str_ok (si_Hostname si).

(** ** Each struct *)

Lemma f_ptr {S A B} (w : A -> M Buffer unit) p (d : dest B) (set : option B -> S -> S) (g : A -> B)
  ms fs s s' :
  (forall x, p = Some x -> FRT (w x) d (g x)) -> set None s = s ->
  FieldsRT ms fs (set (g <$> p) s) s' ->
  FieldsRT (mf_ptr w p :: ms) (uf d (ptr set) :: fs) s s'.
Proof.
  intros Hf Hn H. eapply FieldsRT_cons; [|eassumption]. destruct p as [x|]; cbn.
  - exists (g x). split; [by apply Hf|done].
  - by rewrite Hn.
Qed.

Lemma f_ptr_id {S A} (w : A -> M Buffer unit) p (d : dest A) (set : option A -> S -> S) ms fs s s' :
  (forall x, p = Some x -> FRT (w x) d x) -> set None s = s ->
  FieldsRT ms fs (set p s) s' ->
  FieldsRT (mf_ptr w p :: ms) (uf d (ptr set) :: fs) s s'.
Proof.
  intros Hf Hn H. apply (f_ptr w p d set (fun x => x)); [done|done|]. by destruct p.
Qed.

(** The round trip of a field, by the writer it uses. *)
Ltac frt :=
  lazymatch goal with
  | |- FRT _ (DPtr (DUnmarshaler Error_Unmarshal)) _ => apply FRT_error
  | |- FRT _ DError _ => apply FRT_error
  | |- FRT _ (DPtr _) _ => apply FRT_ptr; frt
  | |- FRT (writeString _) _ _ => apply FRT_string
  | |- FRT (Symbol_Marshal _) _ _ => apply FRT_symbol
  | |- FRT (WriteBinary _) _ _ => apply FRT_binary
  | |- FRT (writeUint32 _) _ _ => apply FRT_uint32
  | |- FRT (writeUint64 _) _ _ => apply FRT_uint64
  | |- FRT (writeUint16 _) _ _ => apply FRT_uint16
  | |- FRT (writeBool _) _ _ => apply FRT_bool
  | |- FRT (Role_Marshal _) _ _ => apply FRT_role
  | |- FRT (SenderSettleMode_Marshal _) _ _ => apply FRT_ubyte
  | |- FRT (ReceiverSettleMode_Marshal _) _ _ => apply FRT_ubyte
  | |- FRT (SASLCode_Marshal _) _ _ => apply FRT_ubyte
  | |- FRT (Durability_Marshal _) _ _ => apply FRT_durability
  | |- FRT (MultiSymbol_Marshal _) _ _ => apply FRT_multi
  | |- FRT (marshalSymbolMap _) _ _ => apply FRT_symbol_map
  | |- FRT (DeliveryState_Marshal _) _ _ => apply FRT_state
  | |- FRT (Filter_Marshal _) _ _ => apply FRT_filter
  | |- FRT (Unsettled_Marshal _) _ _ => apply FRT_unsettled
  end; try assumption.

(** [omit = true] means that the field has its zero value. *)
Ltac zero := intros E; unfold is_empty, no_elems in E;
  first [apply bool_decide_eq_true in E | apply Z.eqb_eq, zlen_0_nil in E | apply Z.eqb_eq in E
        | apply negb_true_iff in E]; rewrite E; reflexivity.

Ltac split_ok H :=
  repeat match type of H with _ && _ = true => apply andb_prop in H as [H ?] end.

(** Compute the struct decoded so far. *)
Ltac step_state :=
  lazymatch goal with
  | |- FieldsRT ?ms ?fs ?s ?s' => let s1 := eval hnf in s in change (FieldsRT ms fs s1 s')
  end.

(** A field that is omitted when it has its zero value, or is mandatory. *)
Ltac field :=
  first [ eapply f_required; [solve [frt]|]
        | eapply f_uf; [intros _; solve [frt]|first [zero|done]|]
        | eapply f_default; [intros _; solve [frt]|by intros E%Z.eqb_eq|] ];
  step_state.

Lemma expiry_field {S} e (set : bytes -> S -> S) ms fs s s' :
  expiry_ok e = true -> FieldsRT ms fs (set (norm_expiry e) s) s' ->
  FieldsRT (mf (ExpiryPolicy_Marshal e) (is_empty e || bytes_eqb e ExpirySessionEnd) :: ms)
    (uf_default (DUnmarshaler ExpiryPolicy_Unmarshal) set ExpirySessionEnd :: fs) s s'.
Proof.
  unfold expiry_ok, norm_expiry. intros Ho H. eapply f_default; [| |exact H].
  - intros [E1 E2]%orb_false_elim. rewrite E1 in *. by apply FRT_expiry.
  - unfold bytes_eqb. destruct (is_empty e); [done|]. cbn. by intros ?%bool_decide_eq_true.
Qed.

Lemma source_rt s :
  source_ok s = true -> CompositeRT TypeCodeSource (Source_Marshal s) Source_Unmarshal (norm_source s).
Proof.
  intros H. unfold source_ok in H. split_ok H. apply composite_rt; [done|].
  do 2 field. apply expiry_field; [done|]. do 5 field.
  eapply (f_uf _ _ _ _ (s_DefaultOutcome s)).
  { intros E. destruct (s_DefaultOutcome s); done. }
  { intros _. destruct (s_DefaultOutcome s); done. }
  do 2 field. by apply FieldsRT_nil.
Qed.

Lemma target_rt t :
  target_ok t = true -> CompositeRT TypeCodeTarget (Target_Marshal t) Target_Unmarshal (norm_target t).
Proof.
  intros H. unfold target_ok in H. split_ok H. apply composite_rt; [done|].
  do 2 field. apply expiry_field; [done|]. do 4 field. by apply FieldsRT_nil.
Qed.

Lemma open_rt o :
  open_ok o = true -> CompositeRT TypeCodeOpen (PerformOpen_Marshal o) PerformOpen_Unmarshal (norm_open o).
Proof.
  intros H. unfold open_ok in H. split_ok H. apply composite_rt; [done|].
  do 4 field. eapply (f_uf _ _ _ _ (norm_ms (o_IdleTimeout o))).
  { intros _. apply FRT_milliseconds. unfold ms_ok in *. lia. }
  { zero. }
  do 5 field. by apply FieldsRT_nil.
Qed.

Lemma opt_ok_some {A} p (o : option A) x : opt_ok p o = true -> o = Some x -> p x = true.
Proof. by intros H ->. Qed.

(** A pointer field whose value comes back as it was, or changed by [g]. *)
Ltac pointer := eapply f_ptr_id; [intros; frt; eauto using opt_ok_some|done|]; step_state.
Ltac pointer_to g :=
  eapply (f_ptr _ _ _ _ g); [intros; frt; eauto using opt_ok_some|done|]; step_state.

Lemma begin_rt b :
  begin_ok b = true -> CompositeRT TypeCodeBegin (PerformBegin_Marshal b) PerformBegin_Unmarshal (norm_begin b).
Proof.
  intros H. unfold begin_ok in H. split_ok H. apply composite_rt; [done|].
  pointer. do 6 field. pointer_to (norm_entries norm). by apply FieldsRT_nil.
Qed.

Lemma attach_rt a :
  attach_ok a = true -> CompositeRT TypeCodeAttach (PerformAttach_Marshal a) PerformAttach_Unmarshal (norm_attach a).
Proof.
  intros H. unfold attach_ok in H. split_ok H. apply composite_rt; [done|].
  do 3 field. do 2 pointer.
  eapply (f_ptr _ _ _ _ norm_source);
    [intros; apply FRT_ptr, FRT_read; eapply CompositeRT_Roundtrip, source_rt; eauto using opt_ok_some|done|].
  eapply (f_ptr _ _ _ _ norm_target);
    [intros; apply FRT_ptr, FRT_read; eapply CompositeRT_Roundtrip, target_rt; eauto using opt_ok_some|done|].
  do 2 field.
  eapply (f_uf _ _ _ _ (if a_Role a then 0 else a_InitialDeliveryCount a)).
  { intros E. destruct (a_Role a); [done|]. by apply FRT_uint32. }
  { intros E. by destruct (a_Role a). }
  do 4 field. by apply FieldsRT_nil.
Qed.

Lemma flow_rt f :
  flow_ok f = true -> CompositeRT TypeCodeFlow (PerformFlow_Marshal f) PerformFlow_Unmarshal (norm_flow f).
Proof.
  intros H. unfold flow_ok in H. split_ok H. apply composite_rt; [done|].
  pointer. do 3 field. do 4 pointer. do 3 field. apply FieldsRT_nil. by destruct f.
Qed.

Lemma f_tag {S} tag (set : option bytes -> S -> S) ms fs s s' :
  opt_ok strlen_ok tag = true -> set None s = s -> FieldsRT ms fs (set (norm_tag tag) s) s' ->
  FieldsRT (mf (WriteBinary (default [] tag)) (no_elems (default [] tag)) :: ms)
    (uf DBinary (ptr set) :: fs) s s'.
Proof.
  unfold norm_tag. intros Hok Hn H. eapply FieldsRT_cons; [|exact H]. unfold field_rt.
  cbn [Omit Value HandleNull uf]. destruct (no_elems (default [] tag)) eqn:E; [by rewrite Hn|].
  destruct tag as [tag|]; [|done]. exists tag. split; [by apply FRT_binary|done].
Qed.

Lemma transfer_rt t :
  transfer_ok t = true ->
  exists l, let bs := [0; TypeCodeSmallUlong; TypeCodeTransfer] ++ l in
    Encodes (PerformTransfer_Marshal t) (bs ++ tr_Payload t) /\
    (zlen bs < 2 ^ 32 -> forall pre,
       PerformTransfer_Unmarshal (at_ pre (bs ++ tr_Payload t))
       = (Ok (norm_transfer t), at_ (pre ++ bs) (tr_Payload t))).
Proof.
  intros H. unfold transfer_ok in H. split_ok H.
  destruct (composite_rt TypeCodeTransfer
    (match t with mkTransfer h id tag mfmt st mo rsm s re ab ba _ _ =>
       [mf (writeUint32 h) false; mf_ptr writeUint32 id; 
        mf (WriteBinary (default [] tag)) (no_elems (default [] tag));
        mf_ptr writeUint32 mfmt; mf (writeBool st) (negb st); mf (writeBool mo) (negb mo);
        mf_ptr ReceiverSettleMode_Marshal rsm; mf_ptr DeliveryState_Marshal s;
        mf (writeBool re) (negb re); mf (writeBool ab) (negb ab); mf (writeBool ba) (negb ba)] end)
    PerformTransfer_fields newTransfer (set_tr_Payload [] (norm_transfer t)))
    as (l & He & Hd); [done| |].
  - destruct t as [h id tag mfmt st mo rsm s re ab ba p d]. cbn in *.
    field. pointer. apply f_tag; [done|done|]; step_state. pointer. do 2 field. pointer.
    pointer_to (norm_state_ norm). do 3 field. by apply FieldsRT_nil.
  - exists l. intros bs. split.
    + apply Encodes_bind; [|apply Encodes_Append]. by destruct t.
    + intros Hs pre. unfold PerformTransfer_Unmarshal.
      erewrite bind_Ok by by apply (Hd Hs), zlen_nonneg.
      erewrite bind_Ok by apply getBytes_at. by destruct t.
Qed.

Lemma disposition_rt d :
  disposition_ok d = true ->
  CompositeRT TypeCodeDisposition (PerformDisposition_Marshal d) PerformDisposition_Unmarshal (norm_disposition d).
Proof.
  intros H. unfold disposition_ok in H. split_ok H. apply composite_rt; [done|].
  do 2 field. pointer. field. pointer_to (norm_state_ norm). field. apply FieldsRT_nil. by destruct d.
Qed.

Lemma detach_rt d :
  detach_ok d = true -> CompositeRT TypeCodeDetach (PerformDetach_Marshal d) PerformDetach_Unmarshal (norm_detach d).
Proof.
  intros H. unfold detach_ok in H. split_ok H. apply composite_rt; [done|].
  do 2 field. pointer_to (norm_error_ norm). apply FieldsRT_nil. by destruct d.
Qed.

Lemma end_rt e :
  opt_ok error_ok (e_Error e) = true ->
  CompositeRT TypeCodeEnd (PerformEnd_Marshal e) PerformEnd_Unmarshal (mkEnd (norm_err (e_Error e))).
Proof.
  intros H. apply composite_rt; [done|].
  apply (f_ptr _ _ DError (fun v _ => mkEnd v) (norm_error_ norm)); [|done|by apply FieldsRT_nil].
  intros. apply FRT_error. eauto using opt_ok_some.
Qed.

Lemma close_rt c :
  opt_ok error_ok (c_Error c) = true ->
  CompositeRT TypeCodeClose (PerformClose_Marshal c) PerformClose_Unmarshal (mkClose (norm_err (c_Error c))).
Proof.
  intros H. apply composite_rt; [done|].
  apply (f_ptr _ _ DError (fun v _ => mkClose v) (norm_error_ norm)); [|done|by apply FieldsRT_nil].
  intros. apply FRT_error. eauto using opt_ok_some.
Qed.

Lemma init_rt si : init_ok si = true -> CompositeRT TypeCodeSASLInit (SASLInit_Marshal si) SASLInit_Unmarshal si.
Proof.
  intros H. unfold init_ok in H. split_ok H. apply composite_rt; [done|].
  do 3 field. apply FieldsRT_nil. by destruct si.
Qed.

Lemma mechanisms_rt sm :
  multi_ok (sm_Mechanisms sm) = true -> CompositeRT TypeCodeSASLMechanism (SASLMechanisms_Marshal sm) SASLMechanisms_Unmarshal sm.
Proof.
  intros H. apply composite_rt; [done|]. field. apply FieldsRT_nil. by destruct sm.
Qed.
Lemma challenge_rt sc :
  strlen_ok (sc_Challenge sc) = true -> CompositeRT TypeCodeSASLChallenge (SASLChallenge_Marshal sc) SASLChallenge_Unmarshal sc.
Proof.
  intros H. apply composite_rt; [done|]. field. apply FieldsRT_nil. by destruct sc.
Qed.
Lemma response_rt sr :
  strlen_ok (sr_Response sr) = true -> CompositeRT TypeCodeSASLResponse (SASLResponse_Marshal sr) SASLResponse_Unmarshal sr.
Proof.
  intros H. apply composite_rt; [done|]. field. apply FieldsRT_nil. by destruct sr.
Qed.
Lemma outcome_rt so :
  strlen_ok (so_AdditionalData so) = true -> CompositeRT TypeCodeSASLOutcome (SASLOutcome_Marshal so) SASLOutcome_Unmarshal so.
Proof.
  intros H. apply composite_rt; [done|]. do 2 field. apply FieldsRT_nil. by destruct so.
Qed.

(** ** Bodies and frames *)

(** The bodies a client sends or receives as frames; SASLInit and SASLResponse
    are only ever sent, so [ParseBody] does not know them. *)
Definition body_ok (f : FrameBody) : bool :=
  match f with
  | FOpen o => open_ok o
  | FBegin b => begin_ok b
  | FAttach a => attach_ok a
  | FFlow f => flow_ok f
  | FTransfer t => transfer_ok t
  | FDisposition d => disposition_ok d
  | FDetach d => detach_ok d
  | FEnd e => opt_ok error_ok (e_Error e)
  | FClose c => opt_ok error_ok (c_Error c)
  | FSASLMechanisms sm => multi_ok (sm_Mechanisms sm)
  | FSASLChallenge sc => strlen_ok (sc_Challenge sc)
  | FSASLOutcome so => strlen_ok (so_AdditionalData so)
  | FSASLInit _ | FSASLResponse _ => false
  end.

Definition norm_body (f : FrameBody) : FrameBody :=
  match f with
  | FOpen o => FOpen (norm_open o)
  | FBegin b => FBegin (norm_begin b)
  | FAttach a => FAttach (norm_attach a)
  | FFlow f => FFlow (norm_flow f)
  | FTransfer t => FTransfer (norm_transfer t)
  | FDisposition d => FDisposition (norm_disposition d)
  | FDetach d => FDetach (norm_detach d)
  | FEnd e => FEnd (mkEnd (norm_err (e_Error e)))
  | FClose c => FClose (mkClose (norm_err (c_Error c)))
  | f => f
  end.

(** [ParseBody] selects the decoder by the code at the start of the body. *)
Lemma ParseBody_at code l pre :
  ParseBody (at_ pre ([0; TypeCodeSmallUlong; code] ++ l))
  = ParseBody_switch code (at_ pre ([0; TypeCodeSmallUlong; code] ++ l)).
Proof.
  unfold ParseBody. erewrite bind_Ok by apply getBytes_at. erewrite bind_Ok by apply getLen_at.
  replace (zlen _ <? 3) with false by zlia. done.
Qed.

Definition body_parses (f : FrameBody) (bs : bytes) : Prop :=
  Encodes (FrameBody_Marshal f) bs /\
  (zlen bs < 2 ^ 32 -> forall pre, fst (ParseBody (at_ pre bs)) = Ok (norm_body f)).

Lemma composite_parses {A} code m (d : M Buffer A) a (C : A -> FrameBody) f :
  CompositeRT code m d a -> ParseBody_switch code = C <$> d -> FrameBody_Marshal f = m ->
  norm_body f = C a -> exists bs, body_parses f bs.
Proof.
  intros (l & He & Hd) Hc Hm Hn. eexists. split; [rewrite Hm; exact He|].
  intros Hs pre. rewrite ParseBody_at, Hc, Hn.
  pose proof (Decodes_fmap C _ _ _ _ (Hd Hs) pre []) as E. rewrite app_nil_r in E. by rewrite E.
Qed.

Lemma body_rt f : body_ok f = true -> exists bs, body_parses f bs.
Proof.
  intros H. destruct f; try done; cbn [body_ok] in H.
  - by eapply composite_parses; [apply open_rt|..].
  - by eapply composite_parses; [apply begin_rt|..].
  - by eapply composite_parses; [apply attach_rt|..].
  - by eapply composite_parses; [apply flow_rt|..].
  - destruct (transfer_rt t H) as (l & He & Hd). eexists. split; [exact He|].
    intros Hs pre. rewrite <- app_assoc, ParseBody_at.
    change (ParseBody_switch TypeCodeTransfer) with (FTransfer <$> PerformTransfer_Unmarshal).
    rewrite app_assoc. unfold fmap, M_fmap. erewrite bind_Ok; [reflexivity|]. apply Hd.
    rewrite zlen_app in Hs. pose_zlen. lia.
  - by eapply composite_parses; [apply disposition_rt|..].
  - by eapply composite_parses; [apply detach_rt|..].
  - by eapply composite_parses; [apply end_rt|..].
  - by eapply composite_parses; [apply close_rt|..].
  - by eapply composite_parses; [apply mechanisms_rt|..].
  - by eapply composite_parses; [apply challenge_rt|..].
  - by eapply composite_parses; [apply outcome_rt|..].
Qed.

(** No body is empty. *)
Lemma body_nonempty f bs : body_ok f = true -> Encodes (FrameBody_Marshal f) bs -> 0 < zlen bs.
Proof.
  intros Hok He. destruct (body_rt f Hok) as (bs' & He' & Hp). rewrite (Encodes_unique _ _ _ He' He) in Hp.
  destruct bs as [|x bs]; [|zlia]. by specialize (Hp ltac:(by vm_compute) []).
Qed.

(** The header of a frame whose body has [n] bytes. *)
Definition header_bytes (type_ ch n : Z) : bytes := be_bytes 4 (8 + n) ++ [2; type_] ++ be_bytes 2 ch.

(** The bytes of a frame with the given body. *)
Definition frame_bytes (fr : Frame) (body : bytes) : bytes :=
  header_bytes (Type_ fr) (Channel fr) (zlen body) ++ body.

Lemma zlen_frame_bytes fr body : zlen (frame_bytes fr body) = 8 + zlen body.
Proof. unfold frame_bytes, header_bytes. zlia. Qed.

Lemma Write_bytes fr body :
  Encodes (FrameBody_Marshal (Body fr)) body -> 8 + zlen body < 2 ^ 32 ->
  Write fr (New []) = (Ok tt, New (frame_bytes fr body)).
Proof.
  intros Hb Hs. unfold Write. set (r := New []). assert (wf r) as Hr by done.
  set (h := [0; 0; 0; 0; 2; Type_ fr] ++ be_bytes 2 (Channel fr)).
  erewrite bind_Ok by by apply Encodes_Append.
  erewrite bind_Ok by by apply (Encodes_at _ _ r _ (Encodes_AppendUint16 _)).
  erewrite bind_Ok by by apply (Encodes_at _ _ r _ Hb). erewrite bind_Ok by apply getLen_app.
  fold h. assert (zlen h = 8) as Hh by reflexivity.
  replace (_ >? MaxUint32) with false
    by (rewrite zlen_app, Hh; unfold MaxUint32; change (Len r) with 0; lia).
  change (mkBuffer (b r ++ (h ++ body)) (i r)) with (at_ [] (h ++ body)).
  erewrite bind_Ok by apply getBytes_at.
  pose proof (PutUint32_patch r [] [0; 0; 0; 0] ([2; Type_ fr] ++ be_bytes 2 (Channel fr) ++ body)
    (u32 (zlen (h ++ body))) 0 Hr eq_refl eq_refl) as E. etransitivity; [exact E|].
  rewrite be_bytes4_u32, zlen_app, Hh. unfold frame_bytes, header_bytes. by rewrite <- !app_assoc.
Qed.

Lemma ParseHeader_header type_ ch n pre rest :
  is_u 8 type_ -> is_u 16 ch -> 0 <= n -> 8 + n < 2 ^ 32 ->
  ParseHeader (at_ pre (header_bytes type_ ch n ++ rest))
  = (Ok (mkHeader (8 + n) 2 type_ ch), at_ (pre ++ header_bytes type_ ch n) rest).
Proof.
  intros Ht Hc Hn Hs. unfold ParseHeader. set (h := header_bytes type_ ch n).
  erewrite bind_Ok by by apply (Decodes_NextOr 8 _ h 0), zlen_nonneg.
  assert (Uint32 (slice h 0 4) = 8 + n) as E1.
  { change (slice h 0 4) with (be_bytes 4 (8 + n)). apply Uint32_be4. split; lia. }
  assert (Uint16 (slice h 6 8) = ch) as E2.
  { change (slice h 6 8) with (be_bytes 2 ch). rewrite <- (app_nil_r (be_bytes 2 _)). by apply Uint16_be_bytes. }
  cbn zeta. rewrite E1, E2. change (nthb h 4) with 2. change (nthb h 5) with type_.
  cbn [Size DataOffset]. unfold HeaderSize. by replace (_ <? 8) with false by lia.
Qed.

Lemma ParseHeader_bytes fr body rest :
  is_u 8 (Type_ fr) -> is_u 16 (Channel fr) -> 8 + zlen body < 2 ^ 32 ->
  ParseHeader (at_ [] (frame_bytes fr body ++ rest))
  = (Ok (mkHeader (8 + zlen body) 2 (Type_ fr) (Channel fr)),
     at_ (take 8 (frame_bytes fr body)) (body ++ rest)).
Proof.
  intros Ht Hc Hs. unfold frame_bytes. rewrite <- app_assoc, ParseHeader_header by (try done; apply zlen_nonneg).
  by rewrite (take_app_length' (header_bytes _ _ _) body 8).
Qed.

(** C7: a frame that [Write] encodes carries its own length in the size field
    and is read back by [ParseHeader] and [ParseBody] as the same channel, type
    and body in the wire-level normal form of its values ([norm_body]), whatever
    bytes follow it on the stream.  The body satisfies [body_ok]: sasl-init and
    sasl-response have no decoder, and a source with a default outcome and values
    that the codec cannot read back are excluded. *)
Theorem frame_roundtrip fr rest :
  is_u 8 (Type_ fr) -> is_u 16 (Channel fr) -> body_ok (Body fr) = true ->
  exists body, Encodes (FrameBody_Marshal (Body fr)) body /\
    (8 + zlen body < 2 ^ 32 ->
     exists bs, Write fr (New []) = (Ok tt, New bs) /\
       zlen bs = 8 + zlen body /\
       ParseHeader (at_ [] (bs ++ rest))
       = (Ok (mkHeader (zlen bs) 2 (Type_ fr) (Channel fr)), at_ (take 8 bs) (body ++ rest)) /\
       fst (ParseBody (New body)) = Ok (norm_body (Body fr))).
Proof.
  intros Ht Hc Hok. destruct (body_rt (Body fr) Hok) as (body & He & Hp).
  exists body. split; [done|]. intros Hs. exists (frame_bytes fr body).
  rewrite zlen_frame_bytes. split_and!; [by apply Write_bytes|done|by apply ParseHeader_bytes|].
  apply (Hp ltac:(lia) []).
Qed.

Definition sample_attach : Frame :=
  mkFrame TypeAMQP 5
    (FAttach (mkAttach [108; 49] 3 RoleReceiver None (Some 1)
      (Some (set_s_Filter [([115], Some (mkDescribed (VUint64 77) (VString [120])))]
               (set_s_Address [113] newSource)))
      (Some (set_t_ExpiryPolicy ExpiryNever newTarget)) [([100], Some StateReleased)] true 7 1024
      [[99]; [100; 101]] [[102]] [([112], VList [VInt 1; VBool true])])) None.

Lemma frame_roundtrip_witness :
  body_ok (Body sample_attach) = true /\
  exists body, Encodes (FrameBody_Marshal (Body sample_attach)) body /\
    (8 + zlen body < 2 ^ 32 ->
     exists bs, Write sample_attach (New []) = (Ok tt, New bs) /\
       zlen bs = 8 + zlen body /\
       ParseHeader (at_ [] (bs ++ [1]))
       = (Ok (mkHeader (zlen bs) 2 (Type_ sample_attach) (Channel sample_attach)),
          at_ (take 8 bs) (body ++ [1])) /\
       fst (ParseBody (New body)) = Ok (norm_body (Body sample_attach))).
Proof.
  split; [vm_compute; reflexivity|].
  apply (frame_roundtrip sample_attach [1]); [by cbn|by cbn|vm_compute; reflexivity].
Defined.

(** ** The frame parsers are safe *)

Lemma Safe_1 {A} n m (P : A -> Prop) d : Safe n m P d -> 1 <= m -> Safe n 1 any d.
Proof. intros. by eapply Safe_conseq. Qed.

(** Every field has a safe decoder. *)
Ltac safe_fields :=
  repeat (apply List.Forall_cons; [split; [cbn;
    first [exact I | solve [eapply Safe_1; [solve [auto 2 with safe]|lia]]]|done]|]);
  apply List.Forall_nil.

Lemma Safe_Role n : Safe n 1 any Role_Unmarshal.
Proof. apply Safe_readBool. Qed.
Lemma Safe_UbyteType n : Safe n 2 is_byte SenderSettleMode_Unmarshal.
Proof. apply Safe_ReadUbyte. Qed.
#[export] Hint Resolve Safe_Role Safe_UbyteType : safe.

Lemma Safe_Source n : Safe n 3 any Source_Unmarshal.
Proof. apply Safe_UnmarshalComposite. safe_fields. Qed.
Lemma Safe_Target n : Safe n 3 any Target_Unmarshal.
Proof. apply Safe_UnmarshalComposite. safe_fields. Qed.
#[export] Hint Resolve Safe_Source Safe_Target : safe.
Lemma Safe_Attach n : Safe n 3 any PerformAttach_Unmarshal.
Proof. apply Safe_UnmarshalComposite. safe_fields. Qed.
Lemma Safe_PerformOpen n : Safe n 3 any PerformOpen_Unmarshal.
Proof. apply Safe_UnmarshalComposite. safe_fields. Qed.
Lemma Safe_PerformBegin n : Safe n 3 any PerformBegin_Unmarshal.
Proof. apply Safe_UnmarshalComposite. safe_fields. Qed.
Lemma Safe_PerformFlow n : Safe n 3 any PerformFlow_Unmarshal.
Proof. apply Safe_UnmarshalComposite. safe_fields. Qed.
Lemma Safe_PerformDisposition n : Safe n 3 any PerformDisposition_Unmarshal.
Proof. apply Safe_UnmarshalComposite. safe_fields. Qed.
Lemma Safe_PerformDetach n : Safe n 3 any PerformDetach_Unmarshal.
Proof. apply Safe_UnmarshalComposite. safe_fields. Qed.
Lemma Safe_SASLInit n : Safe n 3 any SASLInit_Unmarshal.
Proof. apply Safe_UnmarshalComposite. safe_fields. Qed.
Lemma Safe_SASLOutcome n : Safe n 3 any SASLOutcome_Unmarshal.
Proof. apply Safe_UnmarshalComposite. safe_fields. Qed.
Lemma Safe_PerformEnd n : Safe n 3 any PerformEnd_Unmarshal.
Proof. apply Safe_UnmarshalComposite. safe_fields. Qed.
Lemma Safe_PerformClose n : Safe n 3 any PerformClose_Unmarshal.
Proof. apply Safe_UnmarshalComposite. safe_fields. Qed.
Lemma Safe_SASLMechanisms n : Safe n 3 any SASLMechanisms_Unmarshal.
Proof. apply Safe_UnmarshalComposite. safe_fields. Qed.
Lemma Safe_SASLChallenge n : Safe n 3 any SASLChallenge_Unmarshal.
Proof. apply Safe_UnmarshalComposite. safe_fields. Qed.
Lemma Safe_SASLResponse n : Safe n 3 any SASLResponse_Unmarshal.
Proof. apply Safe_UnmarshalComposite. safe_fields. Qed.
Lemma Safe_Transfer n : Safe n 3 any PerformTransfer_Unmarshal.
Proof.
  eapply Safe_bind; [apply Safe_UnmarshalComposite; safe_fields|intros t _].
  eapply Safe_bind; [apply Safe_getBytes|]. safe.
Qed.
#[export] Hint Resolve Safe_Attach Safe_PerformOpen Safe_PerformBegin Safe_PerformFlow
  Safe_PerformDisposition Safe_PerformDetach Safe_SASLOutcome Safe_PerformEnd Safe_PerformClose
  Safe_SASLMechanisms Safe_SASLChallenge Safe_Transfer : safe.

Lemma Safe_ParseBody n : Safe n 3 any ParseBody.
Proof. unfold ParseBody, ParseBody_switch. safe. Qed.

(** C32: parsing the body of a frame received from a peer never indexes outside
    the frame, terminates, and consumes only bytes of the frame, whatever the
    bytes are; the only panic is the unhashable map key of [ReadAny]. *)
Theorem ParseBody_safe l : bytes_ok l -> safe_outcome l 3 (ParseBody (New l)).
Proof. apply (Safe_outcome _ _ any). intros. apply Safe_ParseBody. Qed.

Lemma ParseBody_safe_witness :
  safe_outcome [0; TypeCodeSmallUlong; TypeCodeClose; TypeCodeList8; 200; 9] 3
    (ParseBody (New [0; TypeCodeSmallUlong; TypeCodeClose; TypeCodeList8; 200; 9])).
Proof. apply (ParseBody_safe _). by apply bytes_okb_ok. Defined.

End FrameRoundtrip.
