(* ===== verification/FrameTyping.v ===== *)
(** * FrameTyping: what a decoder returns fits the Go types

    The model keeps Go's integers as unbounded numbers.  A decoded frame is
    well-typed: every field is a value that the Go struct can hold, whatever
    bytes the peer sent.  One [Gives] lemma per reader, combined along the
    fields of a composite. *)

From S2P Require Import Prelude Buffer Types Encode Decode CodecSafety Frames Parsing FrameRoundtrip.
Import Buffer Encode Decode CodecSafety Frames Parsing FrameRoundtrip.

Module FrameTyping.

(** ** Well-typed frames *)

Definition opt_typed {A} (P : A -> Prop) (o : option A) : Prop := forall x, o = Some x -> P x.

Definition source_typed (s : Source) : Prop := is_u 32 (s_Durable s) /\ is_u 32 (s_Timeout s).
Definition target_typed (t : Target) : Prop := is_u 32 (t_Durable t) /\ is_u 32 (t_Timeout t).

Definition open_typed (o : PerformOpen) : Prop :=
  is_u 32 (o_MaxFrameSize o) /\ is_u 16 (o_ChannelMax o) /\ is_i 64 (o_IdleTimeout o).
Definition begin_typed (b : PerformBegin) : Prop :=
  opt_typed (is_u 16) (b_RemoteChannel b) /\ is_u 32 (b_NextOutgoingID b) /\ is_u 32 (b_IncomingWindow b) /\
  is_u 32 (b_OutgoingWindow b) /\ is_u 32 (b_HandleMax b).
Definition attach_typed (a : PerformAttach) : Prop :=
  is_u 32 (a_Handle a) /\ opt_typed (is_u 8) (a_SenderSettleMode a) /\
  opt_typed (is_u 8) (a_ReceiverSettleMode a) /\ opt_typed source_typed (a_Source a) /\
  opt_typed target_typed (a_Target a) /\ is_u 32 (a_InitialDeliveryCount a) /\ is_u 64 (a_MaxMessageSize a).
Definition flow_typed (f : PerformFlow) : Prop :=
  opt_typed (is_u 32) (f_NextIncomingID f) /\ is_u 32 (f_IncomingWindow f) /\ is_u 32 (f_NextOutgoingID f) /\
  is_u 32 (f_OutgoingWindow f) /\ opt_typed (is_u 32) (f_Handle f) /\ opt_typed (is_u 32) (f_DeliveryCount f) /\
  opt_typed (is_u 32) (f_LinkCredit f) /\ opt_typed (is_u 32) (f_Available f).
Definition transfer_typed (t : PerformTransfer) : Prop :=
  is_u 32 (tr_Handle t) /\ opt_typed (is_u 32) (tr_DeliveryID t) /\ opt_typed bytes_ok (tr_DeliveryTag t) /\
  opt_typed (is_u 32) (tr_MessageFormat t) /\ opt_typed (is_u 8) (tr_ReceiverSettleMode t) /\
  bytes_ok (tr_Payload t).
Definition disposition_typed (d : PerformDisposition) : Prop :=
  is_u 32 (dp_First d) /\ opt_typed (is_u 32) (dp_Last d).
Definition detach_typed (d : PerformDetach) : Prop := is_u 32 (dt_Handle d).
Definition outcome_typed (so : SASLOutcome) : Prop := is_u 8 (so_Code so) /\ bytes_ok (so_AdditionalData so).

Definition body_typed (b : FrameBody) : Prop :=
  match b with
  | FOpen o => open_typed o
  | FBegin b => begin_typed b
  | FAttach a => attach_typed a
  | FFlow f => flow_typed f
  | FTransfer t => transfer_typed t
  | FDisposition d => disposition_typed d
  | FDetach d => detach_typed d
  | FSASLOutcome so => outcome_typed so
  | FSASLChallenge sc => bytes_ok (sc_Challenge sc)
  | _ => True
  end.

(** ** What a reader gives *)

Definition readable (r : Buffer) : Prop := wf r /\ bytes_ok (b r).

Definition Gives {A} (post : A -> Prop) (d : M Buffer A) : Prop :=
  forall r a r', readable r -> d r = (Ok a, r') -> readable r' /\ post a.

Lemma Gives_safe {A} m (post : A -> Prop) d : (forall n, Safe n m post d) -> Gives post d.
Proof.
  intros H r a r' [Hw Hb] E. specialize (H (Len r) r Hw Hb ltac:(lia)). rewrite E in H.
  destruct H as [(Hw' & Eb & _) [_ Hp]]. split; [|done]. split; [done|by rewrite Eb].
Qed.

Lemma Gives_bind {A B} (P : A -> Prop) (Q : B -> Prop) (d : M Buffer A) (k : A -> M Buffer B) :
  Gives P d -> (forall a, P a -> Gives Q (k a)) -> Gives Q (d ≫= k).
Proof.
  intros Hd Hk r a r' Hr E. unfold mbind, M_bind in E. destruct (d r) as [[x|e|p|] r1] eqn:Ed; try done.
  destruct (Hd r x r1 Hr Ed) as [Hr1 Hx]. by eapply Hk.
Qed.
Lemma Gives_ret {A} (P : A -> Prop) a : P a -> Gives P (mret a).
Proof. intros Ha r x r' Hr E. unfold mret, M_ret in E. by simplify_eq. Qed.
Lemma Gives_fmap {A B} (P : A -> Prop) (Q : B -> Prop) (g : A -> B) d :
  Gives P d -> (forall a, P a -> Q (g a)) -> Gives Q (g <$> d).
Proof. intros Hd Hg. eapply Gives_bind; [exact Hd|]. intros a Ha. apply Gives_ret. auto. Qed.
Lemma Gives_lift {A} (P : A -> Prop) x : (forall a, x = Ok a -> P a) -> Gives P (lift x).
Proof. intros H r a r' Hr E. unfold lift in E. simplify_eq. auto. Qed.
Lemma Gives_errorf {A} (P : A -> Prop) msg args : Gives P (errorf (A := A) msg args).
Proof. intros r a r' _ E. by cbn in E. Qed.

(** ** Destinations and fields *)

Definition DestGives {A} (Q : A -> Prop) (t : dest A) : Prop := Gives (opt_typed Q) (Unmarshal t).

Lemma dest_any {A} (t : dest A) : (forall n, SafeDest n t) -> DestGives any t.
Proof.
  intros H. apply (Gives_safe 1). intros n. eapply Safe_conseq; [by apply Safe_Unmarshal|lia|].
  by intros a _ x _.
Qed.

Lemma Gives_tryReadNull : Gives any tryReadNull.
Proof.
  intros r a r' [Hw Hb] E. destruct (wf_at r Hw) as (pre & rest & ->). rewrite tryReadNull_at in E.
  destruct rest as [|c rest]; [by simplify_eq|]. destruct (c =? TypeCodeNull); simplify_eq; [|done].
  split; [|done]. split; [apply at_wf|]. cbn in *. by rewrite <- app_assoc.
Qed.

(** The destinations whose decoder is one reader. *)
Lemma dest_reads {A} (Q : A -> Prop) (t : dest A) d :
  Gives Q d -> (Unmarshal t = (isNull ← tryReadNull; if (isNull : bool) then mret None else Some <$> d)) ->
  DestGives Q t.
Proof.
  intros Hd E. unfold DestGives. rewrite E. apply (Gives_bind any); [apply Gives_tryReadNull|].
  intros [] _; [apply Gives_ret; by intros x|]. eapply Gives_fmap; [exact Hd|]. intros a Ha x. by intros [= <-].
Qed.

Lemma dest_uint32 : DestGives (is_u 32) DUint32.
Proof. eapply dest_reads; [|done]. apply (Gives_safe 1), Safe_readUint32. Qed.
Lemma dest_uint64 : DestGives (is_u 64) DUint64.
Proof. eapply dest_reads; [|done]. apply (Gives_safe 1), Safe_readUlong. Qed.
Lemma dest_uint16 : DestGives (is_u 16) DUint16.
Proof. eapply dest_reads; [|done]. apply (Gives_safe 3), Safe_readUshort. Qed.
Lemma dest_binary : DestGives bytes_ok DBinary.
Proof. eapply dest_reads; [|done]. apply (Gives_safe 2), Safe_readBinary. Qed.
Lemma dest_own {A} (Q : A -> Prop) u : Gives Q u -> DestGives Q (DUnmarshaler u).
Proof. intros H. eapply dest_reads; [exact H|done]. Qed.
Lemma dest_ptr {A} (Q : A -> Prop) (t : dest A) : DestGives Q t -> DestGives Q (DPtr t).
Proof.
  intros H. unfold DestGives. cbn [Unmarshal]. apply (Gives_bind any); [apply Gives_tryReadNull|].
  intros [] _; [apply Gives_ret; by intros x|exact H].
Qed.
Lemma dest_ubyte : DestGives (is_u 8) (DUnmarshaler SenderSettleMode_Unmarshal).
Proof. apply dest_own. apply (Gives_safe 2), Safe_ReadUbyte. Qed.

Lemma optional_gives {A} (Q : A -> Prop) dflt t : Q dflt -> DestGives Q t -> Gives Q (optional dflt (Unmarshal t)).
Proof.
  intros Hd Ht. unfold optional. eapply Gives_bind; [exact Ht|]. intros [x|] Hx; apply Gives_ret; [|done].
  by apply Hx.
Qed.
Lemma dest_durability : DestGives (is_u 32) (DUnmarshaler Durability_Unmarshal).
Proof. apply dest_own, optional_gives; [done|apply dest_uint32]. Qed.
Lemma dest_milliseconds : DestGives (is_i 64) (DUnmarshaler Milliseconds_Unmarshal).
Proof.
  apply dest_own. apply (Gives_bind (is_u 64)); [apply (Gives_safe 1), Safe_readUint|].
  intros n _. apply Gives_ret, i64_range.
Qed.

Create HintDb typed.
#[export] Hint Resolve dest_uint32 dest_uint64 dest_uint16 dest_binary dest_ubyte dest_durability
  dest_milliseconds dest_ptr : typed.

(** The fields of a struct keep [P]. *)
Definition FieldGives {S} (P : S -> Prop) (f : UnmarshalField S) : Prop :=
  (exists Q, DestGives Q (Field f) /\ forall v s, Q v -> P s -> P (uf_set f v s)) /\
  (forall h s s', HandleNull f = Some h -> P s -> h s = Ok s' -> P s').

Lemma field_uf {S A} (P : S -> Prop) (Q : A -> Prop) d (set : A -> S -> S) :
  DestGives Q d -> (forall v s, Q v -> P s -> P (set v s)) -> FieldGives P (uf d set).
Proof. intros Hd Hs. split; [by exists Q|]. intros h s s' E. done. Qed.
Lemma field_required {S A} (P : S -> Prop) (Q : A -> Prop) d (set : A -> S -> S) msg :
  DestGives Q d -> (forall v s, Q v -> P s -> P (set v s)) -> FieldGives P (uf_required d set msg).
Proof. intros Hd Hs. split; [by exists Q|]. intros h s s' E Hp E'. cbn in E. by simplify_eq. Qed.
Lemma field_default {S A} (P : S -> Prop) (Q : A -> Prop) d (set : A -> S -> S) v :
  DestGives Q d -> (forall v s, Q v -> P s -> P (set v s)) -> Q v -> FieldGives P (uf_default d set v).
Proof. intros Hd Hs Hv. split; [by exists Q|]. intros h s s' E Hp E'. cbn in E. simplify_eq. auto. Qed.

Lemma Gives_handleNull {S} (P : S -> Prop) (f : UnmarshalField S) s :
  FieldGives P f -> P s -> Gives P (runHandleNull f s).
Proof.
  intros [_ H] Hs. unfold runHandleNull. destruct (HandleNull f) as [h|]; [|by apply Gives_ret].
  apply Gives_lift. intros s' E. by eapply H.
Qed.

Lemma Gives_fields {S} (P : S -> Prop) (fs : list (UnmarshalField S)) idx s :
  Forall (FieldGives P) fs -> P s -> Gives P (unmarshalFields idx fs s).
Proof.
  intros H. revert idx s. induction H as [|f fs Hf _ IH]; intros idx s Hs; cbn [unmarshalFields];
    [by apply Gives_ret|]. apply (Gives_bind any); [apply Gives_tryReadNull|]. intros [] _.
  - eapply Gives_bind; [by apply Gives_handleNull|]. intros s' Hs'. by apply IH.
  - destruct Hf as [(Q & Hd & Hset) _]. intros r a r' Hr E.
    destruct (Unmarshal (Field f) r) as [[[v|]|e|p|] r1] eqn:Eu; try done;
      destruct (Hd r _ r1 Hr Eu) as [Hr1 Hv]; eapply IH; try exact E; try done.
    apply Hset; [by apply Hv|done].
Qed.

Lemma Gives_nulls {S} (P : S -> Prop) (fs : list (UnmarshalField S)) s :
  Forall (FieldGives P) fs -> P s -> Gives P (handleNulls fs s).
Proof.
  intros H. revert s. induction H as [|f fs Hf _ IH]; intros s Hs; cbn [handleNulls]; [by apply Gives_ret|].
  eapply Gives_bind; [by apply Gives_handleNull|]. intros s' Hs'. by apply IH.
Qed.

Lemma Gives_composite {S} (P : S -> Prop) code (fs : list (UnmarshalField S)) s :
  Forall (FieldGives P) fs -> P s -> Gives P (UnmarshalComposite code fs s).
Proof.
  intros H Hs. unfold UnmarshalComposite.
  eapply Gives_bind; [apply (Gives_safe 3), Safe_readCompositeHeader|]. intros [ty n] _.
  do 2 (case_match; [apply Gives_errorf|]).
  eapply Gives_bind; [apply Gives_fields; [by apply Forall_take|done]|].
  intros s' Hs'. apply Gives_nulls; [by apply Forall_drop|done].
Qed.

(** ** Performatives *)

(** Setting a field keeps the others, and the new value fits. *)
Ltac keeps_typed :=
  let v := fresh in let s := fresh in
  intros v s; destruct s; unfold ptr, any; cbn; unfold opt_typed; intuition (simplify_eq; auto).
Ltac typed_dest :=
  first [ solve [eauto 3 with typed]
        | apply dest_any; intros n; cbn [SafeDest DSymbolMap DMultiSymbol DAny DError DState];
          first [exact I | eapply Safe_1; [solve [auto 2 with safe]|lia]] ].
Ltac typed_field :=
  first [ eapply field_uf; [typed_dest|keeps_typed]
        | eapply field_required; [typed_dest|keeps_typed]
        | eapply field_default; [typed_dest|keeps_typed|by first [split|done]] ].
Ltac typed_fields := repeat (apply List.Forall_cons; [typed_field|]); apply List.Forall_nil.

Lemma Gives_Source : Gives source_typed Source_Unmarshal.
Proof. apply Gives_composite; [unfold source_typed; typed_fields|by split]. Qed.
Lemma Gives_Target : Gives target_typed Target_Unmarshal.
Proof. apply Gives_composite; [unfold target_typed; typed_fields|by split]. Qed.
Lemma dest_source : DestGives source_typed (DUnmarshaler Source_Unmarshal).
Proof. apply dest_own, Gives_Source. Qed.
Lemma dest_target : DestGives target_typed (DUnmarshaler Target_Unmarshal).
Proof. apply dest_own, Gives_Target. Qed.
#[export] Hint Resolve dest_source dest_target : typed.

Lemma Gives_Open : Gives open_typed PerformOpen_Unmarshal.
Proof. apply Gives_composite; [unfold open_typed; typed_fields|by split]. Qed.
Lemma Gives_Begin : Gives begin_typed PerformBegin_Unmarshal.
Proof. apply Gives_composite; [unfold begin_typed; typed_fields|by split]. Qed.
Lemma Gives_Attach : Gives attach_typed PerformAttach_Unmarshal.
Proof. apply Gives_composite; [unfold attach_typed; typed_fields|by split_and!]. Qed.
Lemma Gives_Flow : Gives flow_typed PerformFlow_Unmarshal.
Proof. apply Gives_composite; [unfold flow_typed; typed_fields|by split_and!]. Qed.
Lemma Gives_Disposition : Gives disposition_typed PerformDisposition_Unmarshal.
Proof. apply Gives_composite; [unfold disposition_typed; typed_fields|by split_and!]. Qed.
Lemma Gives_Detach : Gives detach_typed PerformDetach_Unmarshal.
Proof. apply Gives_composite; [unfold detach_typed; typed_fields|by split_and!]. Qed.
Lemma Gives_Outcome : Gives outcome_typed SASLOutcome_Unmarshal.
Proof. apply Gives_composite; [unfold outcome_typed; typed_fields|]. split; [done|constructor]. Qed.

Lemma Gives_Challenge : Gives (fun sc => bytes_ok (sc_Challenge sc)) SASLChallenge_Unmarshal.
Proof. apply Gives_composite; [typed_fields|constructor]. Qed.

Lemma Gives_Transfer : Gives transfer_typed PerformTransfer_Unmarshal.
Proof.
  eapply Gives_bind; [apply (Gives_composite transfer_typed); [unfold transfer_typed; typed_fields|by split_and!; [..|constructor]]|].
  intros t Ht. eapply Gives_bind; [apply (Gives_safe 0), Safe_getBytes|]. intros payload Hp. apply Gives_ret.
  destruct t. unfold transfer_typed in *. cbn in *. naive_solver.
Qed.

(** A frame body that is decoded from bytes is well-typed. *)
Lemma Gives_ParseBody : Gives body_typed ParseBody.
Proof.
  unfold ParseBody. eapply Gives_bind; [apply (Gives_safe 0), Safe_getBytes|]. intros payload _.
  eapply Gives_bind; [apply (Gives_safe 0), Safe_getLen|]. intros n _.
  case_match; [apply Gives_errorf|]. unfold ParseBody_switch.
  repeat (case_match; [eapply Gives_fmap;
    [first [apply Gives_Open|apply Gives_Begin|apply Gives_Attach|apply Gives_Flow|apply Gives_Transfer
           |apply Gives_Disposition|apply Gives_Detach|apply Gives_Outcome|apply Gives_Challenge
           |by apply (Gives_safe 3); intros; eauto 2 with safe]|by intros a]|]).
  apply Gives_errorf.
Qed.

Lemma ParseBody_typed l fb r : bytes_ok l -> ParseBody (New l) = (Ok fb, r) -> body_typed fb.
Proof.
  intros Hl E. eapply (Gives_ParseBody (New l)); [|exact E]. split; [|done]. unfold wf. cbn.
  pose proof (zlen_nonneg l). lia.
Qed.

End FrameTyping.
