(* ===== verification/Message.v ===== *)
(** * Message: the message format (message.go)

    A message and its header and properties sections, the writer that emits the
    sections in order and the section loop that reads them back.  A nil map is
    [None]; nil and empty slices are not told apart by the code.  The receiving
    link is represented by its name. *)

From S2P Require Import Prelude Buffer Types Encode Decode Frames.
Import Buffer Encode Decode Frames.

Module Message.

(** MessageHeader; the TTL is a time.Duration in nanoseconds. *)
Record MessageHeader := mkMsgHeader {
  h_Durable : bool;
  h_Priority : Z;
  h_TTL : Z;
  h_FirstAcquirer : bool;
  h_DeliveryCount : Z
}.

Definition set_h_Durable (v : bool) (s : MessageHeader) : MessageHeader :=
  match s with mkMsgHeader _ x2 x3 x4 x5 => mkMsgHeader v x2 x3 x4 x5 end.
Definition set_h_Priority (v : Z) (s : MessageHeader) : MessageHeader :=
  match s with mkMsgHeader x1 _ x3 x4 x5 => mkMsgHeader x1 v x3 x4 x5 end.
Definition set_h_TTL (v : Z) (s : MessageHeader) : MessageHeader :=
  match s with mkMsgHeader x1 x2 _ x4 x5 => mkMsgHeader x1 x2 v x4 x5 end.
Definition set_h_FirstAcquirer (v : bool) (s : MessageHeader) : MessageHeader :=
  match s with mkMsgHeader x1 x2 x3 _ x5 => mkMsgHeader x1 x2 x3 v x5 end.
Definition set_h_DeliveryCount (v : Z) (s : MessageHeader) : MessageHeader :=
  match s with mkMsgHeader x1 x2 x3 x4 _ => mkMsgHeader x1 x2 x3 x4 v end.

Definition newMsgHeader : MessageHeader := mkMsgHeader false 0 0 false 0.

Definition MessageHeader_Marshal (h : MessageHeader) : M Buffer unit :=
  MarshalComposite TypeCodeMessageHeader
    [mf (writeBool (h_Durable h)) (negb (h_Durable h));
     mf (Marshal (VUint8 (h_Priority h))) (h_Priority h =? 4);
     mf (Milliseconds_Marshal (h_TTL h)) (h_TTL h =? 0);
     mf (writeBool (h_FirstAcquirer h)) (negb (h_FirstAcquirer h));
     mf (writeUint32 (h_DeliveryCount h)) (h_DeliveryCount h =? 0)].

Definition MessageHeader_fields : list (UnmarshalField MessageHeader) :=
  [uf DBool set_h_Durable;
   uf_default DUint8 set_h_Priority 4;
   uf (DUnmarshaler Milliseconds_Unmarshal) set_h_TTL;
   uf DBool set_h_FirstAcquirer;
   uf DUint32 set_h_DeliveryCount].
(** [h] is the struct that is decoded into. *)
Definition MessageHeader_Unmarshal (h : MessageHeader) : M Buffer MessageHeader :=
  UnmarshalComposite TypeCodeMessageHeader MessageHeader_fields h.

(** MessageProperties *)
Record MessageProperties := mkProperties {
  p_MessageID : value;
  p_UserID : bytes;
  p_To : option bytes;
  p_Subject : option bytes;
  p_ReplyTo : option bytes;
  p_CorrelationID : value;
  p_ContentType : option bytes;
  p_ContentEncoding : option bytes;
  p_AbsoluteExpiryTime : option time;
  p_CreationTime : option time;
  p_GroupID : option bytes;
  p_GroupSequence : option Z;
  p_ReplyToGroupID : option bytes
}.

Definition set_p_MessageID (v : value) (s : MessageProperties) : MessageProperties :=
  match s with mkProperties _ x2 x3 x4 x5 x6 x7 x8 x9 x10 x11 x12 x13 => mkProperties v x2 x3 x4
    x5 x6 x7 x8 x9 x10 x11 x12 x13 end.
Definition set_p_UserID (v : bytes) (s : MessageProperties) : MessageProperties :=
  match s with mkProperties x1 _ x3 x4 x5 x6 x7 x8 x9 x10 x11 x12 x13 => mkProperties x1 v x3 x4
    x5 x6 x7 x8 x9 x10 x11 x12 x13 end.
Definition set_p_To (v : option bytes) (s : MessageProperties) : MessageProperties :=
  match s with mkProperties x1 x2 _ x4 x5 x6 x7 x8 x9 x10 x11 x12 x13 => mkProperties x1 x2 v x4
    x5 x6 x7 x8 x9 x10 x11 x12 x13 end.
Definition set_p_Subject (v : option bytes) (s : MessageProperties) : MessageProperties :=
  match s with mkProperties x1 x2 x3 _ x5 x6 x7 x8 x9 x10 x11 x12 x13 => mkProperties x1 x2 x3 v
    x5 x6 x7 x8 x9 x10 x11 x12 x13 end.
Definition set_p_ReplyTo (v : option bytes) (s : MessageProperties) : MessageProperties :=
  match s with mkProperties x1 x2 x3 x4 _ x6 x7 x8 x9 x10 x11 x12 x13 => mkProperties x1 x2 x3 x4
    v x6 x7 x8 x9 x10 x11 x12 x13 end.
Definition set_p_CorrelationID (v : value) (s : MessageProperties) : MessageProperties :=
  match s with mkProperties x1 x2 x3 x4 x5 _ x7 x8 x9 x10 x11 x12 x13 => mkProperties x1 x2 x3 x4
    x5 v x7 x8 x9 x10 x11 x12 x13 end.
Definition set_p_ContentType (v : option bytes) (s : MessageProperties) : MessageProperties :=
  match s with mkProperties x1 x2 x3 x4 x5 x6 _ x8 x9 x10 x11 x12 x13 => mkProperties x1 x2 x3 x4
    x5 x6 v x8 x9 x10 x11 x12 x13 end.
Definition set_p_ContentEncoding (v : option bytes) (s : MessageProperties) : MessageProperties :=
  match s with mkProperties x1 x2 x3 x4 x5 x6 x7 _ x9 x10 x11 x12 x13 => mkProperties x1 x2 x3 x4
    x5 x6 x7 v x9 x10 x11 x12 x13 end.
Definition set_p_AbsoluteExpiryTime (v : option time) (s : MessageProperties) : MessageProperties :=
  match s with mkProperties x1 x2 x3 x4 x5 x6 x7 x8 _ x10 x11 x12 x13 => mkProperties x1 x2 x3 x4
    x5 x6 x7 x8 v x10 x11 x12 x13 end.
Definition set_p_CreationTime (v : option time) (s : MessageProperties) : MessageProperties :=
  match s with mkProperties x1 x2 x3 x4 x5 x6 x7 x8 x9 _ x11 x12 x13 => mkProperties x1 x2 x3 x4
    x5 x6 x7 x8 x9 v x11 x12 x13 end.
Definition set_p_GroupID (v : option bytes) (s : MessageProperties) : MessageProperties :=
  match s with mkProperties x1 x2 x3 x4 x5 x6 x7 x8 x9 x10 _ x12 x13 => mkProperties x1 x2 x3 x4
    x5 x6 x7 x8 x9 x10 v x12 x13 end.
Definition set_p_GroupSequence (v : option Z) (s : MessageProperties) : MessageProperties :=
  match s with mkProperties x1 x2 x3 x4 x5 x6 x7 x8 x9 x10 x11 _ x13 => mkProperties x1 x2 x3 x4
    x5 x6 x7 x8 x9 x10 x11 v x13 end.
Definition set_p_ReplyToGroupID (v : option bytes) (s : MessageProperties) : MessageProperties :=
  match s with mkProperties x1 x2 x3 x4 x5 x6 x7 x8 x9 x10 x11 x12 _ => mkProperties x1 x2 x3 x4
    x5 x6 x7 x8 x9 x10 x11 x12 v end.

Definition newProperties : MessageProperties :=
  mkProperties VNil [] None None None VNil None None None None None None None.

(** An [any] field: marshalled by its dynamic type when not nil. *)
Definition mf_any (v : value) : MarshalField := mf (Marshal v) (value_is_nil v).

Definition MessageProperties_Marshal (p : MessageProperties) : M Buffer unit :=
  MarshalComposite TypeCodeMessageProperties
    [mf_any (p_MessageID p);
     mf (WriteBinary (p_UserID p)) (zlen (p_UserID p) =? 0);
     mf_ptr writeString (p_To p);
     mf_ptr writeString (p_Subject p);
     mf_ptr writeString (p_ReplyTo p);
     mf_any (p_CorrelationID p);
     mf_ptr Symbol_Marshal (p_ContentType p);
     mf_ptr Symbol_Marshal (p_ContentEncoding p);
     mf_ptr writeTimestamp (p_AbsoluteExpiryTime p);
     mf_ptr writeTimestamp (p_CreationTime p);
     mf_ptr writeString (p_GroupID p);
     mf_ptr writeUint32 (p_GroupSequence p);
     mf_ptr writeString (p_ReplyToGroupID p)].

Definition MessageProperties_fields : list (UnmarshalField MessageProperties) :=
  [uf DAny set_p_MessageID;
   uf DBinary set_p_UserID;
   uf (DPtr DString) (ptr set_p_To);
   uf (DPtr DString) (ptr set_p_Subject);
   uf (DPtr DString) (ptr set_p_ReplyTo);
   uf DAny set_p_CorrelationID;
   uf (DPtr DString) (ptr set_p_ContentType);
   uf (DPtr DString) (ptr set_p_ContentEncoding);
   uf (DPtr DTime) (ptr set_p_AbsoluteExpiryTime);
   uf (DPtr DTime) (ptr set_p_CreationTime);
   uf (DPtr DString) (ptr set_p_GroupID);
   uf (DPtr DUint32) (ptr set_p_GroupSequence);
   uf (DPtr DString) (ptr set_p_ReplyToGroupID)].
Definition MessageProperties_Unmarshal (p : MessageProperties) : M Buffer MessageProperties :=
  UnmarshalComposite TypeCodeMessageProperties MessageProperties_fields p.

(** Message *)
Record Message := mkMessage {
  m_Format : Z;
  m_DeliveryTag : bytes;
  m_Header : option MessageHeader;
  m_DeliveryAnnotations : option (list (value * value));
  m_Annotations : option (list (value * value));
  m_Properties : option MessageProperties;
  m_ApplicationProperties : option (list (bytes * value));
  m_Data : list bytes;
  m_Value : value;
  m_Sequence : list (list value);
  m_Footer : option (list (value * value));
  m_SendSettled : bool;
  m_rcvr : option bytes;
  m_deliveryID : Z;
  m_settled : bool
}.

Definition set_m_Format (v : Z) (s : Message) : Message :=
  match s with mkMessage _ x2 x3 x4 x5 x6 x7 x8 x9 x10 x11 x12 x13 x14 x15 => mkMessage v x2 x3
    x4 x5 x6 x7 x8 x9 x10 x11 x12 x13 x14 x15 end.
Definition set_m_DeliveryTag (v : bytes) (s : Message) : Message :=
  match s with mkMessage x1 _ x3 x4 x5 x6 x7 x8 x9 x10 x11 x12 x13 x14 x15 => mkMessage x1 v x3
    x4 x5 x6 x7 x8 x9 x10 x11 x12 x13 x14 x15 end.
Definition set_m_Header (v : option MessageHeader) (s : Message) : Message :=
  match s with mkMessage x1 x2 _ x4 x5 x6 x7 x8 x9 x10 x11 x12 x13 x14 x15 => mkMessage x1 x2 v
    x4 x5 x6 x7 x8 x9 x10 x11 x12 x13 x14 x15 end.
Definition set_m_DeliveryAnnotations (v : option (list (value * value))) (s : Message) : Message :=
  match s with mkMessage x1 x2 x3 _ x5 x6 x7 x8 x9 x10 x11 x12 x13 x14 x15 => mkMessage x1 x2 x3
    v x5 x6 x7 x8 x9 x10 x11 x12 x13 x14 x15 end.
Definition set_m_Annotations (v : option (list (value * value))) (s : Message) : Message :=
  match s with mkMessage x1 x2 x3 x4 _ x6 x7 x8 x9 x10 x11 x12 x13 x14 x15 => mkMessage x1 x2 x3
    x4 v x6 x7 x8 x9 x10 x11 x12 x13 x14 x15 end.
Definition set_m_Properties (v : option MessageProperties) (s : Message) : Message :=
  match s with mkMessage x1 x2 x3 x4 x5 _ x7 x8 x9 x10 x11 x12 x13 x14 x15 => mkMessage x1 x2 x3
    x4 x5 v x7 x8 x9 x10 x11 x12 x13 x14 x15 end.
Definition set_m_ApplicationProperties (v : option (list (bytes * value))) (s : Message) : Message :=
  match s with mkMessage x1 x2 x3 x4 x5 x6 _ x8 x9 x10 x11 x12 x13 x14 x15 => mkMessage x1 x2 x3
    x4 x5 x6 v x8 x9 x10 x11 x12 x13 x14 x15 end.
Definition set_m_Data (v : list bytes) (s : Message) : Message :=
  match s with mkMessage x1 x2 x3 x4 x5 x6 x7 _ x9 x10 x11 x12 x13 x14 x15 => mkMessage x1 x2 x3
    x4 x5 x6 x7 v x9 x10 x11 x12 x13 x14 x15 end.
Definition set_m_Value (v : value) (s : Message) : Message :=
  match s with mkMessage x1 x2 x3 x4 x5 x6 x7 x8 _ x10 x11 x12 x13 x14 x15 => mkMessage x1 x2 x3
    x4 x5 x6 x7 x8 v x10 x11 x12 x13 x14 x15 end.
Definition set_m_Sequence (v : list (list value)) (s : Message) : Message :=
  match s with mkMessage x1 x2 x3 x4 x5 x6 x7 x8 x9 _ x11 x12 x13 x14 x15 => mkMessage x1 x2 x3
    x4 x5 x6 x7 x8 x9 v x11 x12 x13 x14 x15 end.
Definition set_m_Footer (v : option (list (value * value))) (s : Message) : Message :=
  match s with mkMessage x1 x2 x3 x4 x5 x6 x7 x8 x9 x10 _ x12 x13 x14 x15 => mkMessage x1 x2 x3
    x4 x5 x6 x7 x8 x9 x10 v x12 x13 x14 x15 end.
Definition set_m_SendSettled (v : bool) (s : Message) : Message :=
  match s with mkMessage x1 x2 x3 x4 x5 x6 x7 x8 x9 x10 x11 _ x13 x14 x15 => mkMessage x1 x2 x3
    x4 x5 x6 x7 x8 x9 x10 x11 v x13 x14 x15 end.
Definition set_m_rcvr (v : option bytes) (s : Message) : Message :=
  match s with mkMessage x1 x2 x3 x4 x5 x6 x7 x8 x9 x10 x11 x12 _ x14 x15 => mkMessage x1 x2 x3
    x4 x5 x6 x7 x8 x9 x10 x11 x12 v x14 x15 end.
Definition set_m_deliveryID (v : Z) (s : Message) : Message :=
  match s with mkMessage x1 x2 x3 x4 x5 x6 x7 x8 x9 x10 x11 x12 x13 _ x15 => mkMessage x1 x2 x3
    x4 x5 x6 x7 x8 x9 x10 x11 x12 x13 v x15 end.
Definition set_m_settled (v : bool) (s : Message) : Message :=
  match s with mkMessage x1 x2 x3 x4 x5 x6 x7 x8 x9 x10 x11 x12 x13 x14 _ => mkMessage x1 x2 x3
    x4 x5 x6 x7 x8 x9 x10 x11 x12 x13 x14 v end.

Definition emptyMessage : Message :=
  mkMessage 0 [] None None None None None [] VNil [] None false None 0 false.

Definition NewMessage (data : bytes) : Message := set_m_Data [data] emptyMessage.

(** [None] is the nil slice. *)
Definition GetData (m : Message) : option bytes :=
  if zlen (m_Data m) <? 1 then None else m_Data m !! 0%nat.

Definition LinkName (m : Message) : bytes := default [] (m_rcvr m).

Definition shouldSendDisposition (m : Message) : bool := negb (m_settled m).

(** ** Marshal *)

(** A section that is present: its descriptor, then its value. *)
Definition section (code : Z) {A} (w : A -> M Buffer unit) (x : A) : M Buffer unit :=
  _ ← WriteDescriptor code;
  w x.

Definition when_some {A} (o : option A) (w : A -> M Buffer unit) : M Buffer unit :=
  match o with
  | Some x => w x
  | None => mret tt
  end.

Definition Message_Marshal (m : Message) : M Buffer unit :=
  _ ← when_some (m_Header m) MessageHeader_Marshal;
  _ ← when_some (m_DeliveryAnnotations m)
        (section TypeCodeDeliveryAnnotations (writeAnnotations Marshal));
  _ ← when_some (m_Annotations m)
        (section TypeCodeMessageAnnotations (writeAnnotations Marshal));
  _ ← when_some (m_Properties m) MessageProperties_Marshal;
  _ ← when_some (m_ApplicationProperties m)
        (section TypeCodeApplicationProperties (writeMapStringAny Marshal));
  _ ← writeAll (section TypeCodeApplicationData WriteBinary) (m_Data m);
  _ ← (if value_is_nil (m_Value m) then mret tt else section TypeCodeAMQPValue Marshal (m_Value m));
  _ ← writeAll (section TypeCodeAMQPSequence (list_Marshal Marshal)) (m_Sequence m);
  when_some (m_Footer m) (section TypeCodeFooter (writeAnnotations Marshal)).

(** The bytes are returned also when there is an error. *)
Definition MarshalBinary (m : Message) : res unit * bytes :=
  let '(x, buf) := Message_Marshal m (New []) in (x, fst (Detach buf)).

(** ** Unmarshal *)

(** The end of the loop body: the descriptor is skipped if [discardHeader], then
    [encoding.Unmarshal(r, section)]; a null leaves the section as it is. *)
Definition readSection {A} (discardHeader : bool) (headerLength : Z) (d : dest A)
  (set : A -> Message -> Message) (m : Message) : M Buffer Message :=
  _ ← (if discardHeader then Skip headerLength else mret tt);
  x ← Unmarshal d;
  mret (match x with Some v => set v m | None => m end).

(** The [data] and [sequence] sections append what was decoded (nil for null). *)
Definition appendSection {A} (headerLength : Z) (d : dest (list A))
  (app : list A -> Message -> Message) (m : Message) : M Buffer Message :=
  _ ← Skip headerLength;
  x ← Unmarshal d;
  mret (app (default [] x) m).

Definition DAnnotations : dest (list (value * value)) := DUnmarshaler (Annotations_Unmarshal ReadAny).

Definition Message_Unmarshal_switch (type_ headerLength : Z) (m : Message) : M Buffer Message :=
  if type_ =? TypeCodeMessageHeader then
    readSection false headerLength
      (DPtr (DUnmarshaler (MessageHeader_Unmarshal (default newMsgHeader (m_Header m)))))
      (ptr set_m_Header) m
  else if type_ =? TypeCodeDeliveryAnnotations then
    readSection true headerLength DAnnotations (ptr set_m_DeliveryAnnotations) m
  else if type_ =? TypeCodeMessageAnnotations then
    readSection true headerLength DAnnotations (ptr set_m_Annotations) m
  else if type_ =? TypeCodeMessageProperties then
    readSection false headerLength
      (DPtr (DUnmarshaler (MessageProperties_Unmarshal (default newProperties (m_Properties m)))))
      (ptr set_m_Properties) m
  else if type_ =? TypeCodeApplicationProperties then
    readSection true headerLength (DUnmarshaler (mapStringAny_Unmarshal ReadAny))
      (ptr set_m_ApplicationProperties) m
  else if type_ =? TypeCodeApplicationData then
    appendSection headerLength DBinary (fun d m => set_m_Data (m_Data m ++ [d]) m) m
  else if type_ =? TypeCodeAMQPSequence then
    appendSection headerLength (DUnmarshaler (list_Unmarshal ReadAny))
      (fun d m => set_m_Sequence (m_Sequence m ++ [d]) m) m
  else if type_ =? TypeCodeFooter then
    readSection true headerLength DAnnotations (ptr set_m_Footer) m
  else if type_ =? TypeCodeAMQPValue then readSection true headerLength DAny set_m_Value m
  else errorf "unknown message section %#02x" [type_].

(** [for r.Len() > 0]; every section takes at least three bytes, so the number
    of unread bytes bounds the iterations.  What an error leaves in the message is
    [Message_Unmarshal_left]. *)
Fixpoint Message_Unmarshal_loop (fuel : nat) (m : Message) : M Buffer Message :=
  n ← getLen;
  if n >? 0 then
    match fuel with
    | O => lift OutOfFuel
    | S fuel' =>
        buf ← getBytes;
        p ← lift (PeekMessageType buf);
        m' ← Message_Unmarshal_switch p.1 p.2 m;
        Message_Unmarshal_loop fuel' m'
    end
  else mret m.

Definition Message_Unmarshal (m : Message) : M Buffer Message := fun r =>
  Message_Unmarshal_loop (S (Z.to_nat (Len r))) m r.

(** What the message is when decoding fails: the sections before the one that
    failed are stored, and of a header or properties section the fields that were
    decoded.  The other sections are stored when they are complete. *)
Definition section_left (type_ : Z) (m : Message) (r : Buffer) : Message :=
  if type_ =? TypeCodeMessageHeader then
    set_m_Header (Some (UnmarshalComposite_left TypeCodeMessageHeader MessageHeader_fields
                          (default newMsgHeader (m_Header m)) r)) m
  else if type_ =? TypeCodeMessageProperties then
    set_m_Properties (Some (UnmarshalComposite_left TypeCodeMessageProperties MessageProperties_fields
                              (default newProperties (m_Properties m)) r)) m
  else m.
Fixpoint Message_Unmarshal_left (fuel : nat) (m : Message) (r : Buffer) : Message :=
  if Len r >? 0 then
    match fuel with
    | O => m
    | S fuel =>
        match Bytes r ≫= PeekMessageType with
        | Ok (type_, headerLength) =>
            match Message_Unmarshal_switch type_ headerLength m r with
            | (Ok m', r') => Message_Unmarshal_left fuel m' r'
            | _ => section_left type_ m r
            end
        | _ => m
        end
    end
  else m.

Definition UnmarshalBinary (data : bytes) (m : Message) : res Message :=
  fst (Message_Unmarshal m (New data)).

End Message.
