(* ===== verification/MessageRoundtrip.v ===== *)
(** * MessageRoundtrip: messages survive the wire

    A message that can be sent is decoded to the same message (its values in
    their wire-level normal form), section by section, and the section loop is
    safe on arbitrary input. *)

From S2P Require Import Prelude Buffer Types Encode Decode Wire CodecSafety CodecRoundtrip ValueRoundtrip FieldRoundtrip Frames FrameRoundtrip Message.
Import Buffer Encode Decode Wire CodecSafety CodecRoundtrip ValueRoundtrip FieldRoundtrip
  Frames FrameRoundtrip Message.

Module MessageRoundtrip.

(** ** What can be sent, and what it comes back as *)

Definition header_ok (h : MessageHeader) : bool :=
  inu 8 (h_Priority h) && ms_ok (h_TTL h) && inu 32 (h_DeliveryCount h).
Definition norm_header (h : MessageHeader) : MessageHeader := set_h_TTL (norm_ms (h_TTL h)) h.

(** A nil id is omitted. *)
Definition properties_ok (p : MessageProperties) : bool :=
  value_ok (p_MessageID p) && strlen_ok (p_UserID p) && opt_ok str_ok (p_To p)
  && opt_ok str_ok (p_Subject p) && opt_ok str_ok (p_ReplyTo p) && value_ok (p_CorrelationID p)
  && opt_ok strlen_ok (p_ContentType p) && opt_ok strlen_ok (p_ContentEncoding p)
  && opt_ok str_ok (p_GroupID p) && opt_ok (inu 32) (p_GroupSequence p)
  && opt_ok str_ok (p_ReplyToGroupID p).
Definition norm_properties (p : MessageProperties) : MessageProperties :=
  set_p_MessageID (norm (p_MessageID p)) (set_p_CorrelationID (norm (p_CorrelationID p))
    (set_p_AbsoluteExpiryTime (norm_time <$> p_AbsoluteExpiryTime p)
       (set_p_CreationTime (norm_time <$> p_CreationTime p) p))).

Definition annotations_ok (m : list (value * value)) : bool := value_ok (VAnnotations m).
Definition string_map_ok (m : list (bytes * value)) : bool := value_ok (VMapStringAny m).
Definition list_ok (l : list value) : bool := value_ok (VList l).

Definition message_ok (m : Message) : bool :=
  opt_ok header_ok (m_Header m) && opt_ok annotations_ok (m_DeliveryAnnotations m)
  && opt_ok annotations_ok (m_Annotations m) && opt_ok properties_ok (m_Properties m)
  && opt_ok string_map_ok (m_ApplicationProperties m) && forallb strlen_ok (m_Data m)
  && value_ok (m_Value m) && forallb list_ok (m_Sequence m) && opt_ok annotations_ok (m_Footer m).

(** The sections of [m] decoded into [m0]; the rest of the struct does not
    travel in the message. *)
Definition norm_into (m0 m : Message) : Message :=
  mkMessage (m_Format m0) (m_DeliveryTag m0) (norm_header <$> m_Header m)
    (norm_annotations norm <$> m_DeliveryAnnotations m)
    (norm_annotations norm <$> m_Annotations m) (norm_properties <$> m_Properties m)
    (norm_entries norm <$> m_ApplicationProperties m) (m_Data m) (norm (m_Value m))
    (map (map norm) (m_Sequence m)) (norm_annotations norm <$> m_Footer m)
    (m_SendSettled m0) (m_rcvr m0) (m_deliveryID m0) (m_settled m0).
Definition norm_message (m : Message) : Message := norm_into emptyMessage m.

(** A message none of whose sections is set. *)
Definition no_sections (m0 : Message) : Prop :=
  m0 = mkMessage (m_Format m0) (m_DeliveryTag m0) None None None None None [] VNil [] None
         (m_SendSettled m0) (m_rcvr m0) (m_deliveryID m0) (m_settled m0).

(** ** The section values *)

Lemma FRT_annotations m :
  annotations_ok m = true ->
  FRT (writeAnnotations Marshal m) DAnnotations (norm_annotations norm m).
Proof.
  unfold annotations_ok, value_ok, fits. intros [Hok Hs]%andb_prop. apply FRT_read.
  exists (enc (VAnnotations m)). split_and!.
  - apply (wire_all (VAnnotations m)); [done|lia].
  - apply notnull_map.
  - intros _. apply (Decodes_annotations (2 ^ 32 - 2)); [lia|intros; apply any_ok| |done|cbn [enc] in Hs; lia].
    apply List.Forall_forall. intros. split; apply any_ok.
Qed.

Lemma FRT_string_map m :
  string_map_ok m = true ->
  FRT (writeMapStringAny Marshal m) (DUnmarshaler (mapStringAny_Unmarshal ReadAny))
    (norm_entries norm m).
Proof.
  unfold string_map_ok, value_ok, fits. intros [Hok Hs]%andb_prop. apply FRT_read.
  exists (enc (VMapStringAny m)). split_and!.
  - apply (wire_all (VMapStringAny m)); [done|lia].
  - apply notnull_map.
  - intros _. cbn [vokb] in Hok. apply andb_prop in Hok as [Hok Hf].
    apply (Decodes_mapStringAny (2 ^ 32 - 2)); [lia| |done|unfold entries; cbn [enc] in Hs; lia].
    apply List.Forall_forall. intros kv Hin.
    rewrite forallb_forall in Hok. specialize (Hok kv Hin).
    split_and!; [apply enc_variable_pos|by destruct kv; apply andb_prop in Hok as [_ ?]|apply any_ok|].
    intros Hk. apply string_decodes. lia.
Qed.

Lemma FRT_list l :
  list_ok l = true ->
  FRT (list_Marshal Marshal l) (DUnmarshaler (list_Unmarshal ReadAny)) (map norm l).
Proof.
  unfold list_ok, value_ok, fits. intros [Hok Hs]%andb_prop. apply FRT_read.
  exists (enc (VList l)). split_and!.
  - apply (wire_all (VList l)); [done|lia].
  - by destruct (enc_notnull (VList l) Hok).
  - intros _. apply (Decodes_list (2 ^ 32 - 2)); [lia| |done|cbn [enc] in Hs; lia].
    apply List.Forall_forall. intros. apply any_ok.
Qed.

(** A symbol read into a string. *)
Lemma FRT_symbol_string s : strlen_ok s = true -> FRT (Symbol_Marshal s) (DPtr DString) s.
Proof. intros H. apply FRT_ptr. apply rt_symbol in H. revert H. direct. Qed.

Lemma header_rt h :
  header_ok h = true ->
  CompositeRT TypeCodeMessageHeader (MessageHeader_Marshal h)
    (MessageHeader_Unmarshal newMsgHeader) (norm_header h).
Proof.
  intros H. unfold header_ok in H. split_ok H. apply composite_rt; [done|]. field.
  eapply f_default; [intros _; apply FRT_uint8|by intros E%Z.eqb_eq|]; step_state.
  eapply (f_uf _ _ _ _ (norm_ms (h_TTL h))).
  { intros _. apply FRT_milliseconds. unfold ms_ok in *. lia. }
  { zero. }
  do 2 field. apply FieldsRT_nil. by destruct h.
Qed.

Lemma f_any {S} v (set : value -> S -> S) ms fs s s' :
  value_ok v = true -> set VNil s = s -> FieldsRT ms fs (set (norm v) s) s' ->
  FieldsRT (mf_any v :: ms) (uf DAny set :: fs) s s'.
Proof.
  intros Hok Hn. eapply f_uf; intros E.
  - apply FRT_any; [done|]. by intros ->.
  - by destruct v.
Qed.

Lemma properties_rt p :
  properties_ok p = true ->
  CompositeRT TypeCodeMessageProperties (MessageProperties_Marshal p)
    (MessageProperties_Unmarshal newProperties) (norm_properties p).
Proof.
  intros H. unfold properties_ok in H. split_ok H. apply composite_rt; [done|].
  apply f_any; [done|done|]; step_state. field. do 3 pointer.
  apply f_any; [done|done|]; step_state.
  do 2 (eapply f_ptr_id; [intros; apply FRT_symbol_string; eauto using opt_ok_some|done|]; step_state).
  do 2 (eapply (f_ptr _ _ _ _ norm_time); [intros; apply FRT_ptr, FRT_time|done|]; step_state).
  do 3 pointer. apply FieldsRT_nil. by destruct p.
Qed.

(** ** Sections *)

(** [w] writes sections that take the decoder from message [m] to [m']. *)
Definition SecRT (w : M Buffer unit) (m m' : Message) : Prop :=
  exists bs n, Encodes w bs /\ Z.of_nat n <= zlen bs /\
    (zlen bs < 2 ^ 32 -> forall fuel pre rest,
       Message_Unmarshal_loop (n + fuel) m (at_ pre (bs ++ rest))
       = Message_Unmarshal_loop fuel m' (at_ (pre ++ bs) rest)).

Lemma SecRT_skip m : SecRT (mret tt) m m.
Proof.
  exists [], 0%nat. split_and!; [apply Encodes_ret|done|]. intros. by rewrite app_nil_r.
Qed.

Lemma SecRT_eq w m m1 m' : SecRT w m m1 -> m1 = m' -> SecRT w m m'.
Proof. by intros H <-. Qed.

Lemma SecRT_bind w k m m1 m' :
  SecRT w m m1 -> SecRT (k tt) m1 m' -> SecRT (w ≫= k) m m'.
Proof.
  intros (bs1 & n1 & E1 & L1 & H1) (bs2 & n2 & E2 & L2 & H2).
  exists (bs1 ++ bs2), (n1 + n2)%nat. rewrite zlen_app.
  split_and!; [by apply Encodes_bind|lia|]. intros Hs fuel pre rest. pose_zlen.
  rewrite <- Nat.add_assoc, <- app_assoc, H1, H2 by lia. by rewrite <- app_assoc.
Qed.

Lemma peek_code code l rest :
  PeekMessageType (([0; TypeCodeSmallUlong; code] ++ l) ++ rest) = Ok (code, 3).
Proof.
  unfold PeekMessageType. rewrite <- app_assoc. cbn [app].
  replace (_ <? 3) with false by zlia. cbn. by replace (_ =? 0) with false by zlia.
Qed.

(** One iteration of the loop. *)
Lemma SecRT_step w code l m m' :
  Encodes w ([0; TypeCodeSmallUlong; code] ++ l) ->
  (zlen ([0; TypeCodeSmallUlong; code] ++ l) < 2 ^ 32 ->
   Decodes (Message_Unmarshal_switch code 3 m) ([0; TypeCodeSmallUlong; code] ++ l) 0 m') ->
  SecRT w m m'.
Proof.
  set (bs := [0; TypeCodeSmallUlong; code] ++ l). intros He Hd. exists bs, 1%nat.
  assert (1 <= zlen bs) as Hl by (unfold bs; zlia).
  split_and!; [done|done|]. intros Hs fuel pre rest. cbn [Nat.add Message_Unmarshal_loop].
  erewrite bind_Ok by apply getLen_at. replace (_ >? 0) with true by zlia.
  erewrite bind_Ok by apply getBytes_at.
  erewrite bind_Ok by (unfold lift, bs; rewrite peek_code; reflexivity).
  erewrite bind_Ok by (apply Hd; [done|apply zlen_nonneg]). done.
Qed.

Lemma Decodes_readSection {A} (d : dest A) code bs set m a :
  Decodes (Unmarshal d) bs 0 (Some a) ->
  Decodes (readSection true 3 d set m) ([0; TypeCodeSmallUlong; code] ++ bs) 0 (set a m).
Proof.
  intros H. unfold readSection. eapply (Decodes_bind _ _ _ _ 0); [|eapply Decodes_nil; [exact H|apply Decodes_ret]|].
  - intros pre rest _. by apply Skip_at.
  - pose_zlen. lia.
Qed.

Lemma Decodes_appendSection {A} (d : dest (list A)) code bs app m a :
  Decodes (Unmarshal d) bs 0 (Some a) ->
  Decodes (appendSection 3 d app m) ([0; TypeCodeSmallUlong; code] ++ bs) 0 (app a m).
Proof.
  intros H. unfold appendSection.
  eapply (Decodes_bind _ _ _ _ 0); [|eapply Decodes_nil; [exact H|apply Decodes_ret]|].
  - intros pre rest _. by apply Skip_at.
  - pose_zlen. lia.
Qed.

Lemma Decodes_sectionComposite {A} (d : M Buffer A) code l set m a :
  Decodes d ([0; TypeCodeSmallUlong; code] ++ l) 0 a ->
  Decodes (readSection false 3 (DPtr (DUnmarshaler d)) set m)
    ([0; TypeCodeSmallUlong; code] ++ l) 0 (set a m).
Proof.
  intros H. unfold readSection. assert (notnull ([0; TypeCodeSmallUlong; code] ++ l)) as Hn
    by (eexists _, _; by split).
  eapply (Decodes_bind _ _ [] _ 0); [apply Decodes_ret| |pose_zlen; lia].
  eapply (Decodes_nil _ _ _ _ (Some a)); [|apply Decodes_ret].
  apply Decodes_tryReadNull; [done|]. by apply Decodes_Unmarshal.
Qed.

Lemma SecRT_section {A B} code (w : A -> M Buffer unit) (d : dest B) set x a m :
  FRT (w x) d a ->
  Message_Unmarshal_switch code 3 m = readSection true 3 d set m ->
  SecRT (section code w x) m (set a m).
Proof.
  intros (bs & He & _ & Hd) Hsw. apply (SecRT_step _ code bs).
  - apply Encodes_bind; [apply Encodes_Append|done].
  - intros Hs. rewrite Hsw. apply Decodes_readSection, Hd. rewrite zlen_app in Hs. pose_zlen. lia.
Qed.

Lemma SecRT_append {A B} code (w : A -> M Buffer unit) (d : dest (list B)) app x a m :
  FRT (w x) d a ->
  Message_Unmarshal_switch code 3 m = appendSection 3 d app m ->
  SecRT (section code w x) m (app a m).
Proof.
  intros (bs & He & _ & Hd) Hsw. apply (SecRT_step _ code bs).
  - apply Encodes_bind; [apply Encodes_Append|done].
  - intros Hs. rewrite Hsw. apply Decodes_appendSection, Hd. rewrite zlen_app in Hs. pose_zlen. lia.
Qed.

Lemma SecRT_composite {A} code w (d : M Buffer A) set a m :
  CompositeRT code w d a ->
  Message_Unmarshal_switch code 3 m = readSection false 3 (DPtr (DUnmarshaler d)) set m ->
  SecRT w m (set a m).
Proof.
  intros (l & He & Hd) Hsw. apply (SecRT_step _ code l); [done|].
  intros Hs. rewrite Hsw. by apply Decodes_sectionComposite, Hd.
Qed.

Lemma SecRT_opt {A B} (o : option A) (w : A -> M Buffer unit) (g : A -> B)
  (set : option B -> Message -> Message) m :
  (forall x, o = Some x -> SecRT (w x) m (set (Some (g x)) m)) -> set None m = m ->
  SecRT (when_some o w) m (set (g <$> o) m).
Proof.
  intros H Hn. destruct o as [x|]; cbn; [by apply H|]. rewrite Hn. apply SecRT_skip.
Qed.

(** The repeated sections. *)
Lemma SecRT_data l m :
  forallb strlen_ok l = true ->
  SecRT (writeAll (section TypeCodeApplicationData WriteBinary) l) m
    (set_m_Data (m_Data m ++ l) m).
Proof.
  revert m. induction l as [|d l IH]; intros m.
  - intros _. rewrite app_nil_r. destruct m. apply SecRT_skip.
  - cbn [forallb writeAll]. intros [Hd Hl]%andb_prop. eapply SecRT_bind.
    + by eapply SecRT_append; [apply FRT_binary|].
    + specialize (IH (set_m_Data (m_Data m ++ [d]) m) Hl). destruct m. cbn in *.
      by rewrite <- app_assoc in IH.
Qed.

Lemma SecRT_sequence l m :
  forallb list_ok l = true ->
  SecRT (writeAll (section TypeCodeAMQPSequence (list_Marshal Marshal)) l) m
    (set_m_Sequence (m_Sequence m ++ map (map norm) l) m).
Proof.
  revert m. induction l as [|d l IH]; intros m.
  - intros _. rewrite app_nil_r. destruct m. apply SecRT_skip.
  - cbn [forallb writeAll map]. intros [Hd Hl]%andb_prop. eapply SecRT_bind.
    + by eapply SecRT_append; [apply FRT_list|].
    + specialize (IH (set_m_Sequence (m_Sequence m ++ [map norm d]) m) Hl). destruct m. cbn in *.
      by rewrite <- app_assoc in IH.
Qed.

Lemma SecRT_value v m :
  value_ok v = true -> set_m_Value VNil m = m ->
  SecRT (if value_is_nil v then mret tt else section TypeCodeAMQPValue Marshal v) m
    (set_m_Value (norm v) m).
Proof.
  intros Hok Hn. destruct (value_is_nil v) eqn:E.
  - destruct v; try done. cbn. rewrite Hn. apply SecRT_skip.
  - eapply SecRT_section; [|done]. apply FRT_any; [done|]. by intros ->.
Qed.

Lemma SecRT_annotations o code set m :
  opt_ok annotations_ok o = true -> set None m = m ->
  Message_Unmarshal_switch code 3 m = readSection true 3 DAnnotations (ptr set) m ->
  SecRT (when_some o (section code (writeAnnotations Marshal))) m
    (set (norm_annotations norm <$> o) m).
Proof.
  intros Hok Hn Hsw. apply SecRT_opt; [|done]. intros x ->.
  by apply (SecRT_section _ _ DAnnotations (ptr set)); [apply FRT_annotations|].
Qed.

Lemma message_sections m0 m :
  no_sections m0 -> message_ok m = true -> SecRT (Message_Marshal m) m0 (norm_into m0 m).
Proof.
  intros H0 H. destruct m0 as [fmt tag h da an pr ap dat v sq ft ss rc id st]. unfold no_sections in H0.
  cbn in H0. injection H0 as -> -> -> -> -> -> -> -> ->. unfold message_ok in H. split_ok H. unfold Message_Marshal.
  eapply SecRT_bind.
  { apply (SecRT_opt _ _ norm_header set_m_Header); [|done]. intros h E. rewrite E in *.
    by eapply SecRT_eq; [eapply (SecRT_composite TypeCodeMessageHeader _ _ (ptr set_m_Header));
      [apply header_rt|]|]. }
  eapply SecRT_bind; [by apply (SecRT_annotations _ _ set_m_DeliveryAnnotations)|].
  eapply SecRT_bind; [by apply (SecRT_annotations _ _ set_m_Annotations)|].
  eapply SecRT_bind.
  { apply (SecRT_opt _ _ norm_properties set_m_Properties); [|done]. intros p E. rewrite E in *.
    by eapply SecRT_eq; [eapply (SecRT_composite TypeCodeMessageProperties _ _ (ptr set_m_Properties));
      [apply properties_rt|]|]. }
  eapply SecRT_bind.
  { apply (SecRT_opt _ _ (norm_entries norm) set_m_ApplicationProperties); [|done].
    intros p E. rewrite E in *.
    by eapply SecRT_eq; [eapply (SecRT_section _ _ _ (ptr set_m_ApplicationProperties));
      [apply FRT_string_map|]|]. }
  eapply SecRT_bind; [by apply SecRT_data|]. eapply SecRT_bind; [by apply SecRT_value|].
  eapply SecRT_bind; [by apply SecRT_sequence|].
  eapply SecRT_eq; [by apply (SecRT_annotations _ _ set_m_Footer)|done].
Qed.

Lemma Message_decodes m0 m :
  no_sections m0 -> message_ok m = true ->
  exists bs, Encodes (Message_Marshal m) bs /\
    (zlen bs < 2 ^ 32 -> Message_Unmarshal m0 (New bs) = (Ok (norm_into m0 m), at_ bs [])).
Proof.
  intros H0 H. destruct (message_sections m0 m H0 H) as (bs & n & He & Hn & Hd). exists bs.
  split; [done|]. intros Hs. unfold Message_Unmarshal. change (Len (New bs)) with (zlen bs - 0).
  replace (S (Z.to_nat (zlen bs - 0))) with (n + (S (Z.to_nat (zlen bs)) - n))%nat by lia.
  specialize (Hd Hs (S (Z.to_nat (zlen bs)) - n)%nat [] []). rewrite app_nil_r in Hd.
  change (New bs) with (at_ [] bs). rewrite Hd. cbn [app].
  replace (S (Z.to_nat (zlen bs)) - n)%nat with (S (Z.to_nat (zlen bs) - n)) by lia.
  cbn [Message_Unmarshal_loop]. by erewrite bind_Ok by apply getLen_at.
Qed.

(** C9: a message encoded by [MarshalBinary] is decoded by [UnmarshalBinary] to
    a message with the same header, annotations, properties, application
    properties, data, value, sequences and footer, in their wire-level normal
    form ([norm_message]: the time-to-live in whole milliseconds, symbols as
    strings, untyped ints as 64-bit); an absent section stays absent.  The message
    satisfies [message_ok], so that the codec can read back the values in it. *)
Theorem message_roundtrip m :
  message_ok m = true ->
  exists bs, MarshalBinary m = (Ok tt, bs) /\
    (zlen bs < 2 ^ 32 -> UnmarshalBinary bs emptyMessage = Ok (norm_message m)).
Proof.
  intros H. destruct (Message_decodes emptyMessage m eq_refl H) as (bs & He & Hd). exists bs.
  unfold MarshalBinary, UnmarshalBinary. rewrite (He (New [])) by done. split; [done|].
  intros Hs. by rewrite Hd.
Qed.

Definition sample_message : Message :=
  mkMessage 0 [] (Some (mkMsgHeader true 9 5000000 false 2))
    (Some [(VString [97], VInt 3)]) None
    (Some (set_p_To (Some [113]) (set_p_MessageID (VUUID (replicate 16 7)) newProperties)))
    (Some [([107], VList [VBool true; VNil])]) [[1; 2; 3]; []] (VString [118])
    [[VInt 1; VInt 2]; []] (Some []) true None 7 false.

Lemma message_roundtrip_witness :
  message_ok sample_message = true /\
  exists bs, MarshalBinary sample_message = (Ok tt, bs) /\
    (zlen bs < 2 ^ 32 -> UnmarshalBinary bs emptyMessage = Ok (norm_message sample_message)).
Proof.
  split; [vm_compute; reflexivity|]. apply (message_roundtrip sample_message). vm_compute; reflexivity.
Defined.

(** ** The section loop is safe *)

Lemma Safe_MessageHeader n h : Safe n 3 any (MessageHeader_Unmarshal h).
Proof. apply Safe_UnmarshalComposite. safe_fields. Qed.
Lemma Safe_MessageProperties n p : Safe n 3 any (MessageProperties_Unmarshal p).
Proof. apply Safe_UnmarshalComposite. safe_fields. Qed.
#[export] Hint Resolve Safe_MessageHeader Safe_MessageProperties : safe.

(** PeekMessageType only returns lengths it has checked. *)
Lemma PeekMessageType_len buf :
  match PeekMessageType buf with
  | Ok (t, k) => 2 <= k <= zlen buf
  | Err _ => True
  | _ => False
  end.
Proof.
  unfold PeekMessageType. cbn zeta.
  repeat match goal with |- context [if ?c then _ else _] => destruct c eqn:? end; try done;
    rewrite ?Z.ltb_ge in *; unfold zlen in *; rewrite ?length_drop in *; lia.
Qed.

(** [d] is only run when at least [k] bytes are left. *)
Definition need {A} (k : Z) (d : M Buffer A) : M Buffer A := fun r =>
  if Len r <? k then (Err EOF, r) else d r.

Lemma Safe_need {A} n m (P : A -> Prop) k d : Safe n m P d -> Safe n m P (need k d).
Proof.
  intros H r Hr Hb Hl. unfold need. destruct (Len r <? k); [|by apply H].
  split; [by apply advances_refl|done].
Qed.

Lemma Safe_need_skip {A} n m (P : A -> Prop) k (d : M Buffer A) :
  0 <= k -> Safe (n - k) (m - k) P d -> Safe n m P (need k (_ ← Skip k; d)).
Proof.
  intros Hk H r Hr Hb Hl.
  assert (Safe n k any (need k (Skip k))) as Hs.
  { apply Safe_at. intros pre rest _. unfold need. rewrite Len_at. destruct (Z.ltb_spec (zlen rest) k).
    - apply split_consumed.
    - destruct (zsplit rest k) as (c & rest' & -> & Hc); [lia|]. rewrite Skip_at by done.
      exists c, rest'. split_and!; [done..|lia|done]. }
  assert (need k (_ ← Skip k; d) r = (_ ← need k (Skip k); d) r) as ->.
  { unfold need, mbind, M_bind. by destruct (Len r <? k). }
  by apply (Safe_bind n k m any P _ (fun _ => d) Hs (fun _ _ => H)).
Qed.

Lemma Safe_peeked {A} n m (P : A -> Prop) (f : Z * Z -> M Buffer A) :
  (forall t k, 2 <= k -> Safe n m P (need k (f (t, k)))) ->
  Safe n m P (buf ← getBytes; p ← lift (PeekMessageType buf); f p).
Proof.
  intros H r Hr Hb Hl. pose proof (advances_refl r Hr) as Hadv.
  destruct (wf_at r Hr) as (pre & rest & ->). erewrite bind_Ok by apply getBytes_at.
  unfold lift, mbind, M_bind. pose proof (PeekMessageType_len rest) as Hp.
  destruct (PeekMessageType rest) as [[t k]|e|p|]; try done.
  specialize (H t k ltac:(lia) (at_ pre rest) Hr Hb Hl). unfold need in H.
  by rewrite Len_at in H; replace (zlen rest <? k) with false in H by lia.
Qed.

Lemma Safe_dest {A B} n m (t : dest A) (f : option A -> B) :
  SafeDest n t -> m <= 1 -> Safe n m any (x ← Unmarshal t; mret (f x)).
Proof. intros. eapply Safe_bind; [by apply Safe_Unmarshal|]. intros. apply Safe_ret; [lia|done]. Qed.

Lemma Safe_switch n t k m :
  2 <= k -> Safe n 1 any (need k (Message_Unmarshal_switch t k m)).
Proof.
  intros Hk. unfold Message_Unmarshal_switch, readSection, appendSection.
  repeat match goal with |- Safe _ _ _ (need _ (if ?c then _ else _)) => destruct c end;
    first [apply Safe_need_skip; [lia|]|apply Safe_need]; try apply Safe_fail;
    first [apply Safe_dest; [|lia]
          |apply (Safe_bind _ 0 _ any _ (mret tt)); [by apply Safe_ret|intros _ _; apply Safe_dest; [|lia]]];
    cbn; first [exact I|eapply Safe_1; [solve [auto 2 with safe]|lia]].
Qed.

Lemma Safe_loop fuel n m :
  n < Z.of_nat fuel -> Safe n 0 any (Message_Unmarshal_loop fuel m).
Proof.
  revert n m. induction fuel as [|fuel IH]; intros n m Hf.
  - intros r Hr. unfold Len. destruct Hr. intros. lia.
  - cbn [Message_Unmarshal_loop]. eapply Safe_bind; [apply Safe_getLen|intros l _].
    apply Safe_if; intros _; [|safe]. apply Safe_peeked. intros t k Hk.
    intros r Hr Hb Hl.
    assert (need k (m' ← Message_Unmarshal_switch t k m; Message_Unmarshal_loop fuel m') r
      = (m' ← need k (Message_Unmarshal_switch t k m); Message_Unmarshal_loop fuel m') r) as E.
    { unfold need, mbind, M_bind. by destruct (Len r <? k). }
    cbn [fst snd]. rewrite E. revert r Hr Hb Hl E. intros r Hr Hb Hl _. revert r Hr Hb Hl.
    eapply Safe_bind; [by apply Safe_switch|]. intros m' _.
    eapply Safe_weaken; [apply (IH (n - 0 - 1)); lia|lia|lia|done].
Qed.

Lemma Safe_Message n m : Safe n 0 any (Message_Unmarshal m).
Proof.
  intros r Hr Hb Hl. unfold Message_Unmarshal.
  apply (Safe_loop _ (Len r)); [|done..|lia]. destruct Hr. unfold Len. lia.
Qed.

(** C33: decoding a message from arbitrary received bytes terminates with a
    message or an error, never indexes or skips past the data, and can panic
    only on an unhashable map key, which a peer can send. *)
Theorem Message_Unmarshal_safe l m :
  bytes_ok l -> safe_outcome l 0 (Message_Unmarshal m (New l)).
Proof. apply (Safe_outcome _ _ any). intros. apply Safe_Message. Qed.

Lemma Message_Unmarshal_safe_witness :
  safe_outcome [0; TypeCodeUlong; 0; 0; 0; 0; 0; 0; 0; TypeCodeApplicationData; TypeCodeVbin8; 9] 0
    (Message_Unmarshal emptyMessage
      (New [0; TypeCodeUlong; 0; 0; 0; 0; 0; 0; 0; TypeCodeApplicationData; TypeCodeVbin8; 9])).
Proof. apply (Message_Unmarshal_safe _ emptyMessage). by apply bytes_okb_ok. Defined.

End MessageRoundtrip.
