(* ===== verification/EncodeSafety.v ===== *)
(** * EncodeSafety: the encoder on arbitrary values

    Whatever value, performative or frame is encoded, the encoder returns, with
    or without an error, leaves the bytes that were in the buffer as they are and
    writes its size fields only within what it has appended itself.  The one
    panic is that of a nil filter, which Filter.Marshal dereferences. *)

From S2P Require Import Prelude Buffer Types Encode Frames Parsing Message.
Import Buffer Encode Frames Parsing Message.

Module EncodeSafety.

(** The outcomes of a writer; [nl] says whether it may meet a nil pointer. *)
Definition written_or_error {A} (nl : bool) (x : res A) : Prop :=
  match x with
  | Ok _ | Err _ => True
  | Panic p => nl = true /\ p = NilDereference
  | OutOfFuel => False
  end.

(** [m] only appends to the buffer, and returns. *)
Definition Writes {A} (nl : bool) (m : M Buffer A) : Prop :=
  forall r, wf r -> exists w, (m r).2 = mkBuffer (b r ++ w) (i r) /\ written_or_error nl (m r).1.

Lemma Writes_none {nl} {A} (m : M Buffer A) : (forall r, (m r).2 = r /\ written_or_error nl (m r).1) -> Writes nl m.
Proof. intros H r Hr. destruct (H r) as [-> ?]. exists []. rewrite app_nil_r. by destruct r. Qed.
Lemma Writes_ret {nl} {A} (a : A) : Writes nl (mret a).
Proof. by apply Writes_none. Qed.
Lemma Writes_errorf {nl} {A} msg args : Writes nl (errorf (A := A) msg args).
Proof. by apply Writes_none. Qed.
Lemma Writes_nil {A} : Writes true (panics (A := A) NilDereference).
Proof. by apply Writes_none. Qed.
Lemma Writes_getLen {nl} : Writes nl getLen.
Proof. by apply Writes_none. Qed.
Lemma Writes_Append {nl} p : Writes nl (Append p).
Proof. intros r _. by exists p. Qed.

Lemma Writes_bind {nl} {A B} (m : M Buffer A) (k : A -> M Buffer B) :
  Writes nl m -> (forall a, Writes nl (k a)) -> Writes nl (m ≫= k).
Proof.
  intros Hm Hk r Hr. destruct (Hm r Hr) as (w & E & Hw). unfold mbind, M_bind.
  destruct (m r) as [[a|e|p|] r1]; cbn in E, Hw |- *; subst r1; try (by exists w).
  destruct (Hk a _ (wf_append r w Hr)) as (w' & E' & Hw'). exists (w ++ w'). rewrite E'. cbn. by rewrite app_assoc.
Qed.

Create HintDb writes.
#[export] Hint Resolve Writes_ret Writes_errorf Writes_nil Writes_getLen Writes_Append : writes.

Ltac writes := repeat first
  [ by eauto with writes | apply Writes_bind; [|intros] | progress intros | case_match ].

(** ** Patching a size *)

(** The four bytes of a size field lie in what has been appended since [r]. *)
Lemma PutUint32_within r w idx n :
  wf r -> Len r <= idx -> idx + 4 <= Len r + zlen w ->
  exists w', PutUint32 idx n (mkBuffer (b r ++ w) (i r)) = (Ok tt, mkBuffer (b r ++ w') (i r)) /\ zlen w' = zlen w.
Proof.
  unfold wf, Len. intros Hr H1 H2. unfold PutUint32. cbn [b i]. rewrite zlen_app.
  replace (_ && _ && _) with true by lia.
  set (k := Z.to_nat (i r + idx)). assert (length (b r) <= k)%nat as Hk by (unfold zlen in *; lia).
  rewrite take_app_ge, drop_app_ge by lia.
  eexists. split; [f_equal; f_equal; by rewrite <- app_assoc|].
  rewrite !zlen_app, zlen_be_bytes. unfold zlen in *. rewrite length_take, length_drop. lia.
Qed.

(** A body between its header, which holds the size fields, and the patches. *)
Lemma Writes_body {nl} (hdr : bytes) (body : M Buffer unit) (k : M Buffer unit) r :
  wf r -> Writes nl body ->
  (forall w, exists w', (k (mkBuffer (b r ++ hdr ++ w) (i r))).2 = mkBuffer (b r ++ w') (i r) /\
     written_or_error nl (k (mkBuffer (b r ++ hdr ++ w) (i r))).1) ->
  exists w, ((body;; k) (mkBuffer (b r ++ hdr) (i r))).2 = mkBuffer (b r ++ w) (i r) /\
    written_or_error nl ((body;; k) (mkBuffer (b r ++ hdr) (i r))).1.
Proof.
  intros Hr Hb Hk. destruct (Hb _ (wf_append r hdr Hr)) as (w & E & Hw). unfold mbind, M_bind.
  destruct (body _) as [[[]|e|p|] r1]; cbn in E, Hw |- *; subst r1; rewrite <- !app_assoc; try (by exists (hdr ++ w)).
  apply Hk.
Qed.

Definition u32_bytes (n : Z) : bytes := [u8 (Z.shiftr n 24); u8 (Z.shiftr n 16); u8 (Z.shiftr n 8); u8 n].

Lemma Writes_sized {nl} r (count : Z) (body : M Buffer unit) (size : Z -> Z) :
  wf r -> Writes nl body ->
  let x := (body;; l ← getLen; PutUint32 (Len r) (size l))
             (mkBuffer ((b r ++ [0; 0; 0; 0]) ++ u32_bytes count) (i r)) in
  exists w, x.2 = mkBuffer (b r ++ w) (i r) /\ written_or_error nl x.1.
Proof.
  intros Hr Hb. rewrite <- app_assoc. apply Writes_body; [done|done|].
  intros w. unfold mbind, M_bind, getLen. set (n := size _). set (hdr := [0; 0; 0; 0] ++ u32_bytes count).
  destruct (PutUint32_within r (hdr ++ w) (Len r) n Hr) as (w' & -> & _); [lia| |by exists w'].
  rewrite zlen_app. change (zlen hdr) with 8. pose_zlen. lia.
Qed.

Lemma Writes_marshalFields {nl} fields : Forall (fun f => Writes nl (Value f)) fields -> Writes nl (marshalFields fields).
Proof. induction 1 as [|f fs Hf Hfs IH]; cbn; [apply Writes_ret|]. apply Writes_bind; [case_match; [apply Writes_Append|done]|done]. Qed.

Lemma Writes_composite {nl} code fields :
  Forall (fun f => Writes nl (Value f)) fields -> Writes nl (MarshalComposite code fields).
Proof.
  intros H. unfold MarshalComposite, WriteDescriptor. case_match; [apply Writes_Append|].
  do 2 (apply Writes_bind; [apply Writes_Append|intros _]). intros r Hr.
  apply (Writes_sized r (u32 (lastSetIdx fields + 1)) _ (fun l => u32 (l - Len (mkBuffer (b r ++ [0; 0; 0; 0]) (i r)))) Hr).
  by apply Writes_marshalFields, Forall_take.
Qed.

Lemma Writes_writeAll {nl} {A} (w : A -> M Buffer unit) l : Forall (fun x => Writes nl (w x)) l -> Writes nl (writeAll w l).
Proof. induction 1; cbn; [apply Writes_ret|by apply Writes_bind]. Qed.
Lemma Writes_writeEntries {nl} {K V} (wk : K -> M Buffer unit) (wv : V -> M Buffer unit) m :
  Forall (fun kv => Writes nl (wk kv.1) /\ Writes nl (wv kv.2)) m -> Writes nl (writeEntries wk wv m).
Proof. induction 1 as [|[k v] m [Hk Hv] _ IH]; cbn; [apply Writes_ret|]. by repeat (apply Writes_bind; [done|intros]). Qed.

Lemma Writes_list {nl} {A} (w : A -> M Buffer unit) l : Forall (fun x => Writes nl (w x)) l -> Writes nl (list_Marshal w l).
Proof.
  intros H. unfold list_Marshal. case_match; [apply Writes_Append|].
  apply Writes_bind; [apply Writes_Append|intros _].
  intros r Hr. exact (Writes_sized r _ _ (fun n => u32 (n - (Len r + 4))) Hr (Writes_writeAll w l H)).
Qed.

Lemma Writes_writeMap {nl} pairs entries : Writes nl entries -> Writes nl (writeMap pairs entries).
Proof.
  intros He r Hr. set (hdr := [TypeCodeMap32; 0; 0; 0; 0; 0; 0; 0; 0]).
  apply (Writes_body hdr entries (if pairs >? MaxUint32 - 4 then errorf "map contains too many elements" []
    else l ← getLen; PutUint32 (Len r + 1) (u32 (l - Len r - 1 - 4));; PutUint32 (Len r + 5) (u32 pairs)) r Hr He).
  intros w. destruct (pairs >? MaxUint32 - 4); [by exists (hdr ++ w)|]. set (r1 := mkBuffer _ _).
  destruct (PutUint32_within r (hdr ++ w) (Len r + 1) (u32 (Len r1 - Len r - 1 - 4)) Hr) as (w1 & E1 & L1);
    [lia|unfold hdr; zlia|].
  destruct (PutUint32_within r w1 (Len r + 5) (u32 pairs) Hr) as (w2 & E2 & _); [lia|rewrite L1; unfold hdr; zlia|].
  exists w2. unfold mbind, M_bind. change (getLen r1) with (Ok (Len r1), r1). cbv iota beta. unfold r1 in *.
  by rewrite E1, E2.
Qed.
#[export] Hint Resolve Writes_writeAll Writes_list Writes_writeMap : writes.

(** ** Every writer *)

Lemma Writes_writeVariable {nl} c8 c32 s : Writes nl (writeVariable c8 c32 s).
Proof. unfold writeVariable, AppendByte, AppendUint32. writes. Qed.
#[export] Hint Resolve Writes_writeVariable : writes.
Lemma Writes_writeString {nl} s : Writes nl (writeString s).
Proof. unfold writeString. writes. Qed.
Lemma Writes_Symbol {nl} s : Writes nl (Symbol_Marshal s).
Proof. unfold Symbol_Marshal. writes. Qed.
Lemma Writes_writeInt64 {nl} n : Writes nl (writeInt64 n).
Proof. unfold writeInt64, AppendByte, AppendUint64. writes. Qed.
Lemma Writes_writeUint32 {nl} n : Writes nl (writeUint32 n).
Proof. unfold writeUint32, AppendByte, AppendUint32. writes. Qed.
Lemma Writes_writeUint64 {nl} n : Writes nl (writeUint64 n).
Proof. unfold writeUint64, AppendByte, AppendUint64. writes. Qed.
Lemma Writes_writeBool {nl} t : Writes nl (writeBool t).
Proof. unfold writeBool, AppendByte. writes. Qed.
Lemma Writes_writeUint16 {nl} n : Writes nl (writeUint16 n).
Proof. unfold writeUint16, AppendByte, AppendUint16. writes. Qed.
Lemma Writes_writeTimestamp {nl} t : Writes nl (writeTimestamp t).
Proof. unfold writeTimestamp, AppendByte, AppendUint64. writes. Qed.
Lemma Writes_WriteBinary {nl} p : Writes nl (WriteBinary p).
Proof. unfold WriteBinary. writes. Qed.
Lemma Writes_annotationKey {nl} k : Writes nl (writeAnnotationKey k).
Proof. destruct k; cbn; auto using Writes_Symbol, Writes_writeInt64, Writes_errorf. Qed.
Lemma Writes_arrayHeader {nl} n sz t : Writes nl (writeArrayHeader n sz t).
Proof. unfold writeArrayHeader, AppendByte, AppendUint32. writes. Qed.
Lemma Writes_varArrayHeader {nl} n sz t : Writes nl (writeVariableArrayHeader n sz t).
Proof. unfold writeVariableArrayHeader, AppendByte, AppendUint32. writes. Qed.
Lemma Writes_elements {nl} wide a : Writes nl (writeElements wide a).
Proof. unfold writeElements. case_match; apply Writes_writeAll, Forall_true; intros; unfold AppendUint32, AppendByte; writes. Qed.
#[export] Hint Resolve Writes_writeString Writes_Symbol Writes_writeInt64 Writes_writeUint16
  Writes_writeTimestamp Writes_WriteBinary
  Writes_writeUint32 Writes_writeUint64 Writes_writeBool Writes_annotationKey Writes_arrayHeader Writes_varArrayHeader Writes_elements : writes.

Lemma Writes_leaf {nl} v : is_leaf v = true -> Writes nl (Marshal v).
Proof.
  destruct v; intros Hl; try discriminate Hl; cbn [Marshal];
    unfold writeUint16, writeInt16, writeInt32, writeFloat, writeDouble, writeTimestamp, WriteBinary, UUID_Marshal,
      LifetimePolicy_Marshal, ArrayUByte_Marshal, arrayInt8_Marshal, arrayUint16_Marshal, arrayInt16_Marshal,
      arrayUint32_Marshal, arrayInt32_Marshal, arrayUint64_Marshal, arrayInt64_Marshal, arrayFloat_Marshal,
      arrayDouble_Marshal, arrayBool_Marshal, arrayString_Marshal, arraySymbol_Marshal, arrayBinary_Marshal,
      arrayTimestamp_Marshal, arrayUUID_Marshal, AppendByte, AppendUint16, AppendUint32, AppendUint64;
    writes; try (apply Writes_writeAll, Forall_true; intros; writes).
Qed.

Section Nested.
Context {nl : bool} (w : value -> M Buffer unit).
Let P (v : value) : Prop := Writes nl (w v).

Lemma Writes_pairs (m : list (value * value)) :
  Forall (fun kv => P kv.1 /\ P kv.2) m -> Writes nl (writeMapAnyAny w m) /\ Writes nl (writeAnnotations w m).
Proof.
  intros H. split; apply Writes_writeMap, Writes_writeEntries; eapply Forall_impl; try exact H; cbn; intros kv [? ?];
    split; auto with writes.
Qed.
Lemma Writes_entries (m : list (bytes * value)) :
  Forall (fun kv => P kv.2) m -> Writes nl (writeMapStringAny w m) /\ Writes nl (writeMapSymbolAny w m).
Proof.
  intros H. split; apply Writes_writeMap, Writes_writeEntries; eapply Forall_impl; try exact H; cbn; intros kv ?;
    split; auto with writes.
Qed.
Lemma Writes_Error e : PError P e -> Writes nl (Error_Marshal_ w e).
Proof.
  destruct e as [c d i]. cbn. intros H. apply Writes_composite.
  repeat constructor; cbn; auto with writes. by apply Writes_entries.
Qed.
Lemma Writes_State s : PState P s -> Writes nl (DeliveryState_Marshal_ w s).
Proof.
  destruct s as [n o| |[e|]| |f u [m|]]; cbn [PState DeliveryState_Marshal_]; intros H; apply Writes_composite;
    repeat (apply List.Forall_cons || apply List.Forall_nil); cbn [Value]; auto with writes.
  - by apply Writes_Error.
  - by apply Writes_pairs.
Qed.
End Nested.

Lemma Writes_Marshal {nl} v : Writes nl (Marshal v).
Proof.
  induction v using value_nested_ind; cbn [Marshal].
  - by apply Writes_leaf.
  - by apply Writes_list.
  - by apply Writes_pairs.
  - by apply Writes_entries.
  - by apply Writes_entries.
  - by apply Writes_pairs.
  - unfold DescribedType_Marshal_, AppendByte. writes.
  - by apply Writes_Error.
  - by apply Writes_State.
Qed.
#[export] Hint Resolve Writes_Marshal : writes.

(** ** Performatives, frames and messages *)

Definition mf_writes (nl : bool) (f : MarshalField) : Prop := Writes nl (Value f).

Lemma writes_mf {nl} m o : Writes nl m -> mf_writes nl (mf m o).
Proof. done. Qed.
Lemma writes_mf_ptr {nl} {A} (w : A -> M Buffer unit) p : (forall a, p = Some a -> Writes nl (w a)) -> mf_writes nl (mf_ptr w p).
Proof. intros H. destruct p; [by apply H|apply Writes_ret]. Qed.
Lemma Writes_mapStringAny {nl} m : Writes nl (writeMapStringAny Marshal m).
Proof. apply Writes_entries, Forall_true. intros; apply Writes_Marshal. Qed.
Lemma Writes_mapSymbolAny {nl} m : Writes nl (writeMapSymbolAny Marshal m).
Proof. apply Writes_entries, Forall_true. intros; apply Writes_Marshal. Qed.
Lemma Writes_annotations {nl} m : Writes nl (writeAnnotations Marshal m).
Proof. apply Writes_pairs, Forall_true. split; apply Writes_Marshal. Qed.
Lemma Writes_Error_Marshal {nl} e : Writes nl (Error_Marshal e).
Proof. apply (Writes_Marshal (VError e)). Qed.
Lemma Writes_DeliveryState_Marshal {nl} s : Writes nl (DeliveryState_Marshal s).
Proof. apply (Writes_Marshal (VDeliveryState s)). Qed.
Lemma Writes_Unsettled {nl} u : Writes nl (Unsettled_Marshal u).
Proof.
  apply Writes_writeMap, Writes_writeEntries, Forall_true. intros [k [s|]]; split; cbn [fst snd];
    auto using Writes_DeliveryState_Marshal with writes; apply Writes_Append.
Qed.
(** A filter set with a nil filter. *)
Definition nil_filter (f : list (bytes * option DescribedType)) : bool :=
  existsb (fun kv => match kv.2 with None => true | Some _ => false end) f.

Lemma Writes_Filter nl f : (nil_filter f = true -> nl = true) -> Writes nl (Filter_Marshal f).
Proof.
  intros Hn. apply Writes_writeMap, Writes_writeEntries, List.Forall_forall. intros [k [[d v]|]] Hi; split; cbn [fst snd];
    auto with writes; [apply (Writes_Marshal (VDescribed d v))|].
  rewrite Hn; [apply Writes_nil|]. apply existsb_exists. by exists (k, None).
Qed.
#[export] Hint Resolve Writes_mapStringAny Writes_mapSymbolAny Writes_annotations Writes_Error_Marshal
  Writes_DeliveryState_Marshal Writes_Unsettled : writes.

(** A composite of fields whose writers are known. *)
Ltac composite := apply Writes_composite;
  repeat first [apply List.Forall_nil | apply List.Forall_cons; [first [apply writes_mf_ptr; intros | apply writes_mf]|]];
  unfold Durability_Marshal, ExpiryPolicy_Marshal, SenderSettleMode_Marshal, ReceiverSettleMode_Marshal, Role_Marshal,
    SASLCode_Marshal, ErrCond_Marshal, MultiSymbol_Marshal, Milliseconds_Marshal, marshalSymbolMap, WriteBinary,
    Marshal_any_ptr;
  eauto with writes.

Lemma Writes_Source nl s : (nil_filter (s_Filter s) = true -> nl = true) -> Writes nl (Source_Marshal s).
Proof. intros Hn. unfold Source_Marshal. composite. by apply Writes_Filter. Qed.
Lemma Writes_Target {nl} t : Writes nl (Target_Marshal t).
Proof. unfold Target_Marshal. composite. Qed.
#[export] Hint Resolve Writes_Target : writes.

(** A performative with a nil filter: an Attach whose source has one. *)
Definition nil_body (f : FrameBody) : bool :=
  match f with
  | FAttach a => match a_Source a with Some s => nil_filter (s_Filter s) | None => false end
  | _ => false
  end.

Lemma Writes_FrameBody f : Writes (nil_body f) (FrameBody_Marshal f).
Proof.
  destruct f; cbn [FrameBody_Marshal];
    unfold PerformOpen_Marshal, PerformBegin_Marshal, PerformAttach_Marshal, PerformFlow_Marshal, PerformTransfer_Marshal,
      PerformDisposition_Marshal, PerformDetach_Marshal, PerformEnd_Marshal, PerformClose_Marshal, SASLInit_Marshal,
      SASLMechanisms_Marshal, SASLChallenge_Marshal, SASLResponse_Marshal, SASLOutcome_Marshal;
    try (by composite).
  - composite. apply Writes_Source. cbn [nil_body]. by simplify_option_eq.
  - apply Writes_bind; [composite|intros; apply Writes_Append].
Qed.
#[export] Hint Resolve Writes_FrameBody : writes.

Lemma Writes_Message m : Writes false (Message_Marshal m).
Proof.
  assert (forall code A (w : A -> M Buffer unit) x, Writes false (w x) -> Writes false (section code w x)) as Hsec
    by (intros; apply Writes_bind; [apply Writes_Append|done]).
  assert (forall A (o : option A) w, (forall x, Writes false (w x)) -> Writes false (when_some o w)) as Hsome
    by (intros A [x|] w Hw; [apply Hw|apply Writes_ret]).
  unfold Message_Marshal.
  repeat (apply Writes_bind; [|intros _]); first
    [ apply Hsome; intros; first [by auto with writes | unfold MessageHeader_Marshal, MessageProperties_Marshal, mf_any; composite]
    | case_match; auto with writes
    | apply Writes_writeAll, Forall_true; intros; apply Hsec; auto with writes ].
  apply Writes_list, Forall_true. auto with writes.
Qed.

(** [Write] on the empty buffer it is given. *)
Lemma Write_returns fr : exists p, (Write fr (New [])).2 = mkBuffer p 0 /\ written_or_error (nil_body (Body fr)) (Write fr (New [])).1.
Proof.
  assert (wf (New [])) as Hw by apply (at_wf [] []).
  set (hdr := [0; 0; 0; 0; 2; Type_ fr] ++ [u8 (Z.shiftr (Channel fr) 8); u8 (Channel fr)]).
  apply (Writes_body hdr (FrameBody_Marshal (Body fr)) (n ← getLen; if n >? MaxUint32 then errorf "frame too large" []
    else bufBytes ← getBytes; PutUint32 0 (u32 (zlen bufBytes))) (New []) Hw (Writes_FrameBody _)).
  intros w. change (mkBuffer (b (New []) ++ hdr ++ w) (i (New []))) with (at_ [] (hdr ++ w)).
  erewrite bind_Ok by apply getLen_at. case_match; [by exists (hdr ++ w)|].
  erewrite bind_Ok by apply getBytes_at.
  destruct (PutUint32_within (New []) (hdr ++ w) 0 (u32 (zlen (hdr ++ w))) Hw) as (w' & E & _);
    [done|rewrite zlen_app; change (zlen hdr) with 8; change (Len (New [])) with 0; pose_zlen; lia|].
  exists w'. change (at_ [] (hdr ++ w)) with (mkBuffer (b (New []) ++ hdr ++ w) (i (New []))). by rewrite E.
Qed.



End EncodeSafety.
