(* ===== verification/Link.v ===== *)
(** * Link: errors and the state shared by senders and receivers
    (errors.go, const.go, link.go)

    Go errors are values of [goerr].  A link is a record; the functions that
    wait in a [select] are step functions over the event that fires, with the
    frames they send and the cleanup they start as actions. *)

From S2P Require Import Prelude Buffer Types Encode Decode Frames.
Import Buffer Encode Decode Frames.

(** ** Errors *)

Module Errors.

Definition ErrCondDecodeError : bytes := bytes_of_string "amqp:decode-error".
Definition ErrCondFrameSizeTooSmall : bytes := bytes_of_string "amqp:frame-size-too-small".
Definition ErrCondIllegalState : bytes := bytes_of_string "amqp:illegal-state".
Definition ErrCondInternalError : bytes := bytes_of_string "amqp:internal-error".
Definition ErrCondInvalidField : bytes := bytes_of_string "amqp:invalid-field".
Definition ErrCondNotAllowed : bytes := bytes_of_string "amqp:not-allowed".
Definition ErrCondNotFound : bytes := bytes_of_string "amqp:not-found".
Definition ErrCondNotImplemented : bytes := bytes_of_string "amqp:not-implemented".
Definition ErrCondPreconditionFailed : bytes := bytes_of_string "amqp:precondition-failed".
Definition ErrCondResourceDeleted : bytes := bytes_of_string "amqp:resource-deleted".
Definition ErrCondResourceLimitExceeded : bytes := bytes_of_string "amqp:resource-limit-exceeded".
Definition ErrCondResourceLocked : bytes := bytes_of_string "amqp:resource-locked".
Definition ErrCondUnauthorizedAccess : bytes := bytes_of_string "amqp:unauthorized-access".
Definition ErrCondConnectionForced : bytes := bytes_of_string "amqp:connection:forced".
Definition ErrCondConnectionRedirect : bytes := bytes_of_string "amqp:connection:redirect".
Definition ErrCondFramingError : bytes := bytes_of_string "amqp:connection:framing-error".
Definition ErrCondErrantLink : bytes := bytes_of_string "amqp:session:errant-link".
Definition ErrCondHandleInUse : bytes := bytes_of_string "amqp:session:handle-in-use".
Definition ErrCondUnattachedHandle : bytes := bytes_of_string "amqp:session:unattached-handle".
Definition ErrCondWindowViolation : bytes := bytes_of_string "amqp:session:window-violation".
Definition ErrCondDetachForced : bytes := bytes_of_string "amqp:link:detach-forced".
Definition ErrCondLinkRedirect : bytes := bytes_of_string "amqp:link:redirect".
Definition ErrCondMessageSizeExceeded : bytes := bytes_of_string "amqp:link:message-size-exceeded".
Definition ErrCondStolen : bytes := bytes_of_string "amqp:link:stolen".
Definition ErrCondTransferLimitExceeded : bytes := bytes_of_string "amqp:link:transfer-limit-exceeded".

(** The dynamic types of the [error] values the package returns; [EAmqpNil] is a
    nil [*Error] in a non-nil interface value. *)
Inductive goerr :=
| EAmqp (e : Error)
| EAmqpNil
| EDetach (RemoteErr : option Error) (inner : option goerr)
| EConn (RemoteErr : option Error) (inner : option goerr)
| ESession (RemoteErr : option Error) (inner : option goerr)
| EText (e : error)
| ECtx
| ENetClosed
| ENet.

(** [fmt.Errorf] with the arguments it formats. *)
Definition ErrorText (msg : String.string) (args : list Z) : goerr := EText (Errorf msg args).
Arguments ErrorText msg%_string args%_list.

Definition mkErr (cond : bytes) (desc : String.string) : Error :=
  mkError cond (bytes_of_string desc) [].
Arguments mkErr cond desc%_string.

End Errors.

Module Link.
Import Errors.

(** ** Settlement modes (const.go) *)

Definition senderSettleModeValue (m : option Z) : Z :=
  match m with None => SenderSettleModeMixed | Some m => m end.
Definition receiverSettleModeValue (m : option Z) : Z :=
  match m with None => ReceiverSettleModeFirst | Some m => m end.

(** ** The link *)

(** linkKey: name and local role. *)
Record linkKey := mkKey { key_name : bytes; key_role : bool }.

#[export] Instance linkKey_eq_dec : EqDecision linkKey.
Proof. solve_decision. Defined.
#[export] Program Instance linkKey_countable : Countable linkKey :=
  inj_countable' (fun k => (key_name k, key_role k)) (fun p => mkKey p.1 p.2) _.
Next Obligation. by intros []. Qed.

(** link: [l_close] and [l_detached] say whether the channel has been closed; the
    frames received on [rx] are events of the step functions. *)
Record link := mkLink {
  l_key : linkKey;
  l_handle : Z;
  l_remoteHandle : Z;
  l_dynamicAddr : bool;
  l_close : bool;
  l_detached : bool;
  l_detachError : option Error;
  l_source : option Source;
  l_target : option Target;
  l_properties : list (bytes * value);
  l_deliveryCount : Z;
  l_availableCredit : Z;
  l_senderSettleMode : option Z;
  l_receiverSettleMode : option Z;
  l_maxMessageSize : Z;
  l_detachReceived : bool;
  l_err : option goerr
}.

Definition set_l_key (v : linkKey) (s : link) : link :=
  match s with mkLink _ x2 x3 x4 x5 x6 x7 x8 x9 x10 x11 x12 x13 x14 x15 x16 x17 => mkLink v x2 x3
    x4 x5 x6 x7 x8 x9 x10 x11 x12 x13 x14 x15 x16 x17 end.
Definition set_l_handle (v : Z) (s : link) : link :=
  match s with mkLink x1 _ x3 x4 x5 x6 x7 x8 x9 x10 x11 x12 x13 x14 x15 x16 x17 => mkLink x1 v x3
    x4 x5 x6 x7 x8 x9 x10 x11 x12 x13 x14 x15 x16 x17 end.
Definition set_l_remoteHandle (v : Z) (s : link) : link :=
  match s with mkLink x1 x2 _ x4 x5 x6 x7 x8 x9 x10 x11 x12 x13 x14 x15 x16 x17 => mkLink x1 x2 v
    x4 x5 x6 x7 x8 x9 x10 x11 x12 x13 x14 x15 x16 x17 end.
Definition set_l_dynamicAddr (v : bool) (s : link) : link :=
  match s with mkLink x1 x2 x3 _ x5 x6 x7 x8 x9 x10 x11 x12 x13 x14 x15 x16 x17 => mkLink x1 x2
    x3 v x5 x6 x7 x8 x9 x10 x11 x12 x13 x14 x15 x16 x17 end.
Definition set_l_close (v : bool) (s : link) : link :=
  match s with mkLink x1 x2 x3 x4 _ x6 x7 x8 x9 x10 x11 x12 x13 x14 x15 x16 x17 => mkLink x1 x2
    x3 x4 v x6 x7 x8 x9 x10 x11 x12 x13 x14 x15 x16 x17 end.
Definition set_l_detached (v : bool) (s : link) : link :=
  match s with mkLink x1 x2 x3 x4 x5 _ x7 x8 x9 x10 x11 x12 x13 x14 x15 x16 x17 => mkLink x1 x2
    x3 x4 x5 v x7 x8 x9 x10 x11 x12 x13 x14 x15 x16 x17 end.
Definition set_l_detachError (v : option Error) (s : link) : link :=
  match s with mkLink x1 x2 x3 x4 x5 x6 _ x8 x9 x10 x11 x12 x13 x14 x15 x16 x17 => mkLink x1 x2
    x3 x4 x5 x6 v x8 x9 x10 x11 x12 x13 x14 x15 x16 x17 end.
Definition set_l_source (v : option Source) (s : link) : link :=
  match s with mkLink x1 x2 x3 x4 x5 x6 x7 _ x9 x10 x11 x12 x13 x14 x15 x16 x17 => mkLink x1 x2
    x3 x4 x5 x6 x7 v x9 x10 x11 x12 x13 x14 x15 x16 x17 end.
Definition set_l_target (v : option Target) (s : link) : link :=
  match s with mkLink x1 x2 x3 x4 x5 x6 x7 x8 _ x10 x11 x12 x13 x14 x15 x16 x17 => mkLink x1 x2
    x3 x4 x5 x6 x7 x8 v x10 x11 x12 x13 x14 x15 x16 x17 end.
Definition set_l_properties (v : list (bytes * value)) (s : link) : link :=
  match s with mkLink x1 x2 x3 x4 x5 x6 x7 x8 x9 _ x11 x12 x13 x14 x15 x16 x17 => mkLink x1 x2 x3
    x4 x5 x6 x7 x8 x9 v x11 x12 x13 x14 x15 x16 x17 end.
Definition set_l_deliveryCount (v : Z) (s : link) : link :=
  match s with mkLink x1 x2 x3 x4 x5 x6 x7 x8 x9 x10 _ x12 x13 x14 x15 x16 x17 => mkLink x1 x2 x3
    x4 x5 x6 x7 x8 x9 x10 v x12 x13 x14 x15 x16 x17 end.
Definition set_l_availableCredit (v : Z) (s : link) : link :=
  match s with mkLink x1 x2 x3 x4 x5 x6 x7 x8 x9 x10 x11 _ x13 x14 x15 x16 x17 => mkLink x1 x2 x3
    x4 x5 x6 x7 x8 x9 x10 x11 v x13 x14 x15 x16 x17 end.
Definition set_l_senderSettleMode (v : option Z) (s : link) : link :=
  match s with mkLink x1 x2 x3 x4 x5 x6 x7 x8 x9 x10 x11 x12 _ x14 x15 x16 x17 => mkLink x1 x2 x3
    x4 x5 x6 x7 x8 x9 x10 x11 x12 v x14 x15 x16 x17 end.
Definition set_l_receiverSettleMode (v : option Z) (s : link) : link :=
  match s with mkLink x1 x2 x3 x4 x5 x6 x7 x8 x9 x10 x11 x12 x13 _ x15 x16 x17 => mkLink x1 x2 x3
    x4 x5 x6 x7 x8 x9 x10 x11 x12 x13 v x15 x16 x17 end.
Definition set_l_maxMessageSize (v : Z) (s : link) : link :=
  match s with mkLink x1 x2 x3 x4 x5 x6 x7 x8 x9 x10 x11 x12 x13 x14 _ x16 x17 => mkLink x1 x2 x3
    x4 x5 x6 x7 x8 x9 x10 x11 x12 x13 x14 v x16 x17 end.
Definition set_l_detachReceived (v : bool) (s : link) : link :=
  match s with mkLink x1 x2 x3 x4 x5 x6 x7 x8 x9 x10 x11 x12 x13 x14 x15 _ x17 => mkLink x1 x2 x3
    x4 x5 x6 x7 x8 x9 x10 x11 x12 x13 x14 x15 v x17 end.
Definition set_l_err (v : option goerr) (s : link) : link :=
  match s with mkLink x1 x2 x3 x4 x5 x6 x7 x8 x9 x10 x11 x12 x13 x14 x15 x16 _ => mkLink x1 x2 x3
    x4 x5 x6 x7 x8 x9 x10 x11 x12 x13 x14 x15 x16 v end.

Definition newLink (key : linkKey) (source : Source) (target : Target) : link :=
  mkLink key 0 0 false false false None (Some source) (Some target) [] 0 0 None None 0 false None.

(** setSettleModes *)
Definition setSettleModes (resp : PerformAttach) (l : link) : res unit * link :=
  let localRecvSettle := receiverSettleModeValue (l_receiverSettleMode l) in
  let respRecvSettle := receiverSettleModeValue (a_ReceiverSettleMode resp) in
  if bool_decide (l_receiverSettleMode l <> None) && negb (localRecvSettle =? respRecvSettle) then
    (Err (Errorf "amqp: receiver settlement mode %q requested, received %q from server"
            [localRecvSettle; respRecvSettle]), l)
  else
    let l := set_l_receiverSettleMode (Some respRecvSettle) l in
    let localSendSettle := senderSettleModeValue (l_senderSettleMode l) in
    let respSendSettle := senderSettleModeValue (a_SenderSettleMode resp) in
    if bool_decide (l_senderSettleMode l <> None) && negb (localSendSettle =? respSendSettle) then
      (Err (Errorf "amqp: sender settlement mode %q requested, received %q from server"
              [localSendSettle; respSendSettle]), l)
    else (Ok tt, set_l_senderSettleMode (Some respSendSettle) l).

(** link.muxHandleFrame: [Some e] is the error returned. *)
Definition link_muxHandleFrame (fr : FrameBody) (l : link) : option goerr * link :=
  match fr with
  | FDetach d =>
      if negb (dt_Closed d) then
        (Some (EDetach None (Some (ErrorText "non-closing detach not supported: %+v" []))), l)
      else
        let l := set_l_detachReceived true l in
        match dt_Error d with
        | Some e => (Some (EDetach (Some e) None), l)
        | None => (Some (EDetach None None), l)
        end
  | _ => (None, l)
  end.

(** What closeLink returns once the link is detached. *)
Definition closeLink_result (l : link) : option goerr :=
  match l_err l with
  | Some (EDetach _ None) => None
  | e => e
  end.

(** What a caller that waits for an end gets: the end, or its context's. *)
Inductive wait_event :=
| WaitDone
| WaitCtx.

(** closeLink: the mux is told to close, once; then the caller waits.  [None]
    while it waits. *)
Definition closeLink_start (l : link) : link := set_l_close true l.
Definition closeLink_wait (ev : wait_event) (l : link) : option (option goerr) :=
  match ev with
  | WaitDone => if l_detached l then Some (closeLink_result l) else None
  | WaitCtx => Some (Some ECtx)
  end.

(** ** attach *)

Inductive link_action :=
| TxFrame (b : FrameBody)
| DeallocateHandle
| RunMuxDetach.

Inductive attach_state :=
| AwaitAttach
| AwaitDetach
| Attached
| AttachFailed (e : goerr).

Inductive attach_event :=
| ACtxDone
| ASessionDone (e : goerr)
| ARx (fr : FrameBody).

(** The Attach that is sent once a handle has been allocated. *)
Definition attach_request (l : link) : PerformAttach :=
  mkAttach (l_key l).(key_name) (l_handle l) false (l_senderSettleMode l) (l_receiverSettleMode l)
    (l_source l) (l_target l) [] false 0 (l_maxMessageSize l) [] [] (l_properties l).

(** [beforeAttach] completes the frame; it writes through the source and target
    pointers that the frame shares with the link. *)
Definition attach_start (beforeAttach : PerformAttach -> link -> PerformAttach * link) (l : link)
  : link * list link_action * attach_state :=
  let '(pa, l) := beforeAttach (attach_request l) l in
  (l, [TxFrame (FAttach pa)], AwaitAttach).

(** The response names a terminus. *)
Definition attach_accept (afterAttach : PerformAttach -> link -> link) (resp : PerformAttach)
  (l : link) : link * list link_action * attach_state :=
  let l :=
    if (l_maxMessageSize l =? 0) || (a_MaxMessageSize resp <? l_maxMessageSize l)
    then set_l_maxMessageSize (a_MaxMessageSize resp) l else l in
  let l := afterAttach resp l in
  match setSettleModes resp l with
  | (Err e, l) => (l, [RunMuxDetach], AttachFailed (EText e))
  | (_, l) => (l, [], Attached)
  end.

Definition attach_step (afterAttach : PerformAttach -> link -> link) (st : attach_state)
  (ev : attach_event) (l : link) : link * list link_action * attach_state :=
  match st, ev with
  | (AwaitAttach | AwaitDetach), ACtxDone => (l, [RunMuxDetach], AttachFailed ECtx)
  | (AwaitAttach | AwaitDetach), ASessionDone e => (l, [], AttachFailed e)
  | AwaitAttach, ARx (FAttach resp) =>
      match a_Source resp, a_Target resp with
      | None, None => (l, [], AwaitDetach)
      | _, _ => attach_accept afterAttach resp l
      end
  | AwaitAttach, ARx _ => (l, [], AttachFailed (ErrorText "unexpected attach response: %#v" []))
  | AwaitDetach, ARx (FDetach d) =>
      (l, [DeallocateHandle; TxFrame (FDetach (mkDetach (l_handle l) true None))],
       AttachFailed match dt_Error d with
                    | None => ErrorText "received detach with no error specified" []
                    | Some e => EAmqp e
                    end)
  | AwaitDetach, ARx _ =>
      (l, [DeallocateHandle],
       AttachFailed (ErrorText "unexpected frame while waiting for detach: %#v" []))
  | st, _ => (l, [], st)
  end.

(** ** muxDetach *)

Inductive detach_state :=
| SendingDetach (fr : PerformDetach)
| WaitingDetach
| DetachExited.

Inductive detach_event :=
| DCtxDone
| DTx
| DRx (fr : FrameBody)
| DSessionDone (e : goerr).

(** What the deferred cleanup does: the handle is given back unless the
    context ended; [deferred] is the caller's own cleanup. *)
Record detach_out := mkDetachOut {
  do_sent : list FrameBody;
  do_transfers : list PerformTransfer;
  do_deallocate : bool
}.

Definition muxDetach_start (l : link) : detach_state :=
  SendingDetach (mkDetach (l_handle l) true (l_detachError l)).

Definition detach_exit (ctxErr : bool) (sent : list FrameBody) (l : link)
  : link * detach_out * detach_state :=
  (set_l_detached true l, mkDetachOut sent [] (negb ctxErr), DetachExited).

Definition muxDetach_step (st : detach_state) (ev : detach_event) (l : link)
  : link * detach_out * detach_state :=
  match st, ev with
  | DetachExited, _ => (l, mkDetachOut [] [] false, DetachExited)
  | _, DCtxDone => detach_exit true [] l
  | _, DSessionDone e =>
      detach_exit false [] (match l_err l with None => set_l_err (Some e) l | Some _ => l end)
  | SendingDetach fr, DTx =>
      if l_detachReceived l then detach_exit false [FDetach fr] l
      else (l, mkDetachOut [FDetach fr] [] false, WaitingDetach)
  | SendingDetach fr, DRx (FDetach d) =>
      (if dt_Closed d then set_l_detachReceived true l else l, mkDetachOut [] [] false, SendingDetach fr)
  | WaitingDetach, DRx (FDetach d) =>
      if dt_Closed d then detach_exit false [] l else (l, mkDetachOut [] [] false, WaitingDetach)
  | st, DRx (FTransfer t) => (l, mkDetachOut [] [t] false, st)
  | st, _ => (l, mkDetachOut [] [] false, st)
  end.

(** ** Runs *)

Fixpoint attach_run (afterAttach : PerformAttach -> link -> link) (st : attach_state)
  (evs : list attach_event) (l : link) : link * list link_action * attach_state :=
  match evs with
  | [] => (l, [], st)
  | ev :: evs =>
      let '(l1, a1, st1) := attach_step afterAttach st ev l in
      let '(l2, a2, st2) := attach_run afterAttach st1 evs l1 in
      (l2, a1 ++ a2, st2)
  end.

Fixpoint muxDetach_run (st : detach_state) (evs : list detach_event) (l : link)
  : link * list detach_out * detach_state :=
  match evs with
  | [] => (l, [], st)
  | ev :: evs =>
      let '(l1, o1, st1) := muxDetach_step st ev l in
      let '(l2, o2, st2) := muxDetach_run st1 evs l1 in
      (l2, o1 :: o2, st2)
  end.

(** ** Settlement modes are agreed *)

(** The mode in force is the response's, and it is the requested one if there
    was a request. *)
Definition modes_agreed (l : link) (resp : PerformAttach) (l' : link) : Prop :=
  l_receiverSettleMode l' = Some (receiverSettleModeValue (a_ReceiverSettleMode resp)) /\
  l_senderSettleMode l' = Some (senderSettleModeValue (a_SenderSettleMode resp)) /\
  (forall m, l_receiverSettleMode l = Some m -> l_receiverSettleMode l' = Some m) /\
  (forall m, l_senderSettleMode l = Some m -> l_senderSettleMode l' = Some m).

Lemma setSettleModes_ok resp l l' :
  setSettleModes resp l = (Ok tt, l') -> modes_agreed l resp l'.
Proof.
  destruct l as [? ? ? ? ? ? ? ? ? ? ? ? ssm rsm ? ? ?]. unfold setSettleModes, modes_agreed. cbn.
  destruct (_ && _) eqn:Hr; [done|]. destruct (_ && _) eqn:Hs in |- *; [done|]. intros; simplify_eq. cbn.
  rewrite !andb_false_iff, !negb_false_iff, !bool_decide_eq_false, !Z.eqb_eq in *.
  split_and!; [done|done| |]; intros m ->; cbn in *; f_equal.
  - destruct Hr as [Hr|<-]; [|done]. by destruct Hr.
  - destruct Hs as [Hs|<-]; [|done]. by destruct Hs.
Qed.

(** [afterAttach] leaves the settlement modes alone. *)
Definition keeps_modes (f : PerformAttach -> link -> link) : Prop :=
  forall pa l, l_senderSettleMode (f pa l) = l_senderSettleMode l /\
               l_receiverSettleMode (f pa l) = l_receiverSettleMode l.

Lemma attach_accept_modes f resp l l' acts :
  keeps_modes f -> attach_accept f resp l = (l', acts, Attached) -> modes_agreed l resp l'.
Proof.
  intros Hf. unfold attach_accept. set (l1 := if _ || _ then _ else l).
  assert (l_senderSettleMode l1 = l_senderSettleMode l /\
          l_receiverSettleMode l1 = l_receiverSettleMode l) as [E1 E2].
  { unfold l1. destruct (_ || _); by destruct l. }
  destruct (Hf resp l1) as [E3 E4]. destruct (setSettleModes resp (f resp l1)) as [[[]|e|p|] l2] eqn:E;
    intros; simplify_eq; try done.
  - apply setSettleModes_ok in E. unfold modes_agreed in *. by rewrite E3, E4, E1, E2 in E.
  - unfold setSettleModes in E. repeat case_match; simplify_eq.
  - unfold setSettleModes in E. repeat case_match; simplify_eq.
Qed.

Lemma attach_run_done f evs l st :
  (match st with Attached | AttachFailed _ => True | _ => False end) ->
  attach_run f st evs l = (l, [], st).
Proof. intros Hs. revert l. induction evs as [|ev evs IH]; intros l; [done|]. destruct st; try done;
  cbn; destruct ev; by rewrite IH. Qed.

(** No response without a terminus lets the attach succeed. *)
Lemma attach_run_wait_detach f evs l l' acts :
  attach_run f AwaitDetach evs l <> (l', acts, Attached).
Proof.
  destruct evs as [|ev evs]; [done|]. cbn [attach_run].
  destruct (attach_step f AwaitDetach ev l) as [[l1 a1] st1] eqn:E.
  assert (exists e, st1 = AttachFailed e) as [e ->].
  { unfold attach_step in E. destruct ev as [| |[]]; simplify_eq; eauto. }
  by rewrite attach_run_done.
Qed.

Lemma attach_step_await f ev l :
  (exists l1 acts e, attach_step f AwaitAttach ev l = (l1, acts, AttachFailed e)) \/
  attach_step f AwaitAttach ev l = (l, [], AwaitDetach) \/
  exists resp, ev = ARx (FAttach resp) /\ (a_Source resp <> None \/ a_Target resp <> None) /\
    attach_step f AwaitAttach ev l = attach_accept f resp l.
Proof.
  destruct ev as [| |[o|b|a|fl|tr|dp|dt|e|c|si|sm|sc|sr|so]]; cbn [attach_step]; try (left; by eauto).
  destruct (a_Source a) eqn:Es, (a_Target a) eqn:Et; try (by right; left);
    right; right; exists a; (split_and!; [done| |done]); rewrite ?Es, ?Et; auto.
Qed.

(** A link is attached by the first event, an Attach that names a terminus. *)
Lemma attach_run_attached f evs l l' acts :
  attach_run f AwaitAttach evs l = (l', acts, Attached) ->
  exists resp evs', evs = ARx (FAttach resp) :: evs' /\
    (a_Source resp <> None \/ a_Target resp <> None) /\ attach_accept f resp l = (l', [], Attached) /\ acts = [].
Proof.
  destruct evs as [|ev evs]; [done|]. cbn [attach_run].
  destruct (attach_step_await f ev l) as [(l1 & a1 & e & ->)|[->|(resp & -> & Hr & ->)]].
  - by rewrite attach_run_done.
  - destruct (attach_run f AwaitDetach evs l) as [[l2 a2] st2] eqn:E. intros; simplify_eq.
    by apply attach_run_wait_detach in E.
  - destruct (attach_accept f resp l) as [[l1 a1] st1] eqn:E.
    assert (st1 = Attached /\ a1 = [] \/ exists e, st1 = AttachFailed e) as Hst.
    { unfold attach_accept in E. repeat case_match; simplify_eq; eauto. }
    rewrite attach_run_done by (destruct Hst as [[-> _]|[? ->]]; done). intros; simplify_eq.
    destruct Hst as [[_ ->]|[? ?]]; [|done]. by exists resp, evs.
Qed.

(** A link is attached only after the peer answered with an Attach that
    names a source or a target, and then both settlement modes are the ones of
    the answer; a mode that was requested is in force as requested. *)
Theorem attach_agrees_modes f evs l l' acts :
  keeps_modes f -> attach_run f AwaitAttach evs l = (l', acts, Attached) ->
  exists resp, In (ARx (FAttach resp)) evs /\
    (a_Source resp <> None \/ a_Target resp <> None) /\ modes_agreed l resp l'.
Proof.
  intros Hf (resp & evs' & -> & Hr & E & ->)%attach_run_attached.
  exists resp. split_and!; [by left|done|by eapply attach_accept_modes].
Qed.

Lemma attach_agrees_modes_witness :
  exists resp, In (ARx (FAttach resp)) [ARx (FAttach (set_a_Target (Some newTarget) newAttach))] /\
    (a_Source resp <> None \/ a_Target resp <> None) /\
    modes_agreed (newLink (mkKey [120] RoleSender) newSource newTarget) resp
      (set_l_senderSettleMode (Some SenderSettleModeMixed)
         (set_l_receiverSettleMode (Some ReceiverSettleModeFirst)
            (newLink (mkKey [120] RoleSender) newSource newTarget))).
Proof.
  apply (attach_agrees_modes (fun _ l => l) [ARx (FAttach (set_a_Target (Some newTarget) newAttach))]
           (newLink (mkKey [120] RoleSender) newSource newTarget) _ []);
    [by split|vm_compute; reflexivity].
Defined.

(** ** The detach handshake *)

Definition undisturbed (ev : detach_event) : Prop :=
  match ev with DCtxDone | DSessionDone _ => False | _ => True end.
Definition closing (ev : detach_event) : bool :=
  match ev with DRx (FDetach d) => dt_Closed d | _ => false end.
Definition sent_detach (ev : detach_event) : bool := match ev with DTx => true | _ => false end.

(** The frames sent in a run, and how often it gave the handle back. *)
Fixpoint all_sent (os : list detach_out) : list FrameBody :=
  match os with [] => [] | o :: os => do_sent o ++ all_sent os end.
Fixpoint deallocs (os : list detach_out) : nat :=
  match os with [] => 0 | o :: os => (if do_deallocate o then 1 else 0) + deallocs os end.

Lemma muxDetach_run_exited evs l :
  muxDetach_run DetachExited evs l
  = (l, map (fun _ => mkDetachOut [] [] false) evs, DetachExited).
Proof. induction evs as [|ev evs IH]; cbn; [done|]. destruct ev; by rewrite IH. Qed.

Lemma all_sent_exited {A} (evs : list A) :
  all_sent (map (fun _ => mkDetachOut [] [] false) evs) = [] /\
  deallocs (map (fun _ => mkDetachOut [] [] false) evs) = 0%nat.
Proof. by induction evs. Qed.

(** Waiting for the peer's detach. *)
Lemma muxDetach_waiting evs l :
  Forall undisturbed evs -> l_detachReceived l = false ->
  let '(l', os, st) := muxDetach_run WaitingDetach evs l in
  all_sent os = [] /\
  if existsb closing evs
  then st = DetachExited /\ l_detached l' = true /\ deallocs os = 1%nat
  else st = WaitingDetach /\ deallocs os = 0%nat.
Proof.
  intros Hev Hl. induction Hev as [|ev evs Hu Hev IH] in l, Hl |- *; [done|]. cbn [muxDetach_run existsb].
  assert (forall tr,
    muxDetach_step WaitingDetach ev l = (l, mkDetachOut [] tr false, WaitingDetach) ->
    closing ev = false ->
    let '(l2, o2, st2) := let '(l1, o1, st1) := muxDetach_step WaitingDetach ev l in
       let '(l2, o2, st2) := muxDetach_run st1 evs l1 in (l2, o1 :: o2, st2) in
    all_sent o2 = [] /\ if closing ev || existsb closing evs
      then st2 = DetachExited /\ l_detached l2 = true /\ deallocs o2 = 1%nat
      else st2 = WaitingDetach /\ deallocs o2 = 0%nat) as Hskip.
  { intros tr -> ->. specialize (IH l Hl). destruct (muxDetach_run _ evs l) as [[l2 o2] st2]. done. }
  destruct ev as [| |[o|b|a|fl|tr|dp|dt|e|c|si|sm|sc|sr|so]|]; try done;
    try (by eapply Hskip).
  destruct (dt_Closed dt) eqn:E; [|eapply Hskip; cbn; rewrite ?E; reflexivity].
  clear Hskip. cbn [muxDetach_step closing]. rewrite E. unfold detach_exit. cbn [orb].
  rewrite muxDetach_run_exited. destruct (all_sent_exited evs) as [E1 E2].
  cbn. rewrite E1, E2. split; [done|]. split_and!; [done| |done].
  by destruct l.
Qed.

(** Sending the detach frame, then waiting. *)
Lemma muxDetach_sending fr evs l :
  Forall undisturbed evs ->
  let '(l', os, st) := muxDetach_run (SendingDetach fr) evs l in
  all_sent os = (if existsb sent_detach evs then [FDetach fr] else []) /\
  if existsb sent_detach evs && (l_detachReceived l || existsb closing evs)
  then st = DetachExited /\ l_detached l' = true /\ deallocs os = 1%nat
  else st <> DetachExited /\ deallocs os = 0%nat.
Proof.
  intros Hev. induction Hev as [|ev evs Hu Hev IH] in l |- *; [done|].
  cbn [muxDetach_run existsb].
  assert (forall tr,
    muxDetach_step (SendingDetach fr) ev l = (l, mkDetachOut [] tr false, SendingDetach fr) ->
    closing ev = false -> sent_detach ev = false ->
    let '(l2, o2, st2) := let '(l1, o1, st1) := muxDetach_step (SendingDetach fr) ev l in
       let '(l2, o2, st2) := muxDetach_run st1 evs l1 in (l2, o1 :: o2, st2) in
    all_sent o2 = (if sent_detach ev || existsb sent_detach evs then [FDetach fr] else []) /\
    if (sent_detach ev || existsb sent_detach evs)
       && (l_detachReceived l || (closing ev || existsb closing evs))
    then st2 = DetachExited /\ l_detached l2 = true /\ deallocs o2 = 1%nat
    else st2 <> DetachExited /\ deallocs o2 = 0%nat) as Hskip.
  { intros tr -> -> ->. specialize (IH l). destruct (muxDetach_run _ evs l) as [[l2 o2] st2]. done. }
  destruct ev as [| |[o|b|a|fl|tr|dp|dt|e|c|si|sm|sc|sr|so]|]; try done; try (by eapply Hskip);
    clear Hskip.
  - cbn [muxDetach_step sent_detach closing orb andb]. destruct (l_detachReceived l) eqn:El; cbn [orb].
    + unfold detach_exit. rewrite muxDetach_run_exited. destruct (all_sent_exited evs) as [E1 E2].
     cbn. rewrite E1, E2. split; [done|]. by destruct l.
    + pose proof (muxDetach_waiting evs l Hev El) as H.
      destruct (muxDetach_run WaitingDetach evs l) as [[l2 o2] st2]. destruct H as [H1 H2].
      cbn. rewrite H1. split; [done|].
      destruct (existsb closing evs); [done|]. destruct H2 as [-> ?]. done.
  - cbn [muxDetach_step sent_detach closing orb andb]. destruct (dt_Closed dt).
    + specialize (IH (set_l_detachReceived true l)).
      destruct (muxDetach_run _ evs _) as [[l2 o2] st2]. destruct l; cbn in *.
      by rewrite orb_true_r.
    + specialize (IH l). by destruct (muxDetach_run _ evs l) as [[l2 o2] st2].
Qed.

(** When neither the context nor the session ends, muxDetach sends exactly
    one Detach, closing and with the link's handle and error; it exits, marks
    the link as detached and gives the handle back (once) exactly when that
    frame has been sent and the peer's closing Detach has arrived, in either
    order. *)
Theorem muxDetach_handshake evs l :
  Forall undisturbed evs ->
  let '(l', os, st) := muxDetach_run (muxDetach_start l) evs l in
  all_sent os = (if existsb sent_detach evs
                 then [FDetach (mkDetach (l_handle l) true (l_detachError l))] else []) /\
  if existsb sent_detach evs && (l_detachReceived l || existsb closing evs)
  then st = DetachExited /\ l_detached l' = true /\ deallocs os = 1%nat
  else st <> DetachExited /\ deallocs os = 0%nat.
Proof. apply muxDetach_sending. Qed.

Lemma muxDetach_handshake_witness :
  let evs := [DRx (FDetach (mkDetach 9 true None)); DTx] in
  let l := newLink (mkKey [120] RoleSender) newSource newTarget in
  let '(l', os, st) := muxDetach_run (muxDetach_start l) evs l in
  all_sent os = [FDetach (mkDetach 0 true None)] /\ st = DetachExited /\ l_detached l' = true /\
  deallocs os = 1%nat.
Proof.
  exact (muxDetach_handshake [DRx (FDetach (mkDetach 9 true None)); DTx]
    (newLink (mkKey [120] RoleSender) newSource newTarget) ltac:(repeat constructor)).
Defined.

(** Close reports no error when the peer detached the link with an error:
    the test for a closed-by-caller error does not look at [RemoteErr]. *)
Theorem closeLink_hides_remote_error d e l :
  dt_Closed d = true -> dt_Error d = Some e ->
  let '(err, l') := link_muxHandleFrame (FDetach d) l in
  err = Some (EDetach (Some e) None) /\ closeLink_result (set_l_err err l') = None.
Proof. intros Hc He. unfold link_muxHandleFrame. rewrite Hc, He. split; [done|]. by destruct l. Qed.

Lemma closeLink_hides_remote_error_witness :
  let '(err, l') := link_muxHandleFrame (FDetach (mkDetach 0 true (Some (mkErr ErrCondDetachForced "x"))))
    (newLink (mkKey [120] RoleSender) newSource newTarget) in
  err = Some (EDetach (Some (mkErr ErrCondDetachForced "x")) None) /\
  closeLink_result (set_l_err err l') = None.
Proof.
  apply (closeLink_hides_remote_error (mkDetach 0 true (Some (mkErr ErrCondDetachForced "x")))
    (mkErr ErrCondDetachForced "x") (newLink (mkKey [120] RoleSender) newSource newTarget)); reflexivity.
Defined.

End Link.
