(* ===== verification/Creditor.v ===== *)
(** * Creditor: receiver credit requests (creditor.go)

    The values for the next flow frame.  Every method runs under the mutex; the
    waiting part of [Drain] is the receiver's, so [Drain] is its critical
    section and [drained] says whether the channel is set. *)

From S2P Require Import Prelude.

Module Creditor.

Record creditor := mkCreditor {
  pendingDrain : bool;
  creditsToAdd : Z;
  drained : bool
}.

Definition newCreditor : creditor := mkCreditor false 0 false.

Definition errLinkDraining : error :=
  Errorf "link is currently draining, no credits can be added" [].
Definition errAlreadyDraining : error := Errorf "drain already in process" [].

Definition EndDrain (mc : creditor) : creditor :=
  if drained mc then mkCreditor (pendingDrain mc) (creditsToAdd mc) false else mc.

Definition FlowBits (currentCredits : Z) (mc : creditor) : bool * Z * creditor :=
  let drain := pendingDrain mc in
  let credits :=
    if drain || (creditsToAdd mc =? 0) then 0 else u32 (creditsToAdd mc + currentCredits) in
  (drain, credits, mkCreditor false 0 (drained mc)).

Definition Drain (mc : creditor) : res unit * creditor :=
  if drained mc then (Err errAlreadyDraining, mc)
  else (Ok tt, mkCreditor true (creditsToAdd mc) true).

(** [unsettled], [available] and [max] are read from the receiver. *)
Definition IssueCredit (credits unsettled available max : Z) (mc : creditor)
  : res unit * creditor :=
  if drained mc then (Err errLinkDraining, mc)
  else if u32 (u32 (credits + unsettled) + available) >? max then
    (Err (Errorf "link credit exceeded: requested %d, available %d, max %d, %d unsettled messages"
            [credits; available; max; unsettled]), mc)
  else (Ok tt, mkCreditor (pendingDrain mc) (u32 (creditsToAdd mc + credits)) (drained mc)).

(** ** Properties *)

(** Credit that is issued when none is queued goes out with the next flow
    frame, added to the credit in force, and stays within the maximum that the
    unsettled messages leave. *)
Theorem issue_then_flow credits unsettled available max mc mc' :
  0 < credits -> 0 <= unsettled -> 0 <= available -> credits + unsettled + available < 2 ^ 32 ->
  pendingDrain mc = false -> creditsToAdd mc = 0 ->
  IssueCredit credits unsettled available max mc = (Ok tt, mc') ->
  FlowBits available mc' = (false, credits + available, newCreditor) /\
  credits + available <= max - unsettled.
Proof.
  intros Hc Hu Ha Hs Hp H0. unfold IssueCredit. destruct (drained mc) eqn:Ed; [done|].
  rewrite (u32_small (credits + unsettled)), u32_small by (split; lia).
  destruct (_ >? max) eqn:E; [done|]. intros; simplify_eq. unfold FlowBits. cbn.
  rewrite Hp, H0. cbn. rewrite Z.add_0_l, (u32_small credits) by (split; lia).
  replace (credits =? 0) with false by lia. rewrite u32_small by (split; lia). split; [done|]. lia.
Qed.

Lemma issue_then_flow_witness :
  FlowBits 2 (mkCreditor false 3 false) = (false, 5, newCreditor) /\ 3 + 2 <= 10 - 4.
Proof. apply (issue_then_flow 3 4 2 10 newCreditor (mkCreditor false 3 false)); try done. Defined.

(** The limit is checked against the credit in force but not against credit
    that is already queued, so two requests between two flow frames together
    exceed the receiver's maximum. *)
Theorem IssueCredit_ignores_queued max :
  0 < max < 2 ^ 31 ->
  exists mc1 mc2 mc3, IssueCredit max 0 0 max newCreditor = (Ok tt, mc1) /\
    IssueCredit max 0 0 max mc1 = (Ok tt, mc2) /\
    FlowBits 0 mc2 = (false, 2 * max, mc3) /\ max < 2 * max.
Proof.
  intros Hm. exists (mkCreditor false max false), (mkCreditor false (2 * max) false), newCreditor.
  assert (forall q, 0 <= q <= max ->
    IssueCredit max 0 0 max (mkCreditor false q false) = (Ok tt, mkCreditor false (q + max) false))
    as Hissue.
  { intros q Hq. unfold IssueCredit. cbn -[Z.add Z.gtb u32].
    rewrite !Z.add_0_r, !(u32_small max), u32_small by (split; lia).
    by rewrite Z.gtb_ltb, Z.ltb_irrefl. }
  split_and!; [apply (Hissue 0); lia|rewrite Hissue by lia; do 3 f_equal; lia| |lia].
  unfold FlowBits. cbn -[Z.mul u32]. replace (2 * max =? 0) with false by lia.
  by rewrite Z.add_0_r, u32_small by (split; lia).
Qed.

Lemma IssueCredit_ignores_queued_witness :
  exists mc1 mc2 mc3, IssueCredit 10 0 0 10 newCreditor = (Ok tt, mc1) /\
    IssueCredit 10 0 0 10 mc1 = (Ok tt, mc2) /\ FlowBits 0 mc2 = (false, 2 * 10, mc3) /\ 10 < 2 * 10.
Proof. apply (IssueCredit_ignores_queued 10). lia. Defined.

End Creditor.
