(* ===== verification/Receiver.v ===== *)
(** * Receiver: the receiving link (receiver.go)

    The state of a receiver, the handling of incoming frames, the mux as a step
    function over the event its [select] takes, the disposition batcher and the
    table of in-flight dispositions.  The [messages] and [dispositions] channels
    are queues; sending on a full channel blocks the mux until a message is
    taken, which does not reorder it.  Channels on which a caller waits are
    identified by numbers.  Error descriptions that embed values keep their
    format string. *)

From S2P Require Import Prelude Buffer Types Encode Decode Frames Message Link Creditor.
Import Buffer Encode Decode Frames Message Errors Link Creditor.

Module Receiver.

Definition defaultLinkCredit : Z := 1.
Definition defaultLinkBatching : bool := false.
Definition defaultLinkBatchMaxAge : Z := 5000000000.

Record messageDisposition := mkDisp { md_id : Z; md_state : DeliveryState }.

(** ** inFlight *)

(** The waiting channel of every in-flight delivery; [None] is the nil map. *)
Definition inFlight : Type := option (gmap Z Z).

Definition inFlight_add (id wait : Z) (f : inFlight) : inFlight :=
  match f with
  | None => Some {[ id := wait ]}
  | Some m => Some (<[ id := wait ]> m)
  end.

(** What is sent to the waiting callers. *)
Definition wakeups : Type := list (Z * option goerr).

(** [for i := first; i <= ll; i++] with the increment of a uint32. *)
Fixpoint inFlight_loop (fuel : nat) (i ll : Z) (err : option goerr) (m : gmap Z Z)
  : res (gmap Z Z * wakeups) :=
  if i <=? ll then
    match fuel with
    | O => OutOfFuel
    | S fuel =>
        let '(m, w) := match m !! i with
                       | Some wait => (delete i m, [(wait, err)])
                       | None => (m, [])
                       end in
        '(m, w') ← inFlight_loop fuel (u32 (i + 1)) ll err m;
        mret (m, w ++ w')
    end
  else Ok (m, []).

Definition inFlight_remove (first : Z) (last : option Z) (err : option goerr) (f : inFlight)
  : res (inFlight * wakeups) :=
  match f with
  | None => Ok (None, [])
  | Some m =>
      let ll := default first last in
      '(m, w) ← inFlight_loop (S (Z.to_nat (ll - first))) first ll err m;
      mret (Some m, w)
  end.

Definition inFlight_clear (err : option goerr) (f : inFlight) : inFlight * wakeups :=
  match f with
  | None => (None, [])
  | Some m => (Some ∅, map (fun kv => (kv.2, err)) (map_to_list m))
  end.

Definition inFlight_len (f : inFlight) : Z :=
  match f with None => 0 | Some m => Z.of_nat (size m) end.

(** ** The receiver *)

(** Receiver; [r_receiverReady] says whether the one-place channel holds a token. *)
Record Receiver := mkReceiver {
  r_l : link;
  r_receiverReady : bool;
  r_messages : list Message;
  r_unsettledMessages : gset bytes;
  r_msgBuf : Buffer;
  r_more : bool;
  r_msg : Message;
  r_autoSendFlow : bool;
  r_batching : bool;
  r_batchMaxAge : Z;
  r_dispositions : list messageDisposition;
  r_maxCredit : Z;
  r_inFlight : inFlight;
  r_creditor : creditor
}.

Definition set_r_l (v : link) (s : Receiver) : Receiver :=
  match s with mkReceiver _ x2 x3 x4 x5 x6 x7 x8 x9 x10 x11 x12 x13 x14 => mkReceiver v x2 x3 x4
    x5 x6 x7 x8 x9 x10 x11 x12 x13 x14 end.
Definition set_r_receiverReady (v : bool) (s : Receiver) : Receiver :=
  match s with mkReceiver x1 _ x3 x4 x5 x6 x7 x8 x9 x10 x11 x12 x13 x14 => mkReceiver x1 v x3 x4
    x5 x6 x7 x8 x9 x10 x11 x12 x13 x14 end.
Definition set_r_messages (v : list Message) (s : Receiver) : Receiver :=
  match s with mkReceiver x1 x2 _ x4 x5 x6 x7 x8 x9 x10 x11 x12 x13 x14 => mkReceiver x1 x2 v x4
    x5 x6 x7 x8 x9 x10 x11 x12 x13 x14 end.
Definition set_r_unsettledMessages (v : gset bytes) (s : Receiver) : Receiver :=
  match s with mkReceiver x1 x2 x3 _ x5 x6 x7 x8 x9 x10 x11 x12 x13 x14 => mkReceiver x1 x2 x3 v
    x5 x6 x7 x8 x9 x10 x11 x12 x13 x14 end.
Definition set_r_msgBuf (v : Buffer) (s : Receiver) : Receiver :=
  match s with mkReceiver x1 x2 x3 x4 _ x6 x7 x8 x9 x10 x11 x12 x13 x14 => mkReceiver x1 x2 x3 x4
    v x6 x7 x8 x9 x10 x11 x12 x13 x14 end.
Definition set_r_more (v : bool) (s : Receiver) : Receiver :=
  match s with mkReceiver x1 x2 x3 x4 x5 _ x7 x8 x9 x10 x11 x12 x13 x14 => mkReceiver x1 x2 x3 x4
    x5 v x7 x8 x9 x10 x11 x12 x13 x14 end.
Definition set_r_msg (v : Message) (s : Receiver) : Receiver :=
  match s with mkReceiver x1 x2 x3 x4 x5 x6 _ x8 x9 x10 x11 x12 x13 x14 => mkReceiver x1 x2 x3 x4
    x5 x6 v x8 x9 x10 x11 x12 x13 x14 end.
Definition set_r_autoSendFlow (v : bool) (s : Receiver) : Receiver :=
  match s with mkReceiver x1 x2 x3 x4 x5 x6 x7 _ x9 x10 x11 x12 x13 x14 => mkReceiver x1 x2 x3 x4
    x5 x6 x7 v x9 x10 x11 x12 x13 x14 end.
Definition set_r_batching (v : bool) (s : Receiver) : Receiver :=
  match s with mkReceiver x1 x2 x3 x4 x5 x6 x7 x8 _ x10 x11 x12 x13 x14 => mkReceiver x1 x2 x3 x4
    x5 x6 x7 x8 v x10 x11 x12 x13 x14 end.
Definition set_r_batchMaxAge (v : Z) (s : Receiver) : Receiver :=
  match s with mkReceiver x1 x2 x3 x4 x5 x6 x7 x8 x9 _ x11 x12 x13 x14 => mkReceiver x1 x2 x3 x4
    x5 x6 x7 x8 x9 v x11 x12 x13 x14 end.
Definition set_r_dispositions (v : list messageDisposition) (s : Receiver) : Receiver :=
  match s with mkReceiver x1 x2 x3 x4 x5 x6 x7 x8 x9 x10 _ x12 x13 x14 => mkReceiver x1 x2 x3 x4
    x5 x6 x7 x8 x9 x10 v x12 x13 x14 end.
Definition set_r_maxCredit (v : Z) (s : Receiver) : Receiver :=
  match s with mkReceiver x1 x2 x3 x4 x5 x6 x7 x8 x9 x10 x11 _ x13 x14 => mkReceiver x1 x2 x3 x4
    x5 x6 x7 x8 x9 x10 x11 v x13 x14 end.
Definition set_r_inFlight (v : inFlight) (s : Receiver) : Receiver :=
  match s with mkReceiver x1 x2 x3 x4 x5 x6 x7 x8 x9 x10 x11 x12 _ x14 => mkReceiver x1 x2 x3 x4
    x5 x6 x7 x8 x9 x10 x11 x12 v x14 end.
Definition set_r_creditor (v : creditor) (s : Receiver) : Receiver :=
  match s with mkReceiver x1 x2 x3 x4 x5 x6 x7 x8 x9 x10 x11 x12 x13 _ => mkReceiver x1 x2 x3 x4
    x5 x6 x7 x8 x9 x10 x11 x12 x13 v end.

(** The state newReceiver starts from, before the options are applied. *)
Definition initReceiver (l : link) : Receiver :=
  mkReceiver l false [] ∅ (New []) false emptyMessage true defaultLinkBatching
    defaultLinkBatchMaxAge [] defaultLinkCredit None newCreditor.

Definition countUnsettled (r : Receiver) : Z := Z.of_nat (size (r_unsettledMessages r)).
Definition addUnsettled (msg : Message) (r : Receiver) : Receiver :=
  set_r_unsettledMessages ({[ m_DeliveryTag msg ]} ∪ r_unsettledMessages r) r.
Definition deleteUnsettled (msg : Message) (r : Receiver) : Receiver :=
  set_r_unsettledMessages (r_unsettledMessages r ∖ {[ m_DeliveryTag msg ]}) r.

Definition on_l (f : link -> link) (r : Receiver) : Receiver := set_r_l (f (r_l r)) r.

(** closeWithError: the first close wins. *)
Definition closeWithError (de : Error) (r : Receiver) : option goerr * Receiver :=
  (Some (EDetach None (Some (EAmqp de))),
   if l_close (r_l r) then r
   else on_l (fun l => set_l_close true (set_l_detachError (Some de) l)) r).

(** ** Callers *)

Definition signalReady (r : Receiver) : Receiver := set_r_receiverReady true r.

Definition Receiver_IssueCredit (credit : Z) (r : Receiver) : res unit * Receiver :=
  if r_autoSendFlow r then
    (Err (Errorf "issueCredit can only be used with receiver links using manual credit management" []), r)
  else
    match IssueCredit credit (countUnsettled r) (l_availableCredit (r_l r)) (r_maxCredit r)
            (r_creditor r) with
    | (Ok _, mc) => (Ok tt, signalReady (set_r_creditor mc r))
    | (e, mc) => (e, set_r_creditor mc r)
    end.

(** DrainCredit up to the point where it waits: the mux is woken first, the
    drain is requested after that. *)
Definition DrainCredit_signal (r : Receiver) : res unit * Receiver :=
  if r_autoSendFlow r then
    (Err (Errorf "drain can only be used with receiver links using manual credit management" []), r)
  else (Ok tt, signalReady r).
Definition DrainCredit_request (r : Receiver) : res unit * Receiver :=
  let '(x, mc) := Drain (r_creditor r) in (x, set_r_creditor mc r).

(** The cases of Drain's [select]; [None] while it waits.  The error of a
    detached link is a pointer that is returned as an error, also when it is nil. *)
Inductive drain_event :=
| DrainEnded
| DrainDetached
| DrainCtx.
Definition DrainCredit_wait (ev : drain_event) (r : Receiver) : option (option goerr) :=
  match ev with
  | DrainEnded => if drained (r_creditor r) then None else Some None
  | DrainDetached =>
      if l_detached (r_l r)
      then Some (Some match l_detachError (r_l r) with Some e => EAmqp e | None => EAmqpNil end)
      else None
  | DrainCtx => Some (Some ECtx)
  end.

(** Prefetched *)
Definition Prefetched (r : Receiver) : option Message * Receiver :=
  let r := signalReady r in
  match r_messages r with
  | [] => (None, r)
  | msg :: rest =>
      (Some (set_m_rcvr (Some (key_name (l_key (r_l r)))) msg), set_r_messages rest r)
  end.

(** The cases of Receive's [select], which is entered when nothing was
    prefetched; the first one is ready once the mux has delivered a message. *)
Inductive receive_event :=
| RcvMessage
| RcvDetached
| RcvCtxDone.

(** Receive; [None] for message and error while no case is ready. *)
Definition Receive_wait (ev : receive_event) (r : Receiver)
  : option Message * option goerr * Receiver :=
  match ev with
  | RcvMessage =>
      match r_messages r with
      | [] => (None, None, r)
      | msg :: rest =>
          (Some (set_m_rcvr (Some (key_name (l_key (r_l r)))) msg), None, set_r_messages rest r)
      end
  | RcvDetached => (None, l_err (r_l r), r)
  | RcvCtxDone => (None, Some ECtx, r)
  end.

Definition Receive (ev : receive_event) (r : Receiver) : option Message * option goerr * Receiver :=
  match Prefetched r with
  | (Some msg, r) => (Some msg, None, r)
  | (None, r) => Receive_wait ev r
  end.

(** The frame of sendDisposition. *)
Definition disposition_frame (first : Z) (last : option Z) (state : DeliveryState) (r : Receiver)
  : PerformDisposition :=
  mkDisposition RoleReceiver first last
    (match l_receiverSettleMode (r_l r) with
     | None => true
     | Some m => m =? ReceiverSettleModeFirst
     end) (Some state) false.

(** ModifyMessageOptions *)
Record ModifyMessageOptions := mkModifyMessageOptions {
  mo_DeliveryFailed : bool;
  mo_UndeliverableHere : bool;
  mo_Annotations : option (list (value * value))
}.

(** [connDone] is the connection's error once the connection is done. *)
Section Connected.
Context (connDone : option goerr).

(** sendDisposition: the frame is sent, unless the link is detached or the
    connection is done. *)
Definition sendDisposition (first : Z) (last : option Z) (state : DeliveryState) (r : Receiver)
  : option goerr * list FrameBody :=
  if l_detached (r_l r) then (l_err (r_l r), [])
  else
    match connDone with
    | Some e => (Some e, [])
    | None => (None, [FDisposition (disposition_frame first last state r)])
    end.

(** messageDisposition up to the point where it waits; [wait] is the number of
    the channel it makes when it has to wait.  The result says whether it
    waits. *)
Definition messageDisposition_send (wait : Z) (msg : Message) (state : DeliveryState) (r : Receiver)
  : (option goerr * bool) * list FrameBody * Receiver :=
  let second := match l_receiverSettleMode (r_l r) with
                | Some m => m =? ReceiverSettleModeSecond
                | None => false
                end in
  let r := if second then set_r_inFlight (inFlight_add (m_deliveryID msg) wait (r_inFlight r)) r
           else r in
  if r_batching r then
    if l_detached (r_l r) then ((l_err (r_l r), false), [], r)
    else ((None, second), [], set_r_dispositions (r_dispositions r ++ [mkDisp (m_deliveryID msg) state]) r)
  else
    let '(err, frs) := sendDisposition (m_deliveryID msg) None state r in
    ((err, second && bool_decide (err = None)), frs, r).

(** The cases of messageDisposition's [select]: the error that the mux sent, or
    the end of the context. *)
Inductive disposition_event :=
| DispositionConfirmed (err : option goerr)
| DispositionCtx.

(** The confirmation has arrived. *)
Definition messageDisposition_confirmed (msg : Message) (r : Receiver) : Message * Receiver :=
  (set_m_settled true msg, deleteUnsettled msg r).
Definition messageDisposition_wait (ev : disposition_event) (msg : Message) (r : Receiver)
  : option goerr * Message * Receiver :=
  match ev with
  | DispositionConfirmed err => let '(msg, r) := messageDisposition_confirmed msg r in (err, msg, r)
  | DispositionCtx => (Some ECtx, msg, r)
  end.

Definition AcceptMessage (wait : Z) (msg : Message) (r : Receiver) :=
  if negb (shouldSendDisposition msg) then ((None, false), [], r)
  else messageDisposition_send wait msg StateAccepted r.
Definition RejectMessage (wait : Z) (msg : Message) (e : option Error) (r : Receiver) :=
  if negb (shouldSendDisposition msg) then ((None, false), [], r)
  else messageDisposition_send wait msg (StateRejected e) r.
Definition ReleaseMessage (wait : Z) (msg : Message) (r : Receiver) :=
  if negb (shouldSendDisposition msg) then ((None, false), [], r)
  else messageDisposition_send wait msg StateReleased r.
Definition ModifyMessage (wait : Z) (msg : Message) (options : option ModifyMessageOptions) (r : Receiver) :=
  if negb (shouldSendDisposition msg) then ((None, false), [], r)
  else
    let options := default (mkModifyMessageOptions false false None) options in
    messageDisposition_send wait msg
      (StateModified (mo_DeliveryFailed options) (mo_UndeliverableHere options) (mo_Annotations options)) r.

End Connected.

(** ** Incoming transfers *)

Definition option_differs {A} (eqb : A -> A -> bool) (o : option A) (x : A) : bool :=
  match o with Some y => negb (eqb y x) | None => false end.

(** The checks on the first transfer of a message, which also record its
    identity, and on the following ones. *)
Definition muxReceive_first (fr : PerformTransfer) (r : Receiver) : option goerr * Receiver :=
  let msg := r_msg r in
  let msg := match tr_DeliveryID fr with Some id => set_m_deliveryID id msg | None => msg end in
  let msg := match tr_MessageFormat fr with Some f => set_m_Format f msg | None => msg end in
  let r := set_r_msg (set_m_DeliveryTag (default [] (tr_DeliveryTag fr)) msg) r in
  match tr_DeliveryID fr, tr_MessageFormat fr, tr_DeliveryTag fr with
  | None, _, _ => closeWithError (mkErr ErrCondNotAllowed "received message without a delivery-id") r
  | _, None, _ => closeWithError (mkErr ErrCondNotAllowed "received message without a message-format") r
  | _, _, None => closeWithError (mkErr ErrCondNotAllowed "received message without a delivery-tag") r
  | _, _, _ => (None, r)
  end.

Definition muxReceive_next (fr : PerformTransfer) (r : Receiver) : option goerr * Receiver :=
  if option_differs Z.eqb (tr_DeliveryID fr) (m_deliveryID (r_msg r)) then
    closeWithError (mkErr ErrCondNotAllowed
      "received continuation transfer with inconsistent delivery-id: %d != %d") r
  else if option_differs Z.eqb (tr_MessageFormat fr) (m_Format (r_msg r)) then
    closeWithError (mkErr ErrCondNotAllowed
      "received continuation transfer with inconsistent message-format: %d != %d") r
  else if option_differs bytes_eqb (tr_DeliveryTag fr) (m_DeliveryTag (r_msg r)) then
    closeWithError (mkErr ErrCondNotAllowed
      "received continuation transfer with inconsistent delivery-tag: %q != %q") r
  else (None, r).

(** The last frame has arrived: the message is decoded and handed over.  When it
    cannot be decoded the link ends; neither the message in progress, with the
    sections decoded so far, nor the buffer is reset. *)
Definition muxReceive_complete (r : Receiver) : res (option goerr) * Receiver :=
  match Message_Unmarshal (r_msg r) (r_msgBuf r) with
  | (Ok msg, buf) =>
      let r := set_r_msg msg (set_r_msgBuf buf r) in
      let r := if receiverSettleModeValue (l_receiverSettleMode (r_l r)) =? ReceiverSettleModeSecond
               then addUnsettled msg r else r in
      let r := set_r_messages (r_messages r ++ [msg]) r in
      let r := set_r_msg emptyMessage (set_r_msgBuf (Reset (r_msgBuf r)) r) in
      (Ok None,
       on_l (fun l => set_l_deliveryCount (u32 (l_deliveryCount l + 1))
                        (set_l_availableCredit (u32 (l_availableCredit l - 1)) l)) r)
  | (Err e, buf) =>
      (Ok (Some (EDetach None (Some (EText e)))),
       set_r_msg (Message_Unmarshal_left (S (Z.to_nat (Len (r_msgBuf r)))) (r_msg r) (r_msgBuf r)) (set_r_msgBuf buf r))
  | (Panic p, buf) => (Panic p, set_r_msgBuf buf r)
  | (OutOfFuel, buf) => (OutOfFuel, set_r_msgBuf buf r)
  end.

Definition muxReceive (fr : PerformTransfer) (r : Receiver) : res (option goerr) * Receiver :=
  match (if negb (r_more r) then muxReceive_first fr r else muxReceive_next fr r) with
  | (Some e, r) => (Ok (Some e), r)
  | (None, r) =>
      if tr_Aborted fr then
        (Ok None, set_r_more false (set_r_msg emptyMessage (set_r_msgBuf (Reset (r_msgBuf r)) r)))
      else if negb (l_maxMessageSize (r_l r) =? 0)
           && (u64 (Len (r_msgBuf r) + zlen (tr_Payload fr)) >? l_maxMessageSize (r_l r)) then
        let '(e, r) := closeWithError
          (mkErr ErrCondMessageSizeExceeded "received message larger than max size of %d") r in
        (Ok e, r)
      else
        let r := set_r_msgBuf (snd (Append (tr_Payload fr) (r_msgBuf r))) r in
        let r := set_r_msg (set_m_settled (m_settled (r_msg r) || tr_Settled fr) (r_msg r)) r in
        let r := set_r_more (tr_More fr) r in
        if tr_More fr then (Ok None, r) else muxReceive_complete r
  end.

(** ** The mux *)

(** What one step of the mux sends: frames, and errors to waiting callers. *)
Record rout := mkRout { ro_frames : list FrameBody; ro_wakeups : wakeups }.
Definition no_out : rout := mkRout [] [].

Definition receiver_flow (r : Receiver) (linkCredit : Z) (drain : bool) : PerformFlow :=
  mkFlow None 0 0 0 (Some (l_handle (r_l r))) (Some (l_deliveryCount (r_l r))) (Some linkCredit)
    None drain false [].

Definition muxHandleFrame (fr : FrameBody) (r : Receiver) : res (option goerr) * rout * Receiver :=
  match fr with
  | FTransfer t => let '(x, r) := muxReceive t r in (x, no_out, r)
  | FFlow f =>
      if negb (f_Echo f) then
        (Ok None, no_out,
         if f_Drain f && negb (r_autoSendFlow r) then
           set_r_creditor (EndDrain (r_creditor r)) (on_l (set_l_availableCredit 0) r)
         else r)
      else (Ok None, mkRout [FFlow (receiver_flow r (l_availableCredit (r_l r)) false)] [], r)
  | FDisposition d =>
      let dispositionError :=
        match dp_State d with
        | Some (StateRejected (Some e)) => Some (EAmqp e)
        | _ => None
        end in
      match inFlight_remove (dp_First d) (dp_Last d) dispositionError (r_inFlight r) with
      | Ok (f, w) => (Ok None, mkRout [] w, set_r_inFlight f r)
      | Err e => (Err e, no_out, r)
      | Panic p => (Panic p, no_out, r)
      | OutOfFuel => (OutOfFuel, no_out, r)
      end
  | fr => let '(x, l) := link_muxHandleFrame fr (r_l r) in (Ok x, no_out, set_r_l l r)
  end.

(** The mux waits in its own [select], in the one of muxFlow with a flow frame
    to send, or has returned. *)
Inductive rstate :=
| RSelect
| RFlow (fr : PerformFlow)
| RExit.

Inductive revent :=
| RRx (fr : FrameBody)
| RTx
| RReady
| RClose
| RSessionDone (e : goerr).

Definition fail_with (e : option goerr) (r : Receiver) : Receiver := on_l (set_l_err e) r.

(** The part of the loop before the [select]. *)
Definition mux_top (r : Receiver) : Receiver * rstate :=
  let pendingCredit := u32 (r_maxCredit r - u32 (l_availableCredit (r_l r) + countUnsettled r)) in
  let r :=
    if (pendingCredit >=? r_maxCredit r / 2) && r_autoSendFlow r then
      match IssueCredit pendingCredit (countUnsettled r) (l_availableCredit (r_l r)) (r_maxCredit r)
              (r_creditor r) with
      | (Err e, mc) => fail_with (Some (EText e)) (set_r_creditor mc r)
      | (_, mc) => fail_with None (set_r_creditor mc r)
      end
    else r in
  match l_err (r_l r) with
  | Some _ => (r, RExit)
  | None =>
      let '(drain, credits, mc) := FlowBits (l_availableCredit (r_l r)) (r_creditor r) in
      let r := set_r_creditor mc r in
      if drain || (credits >? 0) then
        let fr := receiver_flow r credits drain in
        (if drain then r else on_l (set_l_availableCredit credits) r, RFlow fr)
      else (r, RSelect)
  end.

(** A frame arrives in either [select]; only the mux's own goes back to the top. *)
Definition mux_rx (st : rstate) (fr : FrameBody) (r : Receiver) : res unit * rout * Receiver * rstate :=
  match muxHandleFrame fr r with
  | (Ok None, o, r) =>
      match st with
      | RSelect => let '(r, st) := mux_top (fail_with None r) in (Ok tt, o, r, st)
      | st => (Ok tt, o, r, st)
      end
  | (Ok (Some e), o, r) => (Ok tt, o, fail_with (Some e) r, RExit)
  | (Err e, o, r) => (Err e, o, r, RExit)
  | (Panic p, o, r) => (Panic p, o, r, RExit)
  | (OutOfFuel, o, r) => (OutOfFuel, o, r, RExit)
  end.

Definition mux_step (st : rstate) (ev : revent) (r : Receiver) : res unit * rout * Receiver * rstate :=
  match st, ev with
  | RExit, _ => (Ok tt, no_out, r, RExit)
  | st, RRx fr => mux_rx st fr r
  | RFlow fr, RTx => (Ok tt, mkRout [FFlow fr] [], fail_with None r, RSelect)
  | RSelect, RReady =>
      if r_receiverReady r then
        let '(r, st) := mux_top (set_r_receiverReady false r) in (Ok tt, no_out, r, st)
      else (Ok tt, no_out, r, RSelect)
  | st, RClose =>
      if l_close (r_l r) then (Ok tt, no_out, fail_with (Some (EDetach None None)) r, RExit)
      else (Ok tt, no_out, r, st)
  | _, RSessionDone e => (Ok tt, no_out, fail_with (Some e) r, RExit)
  | st, _ => (Ok tt, no_out, r, st)
  end.

(** The deferred cleanup of the mux. *)
Definition mux_deferred (r : Receiver) : wakeups * Receiver :=
  let '(f, w) := inFlight_clear (l_err (r_l r)) (r_inFlight r) in
  let r := set_r_inFlight f r in
  (w, if r_autoSendFlow r then r else set_r_creditor (EndDrain (r_creditor r)) r).

(** ** The disposition batcher *)

Record batcher := mkBatcher {
  batchStarted : bool;
  b_first : Z;
  b_last : Z;
  b_timer : bool
}.
Definition newBatcher : batcher := mkBatcher false 0 0 false.

Section Batching.
Context (connDone : option goerr).

(** [sendDisposition], and on an error the waiting callers are woken with it. *)
Definition batch_send (first : Z) (last : option Z) (state : DeliveryState) (r : Receiver)
  : res (rout * Receiver) :=
  match sendDisposition connDone first last state r with
  | (None, frs) => Ok (mkRout frs [], r)
  | (Some e, frs) =>
      '(f, w) ← inFlight_remove first last (Some e) (r_inFlight r);
      mret (mkRout frs w, set_r_inFlight f r)
  end.

Definition join_out (o1 o2 : rout) : rout :=
  mkRout (ro_frames o1 ++ ro_frames o2) (ro_wakeups o1 ++ ro_wakeups o2).

Definition is_accept (s : DeliveryState) : bool :=
  match s with StateAccepted => true | _ => false end.

(** A disposition from the channel. *)
Definition batch_disposition (d : messageDisposition) (b : batcher) (r : Receiver)
  : res (rout * Receiver * batcher) :=
  let batchSize := r_maxCredit r in
  if negb (is_accept (md_state d)) || (batchStarted b && negb (u32 (b_last b + 1) =? md_id d)) then
    '(o1, r) ← (if batchStarted b then batch_send (b_first b) (Some (b_last b)) StateAccepted r
                else Ok (no_out, r));
    let b := mkBatcher false (b_first b) (b_last b) (b_timer b) in
    '(o2, r) ← batch_send (md_id d) None (md_state d) r;
    mret (join_out o1 o2, r, b)
  else
    let b := if batchStarted b then mkBatcher true (b_first b) (u32 (b_last b + 1)) (b_timer b)
             else mkBatcher true (md_id d) (md_id d) true in
    if u32 (u32 (b_last b - b_first b) + 1) >=? batchSize then
      '(o, r) ← batch_send (b_first b) (Some (b_last b)) StateAccepted r;
      mret (o, r, mkBatcher false (b_first b) (b_last b) false)
    else mret (no_out, r, b).

(** The timer elapsed. *)
Definition batch_timer (b : batcher) (r : Receiver) : res (rout * Receiver * batcher) :=
  '(o, r) ← batch_send (b_first b) (Some (b_last b)) StateAccepted r;
  mret (o, r, mkBatcher false (b_first b) (b_last b) false).

Inductive bevent :=
| BDisposition (d : messageDisposition)
| BTimer.

Definition batch_step (ev : bevent) (b : batcher) (r : Receiver) : res (rout * Receiver * batcher) :=
  match ev with
  | BDisposition d => batch_disposition d b r
  | BTimer => if b_timer b then batch_timer b r else mret (no_out, r, b)
  end.

End Batching.

End Receiver.
