(* ===== verification/ReceiverSpec.v ===== *)
(** * ReceiverSpec: properties of the receiving link

    The in-flight table, the credit invariant of the mux, what the disposition
    batcher sends and the order in which messages are received. *)

From S2P Require Import Prelude Buffer Types Encode Decode Frames Message Link Creditor Receiver.
Import Buffer Encode Decode Frames Message Errors Link Creditor Receiver.

Module ReceiverSpec.

(** ** The in-flight table *)

Lemma inFlight_loop_spec n fuel i ll err m :
  0 <= i -> ll < 2 ^ 32 - 1 -> ll - i + 1 = Z.of_nat n -> (n <= fuel)%nat ->
  exists m' w, inFlight_loop fuel i ll err m = Ok (m', w) /\
    (forall k, m' !! k = if decide (i <= k <= ll) then None else m !! k) /\
    w = map (fun wait => (wait, err)) (omap (fun k => m !! k) (seqZ i (ll - i + 1))).
Proof.
  intros Hi Hll. revert fuel i m Hi. induction n as [|n IH]; intros fuel i m Hi Hn Hf.
  - replace (inFlight_loop fuel i ll err m) with (Ok (m, [] : wakeups)).
    2: { destruct fuel; cbn; by replace (i <=? ll) with false by lia. }
    exists m, []. rewrite Hn. split_and!; [done| |done]. intros k. by rewrite decide_False by lia.
  - destruct fuel as [|fuel]; [lia|]. cbn [inFlight_loop]. replace (i <=? ll) with true by lia.
    rewrite u32_small by (split; lia). rewrite seqZ_cons by lia. cbn [omap list_omap].
    set (m1 := match m !! i with Some _ => delete i m | None => m end).
    assert (forall k, m1 !! k = if decide (k = i) then None else m !! k) as Hm1.
    { intros k. unfold m1. destruct (m !! i) eqn:E; destruct (decide (k = i)) as [->|];
        rewrite ?lookup_delete_eq, ?lookup_delete_ne by done; done. }
    destruct (IH fuel (i + 1) m1) as (m' & w & E & Hm' & Hw); [lia..|].
    exists m', (match m !! i with Some wait => [(wait, err)] | None => [] end ++ w).
    split_and!.
    + unfold m1 in E. destruct (m !! i); cbn; by rewrite E.
    + intros k. rewrite Hm', Hm1. repeat case_decide; try lia; done.
    + rewrite Hw. replace (Z.pred (ll - i + 1)) with (ll - (i + 1) + 1) by lia.
      change (Z.succ i) with (i + 1).
      assert (omap (fun k => m1 !! k) (seqZ (i + 1) (ll - (i + 1) + 1))
              = omap (fun k => m !! k) (seqZ (i + 1) (ll - (i + 1) + 1))) as ->.
      { apply list_omap_ext, Forall_Forall2_diag, Forall_forall. intros k [Hk _]%elem_of_seqZ.
        rewrite Hm1. by rewrite decide_False by lia. }
      by destruct (m !! i).
Qed.

(** A disposition for the deliveries first..last takes exactly those out of
    the in-flight table and sends the error, in order, to each caller that
    waits for one of them; everything else stays. *)
Theorem inFlight_remove_range first ll err m :
  0 <= first <= ll -> ll < 2 ^ 32 - 1 ->
  exists m', inFlight_remove first (Some ll) err (Some m)
    = Ok (Some m', map (fun wait => (wait, err)) (omap (fun k => m !! k) (seqZ first (ll - first + 1))))
    /\ forall k, m' !! k = if decide (first <= k <= ll) then None else m !! k.
Proof.
  intros Hf Hll. destruct (inFlight_loop_spec (Z.to_nat (ll - first + 1))
    (S (Z.to_nat (ll - first))) first ll err m) as (m' & w & E & Hm & ->); [lia..|].
  exists m'. split; [|done]. unfold inFlight_remove. change (default first (Some ll)) with ll. by rewrite E.
Qed.

Lemma inFlight_remove_range_witness :
  exists m', inFlight_remove 2 (Some 3) None (Some {[ 1 := 10; 3 := 30; 2 := 20 ]})
    = Ok (Some m', map (fun wait => (wait, None))
            (omap (fun k => ({[ 1 := 10; 3 := 30; 2 := 20 ]} : gmap Z Z) !! k) (seqZ 2 (3 - 2 + 1))))
    /\ forall k, m' !! k = if decide (2 <= k <= 3) then None
                           else ({[ 1 := 10; 3 := 30; 2 := 20 ]} : gmap Z Z) !! k.
Proof. apply (inFlight_remove_range 2 3 None {[ 1 := 10; 3 := 30; 2 := 20 ]}); lia. Defined.

(** When the last delivery id of a disposition is 2^32-1, the loop index
    wraps to zero before it passes the end, so the loop never ends (with the
    table's lock held). *)
Theorem inFlight_remove_diverges fuel first err m :
  0 <= first < 2 ^ 32 -> inFlight_loop fuel first (2 ^ 32 - 1) err m = OutOfFuel.
Proof.
  revert first m. induction fuel as [|fuel IH]; intros first m Hf; cbn [inFlight_loop];
    replace (first <=? 2 ^ 32 - 1) with true by lia; [done|].
  assert (0 <= u32 (first + 1) < 2 ^ 32) by (unfold u32; apply Z.mod_pos_bound; lia).
  destruct (m !! first); by rewrite IH.
Qed.

Lemma inFlight_remove_diverges_witness :
  inFlight_loop 1000 4294967294 (2 ^ 32 - 1) None ∅ = OutOfFuel.
Proof. apply (inFlight_remove_diverges 1000 4294967294 None ∅). lia. Defined.

(** ** Credit *)

Definition avail (r : Receiver) : Z := l_availableCredit (r_l r).

(** Automatic credit: what the peer may still send and what is unsettled
    together stay within the maximum. *)
Record credit_inv (r : Receiver) : Prop := {
  ci_auto : r_autoSendFlow r = true;
  ci_creditor : r_creditor r = newCreditor;
  ci_max : 0 < r_maxCredit r < 2 ^ 32;
  ci_avail : 0 <= avail r;
  ci_bound : avail r + countUnsettled r <= r_maxCredit r
}.

(** The parts of the state that credit depends on. *)
Definition same_credit (r r' : Receiver) : Prop :=
  r_autoSendFlow r' = r_autoSendFlow r /\ r_creditor r' = r_creditor r /\
  r_maxCredit r' = r_maxCredit r /\ avail r' = avail r /\
  r_unsettledMessages r' = r_unsettledMessages r /\ l_err (r_l r') = l_err (r_l r).

Lemma same_credit_inv r r' : same_credit r r' -> credit_inv r -> credit_inv r'.
Proof.
  intros (E1 & E2 & E3 & E4 & E5 & _) []. constructor; unfold countUnsettled in *;
    rewrite ?E1, ?E2, ?E3, ?E4, ?E5; done.
Qed.

Lemma same_credit_refl r : same_credit r r.
Proof. done. Qed.
Lemma same_credit_trans r1 r2 r3 : same_credit r1 r2 -> same_credit r2 r3 -> same_credit r1 r3.
Proof. unfold same_credit. naive_solver congruence. Qed.

Ltac same := unfold same_credit, avail; repeat case_match; simplify_eq;
  repeat match goal with r : Receiver |- _ => destruct r end;
  repeat match goal with l : link |- _ => destruct l end; cbn; try done.

Lemma countUnsettled_nonneg r : 0 <= countUnsettled r.
Proof. unfold countUnsettled. lia. Qed.

Lemma FlowBits_issued p a :
  0 <= p -> 0 <= a -> p + a < 2 ^ 32 ->
  FlowBits a (mkCreditor false p false) = (false, if p =? 0 then 0 else p + a, newCreditor).
Proof.
  intros. unfold FlowBits. cbn. destruct (p =? 0); [done|]. by rewrite u32_small by (split; lia).
Qed.

(** The credit the mux asks for never exceeds the limit, so IssueCredit accepts it. *)
Lemma IssueCredit_pending r p :
  credit_inv r -> p = r_maxCredit r - (avail r + countUnsettled r) ->
  IssueCredit p (countUnsettled r) (avail r) (r_maxCredit r) newCreditor
  = (Ok tt, mkCreditor false p false).
Proof.
  intros [] ->. pose proof (countUnsettled_nonneg r). unfold IssueCredit. cbn -[Z.add Z.gtb u32 Z.sub].
  rewrite (u32_small (_ + countUnsettled r)), u32_small by (split; lia).
  replace (_ >? _) with false by lia. rewrite u32_small by (split; lia). by rewrite Z.add_0_l.
Qed.

(** The loop top keeps the invariant and, when it decides to send a flow, asks
    for exactly the credit that the unsettled messages leave. *)
Lemma mux_top_credit r :
  credit_inv r -> l_err (r_l r) = None ->
  let '(r', st) := mux_top r in
  credit_inv r' /\ l_err (r_l r') = None /\
  match st with
  | RExit => False
  | RSelect => same_credit r r'
  | RFlow fr => f_LinkCredit fr = Some (avail r') /\ avail r' = r_maxCredit r' - countUnsettled r'
  end.
Proof.
  intros Hci He. pose proof Hci as []. pose proof (countUnsettled_nonneg r). unfold mux_top.
  fold (avail r). set (p := u32 (r_maxCredit r - u32 (avail r + countUnsettled r))).
  assert (p = r_maxCredit r - (avail r + countUnsettled r)) as Hp.
  { unfold p. rewrite (u32_small (avail r + _)), u32_small by (split; lia). done. }
  rewrite ci_creditor0, (IssueCredit_pending r p Hci Hp), ci_auto0, andb_true_r.
  clearbody p. destruct r as [l ? ? uns ? ? ? ? ? ? ? ? ? mc]. destruct l. unfold avail, countUnsettled in *.
  cbn -[FlowBits Z.add Z.sub] in *. subst.
  destruct (_ >=? _); cbn -[FlowBits Z.add Z.sub].
  - rewrite FlowBits_issued by lia. cbn -[Z.add Z.sub].
    destruct (Z.eqb_spec (r_maxCredit0 - (l_availableCredit0 + Z.of_nat (size uns))) 0) as [E|E];
      cbn -[Z.add Z.sub].
    + split; [by constructor|done].
    + replace (_ >? 0) with true by lia. cbn -[Z.add Z.sub]. split_and!; [|done|done|lia].
      constructor; cbn; try done; unfold avail, countUnsettled; cbn; lia.
  - cbn. split; [by constructor|done].
Qed.

Lemma closeWithError_credit de r : same_credit r (closeWithError de r).2.
Proof. unfold closeWithError. same. Qed.

Lemma muxReceive_first_credit fr r : same_credit r (muxReceive_first fr r).2.
Proof.
  unfold muxReceive_first. destruct (tr_DeliveryID fr), (tr_MessageFormat fr), (tr_DeliveryTag fr);
    (eapply same_credit_trans; [|first [apply closeWithError_credit|apply same_credit_refl]]); same.
Qed.

Lemma muxReceive_next_credit fr r : same_credit r (muxReceive_next fr r).2.
Proof. unfold muxReceive_next. repeat case_match; try apply closeWithError_credit. done. Qed.

(** A complete message takes one credit and leaves at most one more unsettled. *)
Definition one_message (r r' : Receiver) : Prop :=
  r_autoSendFlow r' = r_autoSendFlow r /\ r_creditor r' = r_creditor r /\
  r_maxCredit r' = r_maxCredit r /\ avail r' = u32 (avail r - 1) /\
  countUnsettled r' <= countUnsettled r + 1 /\ l_err (r_l r') = l_err (r_l r).

Lemma size_union_singleton (x : bytes) (X : gset bytes) :
  Z.of_nat (size ({[ x ]} ∪ X)) <= Z.of_nat (size X) + 1.
Proof. pose proof (size_union_alt {[ x ]} X) as E. rewrite E, size_singleton.
  pose proof (subseteq_size (X ∖ {[ x ]}) X). set_solver by lia. Qed.

Lemma muxReceive_complete_credit r x r' :
  muxReceive_complete r = (x, r') -> same_credit r r' \/ one_message r r'.
Proof.
  unfold muxReceive_complete. destruct (Message_Unmarshal _ _) as [[msg|e|p|] buf];
    intros; simplify_eq; try (left; by same). right.
  unfold one_message, avail, countUnsettled. destruct (_ =? _);
    destruct r as [l ? ? uns ? ? ? ? ? ? ? ? ? ?]; destruct l; cbn -[Z.of_nat u32 size];
    split_and!; try done; [apply size_union_singleton|lia].
Qed.

Lemma muxReceive_credit fr r x r' :
  muxReceive fr r = (x, r') ->
  same_credit r r' \/ (tr_More fr = false /\ tr_Aborted fr = false /\ one_message r r').
Proof.
  unfold muxReceive. intros H.
  destruct (if negb (r_more r) then _ else _) as [[e|] r1] eqn:E1;
    (assert (same_credit r r1) as H1
      by (destruct (negb (r_more r)); [pose proof (muxReceive_first_credit fr r) as Hc
                                      |pose proof (muxReceive_next_credit fr r) as Hc];
          by rewrite E1 in Hc)).
  { left. by simplify_eq. }
  destruct (tr_Aborted fr) eqn:Ea; [left; simplify_eq; eapply same_credit_trans; [done|same]|].
  destruct (_ && _).
  { left. simplify_eq. eapply same_credit_trans; [done|]. unfold closeWithError in H. same. }
  destruct (tr_More fr) eqn:Em.
  { left. simplify_eq. eapply same_credit_trans; [done|same]. }
  apply muxReceive_complete_credit in H as [H|H].
  - left. eapply same_credit_trans; [done|]. eapply same_credit_trans; [|done]. same.
  - right. split_and!; [done|done|]. destruct H1 as (E2 & E3 & E4 & E5 & E6 & E7).
    destruct H as (F1 & F2 & F3 & F4 & F5 & F6). unfold one_message, avail, countUnsettled in *.
    clear E1. destruct r1 as [l ? ? ? ? ? ? ? ? ? ? ? ? ?]. cbn -[Z.of_nat u32 size] in *.
    rewrite <- E2, <- E3, <- E4, <- E5, <- E6, <- E7. done.
Qed.

(** The peer sends the last frame of a message only against credit. *)
Definition respects_credit (ev : revent) (r : Receiver) : Prop :=
  match ev with
  | RRx (FTransfer t) => tr_More t = false -> tr_Aborted t = false -> 0 < avail r
  | _ => True
  end.

Lemma one_message_inv r r' : 0 < avail r -> one_message r r' -> credit_inv r -> credit_inv r'.
Proof.
  intros Ha (E1 & E2 & E3 & E4 & E5 & _) []. pose proof (countUnsettled_nonneg r).
  rewrite u32_small in E4 by (split; lia).
  constructor; rewrite ?E1, ?E2, ?E3, ?E4; try done; lia.
Qed.

Lemma fail_with_inv e r : credit_inv r -> credit_inv (fail_with e r).
Proof. intros []. destruct r as [[]]. by constructor. Qed.
Lemma fail_with_err e r : l_err (r_l (fail_with e r)) = e.
Proof. by destruct r as [[]]. Qed.

Lemma muxHandleFrame_inv fr r x o r' :
  credit_inv r -> respects_credit (RRx fr) r -> muxHandleFrame fr r = (x, o, r') ->
  credit_inv r' /\ l_err (r_l r') = l_err (r_l r).
Proof.
  intros Hci Hr.
  assert (forall r1, same_credit r r1 -> credit_inv r1 /\ l_err (r_l r1) = l_err (r_l r)) as Hs.
  { intros r1 H. split; [by eapply same_credit_inv|apply H]. }
  destruct fr as [op|b|a|fl|tr|dp|dt|e|c|si|sm|sc|sr|so];
    cbn [muxHandleFrame link_muxHandleFrame];
    try (intros; simplify_eq; apply Hs; by same).
  - pose proof Hci as []. rewrite ci_auto0, andb_false_r. destruct (negb _); intros; by simplify_eq.
  - destruct (muxReceive tr r) as [y r1] eqn:E. intros; simplify_eq.
    apply muxReceive_credit in E as [E|(E1 & E2 & E)]; [by apply Hs|].
    split; [|by apply E]. eapply one_message_inv; [|done|done]. by apply Hr.
Qed.

(** ** Reachable states *)

(** The mux and the callers, one atomic step at a time. *)
Inductive rstep : Receiver * rstate -> Receiver * rstate -> Prop :=
| rstep_mux st ev r o r' st' :
    respects_credit ev r -> mux_step st ev r = (Ok tt, o, r', st') -> rstep (r, st) (r', st')
| rstep_receive st r msg r' :
    Prefetched r = (msg, r') -> rstep (r, st) (r', st)
| rstep_dispose st r connDone wait msg state x r' :
    messageDisposition_send connDone wait msg state r = (x, r') -> rstep (r, st) (r', st)
| rstep_confirmed st r msg msg' r' :
    messageDisposition_confirmed msg r = (msg', r') -> rstep (r, st) (r', st).

Definition running (r : Receiver) (st : rstate) : Prop := st <> RExit -> l_err (r_l r) = None.

Lemma mux_step_inv st ev r o r' st' :
  credit_inv r -> running r st -> respects_credit ev r ->
  mux_step st ev r = (Ok tt, o, r', st') -> credit_inv r' /\ running r' st'.
Proof.
  intros Hci Hrun Hr. unfold mux_step.
  assert (forall r0, credit_inv r0 -> l_err (r_l r0) = None -> forall o0 r1 st1,
    (let '(r2, st2) := mux_top r0 in (Ok tt, o0, r2, st2)) = (Ok tt, o, r1, st1) ->
    credit_inv r1 /\ running r1 st1) as Htop.
  { intros r0 H1 H2 o0 r1 st1 E. pose proof (mux_top_credit r0 H1 H2) as H.
    destruct (mux_top r0). simplify_eq. destruct H as (? & ? & ?). split; [done|]. by intros _. }
  assert (forall e st0, st0 = RExit -> credit_inv (fail_with e r) /\ running (fail_with e r) st0) as Hexit.
  { intros e st0 ->. split; [by apply fail_with_inv|]. by intros []. }
  destruct ev as [fr| | | |e].
  - destruct st; [| |intros; by simplify_eq]; (cbn [mux_rx]; unfold mux_rx;
    destruct (muxHandleFrame fr r) as [[[[e|]|e|p|] o1] r1] eqn:E; intros H; simplify_eq;
    pose proof (muxHandleFrame_inv _ _ _ _ _ Hci Hr E) as [Hci1 Herr]).
    + split; [by apply fail_with_inv|by intros []].
    + eapply Htop; [by apply fail_with_inv|by apply fail_with_err|exact H].
    + split; [by apply fail_with_inv|by intros []].
    + split; [done|]. intros _. rewrite Herr. by apply Hrun.
  - destruct st; intros; simplify_eq; [done| |done].
    split; [by apply fail_with_inv|]. intros _. apply fail_with_err.
  - destruct st; [|intros; by simplify_eq..]. destruct (r_receiverReady r); [|intros; by simplify_eq].
    apply Htop; [eapply same_credit_inv; [|done]; same|].
    destruct r as [[]]. cbn. by apply Hrun.
  - destruct st; [| |intros; by simplify_eq]; (destruct (l_close (r_l r)); intros; simplify_eq;
      [by apply Hexit|done]).
  - destruct st; intros; simplify_eq; [by apply Hexit..|done].
Qed.

Lemma messageDisposition_send_credit connDone wait msg state r :
  same_credit r (messageDisposition_send connDone wait msg state r).2.
Proof. unfold messageDisposition_send, sendDisposition. same. Qed.

(** C14: with automatic credit, in every reachable state the credit the peer
    still has plus the messages that the receiver counts as unsettled is at most
    the receiver's maximum, as long as the peer sends no message without credit.
    Messages are counted only when the receiver settles second; otherwise the
    credit alone is bounded, whatever is queued. *)
Theorem credit_never_exceeds_max r0 st0 r st :
  credit_inv r0 -> running r0 st0 -> rtc rstep (r0, st0) (r, st) ->
  0 <= avail r /\ avail r + countUnsettled r <= r_maxCredit r.
Proof.
  intros Hci Hrun Hrtc.
  assert (credit_inv r /\ running r st) as [[] _]; [|done].
  revert Hci Hrun. remember (r0, st0) as x eqn:Ex. remember (r, st) as y eqn:Ey.
  revert r0 st0 Ex. induction Hrtc as [x|x z y Hstep _ IH]; intros r0 st0 -> Hci Hrun; [by simplify_eq|].
  destruct z as [r1 st1]. assert (credit_inv r1 /\ running r1 st1) as [H1 H2]; [|by eapply IH].
  clear IH. inversion Hstep; subst.
  - by eapply mux_step_inv.
  - unfold Prefetched in *. split; [eapply same_credit_inv; [|done]; same|].
    intros Hs. specialize (Hrun Hs). repeat case_match; simplify_eq; by destruct r0 as [[]].
  - pose proof (messageDisposition_send_credit connDone wait msg state r0) as Hs.
    replace (messageDisposition_send connDone wait msg state r0) with (x, r1) in Hs. cbn in Hs.
    split; [by eapply same_credit_inv|]. intros He. destruct Hs as (_ & _ & _ & _ & _ & ->). by apply Hrun.
  - unfold messageDisposition_confirmed in *. simplify_eq.
    assert (countUnsettled (deleteUnsettled msg r0) <= countUnsettled r0) as Hle.
    { unfold countUnsettled. destruct r0. cbn. apply Nat2Z.inj_le, subseteq_size. set_solver. }
    destruct r0 as [[]]. destruct Hci. split; [|exact Hrun]. by constructor; cbn in *; try lia.
Qed.

(** A receiver that has just been attached. *)
Definition sample_receiver : Receiver :=
  set_r_maxCredit 10 (initReceiver (newLink (mkKey [120] RoleReceiver) newSource newTarget)).

Lemma credit_never_exceeds_max_witness :
  0 <= avail (mux_top sample_receiver).1 /\
  avail (mux_top sample_receiver).1 + countUnsettled (mux_top sample_receiver).1 <= 10.
Proof.
  apply (credit_never_exceeds_max (set_r_receiverReady true sample_receiver) RSelect
    (mux_top sample_receiver).1 (mux_top sample_receiver).2).
  - by constructor; vm_compute.
  - by intros _.
  - apply rtc_once. apply (rstep_mux _ RReady _ no_out); [done|]. vm_compute. reflexivity.
Defined.

(** ** A drain request can miss its wake-up *)

(** DrainCredit wakes the mux before it records the drain request.  If the
    mux runs in between, it finds nothing to send and goes back to waiting: the
    request is pending, no token is left and the mux sends no flow frame. *)
Theorem DrainCredit_lost_wakeup r :
  r_autoSendFlow r = false -> r_creditor r = newCreditor -> l_err (r_l r) = None ->
  exists r1 r2 r3,
    DrainCredit_signal r = (Ok tt, r1) /\
    mux_step RSelect RReady r1 = (Ok tt, no_out, r2, RSelect) /\
    DrainCredit_request r2 = (Ok tt, r3) /\
    pendingDrain (r_creditor r3) = true /\ r_receiverReady r3 = false /\
    mux_step RSelect RReady r3 = (Ok tt, no_out, r3, RSelect).
Proof.
  intros Ha Hc He. unfold DrainCredit_signal. rewrite Ha.
  destruct r as [l ? ? ? ? ? ? ? ? ? ? ? ? ?]. cbn -[mux_step] in *. subst. do 3 eexists.
  split; [done|]. unfold mux_step, mux_top. cbn -[Z.div Z.geb u32]. rewrite andb_false_r.
  cbn. rewrite He. cbn. by split_and!.
Qed.

Lemma DrainCredit_lost_wakeup_witness :
  exists r1 r2 r3,
    DrainCredit_signal (set_r_autoSendFlow false sample_receiver) = (Ok tt, r1) /\
    mux_step RSelect RReady r1 = (Ok tt, no_out, r2, RSelect) /\
    DrainCredit_request r2 = (Ok tt, r3) /\
    pendingDrain (r_creditor r3) = true /\ r_receiverReady r3 = false /\
    mux_step RSelect RReady r3 = (Ok tt, no_out, r3, RSelect).
Proof. apply (DrainCredit_lost_wakeup (set_r_autoSendFlow false sample_receiver)); reflexivity. Defined.

(** When the peer detaches a link with an error while DrainCredit waits, the
    link has that error, but DrainCredit returns the error that this end would
    have sent: a nil pointer, which as an error is not nil. *)
Theorem DrainCredit_loses_error rst r h e :
  rst <> RExit -> l_detachError (r_l r) = None ->
  exists r1 l2 o,
    mux_step rst (RRx (FDetach (mkDetach h true (Some e)))) r = (Ok tt, no_out, r1, RExit) /\
    muxDetach_run (muxDetach_start (r_l r1)) [DTx] (r_l r1) = (l2, [o], DetachExited) /\
    l_err l2 = Some (EDetach (Some e) None) /\
    DrainCredit_wait DrainDetached (set_r_l l2 r1) = Some (Some EAmqpNil).
Proof.
  intros Hr He. destruct r as [[]]. cbn in He. subst. destruct rst; [| |done]; eexists _, _, _;
    (split; [reflexivity|]); (split; [reflexivity|]); done.
Qed.

Lemma DrainCredit_loses_error_witness :
  exists r1 l2 o,
    mux_step RSelect (RRx (FDetach (mkDetach 0 true (Some (mkErr ErrCondDetachForced "x"))))) sample_receiver
      = (Ok tt, no_out, r1, RExit) /\
    muxDetach_run (muxDetach_start (r_l r1)) [DTx] (r_l r1) = (l2, [o], DetachExited) /\
    l_err l2 = Some (EDetach (Some (mkErr ErrCondDetachForced "x")) None) /\
    DrainCredit_wait DrainDetached (set_r_l l2 r1) = Some (Some EAmqpNil).
Proof. by apply (DrainCredit_loses_error RSelect sample_receiver 0 (mkErr ErrCondDetachForced "x")). Defined.

(** ** The disposition batcher *)

(** The delivery ids from [first] to [last], which may wrap. *)
Definition ids (first last : Z) : list Z :=
  map (fun k => u32 (first + k)) (seqZ 0 (u32 (last - first) + 1)).

(** The deliveries a frame settles, with their state. *)
Definition disposed (fr : FrameBody) : list (Z * DeliveryState) :=
  match fr with
  | FDisposition d =>
      match dp_State d, dp_Last d with
      | Some st, None => [(dp_First d, st)]
      | Some st, Some last => map (fun id => (id, st)) (ids (dp_First d) last)
      | None, _ => []
      end
  | _ => []
  end.

(** The accepted deliveries of the open batch. *)
Definition pending (b : batcher) : list (Z * DeliveryState) :=
  if batchStarted b then map (fun id => (id, StateAccepted)) (ids (b_first b) (b_last b)) else [].

Definition requested (evs : list bevent) : list (Z * DeliveryState) :=
  flat_map (fun ev => match ev with BDisposition d => [(md_id d, md_state d)] | BTimer => [] end) evs.

Fixpoint batch_run (evs : list bevent) (b : batcher) (r : Receiver)
  : res (list FrameBody * Receiver * batcher) :=
  match evs with
  | [] => Ok ([], r, b)
  | ev :: evs =>
      '(o, r, b) ← batch_step None ev b r;
      '(frs, r, b) ← batch_run evs b r;
      mret (ro_frames o ++ frs, r, b)
  end.

(** The timer only fires while a batch is open. *)
Fixpoint timely (evs : list bevent) (b : batcher) (r : Receiver) : Prop :=
  match evs with
  | [] => True
  | ev :: evs =>
      match ev with BTimer => batchStarted b = true | _ => True end /\
      match batch_step None ev b r with Ok (_, r, b) => timely evs b r | _ => False end
  end.

Definition batch_ok (b : batcher) (r : Receiver) : Prop :=
  batchStarted b = true ->
  b_timer b = true /\ is_u 32 (b_first b) /\ is_u 32 (b_last b) /\
  u32 (b_last b - b_first b) + 1 < r_maxCredit r.

Lemma ids_single id : is_u 32 id -> ids id id = [id].
Proof.
  intros H. unfold ids. rewrite Z.sub_diag. change (seqZ 0 (u32 0 + 1)) with [0].
  cbn [map]. by rewrite Z.add_0_r, u32_small.
Qed.

Lemma u32_next first last :
  is_u 32 first -> is_u 32 last -> u32 (last - first) + 1 < 2 ^ 32 ->
  u32 (u32 (last + 1) - first) = u32 (last - first) + 1 /\
  u32 (first + (u32 (last - first) + 1)) = u32 (last + 1).
Proof.
  unfold u32. intros Hf Hl Hn. split.
  - rewrite Zminus_mod_idemp_l. rewrite <- (Z.mod_small ((last - first) mod 2 ^ 32 + 1) (2 ^ 32)).
    + rewrite Zplus_mod_idemp_l. f_equal. lia.
    + pose proof (Z.mod_pos_bound (last - first) (2 ^ 32)). lia.
  - replace (first + ((last - first) mod 2 ^ 32 + 1)) with ((last - first) mod 2 ^ 32 + (first + 1)) by lia.
    rewrite Zplus_mod_idemp_l. f_equal. lia.
Qed.

Lemma ids_snoc first last :
  is_u 32 first -> is_u 32 last -> u32 (last - first) + 1 < 2 ^ 32 ->
  ids first (u32 (last + 1)) = ids first last ++ [u32 (last + 1)].
Proof.
  intros Hf Hl Hn. destruct (u32_next first last Hf Hl Hn) as [E1 E2]. unfold ids. rewrite E1.
  assert (0 <= u32 (last - first)) by (unfold u32; apply Z.mod_pos_bound; lia).
  rewrite (seqZ_app 0 (u32 (last - first) + 1) 1) by lia. rewrite map_app, Z.add_0_l.
  f_equal. rewrite seqZ_cons by lia. cbn [map]. by rewrite E2.
Qed.

Lemma batch_send_ok first last state r :
  l_detached (r_l r) = false ->
  batch_send None first last state r
  = Ok (mkRout [FDisposition (disposition_frame first last state r)] [], r).
Proof. intros H. unfold batch_send, sendDisposition. by rewrite H. Qed.

(** One disposition: what is sent plus what is pending grows by exactly it. *)
Lemma batch_disposition_covers d b r :
  l_detached (r_l r) = false -> is_u 32 (md_id d) -> r_maxCredit r < 2 ^ 32 -> batch_ok b r ->
  exists o b', batch_disposition None d b r = Ok (o, r, b') /\ batch_ok b' r /\
    flat_map disposed (ro_frames o) ++ pending b' = pending b ++ [(md_id d, md_state d)].
Proof.
  intros Hd Hid Hm Hb. unfold batch_disposition. destruct b as [started f l t]. cbn [batchStarted b_first b_last b_timer].
  destruct (negb (is_accept (md_state d)) || _) eqn:E.
  - exists (if started then mkRout [FDisposition (disposition_frame f (Some l) StateAccepted r);
                                    FDisposition (disposition_frame (md_id d) None (md_state d) r)] []
            else mkRout [FDisposition (disposition_frame (md_id d) None (md_state d) r)] []),
      (mkBatcher false f l t).
    destruct started; rewrite ?batch_send_ok by done; cbn; rewrite ?batch_send_ok by done; cbn;
      (split_and!; [done|done|]); by rewrite ?app_nil_r.
  - apply orb_false_elim in E as [Ea%negb_false_iff Eb]. destruct (md_state d) eqn:Es; try done.
    destruct started; cbn [batchStarted b_first b_last b_timer] in *.
    + apply negb_false_iff, Z.eqb_eq in Eb. destruct (Hb eq_refl) as (Ht & Hf & Hl & Hn).
      cbn [b_timer b_first b_last] in *. destruct (u32_next f l Hf Hl ltac:(lia)) as [E1 E2].
      assert (pending (mkBatcher true f (u32 (l + 1)) t)
              = pending (mkBatcher true f l t) ++ [(md_id d, StateAccepted)]) as Hp.
      { unfold pending. cbn [batchStarted b_first b_last]. rewrite ids_snoc by (done || lia).
        by rewrite map_app, Eb. }
      rewrite E1. destruct (_ >=? _) eqn:Eg.
      * rewrite batch_send_ok by done. eexists _, _. split_and!; [done|done|]. unfold pending in Hp |- *. cbn -[ids] in Hp |- *.
        rewrite !app_nil_r. exact Hp.
      * eexists _, _. split_and!; [done| |exact Hp]. intros _. cbn [b_timer b_first b_last].
        assert (is_u 32 (u32 (l + 1))) by (rewrite Eb; done). split_and!; [done..|].
        rewrite E1. rewrite u32_small in Eg by (split; [unfold u32; pose proof (Z.mod_pos_bound (l - f) (2 ^ 32))|]; lia).
        lia.
    + assert (pending (mkBatcher true (md_id d) (md_id d) true) = [(md_id d, StateAccepted)]) as Hp.
      { unfold pending. cbn [batchStarted b_first b_last]. by rewrite ids_single. }
      rewrite Z.sub_diag. change (u32 (u32 0 + 1)) with 1. destruct (1 >=? _) eqn:Eg.
      * rewrite batch_send_ok by done. eexists _, _. split_and!; [done|done|]. unfold pending in Hp |- *. cbn -[ids] in Hp |- *.
        rewrite !app_nil_r. exact Hp.
      * eexists _, _. split_and!; [done| |exact Hp]. intros _. cbn [b_timer b_first b_last].
        split_and!; [done..|]. rewrite Z.sub_diag. change (u32 0) with 0. lia.
Qed.

(** With batching, every disposition the application makes is sent exactly
    once and in order, in single or range frames, or is still in the open
    batch, as long as the batch timer only fires while a batch is open. *)
Theorem batcher_covers evs b r :
  l_detached (r_l r) = false -> r_maxCredit r < 2 ^ 32 -> batch_ok b r ->
  Forall (fun ev => match ev with BDisposition d => is_u 32 (md_id d) | BTimer => True end) evs ->
  timely evs b r ->
  exists frs b', batch_run evs b r = Ok (frs, r, b') /\
    flat_map disposed frs ++ pending b' = pending b ++ requested evs.
Proof.
  intros Hd Hm Hb Hids. revert b Hb. induction Hids as [|ev evs Hid Hids IH]; intros b Hb Ht.
  - exists [], b. cbn. by rewrite app_nil_r.
  - cbn [batch_run timely requested flat_map] in *. destruct Ht as [Ht1 Ht2].
    assert (exists o b1, batch_step None ev b r = Ok (o, r, b1) /\ batch_ok b1 r /\
      flat_map disposed (ro_frames o) ++ pending b1
      = pending b ++ match ev with BDisposition d => [(md_id d, md_state d)] | BTimer => [] end)
      as (o & b1 & E & Hb1 & Hp).
    { destruct ev as [d|]; cbn [batch_step]; [by apply batch_disposition_covers|].
      destruct (Hb Ht1) as [-> _]. unfold batch_timer. rewrite batch_send_ok by done.
      eexists _, _. split_and!; [done|done|]. unfold pending. rewrite Ht1. cbn -[ids].
      by rewrite !app_nil_r. }
    rewrite E in *. destruct (IH b1 Hb1 Ht2) as (frs & b2 & E2 & Hp2).
    exists (ro_frames o ++ frs), b2. split; [cbn; by rewrite E2|].
    rewrite flat_map_app, <- app_assoc, Hp2, app_assoc, Hp, <- app_assoc. done.
Qed.

Lemma batcher_covers_witness :
  exists frs b', batch_run [BDisposition (mkDisp 4 StateAccepted); BDisposition (mkDisp 5 StateAccepted);
                            BTimer; BDisposition (mkDisp 9 StateReleased)] newBatcher sample_receiver
    = Ok (frs, sample_receiver, b') /\
    flat_map disposed frs ++ pending b'
    = pending newBatcher ++ requested [BDisposition (mkDisp 4 StateAccepted);
        BDisposition (mkDisp 5 StateAccepted); BTimer; BDisposition (mkDisp 9 StateReleased)].
Proof.
  apply (batcher_covers [BDisposition (mkDisp 4 StateAccepted); BDisposition (mkDisp 5 StateAccepted);
    BTimer; BDisposition (mkDisp 9 StateReleased)] newBatcher sample_receiver);
    [reflexivity|reflexivity|done|repeat constructor; unfold is_u; cbn; lia|vm_compute; repeat split; done].
Defined.

(** When a batch is flushed because of a disposition out of order, its
    timer keeps running; when it fires, the flushed range is sent a second
    time. *)
Theorem batcher_stale_timer r :
  l_detached (r_l r) = false -> 2 < r_maxCredit r ->
  exists frs b', batch_run [BDisposition (mkDisp 4 StateAccepted); BDisposition (mkDisp 9 StateReleased);
                            BTimer] newBatcher r = Ok (frs, r, b') /\
    flat_map disposed frs = [(4, StateAccepted); (9, StateReleased); (4, StateAccepted)].
Proof.
  intros Hd Hm. eexists _, _. split.
  - cbn [batch_run batch_step]. unfold batch_disposition. cbn -[Z.geb batch_send batch_timer].
    change (u32 (u32 (4 - 4) + 1)) with 1. replace (1 >=? r_maxCredit r) with false by lia.
    unfold batch_timer. cbn -[batch_send]. rewrite (batch_send_ok 4) by done. cbn -[batch_send].
    rewrite (batch_send_ok 9) by done. cbn -[batch_send]. rewrite batch_send_ok by done.
    cbn. reflexivity.
  - reflexivity.
Qed.

Lemma batcher_stale_timer_witness :
  exists frs b', batch_run [BDisposition (mkDisp 4 StateAccepted); BDisposition (mkDisp 9 StateReleased);
                            BTimer] newBatcher sample_receiver = Ok (frs, sample_receiver, b') /\
    flat_map disposed frs = [(4, StateAccepted); (9, StateReleased); (4, StateAccepted)].
Proof. apply (batcher_stale_timer sample_receiver); reflexivity. Defined.

(** ** Receiving *)

Fixpoint receive_n (n : nat) (r : Receiver) : list Message :=
  match n with
  | O => []
  | S n =>
      match Receive RcvMessage r with
      | (Some msg, _, r) => msg :: receive_n n r
      | (None, _, _) => []
      end
  end.

(** The application receives the messages in the order in which the mux
    delivered them, each once, also when the link has been detached meanwhile. *)
Theorem receive_in_order r :
  receive_n (length (r_messages r)) r =
  map (set_m_rcvr (Some (key_name (l_key (r_l r))))) (r_messages r).
Proof.
  remember (r_messages r) as ms eqn:E. revert r E. induction ms as [|m ms IH]; intros r E; [done|].
  destruct r. cbn in *. subst. cbn. f_equal. by rewrite IH.
Qed.

End ReceiverSpec.
