(* ===== verification/Sender.v ===== *)
(** * Sender: the sending link (sender.go)

    Splitting a message into transfer frames, the mux as a step function over
    the event its [select] takes, and the handling of incoming frames. *)

From S2P Require Import Prelude Buffer Types Encode Decode Frames Message Link.
Import Buffer Encode Decode Frames Message Errors Link.

Module Sender.

Definition maxDeliveryTagLength : Z := 32.
Definition maxTransferFrameHeader : Z := 66.

(** Sender; the frames handed to the [transfers] channel are events of the mux. *)
Record Sender := mkSender {
  s_l : link;
  s_detachOnDispositionError : bool;
  s_buf : Buffer;
  s_nextDeliveryTag : Z
}.

Definition set_s_l (v : link) (s : Sender) : Sender :=
  match s with mkSender _ x2 x3 x4 => mkSender v x2 x3 x4 end.
Definition set_s_detachOnDispositionError (v : bool) (s : Sender) : Sender :=
  match s with mkSender x1 _ x3 x4 => mkSender x1 v x3 x4 end.
Definition set_s_buf (v : Buffer) (s : Sender) : Sender :=
  match s with mkSender x1 x2 _ x4 => mkSender x1 x2 v x4 end.
Definition set_s_nextDeliveryTag (v : Z) (s : Sender) : Sender :=
  match s with mkSender x1 x2 x3 _ => mkSender x1 x2 x3 v end.

Definition on_sl (f : link -> link) (s : Sender) : Sender := set_s_l (f (s_l s)) s.

Definition detachOnRejectDisp (s : Sender) : bool :=
  s_detachOnDispositionError s
  && match l_receiverSettleMode (s_l s) with
     | None => true
     | Some m => m =? ReceiverSettleModeFirst
     end.

(** ** send *)

(** What happens when a frame is offered to the mux: it is taken, or the link is
    detached, where [err] is the link's error at that time, or the context ends. *)
Inductive send_event :=
| SSent
| SDetached (err : option goerr)
| SCtxDone.

Inductive send_result :=
| SendDone (done : option Z)
| SendErr (e : option goerr)
| SendBlocked.

Definition senderSettled (s : Sender) (msg : Message) : bool :=
  match l_senderSettleMode (s_l s) with
  | None => false
  | Some m => (m =? SenderSettleModeSettled) || ((m =? SenderSettleModeMixed) && m_SendSettled msg)
  end.

(** The loop [for fr.More]: the frames that were handed over, the rest of the
    buffer and how the loop ended.  [done] is the number of the channel that is
    made for the last frame. *)
Fixpoint send_loop (fuel : nat) (maxPayloadSize : Z) (settled : bool) (done : Z)
  (evs : list send_event) (fr : PerformTransfer) (buf : Buffer)
  : res send_result * list PerformTransfer * Buffer :=
  if tr_More fr then
    match fuel with
    | O => (OutOfFuel, [], buf)
    | S fuel =>
        match Next maxPayloadSize buf with
        | (Ok (payload, _), buf) =>
            let fr := set_tr_More (Len buf >? 0) (set_tr_Payload payload fr) in
            let fr := if negb (tr_More fr) then set_tr_Done (Some done) (set_tr_Settled settled fr)
                      else fr in
            match evs with
            | [] => (Ok SendBlocked, [], buf)
            | SDetached err :: _ => (Ok (SendErr err), [], buf)
            | SCtxDone :: _ => (Ok (SendErr (Some ECtx)), [], buf)
            | SSent :: evs =>
                let next := set_tr_DeliveryID None (set_tr_DeliveryTag None (set_tr_MessageFormat None fr)) in
                let '(x, frs, buf) := send_loop fuel maxPayloadSize settled done evs next buf in
                (x, fr :: frs, buf)
            end
        | (Err e, buf) => (Err e, [], buf)
        | (Panic p, buf) => (Panic p, [], buf)
        | (OutOfFuel, buf) => (OutOfFuel, [], buf)
        end
    end
  else (Ok (SendDone (tr_Done fr)), [], buf).

(** The delivery tag of a message: its own, or the sender's counter. *)
Definition deliveryTag (s : Sender) (msg : Message) : bytes * Sender :=
  if zlen (m_DeliveryTag msg) =? 0
  then (be_bytes 8 (s_nextDeliveryTag s), set_s_nextDeliveryTag (u64 (s_nextDeliveryTag s + 1)) s)
  else (m_DeliveryTag msg, s).

(** [nextDeliveryID] is the session's atomic counter, [peerMaxFrameSize] the
    connection's. *)
Definition send (peerMaxFrameSize : Z) (nextDeliveryID done : Z) (evs : list send_event)
  (msg : Message) (s : Sender) : res send_result * list PerformTransfer * Z * Sender :=
  if zlen (m_DeliveryTag msg) >? maxDeliveryTagLength then
    (Err (Errorf "delivery tag is over the allowed %v bytes, len: %v"
            [maxDeliveryTagLength; zlen (m_DeliveryTag msg)]), [], nextDeliveryID, s)
  else
    match Message_Marshal msg (Reset (s_buf s)) with
    | (Ok _, buf) =>
        let s := set_s_buf buf s in
        if negb (l_maxMessageSize (s_l s) =? 0) && (u64 (Len buf) >? l_maxMessageSize (s_l s)) then
          (Err (Errorf "encoded message size exceeds max of %d" [l_maxMessageSize (s_l s)]),
           [], nextDeliveryID, s)
        else
          let maxPayloadSize := peerMaxFrameSize - maxTransferFrameHeader in
          let settled := senderSettled s msg in
          let deliveryID := u32 (nextDeliveryID + 1) in
          let '(tag, s) := deliveryTag s msg in
          let fr := mkTransfer (l_handle (s_l s)) (Some deliveryID) (Some tag) (Some (m_Format msg))
                      false (Len buf >? 0) None None false false false [] None in
          let '(x, frs, buf) :=
            send_loop (S (Z.to_nat (Len buf))) maxPayloadSize settled done evs fr buf in
          (x, frs, deliveryID, set_s_buf buf s)
    | (Err e, buf) => (Err e, [], nextDeliveryID, set_s_buf buf s)
    | (Panic p, buf) => (Panic p, [], nextDeliveryID, set_s_buf buf s)
    | (OutOfFuel, buf) => (OutOfFuel, [], nextDeliveryID, set_s_buf buf s)
    end.

(** What Send returns when the transfer is confirmed with [state]. *)
Definition Send_confirmed (state : option DeliveryState) (s : Sender) : option goerr :=
  match state with
  | Some (StateRejected e) =>
      if detachOnRejectDisp s then Some (EDetach e None)
      else Some match e with Some e => EAmqp e | None => EAmqpNil end
  | _ => None
  end.

(** The cases of the [select] in which Send waits; without a channel only the
    other two can be ready.  [err] is the link's error when it is detached. *)
Inductive send_wait :=
| SConfirmed (state : option DeliveryState)
| SWaitDetached (err : option goerr)
| SWaitCtx.

(** What the [select] gives, or [None] while it waits. *)
Definition Send_wait (done : option Z) (ev : send_wait) (s : Sender) : option (option goerr) :=
  match ev with
  | SConfirmed state => match done with Some _ => Some (Send_confirmed state s) | None => None end
  | SWaitDetached err => Some err
  | SWaitCtx => Some (Some ECtx)
  end.

(** Send: [None] while it waits. *)
Definition Send (peerMaxFrameSize : Z) (nextDeliveryID done : Z) (evs : list send_event) (wait : send_wait)
  (msg : Message) (s : Sender) : res (option (option goerr)) * list PerformTransfer * Z * Sender :=
  if l_detached (s_l s) then (Ok (Some (l_err (s_l s))), [], nextDeliveryID, s)
  else
    match send peerMaxFrameSize nextDeliveryID done evs msg s with
    | (Ok (SendDone d), frs, id, s) => (Ok (Send_wait d wait s), frs, id, s)
    | (Ok (SendErr (Some e)), frs, id, s) => (Ok (Some (Some e)), frs, id, s)
    | (Ok (SendErr None), frs, id, s) => (Ok (Send_wait None wait s), frs, id, s)
    | (Ok SendBlocked, frs, id, s) => (Ok None, frs, id, s)
    | (Err e, frs, id, s) => (Ok (Some (Some (EText e))), frs, id, s)
    | (Panic p, frs, id, s) => (Panic p, frs, id, s)
    | (OutOfFuel, frs, id, s) => (OutOfFuel, frs, id, s)
    end.

(** ** The mux *)

(** What a step sends: frames to the connection, transfers to the session. *)
Record sout := mkSout { so_frames : list FrameBody; so_transfers : list PerformTransfer }.
Definition no_sout : sout := mkSout [] [].

Definition sender_flow (s : Sender) (linkCredit : Z) : PerformFlow :=
  mkFlow None 0 0 0 (Some (l_handle (s_l s))) (Some (l_deliveryCount (s_l s))) (Some linkCredit)
    None false false [].

Definition sender_muxHandleFrame (fr : FrameBody) (s : Sender) : res (option goerr) * sout * Sender :=
  match fr with
  | FFlow f =>
      match f_LinkCredit f with
      | None => (Panic NilDereference, no_sout, s)
      | Some lc =>
          let linkCredit := u32 (lc - l_deliveryCount (s_l s)) in
          let linkCredit := match f_DeliveryCount f with
                            | Some dc => u32 (linkCredit + dc)
                            | None => linkCredit
                            end in
          let s := on_sl (set_l_availableCredit linkCredit) s in
          if negb (f_Echo f) then (Ok None, no_sout, s)
          else (Ok None, mkSout [FFlow (sender_flow s linkCredit)] [], s)
      end
  | FDisposition d =>
      let rejected := match dp_State d with Some (StateRejected e) => Some e | _ => None end in
      match rejected, detachOnRejectDisp s with
      | Some e, true => (Ok (Some (EDetach e None)), no_sout, s)
      | _, _ =>
          if dp_Settled d then (Ok None, no_sout, s)
          else (Ok None, mkSout [FDisposition (mkDisposition RoleSender (dp_First d) (dp_Last d)
                                                true None false)] [], s)
      end
  | fr => let '(x, l) := link_muxHandleFrame fr (s_l s) in (Ok x, no_sout, set_s_l l s)
  end.

(** The mux waits in its [select], or holds a transfer that the session has to
    accept, or has returned. *)
Inductive sstate :=
| SSelect
| SPending (tr : PerformTransfer)
| SExit.

Inductive sevent :=
| SRx (fr : FrameBody)
| STransfer (tr : PerformTransfer)
| STx
| SClose
| SSessionDone (e : goerr).

Definition sfail (e : option goerr) (s : Sender) : Sender := on_sl (set_l_err e) s.

Definition sender_mux_rx (st : sstate) (fr : FrameBody) (s : Sender)
  : res unit * sout * Sender * sstate :=
  match sender_muxHandleFrame fr s with
  | (Ok None, o, s) => (Ok tt, o, sfail None s, st)
  | (Ok e, o, s) => (Ok tt, o, sfail e s, SExit)
  | (Err e, o, s) => (Err e, o, s, SExit)
  | (Panic p, o, s) => (Panic p, o, s, SExit)
  | (OutOfFuel, o, s) => (OutOfFuel, o, s, SExit)
  end.

Definition sender_mux_step (st : sstate) (ev : sevent) (s : Sender)
  : res unit * sout * Sender * sstate :=
  match st, ev with
  | SExit, _ => (Ok tt, no_sout, s, SExit)
  | st, SRx fr => sender_mux_rx st fr s
  | SSelect, STransfer tr =>
      (* the transfers channel is only selected while there is credit *)
      if l_availableCredit (s_l s) >? 0 then (Ok tt, no_sout, s, SPending tr)
      else (Ok tt, no_sout, s, SSelect)
  | SPending tr, STx =>
      let s := if negb (tr_More tr)
               then on_sl (fun l => set_l_deliveryCount (u32 (l_deliveryCount l + 1))
                             (set_l_availableCredit (u32 (l_availableCredit l - 1)) l)) s
               else s in
      (Ok tt, mkSout [] [tr], s, SSelect)
  | st, SClose =>
      if l_close (s_l s) then (Ok tt, no_sout, sfail (Some (EDetach None None)) s, SExit)
      else (Ok tt, no_sout, s, st)
  | _, SSessionDone e => (Ok tt, no_sout, sfail (Some e) s, SExit)
  | st, _ => (Ok tt, no_sout, s, st)
  end.

Fixpoint sender_mux_run (st : sstate) (evs : list sevent) (s : Sender)
  : res unit * list PerformTransfer * Sender * sstate :=
  match evs with
  | [] => (Ok tt, [], s, st)
  | ev :: evs =>
      match sender_mux_step st ev s with
      | (Ok _, o, s, st) =>
          let '(x, trs, s, st) := sender_mux_run st evs s in (x, so_transfers o ++ trs, s, st)
      | (x, o, s, st) => (x, so_transfers o, s, st)
      end
  end.

End Sender.
