(* ===== verification/SenderSpec.v ===== *)
(** * SenderSpec: properties of the sending link

    How a message is split into transfer frames, how large the frames are, and
    the credit the mux keeps. *)

From S2P Require Import Prelude Buffer Types Encode Decode Wire CodecRoundtrip FieldRoundtrip Frames Parsing FrameRoundtrip Message MessageRoundtrip Link Sender.
Import Buffer Encode Decode Wire CodecRoundtrip FieldRoundtrip Frames Parsing FrameRoundtrip
  Message MessageRoundtrip Errors Link Sender.

Module SenderSpec.

(** ** Splitting *)

(** The fields that only the first frame carries are cleared. *)
Definition clear_first (fr : PerformTransfer) : PerformTransfer :=
  set_tr_DeliveryID None (set_tr_DeliveryTag None (set_tr_MessageFormat None fr)).

(** The frames for the payloads [cs], starting from [fr]. *)
Fixpoint frames_of (settled : bool) (done : Z) (fr : PerformTransfer) (cs : list bytes)
  : list PerformTransfer :=
  match cs with
  | [] => []
  | [c] => [set_tr_Done (Some done) (set_tr_Settled settled (set_tr_More false (set_tr_Payload c fr)))]
  | c :: cs' =>
      let fr := set_tr_More true (set_tr_Payload c fr) in
      fr :: frames_of settled done (clear_first fr) cs'
  end.

Lemma send_loop_done fuel n settled done evs fr buf :
  tr_More fr = false -> send_loop fuel n settled done evs fr buf = (Ok (SendDone (tr_Done fr)), [], buf).
Proof. intros H. destruct fuel; cbn; by rewrite H. Qed.

Lemma send_loop_frames n settled done rest :
  0 < n -> forall fuel k fr pre, rest <> [] -> (length rest <= fuel)%nat -> (length rest <= k)%nat ->
  tr_More fr = true ->
  exists cs, concat cs = rest /\ Forall (fun c => 0 < zlen c <= n) cs /\
    send_loop fuel n settled done (replicate k SSent) fr (at_ pre rest)
    = (Ok (SendDone (Some done)), frames_of settled done fr cs, at_ (pre ++ rest) []).
Proof.
  intros Hn.
  induction rest as [rest IH] using (well_founded_induction (Wf_nat.well_founded_ltof _ (@length Z))).
  intros fuel k fr pre Hr Hf Hk Hm.
  destruct fuel as [|fuel]; [destruct rest; [done|cbn in *; lia]|].
  destruct k as [|k]; [destruct rest; [done|cbn in *; lia]|].
  cbn [send_loop replicate]. rewrite Hm. destruct (decide (zlen rest <= n)) as [Hs|Hs].
  - exists [rest]. assert (0 < zlen rest) by (destruct rest; [done|zlia]).
    split_and!; [cbn; apply app_nil_r|repeat constructor; lia|].
    assert (exists ok, Next n (at_ pre rest) = (Ok (rest, ok), at_ (pre ++ rest) [])) as [ok ->].
    { destruct (decide (zlen rest < n)); [exists false; by apply Next_short|].
      exists true. rewrite <- (app_nil_r rest) at 1. apply Next_at. lia. }
    rewrite Len_at. change (zlen [] >? 0) with false.
    destruct fr. cbn. rewrite send_loop_done by done. done.
  - destruct (zsplit rest n) as (c & rest' & -> & Hc); [lia|]. rewrite Next_at by done. rewrite Len_at.
    assert (0 < zlen rest') by (rewrite zlen_app in Hs; lia).
    replace (zlen rest' >? 0) with true by lia.
    assert (1 <= length c)%nat by (unfold zlen in *; lia). rewrite length_app in *.
    destruct (IH rest') with (fuel := fuel) (k := k) (pre := pre ++ c)
      (fr := clear_first (set_tr_More true (set_tr_Payload c fr))) as (cs & Ec & Hcs & E).
    { unfold ltof. rewrite length_app. lia. } { by intros ->. } { lia. } { lia. } { by destruct fr. }
    exists (c :: cs). split_and!; [cbn; by rewrite Ec|constructor; [lia|done]|].
    destruct fr. cbn -[send_loop frames_of] in *. rewrite E. rewrite <- app_assoc.
    destruct cs; [|done]. cbn in Ec. subst. done.
Qed.

(** What a list of frames has to satisfy to carry one message. *)
Record carries (bs : bytes) (handle id : Z) (tag : bytes) (format : Z) (settled : bool) (done : Z)
  (frs : list PerformTransfer) : Prop := {
  ca_payload : concat (map tr_Payload frs) = bs;
  ca_handle : Forall (fun fr => tr_Handle fr = handle) frs;
  ca_first : exists fr rest, frs = fr :: rest /\ tr_DeliveryID fr = Some id /\
    tr_DeliveryTag fr = Some tag /\ tr_MessageFormat fr = Some format /\
    Forall (fun fr => tr_DeliveryID fr = None /\ tr_DeliveryTag fr = None /\
                      tr_MessageFormat fr = None) rest;
  ca_last : exists init fr, frs = init ++ [fr] /\ tr_More fr = false /\ tr_Settled fr = settled /\
    tr_Done fr = Some done /\
    Forall (fun fr => tr_More fr = true /\ tr_Settled fr = false /\ tr_Done fr = None) init
}.

Lemma frames_of_cons settled done fr c c' cs :
  frames_of settled done fr (c :: c' :: cs)
  = set_tr_More true (set_tr_Payload c fr)
    :: frames_of settled done (clear_first (set_tr_More true (set_tr_Payload c fr))) (c' :: cs).
Proof. done. Qed.

Lemma frames_of_payload settled done fr cs : map tr_Payload (frames_of settled done fr cs) = cs.
Proof.
  revert fr. induction cs as [|c cs IH]; intros fr; [done|]. destruct cs; [by destruct fr|].
  cbn [frames_of map] in *. rewrite IH. by destruct fr.
Qed.

Lemma frames_of_handle settled done fr cs :
  Forall (fun f => tr_Handle f = tr_Handle fr) (frames_of settled done fr cs).
Proof.
  revert fr. induction cs as [|c cs IH]; intros fr; [constructor|].
  destruct cs; [constructor; [by destruct fr|constructor]|]. cbn [frames_of].
  constructor; [by destruct fr|]. eapply Forall_impl; [apply IH|]. intros f ->. by destruct fr.
Qed.

Lemma frames_of_cleared settled done fr cs :
  tr_DeliveryID fr = None -> tr_DeliveryTag fr = None -> tr_MessageFormat fr = None ->
  Forall (fun f => tr_DeliveryID f = None /\ tr_DeliveryTag f = None /\ tr_MessageFormat f = None)
    (frames_of settled done fr cs).
Proof.
  revert fr. induction cs as [|c cs IH]; intros fr; [constructor|]. intros.
  destruct cs; [constructor; [by destruct fr|constructor]|]. cbn [frames_of].
  constructor; [by destruct fr|]. apply IH; by destruct fr.
Qed.

Lemma frames_of_last settled done fr cs :
  cs <> [] -> tr_Settled fr = false -> tr_Done fr = None ->
  exists init f, frames_of settled done fr cs = init ++ [f] /\ tr_More f = false /\
    tr_Settled f = settled /\ tr_Done f = Some done /\
    Forall (fun f => tr_More f = true /\ tr_Settled f = false /\ tr_Done f = None) init.
Proof.
  revert fr. induction cs as [|c cs IH]; intros fr; [done|]. intros _ Hs Hd. destruct cs as [|c' cs].
  - eexists [], _. by destruct fr.
  - destruct (IH (clear_first (set_tr_More true (set_tr_Payload c fr)))) as (init & f & E & ? & ? & ? & ?);
      [done|by destruct fr..|].
    rewrite frames_of_cons, E. eexists (_ :: init), f. split_and!; [done..|]. constructor; [by destruct fr|done].
Qed.

Lemma frames_of_carries settled done fr cs bs id tag format :
  cs <> [] -> concat cs = bs -> tr_Settled fr = false -> tr_Done fr = None ->
  tr_DeliveryID fr = Some id -> tr_DeliveryTag fr = Some tag -> tr_MessageFormat fr = Some format ->
  carries bs (tr_Handle fr) id tag format settled done (frames_of settled done fr cs).
Proof.
  intros Hne Hc Hs Hd Hi Ht Hf. constructor.
  - by rewrite frames_of_payload.
  - apply frames_of_handle.
  - destruct cs as [|c [|c' cs]]; [done| |].
    + eexists _, []. by destruct fr.
    + rewrite frames_of_cons. eexists _, _. split; [reflexivity|].
      split_and!; [by destruct fr..|]. apply frames_of_cleared; by destruct fr.
  - by apply frames_of_last.
Qed.

(** The sender can send the message: its tag is short enough and its encoding
    [bs] is not empty and within the link's limit. *)
Definition sendable (s : Sender) (msg : Message) (bs : bytes) : Prop :=
  zlen (m_DeliveryTag msg) <= 32 /\ 0 < zlen bs < 2 ^ 32 /\
  (l_maxMessageSize (s_l s) = 0 \/ zlen bs <= l_maxMessageSize (s_l s)).

Lemma send_frames peerMax nextID done msg s bs k :
  Encodes (Message_Marshal msg) bs -> sendable s msg bs -> maxTransferFrameHeader < peerMax ->
  zlen bs <= Z.of_nat k ->
  exists cs, concat cs = bs /\ cs <> [] /\
    Forall (fun c => 0 < zlen c <= peerMax - maxTransferFrameHeader) cs /\
    let fr := mkTransfer (l_handle (s_l s)) (Some (u32 (nextID + 1)))
                (Some (deliveryTag (set_s_buf (New bs) s) msg).1) (Some (m_Format msg))
                false true None None false false false [] None in
    send peerMax nextID done (replicate k SSent) msg s
    = (Ok (SendDone (Some done)), frames_of (senderSettled s msg) done fr cs, u32 (nextID + 1),
       set_s_buf (at_ bs []) (deliveryTag (set_s_buf (New bs) s) msg).2).
Proof.
  intros He (Ht & Hb & Hmax) Hp Hk. unfold send, maxDeliveryTagLength.
  replace (_ >? 32) with false by lia. rewrite (He (Reset (s_buf s))) by done.
  change (mkBuffer (b (Reset (s_buf s)) ++ bs) (i (Reset (s_buf s)))) with (New bs).
  change (Len (New bs)) with (zlen bs - 0). rewrite Z.sub_0_r.
  rewrite u64_small by (split; lia).
  replace (l_maxMessageSize (s_l (set_s_buf (New bs) s))) with (l_maxMessageSize (s_l s)) by by destruct s.
  replace (_ && _) with false by (destruct Hmax; [replace (_ =? 0) with true by lia|]; lia).
  destruct (deliveryTag (set_s_buf (New bs) s) msg) as [tag s1] eqn:Etag. cbn [fst snd].
  assert (l_handle (s_l s1) = l_handle (s_l s)) as ->.
  { unfold deliveryTag in Etag. destruct (_ =? 0); simplify_eq; by destruct s. }
  replace (senderSettled (set_s_buf (New bs) s) msg) with (senderSettled s msg) by by destruct s.
  replace (zlen bs >? 0) with true by lia.
  destruct (send_loop_frames (peerMax - maxTransferFrameHeader) (senderSettled s msg) done
    bs ltac:(lia) (S (Z.to_nat (zlen bs))) k
    (mkTransfer (l_handle (s_l s)) (Some (u32 (nextID + 1))) (Some tag) (Some (m_Format msg))
       false true None None false false false [] None) [])
    as (cs & Ec & Hcs & E).
  { intros E0. rewrite E0 in Hb. by destruct Hb. } { unfold zlen in *. lia. } { unfold zlen in *. lia. } { done. }
  exists cs. split_and!; [done|intros ->; rewrite <- Ec in Hb; by destruct Hb|eapply Forall_impl; [exact Hcs|]; cbn; lia|].
  cbn zeta. change (New bs) with (at_ [] bs). rewrite E. by destruct s.
Qed.

(** C24: sending a message hands the mux transfer frames that carry exactly the
    encoded message, in order, each payload within the peer's frame size less
    the header allowance; only the last frame ends the message and has the
    settlement flag and the confirmation channel, only the first has the
    delivery id, tag and format.  The loop always ends. *)
Theorem send_splits peerMax nextID done msg s bs k :
  Encodes (Message_Marshal msg) bs -> sendable s msg bs -> maxTransferFrameHeader < peerMax ->
  zlen bs <= Z.of_nat k ->
  exists frs s', send peerMax nextID done (replicate k SSent) msg s
      = (Ok (SendDone (Some done)), frs, u32 (nextID + 1), s') /\
    carries bs (l_handle (s_l s)) (u32 (nextID + 1)) (deliveryTag s msg).1 (m_Format msg)
      (senderSettled s msg) done frs /\
    Forall (fun fr => zlen (tr_Payload fr) <= peerMax - maxTransferFrameHeader) frs.
Proof.
  intros He Hs Hp Hk. destruct (send_frames peerMax nextID done msg s bs k) as (cs & Ec & Hne & Hcs & E);
    [done..|]. cbn zeta in E. eexists _, _. split; [exact E|]. split.
  - replace (deliveryTag s msg).1 with (deliveryTag (set_s_buf (New bs) s) msg).1
      by (unfold deliveryTag; destruct (_ =? 0); by destruct s).
    by apply (frames_of_carries _ _ (mkTransfer (l_handle (s_l s)) _ _ _ _ _ _ _ _ _ _ _ _)).
  - apply List.Forall_forall. intros fr Hin. rewrite List.Forall_forall in Hcs. apply Hcs.
    apply (in_map tr_Payload) in Hin. by rewrite frames_of_payload in Hin.
Qed.

Definition sample_sender : Sender :=
  mkSender (newLink (mkKey [115] RoleSender) newSource newTarget) true (New []) 7.

Definition sample_bytes : bytes :=
  [0; 83; TypeCodeApplicationData; TypeCodeVbin8; 5; 104; 101; 108; 108; 111].

Lemma sample_encodes : Encodes (Message_Marshal (NewMessage [104; 101; 108; 108; 111])) sample_bytes.
Proof. intros r _. destruct r. cbv -[app]. by rewrite <- !app_assoc. Qed.

Lemma send_splits_witness :
  exists frs s', send 70 0 1 (replicate 10 SSent) (NewMessage [104; 101; 108; 108; 111]) sample_sender
      = (Ok (SendDone (Some 1)), frs, u32 (0 + 1), s') /\
    carries sample_bytes 0 (u32 (0 + 1))
      (deliveryTag sample_sender (NewMessage [104; 101; 108; 108; 111])).1 0 false 1 frs /\
    Forall (fun fr => zlen (tr_Payload fr) <= 70 - maxTransferFrameHeader) frs.
Proof.
  apply (send_splits 70 0 1 (NewMessage [104; 101; 108; 108; 111]) sample_sender sample_bytes 10);
    [exact sample_encodes|split; [|split; [|left]]; by cbn|by cbn|by cbn].
Defined.

(** A message with no sections encodes to no bytes: send hands over no
    frame and returns a nil confirmation channel, on which Send then waits
    until its context ends. *)
Theorem send_empty_message peerMax nextID done evs s :
  0 <= l_maxMessageSize (s_l s) ->
  exists s', send peerMax nextID done evs emptyMessage s
    = (Ok (SendDone None), [], u32 (nextID + 1), s').
Proof.
  intros Hm. unfold send. destruct s as [l d buf tag]. cbn [s_l s_buf] in *.
  change (Message_Marshal emptyMessage (Reset buf)) with (Ok tt, New []).
  change (zlen (m_DeliveryTag emptyMessage) >? maxDeliveryTagLength) with false. cbn [set_s_buf s_l].
  change (u64 (Len (New []))) with 0. replace (0 >? l_maxMessageSize l) with false by lia.
  rewrite andb_false_r. by eexists.
Qed.

Lemma send_empty_message_witness :
  exists s', send 512 4 1 [SSent] emptyMessage sample_sender = (Ok (SendDone None), [], u32 (4 + 1), s').
Proof. apply (send_empty_message 512 4 1 [SSent] sample_sender). done. Defined.

(** ** Frame sizes *)

(** The fields send leaves alone. *)
Definition plain_transfer (fr : PerformTransfer) : Prop :=
  tr_ReceiverSettleMode fr = None /\ tr_State fr = None /\ tr_Resume fr = false /\
  tr_Aborted fr = false /\ tr_Batchable fr = false.

Definition size_uint32 (n : Z) : Z := if n =? 0 then 1 else if n <? 256 then 2 else 5.
Definition size_opt {A} (f : A -> Z) (o : option A) : Z := match o with Some x => f x | None => 1 end.

Lemma zlen_enc_uint32 n : zlen (enc_uint32 n) = size_uint32 n.
Proof. unfold enc_uint32, size_uint32. repeat case_match; zlia. Qed.
Lemma size_uint32_le n : 1 <= size_uint32 n <= 5 /\ (n < 256 -> size_uint32 n <= 2).
Proof. unfold size_uint32. repeat case_match; lia. Qed.

Lemma zlen_enc_binary_small tag : zlen tag <= 32 -> zlen (enc_binary tag) <= 34.
Proof. intros H. unfold enc_binary, enc_variable. replace (_ <? 256) with true by lia. zlia. Qed.

Lemma field_bool t :
  field_bytes (mf (writeBool t) (negb t)) (if t then Some (enc_bool true) else None).
Proof. destruct t; [|reflexivity]. split; [reflexivity|apply Encodes_writeBool]. Qed.
Lemma field_ptr {A} (w : A -> M Buffer unit) (e : A -> bytes) p :
  (forall x, p = Some x -> Encodes (w x) (e x)) -> field_bytes (mf_ptr w p) (e <$> p).
Proof. intros H. destruct p; [|reflexivity]. split; [reflexivity|by apply H]. Qed.

(** The transfer performative without its payload takes at most the sum of its
    field sizes and the list header. *)
Lemma transfer_size fr :
  plain_transfer fr -> inu 32 (tr_Handle fr) = true -> opt_ok (inu 32) (tr_DeliveryID fr) = true ->
  opt_ok (inu 32) (tr_MessageFormat fr) = true -> zlen (default [] (tr_DeliveryTag fr)) <= 32 ->
  exists h, Encodes (PerformTransfer_Marshal fr) (h ++ tr_Payload fr) /\
    zlen h <= 12 + size_uint32 (tr_Handle fr) + size_opt size_uint32 (tr_DeliveryID fr) + 34
              + size_opt size_uint32 (tr_MessageFormat fr) + 1 + 1.
Proof.
  intros (H1 & H2 & H3 & H4 & H5) Hh Hi Hf Ht.
  destruct fr as [h id tag fmt st mo rsm state re ab ba p d]. cbn in *. subst.
  assert (forall n, inu 32 n = true -> Encodes (writeUint32 n) (enc_uint32 n)) as Hu.
  { intros n Hn. apply inu_is in Hn. apply Encodes_writeUint32, Hn. }
  set (tg := default [] tag) in *.
  exists (enc_composite TypeCodeTransfer
    [Some (enc_uint32 h); enc_uint32 <$> id; if no_elems tg then None else Some (enc_binary tg);
     enc_uint32 <$> fmt; if st then Some (enc_bool true) else None;
     if mo then Some (enc_bool true) else None; None; None; None; None; None]). split.
  - apply Encodes_bind; [|apply Encodes_Append]. apply Encodes_MarshalComposite. cbn [tr_Handle tr_DeliveryID
      tr_DeliveryTag tr_MessageFormat tr_Settled tr_More tr_ReceiverSettleMode tr_State tr_Resume tr_Aborted
      tr_Batchable]. fold tg.
    apply List.Forall2_cons; [split; [reflexivity|by apply Hu]|].
    apply List.Forall2_cons; [apply field_ptr; intros n ->; by apply Hu|].
    apply List.Forall2_cons; [destruct (no_elems tg) eqn:E; [reflexivity|split; [reflexivity|]];
                         apply Encodes_WriteBinary; unfold MaxUint32; lia|].
    apply List.Forall2_cons; [apply field_ptr; intros n ->; by apply Hu|].
    apply List.Forall2_cons; [apply field_bool|]. apply List.Forall2_cons; [apply field_bool|].
    repeat (apply List.Forall2_cons; [reflexivity|]). apply List.Forall2_nil.
  - pose proof (zlen_enc_binary_small tg Ht). pose proof (size_uint32_le h).
    unfold enc_composite. rewrite zlen_app. change (zlen [0; TypeCodeSmallUlong; TypeCodeTransfer]) with 3.
    destruct id as [id|], (no_elems tg), fmt as [fmt|], st, mo; cbn [trim fmap option_fmap option_map map
      enc_field enc_list concat size_opt]; unfold enc_sized;
      repeat (rewrite ?zlen_app, ?zlen_cons, ?zlen_enc_uint32, ?zlen_be_bytes || cbn [concat app]);
      try pose proof (size_uint32_le id); try pose proof (size_uint32_le fmt);
      change (zlen (enc_bool true)) with 1; change (zlen (@nil Z)) with 0; lia.
Qed.

(** The fields of every frame come from the first one or are absent. *)
Definition from_first (fr f : PerformTransfer) : Prop :=
  plain_transfer f /\ tr_Handle f = tr_Handle fr /\
  (tr_DeliveryID f = tr_DeliveryID fr \/ tr_DeliveryID f = None) /\
  (tr_DeliveryTag f = tr_DeliveryTag fr \/ tr_DeliveryTag f = None) /\
  (tr_MessageFormat f = tr_MessageFormat fr \/ tr_MessageFormat f = None).

Lemma frames_of_from_first settled done fr cs :
  plain_transfer fr -> Forall (from_first fr) (frames_of settled done fr cs).
Proof.
  revert fr. induction cs as [|c cs IH]; intros fr Hp; [constructor|].
  destruct cs as [|c' cs].
  - constructor; [|constructor]. destruct fr. unfold from_first, plain_transfer in *. cbn in *. naive_solver.
  - rewrite frames_of_cons. constructor.
    + destruct fr. unfold from_first, plain_transfer in *. cbn in *. naive_solver.
    + eapply Forall_impl; [apply IH; by destruct fr|]. intros f. destruct fr.
      unfold from_first. cbn. naive_solver.
Qed.

(** The frame of a transfer on the wire. *)
Definition on_wire (ch : Z) (fr : PerformTransfer) : Frame := mkFrame TypeAMQP ch (FTransfer fr) None.

Lemma transfer_fits fr ch peerMax :
  plain_transfer fr -> 0 <= tr_Handle fr < 256 -> opt_ok (inu 32) (tr_DeliveryID fr) = true ->
  opt_ok (inu 8) (tr_MessageFormat fr) = true -> zlen (default [] (tr_DeliveryTag fr)) <= 32 ->
  zlen (tr_Payload fr) <= peerMax - maxTransferFrameHeader -> peerMax < 2 ^ 32 ->
  exists bs, Write (on_wire ch fr) (New []) = (Ok tt, New bs) /\ zlen bs <= peerMax.
Proof.
  unfold maxTransferFrameHeader. intros Hp Hh Hi Hf Ht Hl Hm.
  assert (opt_ok (inu 32) (tr_MessageFormat fr) = true) as Hf32.
  { destruct (tr_MessageFormat fr); cbn in *; [|done]. unfold inu in *. lia. }
  destruct (transfer_size fr Hp) as (h & He & Hs); [unfold inu; lia|done..|].
  pose proof (size_uint32_le (tr_Handle fr)) as [_ H1].
  assert (size_opt size_uint32 (tr_DeliveryID fr) <= 5).
  { destruct (tr_DeliveryID fr) as [n|]; cbn; [|lia]. pose proof (size_uint32_le n). lia. }
  assert (size_opt size_uint32 (tr_MessageFormat fr) <= 2).
  { destruct (tr_MessageFormat fr) as [n|]; cbn; [|lia]. pose proof (size_uint32_le n). cbn in Hf.
    unfold inu in Hf. lia. }
  exists (frame_bytes (on_wire ch fr) (h ++ tr_Payload fr)).
  assert (zlen (h ++ tr_Payload fr) <= peerMax - 8) by (rewrite zlen_app; lia).
  split; [apply Write_bytes; [exact He|lia]|]. rewrite zlen_frame_bytes. lia.
Qed.

(** C35: the frames of a message fit the peer's maximum frame size when the
    link's handle and the message format are below 256: then the allowance of
    66 bytes covers the frame header and the transfer performative. *)
Theorem send_frames_fit peerMax nextID done msg s bs k ch :
  Encodes (Message_Marshal msg) bs -> sendable s msg bs -> maxTransferFrameHeader < peerMax < 2 ^ 32 ->
  zlen bs <= Z.of_nat k -> 0 <= l_handle (s_l s) < 256 -> 0 <= m_Format msg < 256 ->
  exists frs s', send peerMax nextID done (replicate k SSent) msg s
      = (Ok (SendDone (Some done)), frs, u32 (nextID + 1), s') /\
    Forall (fun fr => exists bs, Write (on_wire ch fr) (New []) = (Ok tt, New bs) /\ zlen bs <= peerMax) frs.
Proof.
  intros He Hs Hp Hk Hh Hf.
  destruct (send_frames peerMax nextID done msg s bs k He Hs ltac:(lia) Hk) as (cs & Ec & Hne & Hcs & E).
  cbn zeta in E. eexists _, _. split; [exact E|]. apply List.Forall_forall. intros fr Hin.
  pose proof (in_map tr_Payload _ _ Hin) as Hpay. rewrite frames_of_payload in Hpay.
  rewrite List.Forall_forall in Hcs. specialize (Hcs _ Hpay).
  pose proof (frames_of_from_first (senderSettled s msg) done (mkTransfer (l_handle (s_l s))
    (Some (u32 (nextID + 1))) (Some (deliveryTag (set_s_buf (New bs) s) msg).1) (Some (m_Format msg))
    false true None None false false false [] None) cs ltac:(done)) as Hall.
  rewrite List.Forall_forall in Hall. destruct (Hall fr Hin) as (H1 & H2 & H3 & H4 & H5). cbn in *.
  apply transfer_fits; [done|by rewrite H2| | | |lia|lia].
  - destruct H3 as [-> | ->]; [|done]. cbn. unfold inu, u32. pose proof (Z.mod_pos_bound (nextID + 1) (2 ^ 32)). lia.
  - destruct H5 as [-> | ->]; [|done]. cbn. unfold inu. lia.
  - destruct H4 as [-> | ->]; [|done]. cbn. unfold deliveryTag. destruct (_ =? 0); cbn; [by zlia|apply Hs].
Qed.

Lemma send_frames_fit_witness :
  exists frs s', send 70 0 1 (replicate 10 SSent) (NewMessage [104; 101; 108; 108; 111]) sample_sender
      = (Ok (SendDone (Some 1)), frs, u32 (0 + 1), s') /\
    Forall (fun fr => exists bs, Write (on_wire 3 fr) (New []) = (Ok tt, New bs) /\ zlen bs <= 70) frs.
Proof.
  apply (send_frames_fit 70 0 1 (NewMessage [104; 101; 108; 108; 111]) sample_sender sample_bytes 10 3);
    [exact sample_encodes|split; [|split; [|left]]; by cbn|by cbn..].
Defined.

(** A link with handle 256, and a message with a 32-byte tag that needs more
    than one frame of 512 bytes. *)
Definition late_sender : Sender := on_sl (set_l_handle 256) sample_sender.
Definition tagged_message : Message := set_m_DeliveryTag (replicate 32 7) (NewMessage (replicate 600 1)).

(** The allowance of 66 bytes is too small: with a handle of 256 or more, a
    32-byte delivery tag and a delivery id above 255, the first frame is one
    byte larger than the peer's maximum, which writeFrame refuses. *)
Theorem send_frame_too_large :
  match send 512 1000 1 (replicate 700 SSent) tagged_message late_sender with
  | (Ok (SendDone (Some 1)), fr :: _, _, _) =>
      exists bs, Write (on_wire 0 fr) (New []) = (Ok tt, New bs) /\ zlen bs = 513
  | _ => False
  end.
Proof. vm_compute. eexists. split; reflexivity. Qed.

(** ** Credit *)

Definition savail (s : Sender) : Z := l_availableCredit (s_l s).
Definition scount (s : Sender) : Z := l_deliveryCount (s_l s).

(** The messages completed by a list of transfers. *)
Fixpoint completed (trs : list PerformTransfer) : Z :=
  match trs with
  | [] => 0
  | tr :: trs => (if tr_More tr then 0 else 1) + completed trs
  end.

Lemma completed_nonneg trs : 0 <= completed trs.
Proof. induction trs as [|tr trs IH]; cbn; [done|]. destruct (tr_More tr); lia. Qed.

Lemma completed_app trs1 trs2 : completed (trs1 ++ trs2) = completed trs1 + completed trs2.
Proof. induction trs1 as [|tr trs1 IH]; cbn [completed app]; [done|]. rewrite IH. lia. Qed.

(** The delivery limit the peer granted with a flow frame. *)
Definition flow_limit (ev : sevent) (limit : Z) : Z :=
  match ev with
  | SRx (FFlow f) =>
      match f_LinkCredit f with
      | Some lc => u32 (lc + default 0 (f_DeliveryCount f))
      | None => limit
      end
  | _ => limit
  end.
Definition limit_after (evs : list sevent) (limit : Z) : Z := fold_left (fun l ev => flow_limit ev l) evs limit.


Lemma sfail_credit e s : savail (sfail e s) = savail s /\ scount (sfail e s) = scount s.
Proof. by destruct s as [[]]. Qed.

Lemma sender_frame_credit fr s x o s' :
  sender_muxHandleFrame fr s = (x, o, s') -> x <> Panic NilDereference ->
  so_transfers o = [] /\ scount s' = scount s /\
  u32 (scount s' + savail s') = flow_limit (SRx fr) (u32 (scount s + savail s)).
Proof.
  intros H Hx. destruct fr as [op|b|a|fl|tr|dp|dt|e|c|si|sm|sc|sr|so]; cbn in H;
    try (repeat case_match; simplify_eq; by destruct s as [[]]);
    [|destruct (match dp_State dp with Some (StateRejected e) => Some e | _ => None end),
        (detachOnRejectDisp s), (dp_Settled dp); by simplify_eq].
  destruct s as [l d bf tag]. unfold scount, savail. cbn [flow_limit s_l] in *.
  destruct (f_LinkCredit fl) as [lc|]; [|by simplify_eq].
  set (dc0 := l_deliveryCount l) in *.
  assert (forall c, u32 (dc0 + u32 (u32 (lc - dc0) + c)) = u32 (lc + c)) as E.
  { intros c. rewrite u32_add_r. rewrite (Z.add_comm dc0), <- Z.add_assoc, u32_add_l. f_equal. lia. }
  assert (u32 (lc - dc0) = u32 (u32 (lc - dc0) + 0)) as E0 by by rewrite u32_add_l, Z.add_0_r.
  assert (u32 (dc0 + match f_DeliveryCount fl with
                     | Some dc => u32 (u32 (lc - dc0) + dc)
                     | None => u32 (lc - dc0)
                     end) = u32 (lc + default 0 (f_DeliveryCount fl))) as Hl.
  { destruct (f_DeliveryCount fl); cbn; [apply E|]. rewrite E0. apply E. }
  destruct (negb (f_Echo fl)); simplify_eq; destruct l; by split_and!.
Qed.

Lemma sender_step_credit st ev s x o s' st' :
  sender_mux_step st ev s = (x, o, s', st') -> x = Ok tt -> st' <> SExit ->
  scount s' = u32 (scount s + completed (so_transfers o)) /\
  u32 (scount s' + savail s') = flow_limit ev (u32 (scount s + savail s)) \/
  completed (so_transfers o) = 0 /\ scount s' = scount s /\
  u32 (scount s' + savail s') = flow_limit ev (u32 (scount s + savail s)).
Proof.
  intros H -> Hst. unfold sender_mux_step in H.
  assert (forall st0, sender_mux_rx st0 match ev with SRx fr => fr | _ => FEnd (mkEnd None) end s
      = (Ok tt, o, s', st') ->
    completed (so_transfers o) = 0 /\ scount s' = scount s /\
    u32 (scount s' + savail s') = flow_limit ev (u32 (scount s + savail s))) as Hrx.
  { intros st0 Hr. unfold sender_mux_rx in Hr.
    destruct (sender_muxHandleFrame _ s) as [[[[e|]|e|p|] o1] s1] eqn:E; simplify_eq.
    destruct (sfail_credit None s1) as [-> ->].
    apply sender_frame_credit in E as (-> & -> & E); [|done]. rewrite E. by destruct ev. }
  destruct st as [|tr|]; [| |by simplify_eq].
  - right. destruct ev; [by eapply Hrx|..]; repeat case_match; by simplify_eq.
  - destruct ev; [right; by eapply Hrx|right; by simplify_eq| |right; repeat case_match; by simplify_eq..].
    simplify_eq. cbn [so_transfers completed flow_limit]. destruct (tr_More tr); cbn [negb].
    + right. done.
    + left. destruct s as [[]]. unfold scount, savail. cbn. split; [done|].
      rewrite u32_add_l, u32_add_r. f_equal. lia.
Qed.

(** C36: the delivery limit of a sending link (delivery count plus available
    credit) is at every point the one granted by the last flow frame, and the
    delivery count is the number of complete messages sent, both modulo 2^32. *)
Theorem sender_delivery_limit st evs s trs s' st' :
  is_u 32 (scount s) ->
  sender_mux_run st evs s = (Ok tt, trs, s', st') -> st' <> SExit ->
  scount s' = u32 (scount s + completed trs) /\
  u32 (scount s' + savail s') = limit_after evs (u32 (scount s + savail s)).
Proof.
  revert st s trs. induction evs as [|ev evs IH]; intros st s trs Hu H Hst; cbn [sender_mux_run] in H.
  - simplify_eq. cbn. by rewrite Z.add_0_r, u32_small.
  - destruct (sender_mux_step st ev s) as [[[x o] s1] st1] eqn:E. destruct x as [[]| | |]; simplify_eq.
    destruct (sender_mux_run st1 evs s1) as [[[x trs1] s2] st2] eqn:E2. simplify_eq.
    assert (st1 <> SExit) as Hst1.
    { intros ->. clear - E2 Hst. revert E2. generalize trs1. induction evs as [|ev evs IH]; intros; cbn in E2;
        [by simplify_eq|]. destruct (sender_mux_run SExit evs s1) as [[[x t] s2] st2] eqn:E3.
      simplify_eq. by eapply IH. }
    assert (scount s1 = u32 (scount s + completed (so_transfers o)) /\
            u32 (scount s1 + savail s1) = flow_limit ev (u32 (scount s + savail s))) as [H1 H2].
    { destruct (sender_step_credit _ _ _ _ _ _ _ E eq_refl Hst1) as [?|(-> & -> & ?)]; [done|].
      by rewrite Z.add_0_r, u32_small. }
    destruct (IH st1 s1 trs1) as [H3 H4]; [rewrite H1; unfold is_u, u32; apply Z.mod_pos_bound; lia|done..|].
    split; [rewrite H3, H1, completed_app, u32_add_l; f_equal; lia|]. cbn [limit_after fold_left].
    rewrite H4, H2. done.
Qed.

Definition grant (lc dc : Z) : FrameBody :=
  FFlow (mkFlow (Some 0) 100 0 100 (Some 0) (Some dc) (Some lc) None false false []).
Definition last_frame : PerformTransfer :=
  mkTransfer 0 (Some 1) (Some [1]) (Some 0) false false None None false false false [9] None.

Lemma sender_delivery_limit_witness :
  scount (sender_mux_run SSelect [SRx (grant 5 0); STransfer last_frame; STx] sample_sender).1.2
    = u32 (0 + completed [last_frame]) /\
  u32 (scount (sender_mux_run SSelect [SRx (grant 5 0); STransfer last_frame; STx] sample_sender).1.2
       + savail (sender_mux_run SSelect [SRx (grant 5 0); STransfer last_frame; STx] sample_sender).1.2)
    = limit_after [SRx (grant 5 0); STransfer last_frame; STx] (u32 (0 + 0)).
Proof.
  apply (sender_delivery_limit SSelect [SRx (grant 5 0); STransfer last_frame; STx] sample_sender
    [last_frame] (sender_mux_run SSelect [SRx (grant 5 0); STransfer last_frame; STx] sample_sender).1.2
    SSelect); [by split|vm_compute; reflexivity|done].
Defined.

Definition is_flow (ev : sevent) : bool := match ev with SRx (FFlow _) => true | _ => false end.

Lemma sender_step_no_flow st ev s x o s' st' :
  is_flow ev = false -> sender_mux_step st ev s = (x, o, s', st') ->
  (match st with SPending _ => 0 < savail s | _ => 0 <= savail s end) -> savail s < 2 ^ 32 ->
  savail s' + completed (so_transfers o) = savail s /\
  (match st' with SPending _ => 0 < savail s' | _ => 0 <= savail s' end).
Proof.
  intros Hf H Ha Hb.
  assert (forall fr st0, is_flow (SRx fr) = false -> sender_mux_rx st0 fr s = (x, o, s', st') ->
    savail s' = savail s /\ so_transfers o = [] /\ (st' = st0 \/ st' = SExit)) as Hrx.
  { intros fr st0 Hfr Hr. unfold sender_mux_rx in Hr.
    assert (savail (sender_muxHandleFrame fr s).2 = savail s /\
            so_transfers (sender_muxHandleFrame fr s).1.2 = []) as [E1 E2].
    { destruct fr as [op|b|a|fl|tr|dp|dt|e|c|si|sm|sc|sr|so]; cbn [sender_muxHandleFrame];
        try done; cbn; repeat case_match; simplify_eq; by destruct s as [[]]. }
    destruct (sender_muxHandleFrame fr s) as [[[[e|]|e|p|] o1] s1]; cbn in *; simplify_eq;
      rewrite ?(proj1 (sfail_credit _ _)); auto. }
  unfold sender_mux_step in H. destruct st as [|tr|]; [| |simplify_eq; cbn; lia].
  - destruct ev as [fr|tr| | |e]; [destruct (Hrx _ _ Hf H) as (-> & -> & [->| ->]); cbn; lia| | | |];
      repeat case_match; simplify_eq; rewrite ?(proj1 (sfail_credit _ _)); cbn; unfold savail in *; lia.
  - destruct ev as [fr|tr'| | |e]; [destruct (Hrx _ _ Hf H) as (-> & -> & [->| ->]); cbn; lia| | | |];
      try (repeat case_match; simplify_eq; rewrite ?(proj1 (sfail_credit _ _)); cbn; unfold savail in *; lia).
    simplify_eq. destruct (tr_More tr) eqn:E; cbn; rewrite E; [lia|].
    destruct s as [[]]. unfold savail in *. cbn in *. rewrite u32_small by (split; lia). lia.
Qed.

(** C13: between two flow frames the sender completes at most as many messages
    as the credit it was given: what it completes is taken off the credit, which
    never goes below zero.  The interval may start while the mux waits or, when
    the credit is not zero, while it holds a frame that it is about to send; a flow
    frame that leaves no credit while the mux holds one is excluded
    ([sender_credit_underflow]). *)
Theorem sender_respects_credit st evs s x trs s' st' :
  Forall (fun ev => is_flow ev = false) evs -> is_u 32 (savail s) ->
  match st with SPending _ => 0 < savail s | _ => True end ->
  sender_mux_run st evs s = (x, trs, s', st') ->
  completed trs = savail s - savail s' /\ 0 <= savail s'.
Proof.
  intros Hf [Ha Hb] Hst H.
  enough (forall st, (match st with SPending _ => 0 < savail s | _ => 0 <= savail s end) ->
    sender_mux_run st evs s = (x, trs, s', st') -> savail s' + completed trs = savail s /\ 0 <= savail s')
    as Hgen by (destruct (Hgen st ltac:(by destruct st) H); lia).
  clear H Ha Hst st. induction Hf as [|ev evs Hev Hevs IH] in s, Hb, trs |- *; intros st Ha H; cbn [sender_mux_run] in H.
  - simplify_eq. cbn. destruct st'; lia.
  - destruct (sender_mux_step st ev s) as [[[y o] s1] st1] eqn:E.
    destruct (sender_step_no_flow _ _ _ _ _ _ _ Hev E Ha Hb) as [E1 E2].
    pose proof (completed_nonneg (so_transfers o)). destruct y; simplify_eq; try (destruct st'; lia).
    destruct (sender_mux_run st1 evs s1) as [[[y trs1] s2] st2] eqn:E3. simplify_eq.
    destruct (IH s1 trs1 ltac:(lia) st1 E2 E3). rewrite completed_app. lia.
Qed.

Lemma sender_respects_credit_witness :
  let s := on_sl (set_l_availableCredit 2) sample_sender in
  let r := sender_mux_run (SPending last_frame) [STx; STransfer last_frame; STx] s in
  completed r.1.1.2 = savail s - savail r.1.2 /\ 0 <= savail r.1.2.
Proof.
  apply (sender_respects_credit (SPending last_frame) [STx; STransfer last_frame; STx]
    (on_sl (set_l_availableCredit 2) sample_sender) (Ok tt) [last_frame; last_frame]
    (sender_mux_run (SPending last_frame) [STx; STransfer last_frame; STx]
       (on_sl (set_l_availableCredit 2) sample_sender)).1.2
    SSelect); [repeat constructor|by split|done|vm_compute; reflexivity].
Defined.

(** A flow frame that takes the credit back while the mux holds the last
    frame of a message does not stop it: the frame goes out and the credit
    wraps from zero to 2^32-1, so nothing limits the sender any more. *)
Theorem sender_credit_underflow tr s :
  tr_More tr = false -> 0 < savail s -> is_u 32 (scount s) ->
  exists s', sender_mux_run SSelect [STransfer tr; SRx (grant 0 (scount s)); STx] s
    = (Ok tt, [tr], s', SSelect) /\ savail s' = 2 ^ 32 - 1.
Proof.
  intros Hm Ha Hc. cbn [sender_mux_run sender_mux_step]. unfold savail in Ha.
  replace (l_availableCredit (s_l s) >? 0) with true by lia. cbn -[u32]. rewrite Hm. cbn -[u32].
  destruct s as [[]]. unfold scount, savail in *. cbn -[u32] in *. eexists. split; [done|]. cbn -[u32].
  rewrite u32_add_l. unfold u32. replace (0 - _ + _) with 0 by lia. done.
Qed.

Lemma sender_credit_underflow_witness :
  exists s', sender_mux_run SSelect [STransfer last_frame; SRx (grant 0 0); STx]
      (on_sl (set_l_availableCredit 1) sample_sender)
    = (Ok tt, [last_frame], s', SSelect) /\ savail s' = 2 ^ 32 - 1.
Proof.
  apply (sender_credit_underflow last_frame (on_sl (set_l_availableCredit 1) sample_sender)); by cbn.
Defined.

(** A flow frame for the link without a link-credit field, which the decoder
    accepts, makes the sender's mux dereference a nil pointer. *)
Theorem sender_flow_nil_credit f st s :
  f_LinkCredit f = None -> st <> SExit ->
  (sender_mux_step st (SRx (FFlow f)) s).1.1.1 = Panic NilDereference.
Proof. intros Hf Hst. destruct st; try done; cbn; unfold sender_mux_rx; cbn; by rewrite Hf. Qed.

Lemma sender_flow_nil_credit_witness :
  (sender_mux_step SSelect (SRx (FFlow newFlow)) sample_sender).1.1.1 = Panic NilDereference.
Proof. apply (sender_flow_nil_credit newFlow SSelect sample_sender); done. Defined.

End SenderSpec.
