(* ===== verification/Delivery.v ===== *)
(** * Delivery: a message sent is the message received

    The transfer frames that a sender makes of a message, after their trip
    over the wire, are reassembled by a receiver into the same message. *)

From S2P Require Import Prelude Buffer Types Encode Decode Wire CodecRoundtrip FieldRoundtrip Frames Parsing FrameRoundtrip Message MessageRoundtrip Link Creditor Receiver ReceiverSpec Sender SenderSpec.
Import Buffer Encode Decode Wire CodecRoundtrip FieldRoundtrip Frames Parsing FrameRoundtrip Message
  MessageRoundtrip Errors Link Creditor Receiver ReceiverSpec Sender SenderSpec.

Module Delivery.

(** The receiver's mux handles the transfers one after the other. *)
Fixpoint receive_all (frs : list PerformTransfer) (r : Receiver) : res (option goerr) * Receiver :=
  match frs with
  | [] => (Ok None, r)
  | fr :: frs =>
      match muxReceive fr r with
      | (Ok None, r) => receive_all frs r
      | x => x
      end
  end.

(** No message is in progress. *)
Definition idle (r : Receiver) : Prop :=
  r_more r = false /\ r_msg r = emptyMessage /\ r_msgBuf r = New [].

(** A message of [n] bytes is within the receiver's limit. *)
Definition size_ok (r : Receiver) (n : Z) : Prop :=
  n < 2 ^ 32 /\ (l_maxMessageSize (r_l r) = 0 \/ n <= l_maxMessageSize (r_l r)).

(** The receiver after the payload [bs] of a message with the identity of [m]. *)
Definition in_progress (bs : bytes) (m : Message) (more : bool) (r : Receiver) : Receiver :=
  set_r_more more (set_r_msg m (set_r_msgBuf (New bs) r)).

Lemma receive_all_last x : receive_all [] x = (Ok None, x).
Proof. done. Qed.

(** The common end of the two branches of muxReceive. *)
Lemma muxReceive_accepts fr r r1 bs :
  (if negb (r_more r) then muxReceive_first fr r else muxReceive_next fr r) = (None, r1) ->
  tr_Aborted fr = false -> r_msgBuf r1 = New bs -> size_ok r1 (zlen bs + zlen (tr_Payload fr)) ->
  muxReceive fr r
  = let r2 := in_progress (bs ++ tr_Payload fr) (set_m_settled (m_settled (r_msg r1) || tr_Settled fr) (r_msg r1))
                (tr_More fr) r1 in
    if tr_More fr then (Ok None, r2) else muxReceive_complete r2.
Proof.
  intros E Ha Hb [Hs Hm]. unfold muxReceive. rewrite E, Ha, Hb. change (Len (New bs)) with (zlen bs - 0).
  pose proof (zlen_nonneg bs). pose proof (zlen_nonneg (tr_Payload fr)).
  rewrite Z.sub_0_r, u64_small by (split; lia).
  replace (_ && _) with false by (destruct Hm; [replace (_ =? 0) with true by lia|]; lia).
  unfold in_progress. cbn zeta. destruct r1. cbn in *. by destruct (tr_More fr).
Qed.

Lemma muxReceive_continues fr r bs :
  r_more r = true -> tr_DeliveryID fr = None -> tr_DeliveryTag fr = None -> tr_MessageFormat fr = None ->
  tr_Aborted fr = false -> r_msgBuf r = New bs -> size_ok r (zlen bs + zlen (tr_Payload fr)) ->
  muxReceive fr r
  = let r2 := in_progress (bs ++ tr_Payload fr) (set_m_settled (m_settled (r_msg r) || tr_Settled fr) (r_msg r))
                (tr_More fr) r in
    if tr_More fr then (Ok None, r2) else muxReceive_complete r2.
Proof.
  intros Hm Hi Ht Hf Ha Hb Hs. apply muxReceive_accepts; try done.
  rewrite Hm. cbn. unfold muxReceive_next. by rewrite Hi, Ht, Hf.
Qed.

(** The identity that the first transfer gives to the message. *)
Definition identified (id : Z) (tag : bytes) (format : Z) (settled : bool) : Message :=
  set_m_settled settled (set_m_DeliveryTag tag (set_m_Format format (set_m_deliveryID id emptyMessage))).

Lemma muxReceive_starts fr r id tag format :
  idle r -> tr_DeliveryID fr = Some id -> tr_DeliveryTag fr = Some tag ->
  tr_MessageFormat fr = Some format -> tr_Aborted fr = false -> size_ok r (zlen (tr_Payload fr)) ->
  muxReceive fr r
  = let r2 := in_progress (tr_Payload fr) (identified id tag format (tr_Settled fr)) (tr_More fr) r in
    if tr_More fr then (Ok None, r2) else muxReceive_complete r2.
Proof.
  intros (Hm & Hmsg & Hb) Hi Ht Hf Ha Hs.
  rewrite (muxReceive_accepts fr r (set_r_msg (identified id tag format false) r) []); try done.
  - destruct r. cbn in *. by subst.
  - rewrite Hm. cbn. unfold muxReceive_first. by rewrite Hi, Ht, Hf, Hmsg.
  - by destruct r.
  - by destruct r.
Qed.

Lemma in_progress_twice bs m more bs' m' more' r :
  in_progress bs m more (in_progress bs' m' more' r) = in_progress bs m more r.
Proof. by destruct r. Qed.

Lemma receive_complete x :
  match x : res (option goerr) * Receiver with (Ok None, r) => receive_all [] r | x => x end = x.
Proof. by destruct x as [[[e|]|?|?|] r]. Qed.

(** What the frames look like on the other side. *)
Definition received (frs : list PerformTransfer) : list PerformTransfer := map norm_transfer frs.

Lemma norm_transfer_fields fr :
  plain_transfer fr ->
  tr_DeliveryID (norm_transfer fr) = tr_DeliveryID fr /\
  tr_MessageFormat (norm_transfer fr) = tr_MessageFormat fr /\
  tr_DeliveryTag (norm_transfer fr) = norm_tag (tr_DeliveryTag fr) /\
  tr_Aborted (norm_transfer fr) = false /\ tr_Settled (norm_transfer fr) = tr_Settled fr /\
  tr_More (norm_transfer fr) = tr_More fr /\ tr_Payload (norm_transfer fr) = tr_Payload fr.
Proof. intros (_ & _ & _ & Ha & _). destruct fr. by cbn in *. Qed.

Lemma receive_continues fr r bs :
  plain_transfer fr -> tr_DeliveryID fr = None -> tr_DeliveryTag fr = None ->
  tr_MessageFormat fr = None -> r_more r = true -> r_msgBuf r = New bs ->
  size_ok r (zlen bs + zlen (tr_Payload fr)) ->
  muxReceive (norm_transfer fr) r
  = let r2 := in_progress (bs ++ tr_Payload fr) (set_m_settled (m_settled (r_msg r) || tr_Settled fr) (r_msg r))
                (tr_More fr) r in
    if tr_More fr then (Ok None, r2) else muxReceive_complete r2.
Proof.
  intros Hp Hi Ht Hf Hm Hb Hs. destruct (norm_transfer_fields fr Hp) as (N1 & N2 & N3 & N4 & N5 & N6 & N7).
  rewrite (muxReceive_continues _ _ bs); rewrite ?N1, ?N2, ?N3, ?N4, ?N5, ?N6, ?N7, ?Ht; done.
Qed.

Lemma receive_starts fr r id tag format :
  plain_transfer fr -> idle r -> tr_DeliveryID fr = Some id -> tr_DeliveryTag fr = Some tag -> tag <> [] ->
  tr_MessageFormat fr = Some format -> size_ok r (zlen (tr_Payload fr)) ->
  muxReceive (norm_transfer fr) r
  = let r2 := in_progress (tr_Payload fr) (identified id tag format (tr_Settled fr)) (tr_More fr) r in
    if tr_More fr then (Ok None, r2) else muxReceive_complete r2.
Proof.
  intros Hp Hr Hi Ht Hne Hf Hs. destruct (norm_transfer_fields fr Hp) as (N1 & N2 & N3 & N4 & N5 & N6 & N7).
  rewrite (muxReceive_starts _ _ id tag format); rewrite ?N1, ?N2, ?N3, ?N4, ?N5, ?N6, ?N7; try done.
  rewrite Ht. unfold norm_tag, no_elems. cbn. destruct tag; [done|]. by replace (_ =? 0) with false by zlia.
Qed.

Lemma size_ok_prefix r n m : size_ok r (n + m) -> 0 <= m -> size_ok r n.
Proof. unfold size_ok. lia. Qed.

(** The frames after the first one and before the last one. *)
Lemma receive_middle settled done j cs fr r bs :
  (j < length cs)%nat -> plain_transfer fr -> tr_DeliveryID fr = None -> tr_DeliveryTag fr = None ->
  tr_MessageFormat fr = None -> tr_Settled fr = false -> r_more r = true -> r_msgBuf r = New bs ->
  m_settled (r_msg r) = false -> size_ok r (zlen bs + zlen (concat cs)) ->
  receive_all (received (take j (frames_of settled done fr cs))) r
  = (Ok None, in_progress (bs ++ concat (take j cs)) (r_msg r) true r).
Proof.
  revert j fr r bs. induction cs as [|c cs IH]; intros j fr r bs Hj Hp Hi Ht Hf Hst Hm Hb Hms Hs; [cbn in Hj; lia|].
  destruct j as [|j]; [cbn; rewrite app_nil_r; destruct r; cbn in Hm, Hb; by subst|].
  destruct cs as [|c' cs]; [cbn in Hj; lia|].
  rewrite frames_of_cons. cbn [take received map receive_all]. cbn [concat] in Hs.
  rewrite zlen_app, Z.add_assoc in Hs. pose proof (zlen_nonneg (concat (c' :: cs))).
  rewrite (receive_continues _ _ bs) by (destruct fr; try done; by eapply size_ok_prefix).
  replace (tr_More _) with true by (by destruct fr). replace (tr_Payload _) with c by (by destruct fr).
  replace (tr_Settled _) with false by (by destruct fr). rewrite Hms. cbn [orb].
  change (map norm_transfer) with received. cbn zeta.
  rewrite IH with (bs := bs ++ c); try done; try (by destruct r); try (by destruct fr).
  + rewrite in_progress_twice. cbn [concat]. rewrite <- !app_assoc.
    destruct r as [? ? ? ? ? ? []]. cbn in *. by subst.
  + cbn [length] in Hj |- *. lia.
  + destruct r as [? ? ? ? ? ? []]. by cbn in *.
  + rewrite zlen_app. destruct r. exact Hs.
Qed.

(** The frames before the last one: the message is in progress. *)
Lemma receive_part settled done j cs fr r id tag format :
  (0 < j < length cs)%nat -> plain_transfer fr -> idle r -> tr_DeliveryID fr = Some id ->
  tr_DeliveryTag fr = Some tag -> tag <> [] -> tr_MessageFormat fr = Some format -> tr_Settled fr = false ->
  size_ok r (zlen (concat cs)) ->
  receive_all (received (take j (frames_of settled done fr cs))) r
  = (Ok None, in_progress (concat (take j cs)) (identified id tag format false) true r).
Proof.
  intros [Hj Hlt] Hp Hr Hi Ht Htag Hf Hst Hs. destruct j as [|j]; [lia|].
  destruct cs as [|c [|c' cs]]; [cbn in Hlt; lia..|].
  rewrite frames_of_cons. cbn [take received map receive_all].
  change (concat (c :: c' :: cs)) with (c ++ concat (c' :: cs)) in *.
  rewrite zlen_app in Hs. pose proof (zlen_nonneg (concat (c' :: cs))).
  rewrite (receive_starts _ _ id tag format) by (destruct fr; try done; by eapply size_ok_prefix).
  replace (tr_More _) with true by (by destruct fr). replace (tr_Payload _) with c by (by destruct fr).
  replace (tr_Settled _) with false by (by destruct fr).
  change (map norm_transfer) with received. lazy zeta match.
  rewrite receive_middle with (bs := c); try done; try (by destruct r); try (by destruct fr).
  cbn [length] in Hlt |- *. lia.
Qed.

Lemma receive_all_app a b r :
  receive_all (a ++ b) r = match receive_all a r with (Ok None, r) => receive_all b r | x => x end.
Proof.
  revert r. induction a as [|fr a IH]; intros r; [done|]. cbn.
  destruct (muxReceive fr r) as [[[e|]|?|?|] r']; done.
Qed.

(** The frames from one on carry no identity any more. *)
Lemma frames_of_split settled done j cs fr :
  (0 < j < length cs)%nat ->
  exists c, frames_of settled done fr cs = take j (frames_of settled done fr cs)
    ++ frames_of settled done (clear_first (set_tr_More true (set_tr_Payload c fr))) (drop j cs).
Proof.
  revert cs fr. induction j as [|j IH]; intros cs fr [Hj Hlt]; [lia|].
  destruct cs as [|c [|c' cs]]; [cbn in Hlt; lia..|]. rewrite frames_of_cons. cbn [take drop app].
  destruct j as [|j]; [by exists c|].
  edestruct (IH (c' :: cs)) as [c1 E]; [cbn in Hlt |- *; lia|]. exists c1. f_equal. rewrite E at 1. f_equal.
  destruct fr. reflexivity.
Qed.

Lemma drop_last_one {A} (l : list A) :
  l <> [] -> exists x, l = take (pred (length l)) l ++ [x] /\ drop (pred (length l)) l = [x].
Proof.
  intros Hne. destruct (exists_last Hne) as (init & x & ->). exists x.
  rewrite length_app, Nat.add_comm. cbn. by rewrite take_app_length, drop_app_length.
Qed.

(** All the frames of a message. *)
Lemma receive_frames settled done cs fr r id tag format :
  cs <> [] -> plain_transfer fr -> idle r -> tr_DeliveryID fr = Some id -> tr_DeliveryTag fr = Some tag ->
  tag <> [] -> tr_MessageFormat fr = Some format -> tr_Settled fr = false -> size_ok r (zlen (concat cs)) ->
  receive_all (received (frames_of settled done fr cs)) r
  = muxReceive_complete (in_progress (concat cs) (identified id tag format settled) false r).
Proof.
  intros Hne Hp Hr Hi Ht Htag Hf Hst Hs. destruct cs as [|c [|c' cs]]; [done| |].
  - cbn [frames_of received map receive_all concat] in *. rewrite app_nil_r in *.
    rewrite (receive_starts _ _ id tag format) by (destruct fr; done).
    destruct fr; cbn -[muxReceive_complete]. apply receive_complete.
  - set (cs' := c :: c' :: cs) in *. set (j := pred (length cs')).
    assert (0 < j < length cs')%nat as Hj by (subst j cs'; cbn; lia).
    destruct (frames_of_split settled done j cs' fr Hj) as [c1 ->].
    destruct (drop_last_one cs' Hne) as (c2 & E & Ed). fold j in Ed, E. rewrite Ed.
    unfold received. rewrite map_app, receive_all_app. fold (received (take j (frames_of settled done fr cs'))).
    rewrite (receive_part settled done j cs' fr r id tag format) by done. cbn [frames_of map receive_all].
    assert (concat cs' = concat (take j cs') ++ c2) as Ec
      by (rewrite E at 1; rewrite concat_app; cbn [concat]; by rewrite app_nil_r).
    rewrite Ec in *. rewrite zlen_app in Hs.
    rewrite (receive_continues _ _ (concat (take j cs'))) by (destruct fr, r; done).
    destruct fr, r. cbn -[muxReceive_complete]. apply receive_complete.
Qed.

(** ** The frames cross the wire *)

(** The peer decodes the body of the frame [fr] to [fr']. *)
Definition crosses (fr fr' : PerformTransfer) : Prop :=
  exists body, Encodes (FrameBody_Marshal (FTransfer fr)) body /\
    fst (ParseBody (New body)) = Ok (FTransfer fr').

Lemma transfer_crosses fr :
  plain_transfer fr -> inu 32 (tr_Handle fr) = true -> opt_ok (inu 32) (tr_DeliveryID fr) = true ->
  opt_ok (inu 32) (tr_MessageFormat fr) = true -> zlen (default [] (tr_DeliveryTag fr)) <= 32 ->
  zlen (tr_Payload fr) < 2 ^ 32 - maxTransferFrameHeader -> crosses fr (norm_transfer fr).
Proof.
  intros Hp Hh Hi Hf Ht Hl. unfold maxTransferFrameHeader in Hl.
  destruct (body_rt (FTransfer fr)) as (body & He & Hd).
  { cbn. unfold transfer_ok. rewrite Hh, Hi, Hf. destruct Hp as (_ & -> & _). cbn.
    destruct (tr_DeliveryTag fr); cbn in *; [|done]. unfold strlen_ok, MaxUint32. rewrite !andb_true_r. lia. }
  exists body. split; [done|]. apply (Hd ltac:(
    destruct (transfer_size fr Hp Hh Hi Hf Ht) as (h & Hh' & Hle);
    rewrite (Encodes_unique _ _ _ He Hh'), zlen_app;
    assert (forall o, size_opt size_uint32 o <= 5)
      by (intros [n|]; cbn; [pose proof (size_uint32_le n)|]; lia);
    pose proof (size_uint32_le (tr_Handle fr));
    pose proof (H (tr_DeliveryID fr)); pose proof (H (tr_MessageFormat fr)); lia) []).
Qed.

Lemma frames_cross settled done fr cs :
  plain_transfer fr -> inu 32 (tr_Handle fr) = true -> opt_ok (inu 32) (tr_DeliveryID fr) = true ->
  opt_ok (inu 32) (tr_MessageFormat fr) = true -> zlen (default [] (tr_DeliveryTag fr)) <= 32 ->
  Forall (fun c => zlen c < 2 ^ 32 - maxTransferFrameHeader) cs ->
  Forall (fun f => tr_Handle f = tr_Handle fr /\ crosses f (norm_transfer f)) (frames_of settled done fr cs).
Proof.
  intros Hp Hh Hi Hf Ht Hcs. rewrite <- (frames_of_payload settled done fr cs), Forall_map in Hcs.
  pose proof (frames_of_from_first settled done fr cs Hp) as Hff.
  eapply Forall_impl; [exact (List.Forall_and Hcs Hff)|].
  intros f (Hl & F1 & F2 & F3 & F4 & F5). split; [done|].
  apply transfer_crosses; try done; [by rewrite F2|by destruct F3 as [-> | ->]|by destruct F5 as [-> | ->]|].
  by destruct F4 as [-> | ->].
Qed.

Lemma all_cross (P : PerformTransfer -> Prop) frs :
  Forall (fun f => P f /\ crosses f (norm_transfer f)) frs -> Forall2 crosses frs (received frs).
Proof. induction 1 as [|f frs [_ H] _ IH]; by constructor. Qed.

Lemma deliveryTag_ok s msg :
  zlen (m_DeliveryTag msg) <= 32 ->
  (deliveryTag s msg).1 <> [] /\ zlen (deliveryTag s msg).1 <= 32.
Proof.
  intros H. unfold deliveryTag. destruct (_ =? 0) eqn:E; cbn [fst].
  - split; [|rewrite zlen_be_bytes; lia]. intros E2. pose proof (zlen_be_bytes 8 (s_nextDeliveryTag s)) as Hz.
    rewrite E2 in Hz. done.
  - split; [|done]. intros E2. by rewrite E2 in E.
Qed.

(** Decoding a message that is complete hands it over and leaves the receiver
    idle, with one credit less. *)
Lemma complete_delivers msg bs m0 r :
  message_ok msg = true -> Encodes (Message_Marshal msg) bs -> zlen bs < 2 ^ 32 -> no_sections m0 ->
  exists r', muxReceive_complete (in_progress bs m0 false r) = (Ok None, r') /\ idle r' /\
    r_messages r' = r_messages r ++ [norm_into m0 msg] /\
    l_availableCredit (r_l r') = u32 (l_availableCredit (r_l r) - 1) /\
    l_deliveryCount (r_l r') = u32 (l_deliveryCount (r_l r) + 1).
Proof.
  intros Hok He Hs H0. destruct (Message_decodes m0 msg H0 Hok) as (bs' & He' & Hd).
  rewrite (Encodes_unique _ _ _ He' He) in Hd. specialize (Hd Hs).
  eexists. unfold muxReceive_complete. split.
  - replace (r_msg _) with m0 by (by destruct r). replace (r_msgBuf _) with (New bs) by (by destruct r).
    rewrite Hd. reflexivity.
  - unfold idle, addUnsettled, on_l. destruct r as [[]]; cbn. by repeat case_match.
Qed.

(** The frames of a message: they belong to the link, each of them crosses the
    wire, and an idle receiver makes one message of them. *)
Record delivers (s : Sender) (m : Message) (n : Z) (frs : list PerformTransfer) : Prop := mkDelivers {
  dv_frames : Forall (fun fr => tr_Handle fr = l_handle (s_l s) /\ crosses fr (norm_transfer fr)) frs;
  dv_receive r : idle r -> size_ok r n ->
    exists r', receive_all (received frs) r = (Ok None, r') /\ idle r' /\
      r_messages r' = r_messages r ++ [m] /\
      l_availableCredit (r_l r') = u32 (l_availableCredit (r_l r) - 1) /\
      l_deliveryCount (r_l r') = u32 (l_deliveryCount (r_l r) + 1)
}.

(** The message that arrives: the identity that send chose and the sections. *)
Definition arriving (s : Sender) (nextID : Z) (msg : Message) : Message :=
  norm_into (identified (u32 (nextID + 1)) (deliveryTag s msg).1 (m_Format msg) (senderSettled s msg)) msg.

Lemma deliveryTag_link s msg : s_l (deliveryTag s msg).2 = s_l s.
Proof. unfold deliveryTag. case_match; by destruct s. Qed.

(** The frames that send makes of a message, before any is taken. *)
Lemma send_made peerMax nextID done msg s bs k :
  Encodes (Message_Marshal msg) bs -> sendable s msg bs ->
  maxTransferFrameHeader < peerMax < 2 ^ 32 -> zlen bs <= Z.of_nat k ->
  inu 32 (l_handle (s_l s)) = true -> inu 32 (m_Format msg) = true ->
  exists cs s',
    let fr := mkTransfer (l_handle (s_l s)) (Some (u32 (nextID + 1))) (Some (deliveryTag s msg).1)
                (Some (m_Format msg)) false true None None false false false [] None in
    let frs := frames_of (senderSettled s msg) done fr cs in
    send peerMax nextID done (replicate k SSent) msg s
      = (Ok (SendDone (Some done)), frs, u32 (nextID + 1), s') /\
    s_l s' = s_l s /\ concat cs = bs /\ cs <> [] /\
    Forall (fun c => 0 < zlen c <= peerMax - maxTransferFrameHeader) cs /\
    Forall (fun fr => tr_Handle fr = l_handle (s_l s) /\ crosses fr (norm_transfer fr)) frs /\
    forall r, idle r -> size_ok r (zlen bs) ->
      receive_all (received frs) r
        = muxReceive_complete (in_progress bs (identified (u32 (nextID + 1)) (deliveryTag s msg).1
                                                 (m_Format msg) (senderSettled s msg)) false r) /\
      forall j, (0 < j < length cs)%nat ->
        receive_all (received (take j frs)) r
          = (Ok None, in_progress (concat (take j cs)) (identified (u32 (nextID + 1)) (deliveryTag s msg).1
                                                          (m_Format msg) false) true r).
Proof.
  intros He Hsend Hp Hk Hh Hf.
  destruct (send_frames peerMax nextID done msg s bs k He Hsend ltac:(lia) Hk) as (cs & Ec & Hne & Hcs & E).
  cbn zeta in E. destruct Hsend as (Htag & [_ Hlen] & _).
  replace (deliveryTag (set_s_buf (New bs) s) msg).1 with (deliveryTag s msg).1 in E
    by (unfold deliveryTag; destruct s; by case_match).
  destruct (deliveryTag_ok s msg Htag) as [Hne' Hle].
  exists cs. eexists. intros fr frs. subst frs.
  split; [exact E|]. split.
  { pose proof (deliveryTag_link (set_s_buf (New bs) s) msg) as Hl.
    replace (s_l s) with (s_l (set_s_buf (New bs) s)) by (by destruct s).
    by destruct (deliveryTag (set_s_buf (New bs) s) msg) as [? []]. }
  do 3 (split; [done|]). split.
  - apply (frames_cross _ _ fr); try done.
    + cbn. unfold inu. pose proof (u32_range (nextID + 1)) as Hu. unfold is_u in Hu. lia.
    + eapply Forall_impl; [exact Hcs|]. cbn. intros c Hc. lia.
  - intros r Hr Hs. rewrite <- Ec in Hs |- *. split; [by apply receive_frames|].
    intros j Hj. by apply receive_part.
Qed.

Lemma send_delivers peerMax nextID done msg s bs k :
  message_ok msg = true -> Encodes (Message_Marshal msg) bs -> sendable s msg bs ->
  maxTransferFrameHeader < peerMax < 2 ^ 32 -> zlen bs <= Z.of_nat k ->
  inu 32 (l_handle (s_l s)) = true -> inu 32 (m_Format msg) = true ->
  exists frs s',
    send peerMax nextID done (replicate k SSent) msg s
      = (Ok (SendDone (Some done)), frs, u32 (nextID + 1), s') /\
    s_l s' = s_l s /\ delivers s (arriving s nextID msg) (zlen bs) frs.
Proof.
  intros Hok He Hsend Hp Hk Hh Hf.
  destruct (send_made peerMax nextID done msg s bs k He Hsend Hp Hk Hh Hf)
    as (cs & s' & E & El & Ec & _ & _ & Hx & Hr).
  eexists _, _. split; [exact E|]. split; [done|]. split; [done|]. intros r Hi Hs.
  destruct Hsend as (_ & [_ Hlen] & _). destruct (Hr r Hi Hs) as [-> _].
  by apply complete_delivers.
Qed.

(** C6: a message that is sent is the message that is received.  When the
    session takes every frame, the frames that send makes of [msg] are decoded
    by the peer, and a receiver without a message in progress that handles them
    in order delivers exactly one message: the sections of [msg] with the
    delivery id, tag, format and settlement that send chose.  It is idle again
    afterwards, has used one credit and counted one delivery. *)
Theorem send_receive peerMax nextID done msg s bs k r :
  message_ok msg = true -> Encodes (Message_Marshal msg) bs -> sendable s msg bs ->
  maxTransferFrameHeader < peerMax < 2 ^ 32 -> zlen bs <= Z.of_nat k ->
  inu 32 (l_handle (s_l s)) = true -> inu 32 (m_Format msg) = true -> idle r -> size_ok r (zlen bs) ->
  exists frs s' frs' r',
    send peerMax nextID done (replicate k SSent) msg s
      = (Ok (SendDone (Some done)), frs, u32 (nextID + 1), s') /\
    Forall2 crosses frs frs' /\ receive_all frs' r = (Ok None, r') /\ idle r' /\
    r_messages r' = r_messages r
      ++ [norm_into (identified (u32 (nextID + 1)) (deliveryTag s msg).1 (m_Format msg) (senderSettled s msg)) msg] /\
    l_availableCredit (r_l r') = u32 (l_availableCredit (r_l r) - 1) /\
    l_deliveryCount (r_l r') = u32 (l_deliveryCount (r_l r) + 1).
Proof.
  intros Hok He Hsend Hp Hk Hh Hf Hr Hs.
  destruct (send_delivers peerMax nextID done msg s bs k Hok He Hsend Hp Hk Hh Hf) as (frs & s' & E & _ & [H1 H2]).
  destruct (H2 r Hr Hs) as (r' & Er & Hd). exists frs, s', (received frs), r'. split; [exact E|].
  split; [exact (all_cross _ _ H1)|by split].
Qed.

Lemma send_receive_witness :
  exists frs s' frs' r',
    send 70 0 1 (replicate 10 SSent) (NewMessage [104; 101; 108; 108; 111]) sample_sender
      = (Ok (SendDone (Some 1)), frs, u32 (0 + 1), s') /\
    Forall2 crosses frs frs' /\ receive_all frs' sample_receiver = (Ok None, r') /\ idle r' /\
    r_messages r' = r_messages sample_receiver
      ++ [norm_into (identified (u32 (0 + 1))
            (deliveryTag sample_sender (NewMessage [104; 101; 108; 108; 111])).1 0 false)
            (NewMessage [104; 101; 108; 108; 111])] /\
    l_availableCredit (r_l r') = u32 (l_availableCredit (r_l sample_receiver) - 1) /\
    l_deliveryCount (r_l r') = u32 (l_deliveryCount (r_l sample_receiver) + 1).
Proof.
  apply (send_receive 70 0 1 (NewMessage [104; 101; 108; 108; 111]) sample_sender sample_bytes 10
    sample_receiver); [reflexivity|exact sample_encodes|split; [|split; [|left]]; by cbn|by cbn|by cbn|
    reflexivity|reflexivity|done|split; [by cbn|by left]].
Defined.

End Delivery.
