(* ===== verification/Cancel.v ===== *)
(** * Cancel: a Send that is given up

    [send] offers the frames of a message one by one and leaves its loop when the
    context ends.  Before the first frame this has no effect on the link.  Later
    it leaves an unfinished delivery behind, which neither the code nor the
    peer can complete: the next message ends the link. *)

From S2P Require Import Prelude Buffer Types Encode Decode Wire Frames Parsing FrameRoundtrip Message MessageRoundtrip Link Creditor Receiver ReceiverSpec Sender SenderSpec Delivery.
Import Buffer Encode Wire Frames FrameRoundtrip Message MessageRoundtrip Errors Link Creditor Receiver ReceiverSpec
  Sender SenderSpec Delivery.

Module Cancel.

(** ** The sender *)

(** The loop that is left when [j] frames have been taken. *)
Lemma send_loop_cancelled n settled done fuel evs k fr buf d frs buf' j :
  send_loop fuel n settled done (replicate k SSent) fr buf = (Ok (SendDone d), frs, buf') ->
  (j < length frs)%nat ->
  exists buf2, send_loop fuel n settled done (replicate j SSent ++ SCtxDone :: evs) fr buf
    = (Ok (SendErr (Some ECtx)), take j frs, buf2).
Proof.
  revert k fr buf frs j. induction fuel as [|fuel IH]; intros k fr buf frs j; cbn [send_loop];
    (destruct (tr_More fr); [|intros [= <- <- <-]; cbn; lia]); [done|].
  destruct (Next n buf) as [[[p ok]|?|?|] buf1]; try done. destruct k as [|k]; [done|]. cbn [replicate].
  match goal with |- context [send_loop fuel n settled done (replicate k SSent) ?f buf1] => set (fr1 := f) end.
  destruct (send_loop fuel n settled done (replicate k SSent) fr1 buf1) as [[x frs1] buf3] eqn:E.
  intros [= -> <- ->] Hj. destruct j as [|j]; [by eexists|]. cbn [replicate app take].
  destruct (IH k fr1 buf1 frs1 j E) as [buf2 E2]; [cbn in Hj; lia|]. rewrite E2. by exists buf2.
Qed.

(** The same for send: only the number of frames differs. *)
Lemma send_cancelled peerMax nextID done evs k msg s d frs id s' j :
  send peerMax nextID done (replicate k SSent) msg s = (Ok (SendDone d), frs, id, s') ->
  (j < length frs)%nat ->
  exists s2, send peerMax nextID done (replicate j SSent ++ SCtxDone :: evs) msg s
    = (Ok (SendErr (Some ECtx)), take j frs, id, s2).
Proof.
  unfold send. destruct (_ >? _); [done|]. destruct (Message_Marshal msg _) as [[?|?|?|] buf]; try done.
  cbn zeta. destruct (_ && _); [done|]. destruct (deliveryTag _ msg) as [tag s1].
  destruct (send_loop _ _ _ _ (replicate k SSent) _ _) as [[x frs1] buf1] eqn:E.
  intros [= -> -> <- <-] Hj. destruct (send_loop_cancelled _ _ _ _ evs _ _ _ _ _ _ j E Hj) as [buf2 ->].
  by eexists.
Qed.

(** Whatever happens to it, a message starts with its delivery id. *)
Lemma send_first peerMax nextID done evs msg s x fr frs id s' :
  send peerMax nextID done evs msg s = (x, fr :: frs, id, s') -> tr_DeliveryID fr = Some (u32 (nextID + 1)).
Proof.
  unfold send. destruct (_ >? _); [done|]. destruct (Message_Marshal msg _) as [[?|?|?|] buf]; try done.
  cbn zeta. destruct (_ && _); [done|]. destruct (deliveryTag _ msg) as [tag s1].
  cbn [send_loop tr_More]. destruct (Len buf >? 0); [|done].
  destruct (Next _ buf) as [[[p ok]|?|?|] buf1]; try done. destruct evs as [|[] evs]; try done.
  destruct (send_loop _ _ _ _ _ _ _) as [[x1 frs1] buf2]. intros [= _ <- _ _ _].
  by destruct (Len buf1 >? 0).
Qed.

(** ** The receiver *)

(** A delivery that is not complete. *)
Definition unfinished (id : Z) (r : Receiver) : Prop := r_more r = true /\ m_deliveryID (r_msg r) = id.

(** The error with which the receiver detaches. *)
Definition inconsistent_id : Error :=
  mkErr ErrCondNotAllowed "received continuation transfer with inconsistent delivery-id: %d != %d".

(** Another delivery id ends the mux. *)
Lemma unfinished_rejects id id' fr rst r :
  unfinished id r -> tr_DeliveryID fr = Some id' -> id' <> id -> rst <> RExit ->
  exists r', mux_step rst (RRx (FTransfer fr)) r = (Ok tt, no_out, r', RExit) /\
    r_messages r' = r_messages r /\ l_err (r_l r') = Some (EDetach None (Some (EAmqp inconsistent_id))).
Proof.
  intros [Hm Hi] Hf Hne Hst.
  assert (muxReceive fr r = (Ok (Some (EDetach None (Some (EAmqp inconsistent_id)))),
    (closeWithError inconsistent_id r).2)) as E.
  { unfold muxReceive, muxReceive_next. rewrite Hm, Hf, Hi. cbn [negb option_differs].
    by replace (id' =? id) with false by lia. }
  exists (fail_with (Some (EDetach None (Some (EAmqp inconsistent_id)))) (closeWithError inconsistent_id r).2).
  split; [|unfold closeWithError; destruct r as [[]]; cbn; by case_match].
  destruct rst; [| |done]; cbn [mux_step]; unfold mux_rx, muxHandleFrame; by rewrite E.
Qed.

(** ** Both ends *)

Lemma concat_bound n (cs : list bytes) :
  Forall (fun c => 0 < zlen c <= n) cs -> zlen (concat cs) <= n * zlen cs.
Proof. induction 1 as [|c cs Hc _ IH]; cbn [concat]; [zlia|]. rewrite zlen_app, zlen_cons. lia. Qed.

(** C38: a Send that is cancelled in the middle of a message costs the receiver its
    link.  When the context ends after [j] of more than [j] frames, Send returns
    the context's error and the peer's receiver, which has taken these
    frames, waits for the rest of the message.  The first frame of the next
    message, whatever that is and however its Send ends, has another delivery id: the
    receiver's mux returns with an error and neither message is delivered.  The
    aborted flag, which would discard the unfinished one, is never sent. *)
Theorem cancelled_send_detaches peerMax nextID done evs msg s bs j r :
  Encodes (Message_Marshal msg) bs -> sendable s msg bs -> maxTransferFrameHeader < peerMax < 2 ^ 32 ->
  inu 32 (l_handle (s_l s)) = true -> inu 32 (m_Format msg) = true -> idle r -> size_ok r (zlen bs) ->
  (0 < j)%nat -> Z.of_nat j * (peerMax - maxTransferFrameHeader) < zlen bs ->
  exists frs s' r',
    send peerMax nextID done (replicate j SSent ++ SCtxDone :: evs) msg s
      = (Ok (SendErr (Some ECtx)), frs, u32 (nextID + 1), s') /\
    Forall2 crosses frs (received frs) /\ receive_all (received frs) r = (Ok None, r') /\
    r_messages r' = r_messages r /\ unfinished (u32 (nextID + 1)) r' /\
    forall nextID2 done2 evs2 msg2 s2 x fr frs2 id2 s2' rst,
      send peerMax nextID2 done2 evs2 msg2 s2 = (x, fr :: frs2, id2, s2') ->
      u32 (nextID2 + 1) <> u32 (nextID + 1) -> rst <> RExit ->
      exists r2, mux_step rst (RRx (FTransfer (norm_transfer fr))) r' = (Ok tt, no_out, r2, RExit) /\
        r_messages r2 = r_messages r /\ l_err (r_l r2) = Some (EDetach None (Some (EAmqp inconsistent_id))).
Proof.
  intros He Hsend Hp Hh Hf Hr Hs Hj Hlen.
  destruct (send_made peerMax nextID done msg s bs (length bs) He Hsend Hp ltac:(unfold zlen; lia) Hh Hf)
    as (cs & s1 & E & _ & Ec & _ & Hcs & Hx & Hrcv). cbn zeta in E, Hx, Hrcv.
  destruct (Hrcv r Hr Hs) as [_ Hpart].
  apply concat_bound in Hcs. rewrite Ec in Hcs. unfold zlen at 2 in Hcs.
  assert (j < length cs)%nat as Hlt by nia.
  match type of E with _ = (_, ?l, _, _) => set (frs := l) in * end.
  assert (length frs = length cs) as El
    by (rewrite <- (length_map tr_Payload frs); unfold frs; by rewrite frames_of_payload).
  destruct (send_cancelled _ _ _ evs _ _ _ _ _ _ _ j E) as [s2 E2]; [lia|].
  exists (take j frs), s2. eexists. split; [exact E2|]. split; [eapply all_cross, Forall_take, Hx|].
  split; [exact (Hpart j (conj Hj Hlt))|]. split; [by destruct r|]. split; [by destruct r|].
  intros nextID2 done2 evs2 msg2 s2' x fr frs2 id2 s3 rst E3%send_first Hne Hst.
  destruct (unfinished_rejects (u32 (nextID + 1)) (u32 (nextID2 + 1)) (norm_transfer fr) rst
    (in_progress (concat (take j cs)) (identified (u32 (nextID + 1)) (deliveryTag s msg).1 (m_Format msg) false)
       true r)) as (r2 & E4 & E5 & E6); [by destruct r|by destruct fr|done..|].
  exists r2. split; [exact E4|]. split; [|done]. rewrite E5. by destruct r.
Qed.

(** A message of ten bytes in frames of four is given up after the second. *)
Definition hello : Message := NewMessage [104; 101; 108; 108; 111].

Lemma cancelled_send_detaches_witness :
  exists frs s' r',
    send 70 0 1 (replicate 2 SSent ++ [SCtxDone]) hello sample_sender
      = (Ok (SendErr (Some ECtx)), frs, u32 (0 + 1), s') /\
    receive_all (received frs) sample_receiver = (Ok None, r') /\ unfinished (u32 (0 + 1)) r' /\
    forall x fr frs2 id2 s2,
      send 70 1 2 (replicate 10 SSent) hello s' = (x, fr :: frs2, id2, s2) ->
      exists r2, mux_step RSelect (RRx (FTransfer (norm_transfer fr))) r' = (Ok tt, no_out, r2, RExit).
Proof.
  destruct (cancelled_send_detaches 70 0 1 [] hello sample_sender sample_bytes 2 sample_receiver)
    as (frs & s' & r' & E & _ & Er & _ & Hu & Hn);
    [exact sample_encodes|split; [|split; [|left]]; by cbn|by cbn|reflexivity|reflexivity|done|
     split; [by cbn|by left]|lia|by vm_compute|].
  exists frs, s', r'. split; [exact E|]. split; [exact Er|]. split; [exact Hu|].
  intros x fr frs2 id2 s2 E2. destruct (Hn 1 2 _ hello s' x fr frs2 id2 s2 RSelect E2) as (r2 & E3 & _); [done..|].
  by exists r2.
Defined.

(** ** Worse: a message that nobody sent *)

Definition world : Message := NewMessage [119; 111; 114; 108; 100].
Definition horld : bytes := [104; 111; 114; 108; 100].

(** The error does not discard the unfinished message.  The rest of the next
    message, which arrives while the link detaches, has no delivery id and is taken for
    its continuation: the application receives the beginning of the cancelled
    message with the end of the other one, "horld" where "hello" was cancelled
    and "world" was sent. *)
Theorem cancelled_send_corrupts :
  exists frs1 s1 fa fb s2 r1 r2 l' o r3 m,
    send 72 0 1 [SSent; SCtxDone] hello sample_sender = (Ok (SendErr (Some ECtx)), frs1, 1, s1) /\
    send 72 1 2 [SSent; SSent] world s1 = (Ok (SendDone (Some 2)), [fa; fb], 2, s2) /\
    receive_all (received frs1) sample_receiver = (Ok None, r1) /\
    mux_step RSelect (RRx (FTransfer (norm_transfer fa))) r1 = (Ok tt, no_out, r2, RExit) /\
    muxDetach_step (muxDetach_start (r_l r2)) (DRx (FTransfer (norm_transfer fb))) (r_l r2)
      = (l', o, muxDetach_start (r_l r2)) /\
    receive_all (do_transfers o) (set_r_l l' r2) = (Ok None, r3) /\
    (Prefetched r3).1 = Some m /\ m_Data m = [horld].
Proof. do 11 eexists. do 7 (split; [vm_compute; reflexivity|]). vm_compute. reflexivity. Qed.

End Cancel.
