(* ===== verification/Broken.v ===== *)
(** * Broken: a message that cannot be decoded

    The receiver's mux returns when a message cannot be decoded, but it resets
    neither the message in progress nor its buffer, and transfers that arrive while the link
    detaches are still received.  [Message_Unmarshal_left] is what the failed
    decoding leaves; it follows the same path as the decoder. *)

From S2P Require Import Prelude Buffer Types Encode Decode Frames Message Link Creditor Receiver ReceiverSpec Delivery.
Import Buffer Decode Frames Message Errors Link Creditor Receiver ReceiverSpec Delivery.

Module Broken.

(** ** The decoder and what it leaves *)

Lemma unmarshalFields_left_ok {S} (fields : list (UnmarshalField S)) idx s r s' r' :
  unmarshalFields idx fields s r = (Ok s', r') -> unmarshalFields_left fields s r = s'.
Proof.
  revert idx s r. induction fields as [|f fs IH]; intros idx s r; cbn; [by intros [= ->]|].
  unfold mbind, M_bind. destruct (tryReadNull r) as [[[|]|?|?|] r1]; try done.
  - destruct (runHandleNull f s r1) as [[s1|?|?|] r2]; try done. apply IH.
  - destruct (Unmarshal (Field f) r1) as [[[v|]|?|?|] r2]; try done; apply IH.
Qed.

Lemma Message_Unmarshal_left_ok fuel m r m' r' :
  Message_Unmarshal_loop fuel m r = (Ok m', r') -> Message_Unmarshal_left fuel m r = m'.
Proof.
  revert m r. induction fuel as [|fuel IH]; intros m r; cbn [Message_Unmarshal_loop Message_Unmarshal_left];
    unfold mbind at 1, M_bind at 1; cbn; (destruct (Len r >? 0); [|by intros [= ->]]); [done|].
  unfold mbind, M_bind, res_bind, getBytes, lift. cbn.
  destruct (Bytes r) as [buf|?|?|]; try done. destruct (PeekMessageType buf) as [[t h]|?|?|]; try done. cbn.
  destruct (Message_Unmarshal_switch t h m r) as [[m1|?|?|] r1]; try done. apply IH.
Qed.

(** ** The next message *)

(** A message whose annotations are complete and whose data section ends too early:
    a binary of five bytes is announced, none follows. *)
Definition secret : value * value := (VString [107], VString [115; 51; 99]).
Definition truncated : bytes :=
  [0; 83; TypeCodeMessageAnnotations; TypeCodeMap8; 9; 2; TypeCodeStr8; 1; 107; TypeCodeStr8; 3; 115; 51; 99;
   0; 83; TypeCodeApplicationData; TypeCodeVbin8; 5].
(** A whole message with nothing but data. *)
Definition plain : bytes := [0; 83; TypeCodeApplicationData; TypeCodeVbin8; 2; 104; 105].

Definition single_frame (id : Z) (payload : bytes) : PerformTransfer :=
  mkTransfer 0 (Some id) (Some [id]) (Some 0) false false None None false false false payload None.

(** A message that cannot be decoded ends the link, but its sections stay behind:
    the next message, which arrives while the link detaches and is valid, is handed to
    the application with the annotations of the one before it. *)
Theorem broken_message_leaks :
  exists r1 r2 l' o err,
    mux_step RSelect (RRx (FTransfer (single_frame 1 truncated))) sample_receiver = (Ok tt, no_out, r1, RExit) /\
    l_err (r_l r1) = Some err /\
    muxDetach_step (muxDetach_start (r_l r1)) (DRx (FTransfer (single_frame 2 plain))) (r_l r1)
      = (l', o, muxDetach_start (r_l r1)) /\
    receive_all (do_transfers o) (set_r_l l' r1) = (Ok None, r2) /\
    map m_deliveryID (r_messages r2) = [2] /\ map m_Data (r_messages r2) = [[[104; 105]]] /\
    map m_Annotations (r_messages r2) = [Some [secret]].
Proof. eexists _, _, _, _, _. split; [vm_compute; reflexivity|]. repeat (split; [vm_compute; reflexivity|]). by vm_compute. Qed.

End Broken.
