(* ===== verification/LinkOptions.v ===== *)
(** * LinkOptions: creating links (link_options.go, the constructors of
    receiver.go, sender.go and session.go, internal/shared)

    The options of a link, their validation, the configuration of the Attach
    frame and what is taken over from the peer's answer.  [newReceiver] and
    [newSender] are imperative code over the link under construction; NewReceiver
    and NewSender compose them with the attach of Link.v.  The random bytes of a
    generated name and the outcome of allocateHandle (Session.v) are arguments. *)

From S2P Require Import Prelude Buffer Types Encode Decode Frames Message Link Creditor Receiver Sender.
Import Buffer Encode Decode Frames Message Errors Link Creditor Receiver Sender.

Module LinkOptions.

(** ** Generated names (internal/shared) *)

(** The alphabet of [base64.RawURLEncoding]. *)
Definition base64url : bytes :=
  bytes_of_string "ABCDEFGHIJKLMNOPQRSTUVWXYZabcdefghijklmnopqrstuvwxyz0123456789-_".
Definition digit (n : Z) : Z := nth (Z.to_nat n) base64url 0.

(** [base64.RawURLEncoding.EncodeToString]: four digits for three bytes, no
    padding. *)
Fixpoint EncodeToString (b : bytes) : bytes :=
  match b with
  | [] => []
  | [x] => [digit (x / 4); digit (x mod 4 * 16)]
  | [x; y] => [digit (x / 4); digit (x mod 4 * 16 + y / 16); digit (y mod 16 * 4)]
  | x :: y :: z :: b =>
      digit (x / 4) :: digit (x mod 4 * 16 + y / 16) :: digit (y mod 16 * 4 + z / 64)
      :: digit (z mod 64) :: EncodeToString b
  end.

(** RandString(n); [rnd] is the n bytes that the random source delivers. *)
Definition RandString (rnd : bytes) : bytes := EncodeToString rnd.

(** ** Options *)

(** A filter is a function that updates the filter map. *)
Definition Filter : Type := list (bytes * option DescribedType).
Definition LinkFilter : Type := Filter -> Filter.

(** SenderOptions; a nil map is an empty one. *)
Record SenderOptions := mkSenderOptions {
  so_Capabilities : list bytes;
  so_Durability : Z;
  so_DynamicAddress : bool;
  so_ExpiryPolicy : bytes;
  so_ExpiryTimeout : Z;
  so_IgnoreDispositionErrors : bool;
  so_Name : bytes;
  so_Properties : list (bytes * value);
  so_RequestedReceiverSettleMode : option Z;
  so_SettlementMode : option Z;
  so_SourceAddress : bytes;
  so_TargetCapabilities : list bytes;
  so_TargetDurability : Z;
  so_TargetExpiryPolicy : bytes;
  so_TargetExpiryTimeout : Z
}.

(** ReceiverOptions; the age is in nanoseconds. *)
Record ReceiverOptions := mkReceiverOptions {
  ro_Batching : bool;
  ro_BatchMaxAge : Z;
  ro_Capabilities : list bytes;
  ro_Credit : Z;
  ro_Durability : Z;
  ro_DynamicAddress : bool;
  ro_ExpiryPolicy : bytes;
  ro_ExpiryTimeout : Z;
  ro_Filters : list LinkFilter;
  ro_ManualCredits : bool;
  ro_MaxMessageSize : Z;
  ro_Name : bytes;
  ro_Properties : list (bytes * value);
  ro_RequestedSenderSettleMode : option Z;
  ro_SettlementMode : option Z;
  ro_TargetAddress : bytes;
  ro_SenderCapabilities : list bytes;
  ro_SenderDurability : Z;
  ro_SenderExpiryPolicy : bytes;
  ro_SenderExpiryTimeout : Z
}.

Definition selectorFilter : bytes := bytes_of_string "apache.org:selector-filter:string".
Definition selectorFilterCode : Z := 0x0000468C00000004.

Definition NewLinkFilter (name : bytes) (code : Z) (v : value) : LinkFilter := fun f =>
  let descriptor := if negb (code =? 0) then VUint64 code else VSymbol name in
  assoc_set bytes_eqb f name (Some (mkDescribed descriptor v)).

Definition NewSelectorFilter (filter : bytes) : LinkFilter :=
  NewLinkFilter selectorFilter selectorFilterCode (VString filter).

(** ** Applying the options *)

(** [if c { ... }] *)
Definition when {S} (c : bool) (m : M S unit) : M S unit := if c then m else mret tt.

(** Assignments through [l.source] and [l.target], which newReceiver and
    newSender have just set to non-nil pointers. *)
Definition on_source (f : Source -> Source) (l : link) : link :=
  set_l_source (option_map f (l_source l)) l.
Definition on_target (f : Target -> Target) (l : link) : link :=
  set_l_target (option_map f (l_target l)) l.

(** The loop over [opts.Properties]. *)
Fixpoint setProperties (ps : list (bytes * value)) (m : list (bytes * value)) : res (list (bytes * value)) :=
  match ps with
  | [] => Ok m
  | (k, v) :: ps =>
      if zlen k =? 0 then Err (Errorf "link property key must not be empty" [])
      else setProperties ps (assoc_set bytes_eqb m k v)
  end.

(** A settlement mode that is requested, with its check. *)
Definition setMode {S} (mode : option Z) (bound : Z) (msg : String.string) (set : option Z -> S -> S)
  : M S unit :=
  match mode with
  | None => mret tt
  | Some m => when (bound <? m) (errorf msg [m]);; modify (set (Some m))
  end.
Arguments setMode {S} mode bound msg%_string set.

Definition RoleKey_receiver (rnd : bytes) : linkKey := mkKey (RandString rnd) RoleReceiver.
Definition RoleKey_sender (rnd : bytes) : linkKey := mkKey (RandString rnd) RoleSender.

Definition applyReceiverOptions (o : ReceiverOptions) : M Receiver unit :=
  modify (set_r_batching (ro_Batching o));;
  when (0 <? ro_BatchMaxAge o) (modify (set_r_batchMaxAge (ro_BatchMaxAge o)));;
  modify (on_l (on_target (fun t => set_t_Capabilities (t_Capabilities t ++ ro_Capabilities o) t)));;
  when (0 <? ro_Credit o) (modify (set_r_maxCredit (ro_Credit o)));;
  when (DurabilityUnsettledState <? ro_Durability o)
    (errorf "invalid Durability %d" [ro_Durability o]);;
  modify (on_l (on_target (set_t_Durable (ro_Durability o))));;
  when (ro_DynamicAddress o)
    (modify (on_l (on_source (set_s_Address [])));;
     modify (on_l (set_l_dynamicAddr (ro_DynamicAddress o))));;
  when (negb (zlen (ro_ExpiryPolicy o) =? 0))
    (lift (ValidateExpiryPolicy (ro_ExpiryPolicy o));;
     modify (on_l (on_target (set_t_ExpiryPolicy (ro_ExpiryPolicy o)))));;
  modify (on_l (on_target (set_t_Timeout (ro_ExpiryTimeout o))));;
  modify (on_l (on_source (set_s_Filter (fold_left (fun m f => f m) (ro_Filters o) []))));;
  when (ro_ManualCredits o) (modify (set_r_autoSendFlow false));;
  when (0 <? ro_MaxMessageSize o) (modify (on_l (set_l_maxMessageSize (ro_MaxMessageSize o))));;
  when (negb (zlen (ro_Name o) =? 0)) (modify (on_l (set_l_key (mkKey (ro_Name o) RoleReceiver))));;
  ps ← lift (setProperties (ro_Properties o) []);
  modify (on_l (set_l_properties ps));;
  setMode (ro_RequestedSenderSettleMode o) SenderSettleModeMixed "invalid RequestedSenderSettleMode %d" (fun m => on_l (set_l_senderSettleMode m));;
  setMode (ro_SettlementMode o) ReceiverSettleModeSecond "invalid SettlementMode %d" (fun m => on_l (set_l_receiverSettleMode m));;
  modify (on_l (on_target (set_t_Address (ro_TargetAddress o))));;
  modify (on_l (on_source (fun s => set_s_Capabilities (s_Capabilities s ++ ro_SenderCapabilities o) s)));;
  when (negb (ro_SenderDurability o =? DurabilityNone))
    (modify (on_l (on_source (set_s_Durable (ro_SenderDurability o)))));;
  when (negb (bytes_eqb (ro_SenderExpiryPolicy o) ExpirySessionEnd))
    (modify (on_l (on_source (set_s_ExpiryPolicy (ro_SenderExpiryPolicy o)))));;
  when (negb (ro_SenderExpiryTimeout o =? 0))
    (modify (on_l (on_source (set_s_Timeout (ro_SenderExpiryTimeout o))))).

(** The object that a constructor returns, without the receiver state. *)
Definition built {S} (x : res unit * S) : res S :=
  match x with
  | (Ok _, s) => Ok s
  | (Err e, _) => Err e
  | (Panic p, _) => Panic p
  | (OutOfFuel, _) => OutOfFuel
  end.

Definition newReceiver (rnd source : bytes) (opts : option ReceiverOptions) : res Receiver :=
  let r := initReceiver (newLink (RoleKey_receiver rnd) (set_s_Address source newSource) newTarget) in
  match opts with
  | None => Ok r
  | Some o => built (applyReceiverOptions o r)
  end.

Definition applySenderOptions (o : SenderOptions) : M Sender unit :=
  modify (on_sl (on_source (fun s => set_s_Capabilities (s_Capabilities s ++ so_Capabilities o) s)));;
  when (DurabilityUnsettledState <? so_Durability o)
    (errorf "invalid Durability %d" [so_Durability o]);;
  modify (on_sl (on_source (set_s_Durable (so_Durability o))));;
  when (so_DynamicAddress o)
    (modify (on_sl (on_target (set_t_Address [])));;
     modify (on_sl (set_l_dynamicAddr (so_DynamicAddress o))));;
  when (negb (zlen (so_ExpiryPolicy o) =? 0))
    (lift (ValidateExpiryPolicy (so_ExpiryPolicy o));;
     modify (on_sl (on_source (set_s_ExpiryPolicy (so_ExpiryPolicy o)))));;
  modify (on_sl (on_source (set_s_Timeout (so_ExpiryTimeout o))));;
  modify (set_s_detachOnDispositionError (negb (so_IgnoreDispositionErrors o)));;
  when (negb (zlen (so_Name o) =? 0)) (modify (on_sl (set_l_key (mkKey (so_Name o) RoleSender))));;
  ps ← lift (setProperties (so_Properties o) []);
  modify (on_sl (set_l_properties ps));;
  setMode (so_RequestedReceiverSettleMode o) ReceiverSettleModeSecond "invalid RequestedReceiverSettleMode %d" (fun m => on_sl (set_l_receiverSettleMode m));;
  setMode (so_SettlementMode o) SenderSettleModeMixed "invalid SettlementMode %d" (fun m => on_sl (set_l_senderSettleMode m));;
  modify (on_sl (on_source (set_s_Address (so_SourceAddress o))));;
  modify (on_sl (on_target (fun t => set_t_Capabilities (t_Capabilities t ++ so_TargetCapabilities o) t)));;
  when (negb (so_TargetDurability o =? DurabilityNone))
    (modify (on_sl (on_target (set_t_Durable (so_TargetDurability o)))));;
  when (negb (bytes_eqb (so_TargetExpiryPolicy o) ExpirySessionEnd))
    (modify (on_sl (on_target (set_t_ExpiryPolicy (so_TargetExpiryPolicy o)))));;
  when (negb (so_TargetExpiryTimeout o =? 0))
    (modify (on_sl (on_target (set_t_Timeout (so_TargetExpiryTimeout o))))).

Definition newSender (rnd target : bytes) (opts : option SenderOptions) : res Sender :=
  let s := mkSender (newLink (RoleKey_sender rnd) newSource (set_t_Address target newTarget)) true (New []) 0 in
  match opts with
  | None => Ok s
  | Some o => built (applySenderOptions o s)
  end.

(** ** Attaching *)

(** The closures given to link.attach.  [pa.Source] and [pa.Target] are the link's
    own pointers, so that a write through them shows in the link as well; a nil
    pointer is replaced by a fresh object, which is not the link's. *)
Definition receiver_beforeAttach (pa : PerformAttach) (l : link) : PerformAttach * link :=
  let dyn := set_s_Dynamic (l_dynamicAddr l) in
  let pa := set_a_Role RoleReceiver pa in
  match a_Source pa with
  | None => (set_a_Source (Some (dyn newSource)) pa, l)
  | Some s => (set_a_Source (Some (dyn s)) pa, set_l_source (Some (dyn s)) l)
  end.

Definition receiver_afterAttach (pa : PerformAttach) (l : link) : link :=
  let l := match l_source l with None => set_l_source (Some newSource) l | Some _ => l end in
  let l := match a_Source pa with
           | Some s => if l_dynamicAddr l then on_source (set_s_Address (s_Address s)) l else l
           | None => l
           end in
  let l := set_l_deliveryCount (a_InitialDeliveryCount pa) l in
  match a_Source pa with
  | Some s => on_source (set_s_Filter (s_Filter s)) l
  | None => l
  end.

Definition sender_beforeAttach (pa : PerformAttach) (l : link) : PerformAttach * link :=
  let dyn := set_t_Dynamic (l_dynamicAddr l) in
  let pa := set_a_Role RoleSender pa in
  match a_Target pa with
  | None => (set_a_Target (Some (dyn newTarget)) pa, l)
  | Some t => (set_a_Target (Some (dyn t)) pa, set_l_target (Some (dyn t)) l)
  end.

Definition sender_afterAttach (pa : PerformAttach) (l : link) : link :=
  let l := match l_target l with None => set_l_target (Some newTarget) l | Some _ => l end in
  match a_Target pa with
  | Some t => if l_dynamicAddr l then on_target (set_t_Address (t_Address t)) l else l
  | None => l
  end.

(** link.attach with the given closures; [handle] is what allocateHandle
    returned. *)
Definition link_attach (beforeAttach : PerformAttach -> link -> PerformAttach * link)
  (afterAttach : PerformAttach -> link -> link) (handle : res Z) (evs : list attach_event) (l : link)
  : link * list link_action * attach_state :=
  match handle with
  | Ok h =>
      let '(l1, a1, st1) := attach_start beforeAttach (set_l_handle h l) in
      let '(l2, a2, st2) := attach_run afterAttach st1 evs l1 in
      (l2, a1 ++ a2, st2)
  | Err e => (l, [], AttachFailed (EText e))
  | _ => (l, [], AwaitAttach)
  end.

Definition Receiver_attach (handle : res Z) (evs : list attach_event) (r : Receiver)
  : Receiver * list link_action * attach_state :=
  let '(l, acts, st) := link_attach receiver_beforeAttach receiver_afterAttach handle evs (r_l r) in
  (set_r_messages [] (set_r_unsettledMessages ∅ (set_r_l l r)), acts, st).

Definition Sender_attach (handle : res Z) (evs : list attach_event) (s : Sender)
  : Sender * list link_action * attach_state :=
  if negb (senderSettleModeValue (l_senderSettleMode (s_l s)) =? SenderSettleModeSettled)
     && (receiverSettleModeValue (l_receiverSettleMode (s_l s)) =? ReceiverSettleModeSecond)
  then (s, [], AttachFailed (ErrorText "sender does not support exactly-once guarantee" []))
  else
    let '(l, acts, st) := link_attach sender_beforeAttach sender_afterAttach handle evs (s_l s) in
    (set_s_l l s, acts, st).

(** ** Session.NewReceiver and Session.NewSender *)

(** What the caller gets; [Waiting] while the attach has not ended. *)
Inductive created (A : Type) :=
| Created (a : A)
| Refused (e : goerr)
| Waiting
| Panicked (p : panic).
Arguments Created {A} a.
Arguments Refused {A} e.
Arguments Waiting {A}.
Arguments Panicked {A} p.

Definition NewReceiver (rnd source : bytes) (opts : option ReceiverOptions) (handle : res Z)
  (evs : list attach_event) : created Receiver * list link_action :=
  match newReceiver rnd source opts with
  | Ok r =>
      let '(r, acts, st) := Receiver_attach handle evs r in
      match st with
      | Attached => (Created (if r_maxCredit r =? 1 then set_r_batching false r else r), acts)
      | AttachFailed e => (Refused e, acts)
      | _ => (Waiting, acts)
      end
  | Err e => (Refused (EText e), [])
  | Panic p => (Panicked p, [])
  | OutOfFuel => (Waiting, [])
  end.

Definition NewSender (rnd target : bytes) (opts : option SenderOptions) (handle : res Z)
  (evs : list attach_event) : created Sender * list link_action :=
  match newSender rnd target opts with
  | Ok s =>
      let '(s, acts, st) := Sender_attach handle evs s in
      match st with
      | Attached => (Created s, acts)
      | AttachFailed e => (Refused e, acts)
      | _ => (Waiting, acts)
      end
  | Err e => (Refused (EText e), [])
  | Panic p => (Panicked p, [])
  | OutOfFuel => (Waiting, [])
  end.

(** ** Accessors *)

Definition Receiver_Address (r : Receiver) : bytes :=
  match l_source (r_l r) with None => [] | Some s => s_Address s end.
Definition Receiver_LinkName (r : Receiver) : bytes := key_name (l_key (r_l r)).
Definition Sender_Address (s : Sender) : bytes :=
  match l_target (s_l s) with None => [] | Some t => t_Address t end.
Definition Sender_LinkName (s : Sender) : bytes := key_name (l_key (s_l s)).
Definition Sender_MaxMessageSize (s : Sender) : Z := l_maxMessageSize (s_l s).

Fixpoint assoc_get {V} (m : list (bytes * V)) (k : bytes) : option V :=
  match m with
  | [] => None
  | (k', v) :: m => if bytes_eqb k' k then Some v else assoc_get m k
  end.

(** LinkSourceFilterValue; a nil filter in the map is a nil dereference. *)
Definition LinkSourceFilterValue (name : bytes) (r : Receiver) : res value :=
  match l_source (r_l r) with
  | None => Ok VNil
  | Some s =>
      match assoc_get (s_Filter s) name with
      | None => Ok VNil
      | Some None => Panic NilDereference
      | Some (Some filter) => Ok (DValue filter)
      end
  end.

(** ** Generated names are different when the random bytes are *)

Lemma digit_inj a b : 0 <= a < 64 -> 0 <= b < 64 -> digit a = digit b -> a = b.
Proof.
  intros Ha Hb H. assert (List.NoDup base64url) as Hd.
  { apply NoDup_ListNoDup. apply (bool_decide_unpack _). by vm_compute. }
  enough (Z.to_nat a = Z.to_nat b) by lia.
  apply (proj1 (List.NoDup_nth base64url 0) Hd); [change (length base64url) with 64%nat; lia..|exact H].
Qed.

(** Case analysis three bytes at a time. *)
Lemma bytes3_ind (P : bytes -> Prop) :
  P [] -> (forall x, P [x]) -> (forall x y, P [x; y]) ->
  (forall x y z l, P l -> P (x :: y :: z :: l)) -> forall l, P l.
Proof.
  intros H0 H1 H2 H3 l. induction l as [l IH] using (induction_ltof1 _ (@length Z)).
  unfold ltof in IH. destruct l as [|x [|y [|z l]]]; auto. apply H3, IH. cbn. lia.
Qed.

Ltac digits := repeat match goal with
  | H : digit _ = digit _ |- _ => apply digit_inj in H; [|unfold is_byte, is_u in *; Z.to_euclidean_division_equations; lia..]
  end.

(** Random bytes of the same number give the same name only when they are the
    same. *)
Lemma RandString_inj a b :
  bytes_ok a -> bytes_ok b -> length a = length b -> RandString a = RandString b -> a = b.
Proof.
  unfold RandString. revert b. induction a as [|x|x y|x y z a IH] using bytes3_ind; intros b Ha Hb Hl H;
    destruct b as [|x' [|y' [|z' b]]]; try discriminate Hl; [done|..]; cbn [EncodeToString] in H; unfold bytes_ok in *;
    decompose_Forall_hyps; simplify_list_eq; digits;
    unfold is_byte, is_u in *.
  - f_equal. Z.to_euclidean_division_equations; lia.
  - repeat f_equal; Z.to_euclidean_division_equations; lia.
  - rewrite (IH b) by (try done; injection Hl; done). repeat f_equal; Z.to_euclidean_division_equations; lia.
Qed.

(** ** What the options mean *)

(** The options that are accepted. *)
Definition policy_valid (e : bytes) : bool :=
  (zlen e =? 0) || match ValidateExpiryPolicy e with Ok _ => true | _ => false end.
Definition properties_valid (ps : list (bytes * value)) : bool :=
  forallb (fun kv => negb (zlen kv.1 =? 0)) ps.
Definition mode_valid (bound : Z) (m : option Z) : bool :=
  match m with None => true | Some m => negb (bound <? m) end.

Definition receiver_options_valid (o : ReceiverOptions) : bool :=
  negb (DurabilityUnsettledState <? ro_Durability o) && policy_valid (ro_ExpiryPolicy o)
  && properties_valid (ro_Properties o)
  && mode_valid SenderSettleModeMixed (ro_RequestedSenderSettleMode o)
  && mode_valid ReceiverSettleModeSecond (ro_SettlementMode o).
Definition sender_options_valid (o : SenderOptions) : bool :=
  negb (DurabilityUnsettledState <? so_Durability o) && policy_valid (so_ExpiryPolicy o)
  && properties_valid (so_Properties o)
  && mode_valid ReceiverSettleModeSecond (so_RequestedReceiverSettleMode o)
  && mode_valid SenderSettleModeMixed (so_SettlementMode o).

Definition link_name (rnd name : bytes) : bytes := if zlen name =? 0 then RandString rnd else name.
Definition properties_of (ps : list (bytes * value)) : list (bytes * value) :=
  fold_left (fun m kv => assoc_set bytes_eqb m kv.1 kv.2) ps [].

(** The receiver and the sender as direct functions of the options: the local
    terminus of a receiver is its target, that of a sender its source. *)
Definition receiver_of (rnd source : bytes) (o : ReceiverOptions) : Receiver :=
  mkReceiver
    (mkLink (mkKey (link_name rnd (ro_Name o)) RoleReceiver) 0 0 (ro_DynamicAddress o) false false None
      (Some (mkSource (if ro_DynamicAddress o then [] else source) (ro_SenderDurability o)
        (if bytes_eqb (ro_SenderExpiryPolicy o) ExpirySessionEnd then [] else ro_SenderExpiryPolicy o)
        (ro_SenderExpiryTimeout o) false [] [] (fold_left (fun m f => f m) (ro_Filters o) []) VNil []
        (ro_SenderCapabilities o)))
      (Some (mkTarget (ro_TargetAddress o) (ro_Durability o) (ro_ExpiryPolicy o) (ro_ExpiryTimeout o)
        false [] (ro_Capabilities o)))
      (properties_of (ro_Properties o)) 0 0 (ro_RequestedSenderSettleMode o) (ro_SettlementMode o)
      (Z.max 0 (ro_MaxMessageSize o)) false None)
    false [] ∅ (New []) false emptyMessage (negb (ro_ManualCredits o)) (ro_Batching o)
    (if 0 <? ro_BatchMaxAge o then ro_BatchMaxAge o else defaultLinkBatchMaxAge) []
    (if 0 <? ro_Credit o then ro_Credit o else defaultLinkCredit) None newCreditor.

Definition sender_of (rnd target : bytes) (o : SenderOptions) : Sender :=
  mkSender
    (mkLink (mkKey (link_name rnd (so_Name o)) RoleSender) 0 0 (so_DynamicAddress o) false false None
      (Some (mkSource (so_SourceAddress o) (so_Durability o) (so_ExpiryPolicy o) (so_ExpiryTimeout o)
        false [] [] [] VNil [] (so_Capabilities o)))
      (Some (mkTarget (if so_DynamicAddress o then [] else target) (so_TargetDurability o)
        (if bytes_eqb (so_TargetExpiryPolicy o) ExpirySessionEnd then [] else so_TargetExpiryPolicy o)
        (so_TargetExpiryTimeout o) false [] (so_TargetCapabilities o)))
      (properties_of (so_Properties o)) 0 0 (so_SettlementMode o) (so_RequestedReceiverSettleMode o)
      0 false None)
    (negb (so_IgnoreDispositionErrors o)) (New []) 0.

Lemma setProperties_ok ps m :
  setProperties ps m =
  if properties_valid ps then Ok (fold_left (fun m kv => assoc_set bytes_eqb m kv.1 kv.2) ps m)
  else Err (Errorf "link property key must not be empty" []).
Proof.
  revert m. induction ps as [|[k v] ps IH]; intros m; [done|]. cbn.
  destruct (zlen k =? 0); cbn; [done|apply IH].
Qed.

(** A conditional assignment. *)
Definition cond {S} (c : bool) (f : S -> S) (s : S) : S := if c then f s else s.

(** Running the statements of the constructors. *)
Section Run.
Context {S B : Type} (k : unit -> M S B) (s : S).

Lemma when_modify c (f : S -> S) : when c (modify f) s = (Ok tt, cond c f s).
Proof. by destruct c. Qed.
Lemma bind_modify (f : S -> S) : (modify f ≫= k) s = k tt (f s).
Proof. done. Qed.
Lemma bind_when_modify c (f : S -> S) : (when c (modify f) ≫= k) s = k tt (cond c f s).
Proof. by destruct c. Qed.
Lemma bind_when_modify2 c (f g : S -> S) :
  (when c (modify f;; modify g) ≫= k) s = k tt (cond c g (cond c f s)).
Proof. by destruct c. Qed.
Lemma bind_check c msg args :
  (when c (errorf msg args) ≫= k) s = if negb c then k tt s else (Err (Errorf msg args), s).
Proof. by destruct c. Qed.
Lemma bind_policy e (f : S -> S) :
  (when (negb (zlen e =? 0)) (lift (ValidateExpiryPolicy e);; modify f) ≫= k) s =
  if policy_valid e then k tt (cond (negb (zlen e =? 0)) f s)
  else (Err (Errorf "unknown expiry-policy %q" e), s).
Proof.
  unfold policy_valid. destruct (zlen e =? 0); [done|]. unfold ValidateExpiryPolicy. by destruct (_ || _).
Qed.
Lemma bind_properties ps (k' : list (bytes * value) -> M S B) :
  (lift (setProperties ps []) ≫= k') s =
  if properties_valid ps then k' (properties_of ps) s
  else (Err (Errorf "link property key must not be empty" []), s).
Proof. rewrite setProperties_ok. by destruct (properties_valid ps). Qed.
Lemma bind_mode m bound msg (f : option Z -> S -> S) :
  (setMode m bound msg f ≫= k) s =
  if mode_valid bound m then k tt (cond (bool_decide (m <> None)) (f m) s)
  else (Err (Errorf msg (match m with None => [] | Some x => [x] end)), s).
Proof. destruct m as [x|]; [|done]. cbn. by destruct (bound <? x). Qed.
End Run.

Create Rewrite HintDb options.
#[export] Hint Rewrite @bind_when_modify @bind_when_modify2 @bind_check @bind_policy @bind_modify @bind_properties
  @bind_mode @when_modify : options.

(** Run a constructor up to its checks, dismissing the failing ones. *)
Ltac run_options := repeat first [progress autorewrite with options
  |match goal with |- context [if ?c then _ else (Err _, _)] => destruct c; [|done] end].

(** A conditional assignment to a field is an assignment of a conditional
    value. *)
Lemma cond_set {S A} (get : S -> A) (set : A -> S -> S) c v s :
  (forall s, set (get s) s = s) -> cond c (set v) s = set (if c then v else get s) s.
Proof. intros H. destruct c; [done|]. cbn. by rewrite H. Qed.
Lemma cond_on_l c f r : cond c (on_l f) r = on_l (cond c f) r.
Proof. destruct c, r; done. Qed.
Lemma cond_on_sl c f s : cond c (on_sl f) s = on_sl (cond c f) s.
Proof. destruct c, s; done. Qed.
Lemma cond_on_source c f l : cond c (on_source f) l = on_source (cond c f) l.
Proof. destruct c; [done|]. destruct l. cbn. unfold on_source. cbn. by destruct l_source0. Qed.
Lemma cond_on_target c f l : cond c (on_target f) l = on_target (cond c f) l.
Proof. destruct c; [done|]. destruct l. cbn. unfold on_target. cbn. by destruct l_target0. Qed.

Create Rewrite HintDb conds.
#[export] Hint Rewrite cond_on_l cond_on_sl cond_on_source cond_on_target
  (cond_set r_batchMaxAge set_r_batchMaxAge) (cond_set r_maxCredit set_r_maxCredit)
  (cond_set r_autoSendFlow set_r_autoSendFlow)
  (cond_set l_dynamicAddr set_l_dynamicAddr) (cond_set l_maxMessageSize set_l_maxMessageSize)
  (cond_set l_key set_l_key) (cond_set l_senderSettleMode set_l_senderSettleMode)
  (cond_set l_receiverSettleMode set_l_receiverSettleMode)
  (cond_set s_Address set_s_Address) (cond_set s_Durable set_s_Durable)
  (cond_set s_ExpiryPolicy set_s_ExpiryPolicy) (cond_set s_Timeout set_s_Timeout)
  (cond_set t_Address set_t_Address) (cond_set t_Durable set_t_Durable)
  (cond_set t_ExpiryPolicy set_t_ExpiryPolicy) (cond_set t_Timeout set_t_Timeout)
  using (by intros []) : conds.

Lemma if_nonzero n : (if negb (n =? 0) then n else 0) = n.
Proof. destruct (Z.eqb_spec n 0); cbn; lia. Qed.
Lemma if_nonempty (e : bytes) : (if negb (zlen e =? 0) then e else []) = e.
Proof. destruct (Z.eqb_spec (zlen e) 0); cbn; [by rewrite zlen_0_nil|done]. Qed.
Lemma if_requested (m : option Z) : (if bool_decide (m <> None) then m else None) = m.
Proof. by destruct m. Qed.
Lemma if_name rnd name role :
  (if negb (zlen name =? 0) then mkKey name role else mkKey (RandString rnd) role) = mkKey (link_name rnd name) role.
Proof. unfold link_name. by destruct (zlen name =? 0). Qed.

(** Evaluate the assignments and compare the fields. *)
Ltac options_fields :=
  repeat (progress autorewrite with conds; cbn -[cond ExpirySessionEnd Z.max Z.ltb]);
  unfold RoleKey_receiver, RoleKey_sender;
  change DurabilityNone with 0; rewrite ?if_nonzero, ?if_nonempty, ?if_requested, ?if_name;
  repeat f_equal; try done.

(** C28: the options of a receiver mean what they say.  newReceiver accepts
    exactly the options whose durability, expiry policy, property names and
    settlement modes are valid, and then every field of the receiver is the
    corresponding option or its default, whatever other options are set. *)
Theorem newReceiver_meaning rnd source o :
  match newReceiver rnd source (Some o) with
  | Ok r => receiver_options_valid o = true /\ r = receiver_of rnd source o
  | Err _ => receiver_options_valid o = false
  | _ => False
  end.
Proof.
  unfold newReceiver, applyReceiverOptions, receiver_options_valid, receiver_of.
  run_options. split; [done|]. options_fields.
  - by destruct (ro_DynamicAddress o).
  - by destruct (bytes_eqb _ _).
  - destruct (Z.ltb_spec 0 (ro_MaxMessageSize o)); lia.
Qed.

Theorem newSender_meaning rnd target o :
  match newSender rnd target (Some o) with
  | Ok s => sender_options_valid o = true /\ s = sender_of rnd target o
  | Err _ => sender_options_valid o = false
  | _ => False
  end.
Proof.
  unfold newSender, applySenderOptions, sender_options_valid, sender_of.
  run_options. split; [done|]. options_fields.
  - by destruct (so_DynamicAddress o).
  - by destruct (bytes_eqb _ _).
Qed.

(** ** Links that are created *)

Lemma receiver_keeps_modes : keeps_modes receiver_afterAttach.
Proof.
  intros pa l. unfold receiver_afterAttach, on_source. destruct l, (a_Source pa); cbn;
    repeat case_match; done.
Qed.
Lemma sender_keeps_modes : keeps_modes sender_afterAttach.
Proof.
  intros pa l. unfold sender_afterAttach, on_target. destruct l, (a_Target pa); cbn;
    repeat case_match; done.
Qed.

(** A link that link.attach attached: the frame that was sent, and the link
    after the answer. *)
Lemma link_attach_attached before after handle evs l l' acts :
  link_attach before after handle evs l = (l', acts, Attached) ->
  exists h pa l1 resp evs', handle = Ok h /\ before (attach_request (set_l_handle h l)) (set_l_handle h l) = (pa, l1) /\
    acts = [TxFrame (FAttach pa)] /\ evs = ARx (FAttach resp) :: evs' /\
    (a_Source resp <> None \/ a_Target resp <> None) /\ attach_accept after resp l1 = (l', [], Attached).
Proof.
  unfold link_attach, attach_start. destruct handle as [h|e|p|]; try done.
  destruct (before _ _) as [pa l1] eqn:Eb. destruct (attach_run _ _ _ _) as [[l2 a2] st2] eqn:E.
  intros ?; simplify_eq. apply attach_run_attached in E as (resp & evs' & -> & Hr & Ha & ->).
  rewrite app_nil_r. by exists h, pa, l1, resp, evs'.
Qed.

(** The link between the request and the answer, for a link that is not attached
    yet: sizes are negotiated down, then the closure runs, then the modes. *)
Lemma attach_accept_inv f resp l l' acts :
  keeps_modes f -> attach_accept f resp l = (l', acts, Attached) ->
  modes_agreed l resp l' /\
  exists m ssm rsm, l' = set_l_senderSettleMode ssm (set_l_receiverSettleMode rsm
              (f resp (set_l_maxMessageSize m l))) /\
            m = (if (l_maxMessageSize l =? 0) || (a_MaxMessageSize resp <? l_maxMessageSize l)
                 then a_MaxMessageSize resp else l_maxMessageSize l).
Proof.
  intros Hf H. split; [by eapply attach_accept_modes|].
  eexists _, (l_senderSettleMode l'), (l_receiverSettleMode l'). split; [|done].
  unfold attach_accept, setSettleModes in H.
  replace (if _ || _ then set_l_maxMessageSize _ l else l) with
    (set_l_maxMessageSize (if (l_maxMessageSize l =? 0) || (a_MaxMessageSize resp <? l_maxMessageSize l)
                 then a_MaxMessageSize resp else l_maxMessageSize l) l) in H.
  2: { destruct (_ || _); by destruct l. }
  repeat case_match; simplify_eq; by destruct (f _ _).
Qed.

(** The Attach frames that the options ask for. *)
Definition receiver_attach_of (rnd source : bytes) (o : ReceiverOptions) (h : Z) : PerformAttach :=
  let l := r_l (receiver_of rnd source o) in
  mkAttach (link_name rnd (ro_Name o)) h RoleReceiver (ro_RequestedSenderSettleMode o) (ro_SettlementMode o)
    (option_map (set_s_Dynamic (ro_DynamicAddress o)) (l_source l)) (l_target l) [] false 0
    (Z.max 0 (ro_MaxMessageSize o)) [] [] (properties_of (ro_Properties o)).
Definition sender_attach_of (rnd target : bytes) (o : SenderOptions) (h : Z) : PerformAttach :=
  let l := s_l (sender_of rnd target o) in
  mkAttach (link_name rnd (so_Name o)) h RoleSender (so_SettlementMode o) (so_RequestedReceiverSettleMode o)
    (l_source l) (option_map (set_t_Dynamic (so_DynamicAddress o)) (l_target l)) [] false 0 0 [] []
    (properties_of (so_Properties o)).

(** C26: a receiver that NewReceiver returns is as its options ask and as the
    peer answered.  The options were valid; exactly one frame was sent, the
    Attach that carries the options; the settlement modes that were requested
    are in force; the delivery count starts where the peer says; the address is
    the given one or, for a dynamic address, the one the peer assigned; the
    filters are the ones the peer applies; and dispositions are batched only
    with more than one credit. *)
Theorem receiver_created rnd source o handle evs r acts :
  NewReceiver rnd source (Some o) handle evs = (Created r, acts) ->
  receiver_options_valid o = true /\
  exists h resp evs', handle = Ok h /\ evs = ARx (FAttach resp) :: evs' /\
    (a_Source resp <> None \/ a_Target resp <> None) /\
    acts = [TxFrame (FAttach (receiver_attach_of rnd source o h))] /\
    (forall m, ro_SettlementMode o = Some m -> l_receiverSettleMode (r_l r) = Some m) /\
    (forall m, ro_RequestedSenderSettleMode o = Some m -> l_senderSettleMode (r_l r) = Some m) /\
    l_deliveryCount (r_l r) = a_InitialDeliveryCount resp /\
    Receiver_LinkName r = link_name rnd (ro_Name o) /\
    (if ro_DynamicAddress o
     then forall s, a_Source resp = Some s -> Receiver_Address r = s_Address s
     else Receiver_Address r = source) /\
    (forall s, a_Source resp = Some s -> option_map s_Filter (l_source (r_l r)) = Some (s_Filter s)) /\
    (r_batching r = true <-> ro_Batching o = true /\ r_maxCredit r <> 1).
Proof.
  unfold NewReceiver. pose proof (newReceiver_meaning rnd source o) as Hn.
  destruct (newReceiver rnd source (Some o)) as [r0| | |]; try done. destruct Hn as [Hv ->].
  unfold Receiver_attach. destruct (link_attach _ _ _ _ _) as [[l a] st] eqn:E. destruct st; try done.
  intros ?; simplify_eq. split; [done|].
  apply link_attach_attached in E as (h & pa & l1 & resp & evs' & -> & Eb & -> & -> & Hr & Ha).
  cbn -[ExpirySessionEnd properties_of] in Eb. simplify_eq. exists h, resp, evs'.
  apply (attach_accept_inv _ _ _ _ _ receiver_keeps_modes) in Ha as [(_ & _ & Hm1 & Hm2) (m & ssm & rsm & -> & _)].
  unfold receiver_attach_of, receiver_of, receiver_afterAttach, Receiver_Address, Receiver_LinkName, on_source in *.
  clear Hv. revert Hm1 Hm2. generalize ExpirySessionEnd (properties_of (ro_Properties o)).
  destruct (a_Source resp) as [s|], (ro_DynamicAddress o); cbn -[Z.eqb Z.ltb]; intros pol ps Hm1 Hm2;
    (destruct (Z.eqb_spec (if 0 <? ro_Credit o then ro_Credit o else defaultLinkCredit) 1) as [Ec|Ec]);
    cbn -[Z.eqb Z.ltb]; rewrite ?Ec; split_and!; naive_solver.
Qed.

(** C27: the same for a sender; moreover a sender never asks for the combination
    of unsettled deliveries and a receiver that settles second, which it does
    not support. *)
Theorem sender_created rnd target o handle evs s acts :
  NewSender rnd target (Some o) handle evs = (Created s, acts) ->
  sender_options_valid o = true /\
  (so_RequestedReceiverSettleMode o = Some ReceiverSettleModeSecond -> so_SettlementMode o = Some SenderSettleModeSettled) /\
  exists h resp evs', handle = Ok h /\ evs = ARx (FAttach resp) :: evs' /\
    (a_Source resp <> None \/ a_Target resp <> None) /\
    acts = [TxFrame (FAttach (sender_attach_of rnd target o h))] /\
    (forall m, so_RequestedReceiverSettleMode o = Some m -> l_receiverSettleMode (s_l s) = Some m) /\
    (forall m, so_SettlementMode o = Some m -> l_senderSettleMode (s_l s) = Some m) /\
    Sender_MaxMessageSize s = a_MaxMessageSize resp /\
    Sender_LinkName s = link_name rnd (so_Name o) /\
    (if so_DynamicAddress o
     then forall t, a_Target resp = Some t -> Sender_Address s = t_Address t
     else Sender_Address s = target).
Proof.
  unfold NewSender. pose proof (newSender_meaning rnd target o) as Hn.
  destruct (newSender rnd target (Some o)) as [s0| | |]; try done. destruct Hn as [Hv ->].
  unfold Sender_attach. destruct (negb _ && _) eqn:Hg; [done|].
  destruct (link_attach _ _ _ _ _) as [[l a] st] eqn:E. destruct st; try done.
  intros ?; simplify_eq. split; [done|]. split.
  { intros Hrs. cbn in Hg. rewrite Hrs in Hg. cbn in Hg. rewrite andb_true_r, negb_false_iff, Z.eqb_eq in Hg.
    destruct (so_SettlementMode o); [by f_equal|done]. }
  apply link_attach_attached in E as (h & pa & l1 & resp & evs' & -> & Eb & -> & -> & Hr & Ha).
  cbn -[ExpirySessionEnd properties_of] in Eb. simplify_eq. exists h, resp, evs'.
  apply (attach_accept_inv _ _ _ _ _ sender_keeps_modes) in Ha as [(_ & _ & Hm1 & Hm2) (m & ssm & rsm & -> & Hm)].
  unfold sender_attach_of, sender_of, sender_afterAttach, Sender_Address, Sender_LinkName, Sender_MaxMessageSize,
    on_target in *.
  clear Hv. revert Hm1 Hm2 Hm. generalize ExpirySessionEnd (properties_of (so_Properties o)).
  destruct (a_Target resp) as [t|], (so_DynamicAddress o); cbn -[Z.eqb Z.ltb]; intros pol ps Hm1 Hm2 ->;
    split_and!; naive_solver.
Qed.


(** ** Examples *)

Definition sample_receiver_options : ReceiverOptions :=
  mkReceiverOptions true 0 [[1]] 10 1 true [] 60 [NewSelectorFilter [65]] false 1000 [76] [([80], VBool true)]
    (Some SenderSettleModeUnsettled) None [84] [] 0 [] 0.
Definition sample_sender_options : SenderOptions :=
  mkSenderOptions [] 0 false ExpiryNever 0 false [76] [] None (Some SenderSettleModeSettled) [83] [] 0 [] 0.

(** The peer accepts, assigns the address [65; 66] and has no size limit. *)
Definition sample_answer : PerformAttach :=
  mkAttach [76] 3 RoleSender (Some SenderSettleModeUnsettled) None (Some (set_s_Address [65; 66] newSource))
    (Some newTarget) [] false 7 0 [] [] [].
Definition sample_sender_answer : PerformAttach :=
  mkAttach [76] 3 RoleReceiver (Some SenderSettleModeSettled) None None (Some newTarget) [] false 0 4096 [] [] [].

Definition sample_created : created Receiver * list link_action :=
  NewReceiver [1; 2; 3] [81] (Some sample_receiver_options) (Ok 0) [ARx (FAttach sample_answer)].
Definition sample_receiver : Receiver :=
  match sample_created.1 with Created r => r | _ => receiver_of [] [] sample_receiver_options end.

Lemma receiver_created_witness :
  receiver_options_valid sample_receiver_options = true /\
  exists h resp evs', Ok 0 = Ok h /\ [ARx (FAttach sample_answer)] = ARx (FAttach resp) :: evs' /\
    (a_Source resp <> None \/ a_Target resp <> None) /\
    sample_created.2 = [TxFrame (FAttach (receiver_attach_of [1; 2; 3] [81] sample_receiver_options h))] /\
    (forall m, ro_SettlementMode sample_receiver_options = Some m -> l_receiverSettleMode (r_l sample_receiver) = Some m) /\
    (forall m, ro_RequestedSenderSettleMode sample_receiver_options = Some m ->
       l_senderSettleMode (r_l sample_receiver) = Some m) /\
    l_deliveryCount (r_l sample_receiver) = a_InitialDeliveryCount resp /\
    Receiver_LinkName sample_receiver = link_name [1; 2; 3] (ro_Name sample_receiver_options) /\
    (if ro_DynamicAddress sample_receiver_options
     then forall s, a_Source resp = Some s -> Receiver_Address sample_receiver = s_Address s
     else Receiver_Address sample_receiver = [81]) /\
    (forall s, a_Source resp = Some s ->
       option_map s_Filter (l_source (r_l sample_receiver)) = Some (s_Filter s)) /\
    (r_batching sample_receiver = true <-> ro_Batching sample_receiver_options = true /\ r_maxCredit sample_receiver <> 1).
Proof.
  apply (receiver_created [1; 2; 3] [81] sample_receiver_options (Ok 0) [ARx (FAttach sample_answer)]
    sample_receiver sample_created.2). vm_compute. reflexivity.
Defined.

Definition sample_created_sender : created Sender * list link_action :=
  NewSender [1; 2; 3] [81] (Some sample_sender_options) (Ok 0) [ARx (FAttach sample_sender_answer)].
Definition sample_new_sender : Sender :=
  match sample_created_sender.1 with Created s => s | _ => sender_of [] [] sample_sender_options end.

Lemma sender_created_witness :
  sender_options_valid sample_sender_options = true /\
  (so_RequestedReceiverSettleMode sample_sender_options = Some ReceiverSettleModeSecond ->
   so_SettlementMode sample_sender_options = Some SenderSettleModeSettled) /\
  exists h resp evs', Ok 0 = Ok h /\ [ARx (FAttach sample_sender_answer)] = ARx (FAttach resp) :: evs' /\
    (a_Source resp <> None \/ a_Target resp <> None) /\
    sample_created_sender.2 = [TxFrame (FAttach (sender_attach_of [1; 2; 3] [81] sample_sender_options h))] /\
    (forall m, so_RequestedReceiverSettleMode sample_sender_options = Some m ->
       l_receiverSettleMode (s_l sample_new_sender) = Some m) /\
    (forall m, so_SettlementMode sample_sender_options = Some m ->
       l_senderSettleMode (s_l sample_new_sender) = Some m) /\
    Sender_MaxMessageSize sample_new_sender = a_MaxMessageSize resp /\
    Sender_LinkName sample_new_sender = link_name [1; 2; 3] (so_Name sample_sender_options) /\
    (if so_DynamicAddress sample_sender_options
     then forall t, a_Target resp = Some t -> Sender_Address sample_new_sender = t_Address t
     else Sender_Address sample_new_sender = [81]).
Proof.
  apply (sender_created [1; 2; 3] [81] sample_sender_options (Ok 0) [ARx (FAttach sample_sender_answer)]
    sample_new_sender sample_created_sender.2). vm_compute. reflexivity.
Defined.

(** C40: a receiver's own limit on the size of messages is lost when the peer
    has none: an answer without max-message-size, which means no limit, sets the
    limit of the link to zero, which means no limit, whatever MaxMessageSize the
    options asked for. *)
Theorem size_limit_dropped rnd source o handle resp evs r acts :
  NewReceiver rnd source (Some o) handle (ARx (FAttach resp) :: evs) = (Created r, acts) ->
  a_MaxMessageSize resp = 0 -> l_maxMessageSize (r_l r) = 0.
Proof.
  unfold NewReceiver. pose proof (newReceiver_meaning rnd source o) as Hn.
  destruct (newReceiver rnd source (Some o)) as [r0| | |]; try done. destruct Hn as [Hv ->].
  unfold Receiver_attach. destruct (link_attach _ _ _ _ _) as [[l a] st] eqn:E. destruct st; try done.
  intros ? Hz; simplify_eq.
  apply link_attach_attached in E as (h & pa & l1 & resp' & evs' & -> & Eb & -> & ? & Hr & Ha).
  cbn -[ExpirySessionEnd properties_of] in Eb. simplify_eq.
  apply (attach_accept_inv _ _ _ _ _ receiver_keeps_modes) in Ha as [_ (m & ssm & rsm & -> & Hm)].
  rewrite Hz in Hm. cbn -[Z.eqb Z.ltb Z.max ExpirySessionEnd properties_of] in Hm.
  assert (m = 0) as ->.
  { rewrite Hm. destruct (Z.eqb_spec (Z.max 0 (ro_MaxMessageSize o)) 0); [done|]. cbn.
    destruct (Z.ltb_spec 0 (Z.max 0 (ro_MaxMessageSize o))); lia. }
  unfold receiver_afterAttach, on_source. destruct (a_Source resp') as [s|], (ro_DynamicAddress o); cbn;
    repeat case_match; done.
Qed.

Lemma size_limit_dropped_witness :
  ro_MaxMessageSize sample_receiver_options = 1000 /\ l_maxMessageSize (r_l sample_receiver) = 0.
Proof.
  split; [reflexivity|].
  apply (size_limit_dropped [1; 2; 3] [81] sample_receiver_options (Ok 0) sample_answer [] sample_receiver
    sample_created.2); vm_compute; reflexivity.
Defined.

(** The combination that Sender.attach rules out, because it makes Send
    hang, is still reached when the peer chooses it: a sender with default
    options is attached with a receiver that settles second and deliveries that
    are not settled. *)
Theorem exactly_once_not_excluded rnd target :
  exists s acts, NewSender rnd target None (Ok 0)
    [ARx (FAttach (set_a_ReceiverSettleMode (Some ReceiverSettleModeSecond)
      (set_a_Target (Some newTarget) newAttach)))] = (Created s, acts) /\
    l_receiverSettleMode (s_l s) = Some ReceiverSettleModeSecond /\
    l_senderSettleMode (s_l s) <> Some SenderSettleModeSettled.
Proof. by do 2 eexists. Qed.

(** ** Filters *)

Lemma assoc_get_set {V} (m : list (bytes * V)) k v k' :
  assoc_get (assoc_set bytes_eqb m k v) k' = if bytes_eqb k k' then Some v else assoc_get m k'.
Proof.
  induction m as [|[k1 v1] m IH]; [done|]. cbn. destruct (bytes_eqb k1 k) eqn:E1; cbn; [|rewrite IH];
    unfold bytes_eqb in *; repeat case_bool_decide; by simplify_eq.
Qed.

(** A filter with the name of an earlier one replaces it; other filters stay. *)
Theorem filter_replaces f name code v name' :
  assoc_get (NewLinkFilter name code v f) name' =
  if bytes_eqb name name'
  then Some (Some (mkDescribed (if code =? 0 then VSymbol name else VUint64 code) v))
  else assoc_get f name'.
Proof. unfold NewLinkFilter. rewrite assoc_get_set. by destruct (code =? 0). Qed.

End LinkOptions.
