(* ===== verification/Session.v ===== *)
(** * Session: channels of links on a connection (session.go)

    A session multiplexes its links: it allocates their handles, keeps the
    session's flow-control windows and passes frames between the connection and
    the links.  The mux is a step function over the event its [select] picks; the
    frames it sends and the channels it signals are recorded in order.

    Links are shared objects: a pointer is a number, and the links it can reach
    are in a store. *)

From S2P Require Import Prelude Bitmap Buffer Types Encode Decode Frames Link.
Import Buffer Encode Decode Frames Errors Link.

Module Session.

Definition defaultWindow : Z := 5000.

(** SessionOptions *)
Record SessionOptions := mkSessionOptions {
  so_IncomingWindow : Z;
  so_OutgoingWindow : Z;
  so_MaxLinks : Z
}.

(** Session; [ss_done] says whether the channel has been closed, [ss_linksByKey] holds
    pointers to links. *)
Record Session := mkSession {
  ss_channel : Z;
  ss_remoteChannel : Z;
  ss_incomingWindow : Z;
  ss_outgoingWindow : Z;
  ss_needFlowCount : Z;
  ss_handleMax : Z;
  ss_nextDeliveryID : Z;
  ss_linksByKey : gmap linkKey Z;
  ss_handles : Bitmap.Bitmap;
  ss_done : bool;
  ss_err : option goerr
}.

Definition set_ss_channel (v : Z) (s : Session) : Session :=
  match s with mkSession _ x2 x3 x4 x5 x6 x7 x8 x9 x10 x11 => mkSession v x2 x3 x4 x5 x6 x7 x8 x9
    x10 x11 end.
Definition set_ss_remoteChannel (v : Z) (s : Session) : Session :=
  match s with mkSession x1 _ x3 x4 x5 x6 x7 x8 x9 x10 x11 => mkSession x1 v x3 x4 x5 x6 x7 x8 x9
    x10 x11 end.
Definition set_ss_incomingWindow (v : Z) (s : Session) : Session :=
  match s with mkSession x1 x2 _ x4 x5 x6 x7 x8 x9 x10 x11 => mkSession x1 x2 v x4 x5 x6 x7 x8 x9
    x10 x11 end.
Definition set_ss_outgoingWindow (v : Z) (s : Session) : Session :=
  match s with mkSession x1 x2 x3 _ x5 x6 x7 x8 x9 x10 x11 => mkSession x1 x2 x3 v x5 x6 x7 x8 x9
    x10 x11 end.
Definition set_ss_needFlowCount (v : Z) (s : Session) : Session :=
  match s with mkSession x1 x2 x3 x4 _ x6 x7 x8 x9 x10 x11 => mkSession x1 x2 x3 x4 v x6 x7 x8 x9
    x10 x11 end.
Definition set_ss_handleMax (v : Z) (s : Session) : Session :=
  match s with mkSession x1 x2 x3 x4 x5 _ x7 x8 x9 x10 x11 => mkSession x1 x2 x3 x4 x5 v x7 x8 x9
    x10 x11 end.
Definition set_ss_nextDeliveryID (v : Z) (s : Session) : Session :=
  match s with mkSession x1 x2 x3 x4 x5 x6 _ x8 x9 x10 x11 => mkSession x1 x2 x3 x4 x5 x6 v x8 x9
    x10 x11 end.
Definition set_ss_linksByKey (v : gmap linkKey Z) (s : Session) : Session :=
  match s with mkSession x1 x2 x3 x4 x5 x6 x7 _ x9 x10 x11 => mkSession x1 x2 x3 x4 x5 x6 x7 v x9
    x10 x11 end.
Definition set_ss_handles (v : Bitmap.Bitmap) (s : Session) : Session :=
  match s with mkSession x1 x2 x3 x4 x5 x6 x7 x8 _ x10 x11 => mkSession x1 x2 x3 x4 x5 x6 x7 x8 v
    x10 x11 end.
Definition set_ss_done (v : bool) (s : Session) : Session :=
  match s with mkSession x1 x2 x3 x4 x5 x6 x7 x8 x9 _ x11 => mkSession x1 x2 x3 x4 x5 x6 x7 x8 x9
    v x11 end.
Definition set_ss_err (v : option goerr) (s : Session) : Session :=
  match s with mkSession x1 x2 x3 x4 x5 x6 x7 x8 x9 x10 _ => mkSession x1 x2 x3 x4 x5 x6 x7 x8 x9
    x10 v end.

Definition newSession (channel : Z) (opts : option SessionOptions) : Session :=
  let incomingWindow :=
    match opts with
    | Some o => if negb (so_IncomingWindow o =? 0) then so_IncomingWindow o else defaultWindow
    | None => defaultWindow
    end in
  let outgoingWindow :=
    match opts with
    | Some o => if negb (so_OutgoingWindow o =? 0) then so_OutgoingWindow o else defaultWindow
    | None => defaultWindow
    end in
  let handleMax :=
    match opts with
    | Some o => if negb (so_MaxLinks o =? 0) then u32 (so_MaxLinks o - 1) else MaxUint32
    | None => MaxUint32
    end in
  mkSession channel 0 incomingWindow outgoingWindow 0 handleMax 0 ∅ (Bitmap.New handleMax) false None.

(** ** The state of the mux *)

(** The local variables of mux: maps from remote handles to links, from delivery
    ids to handles and to the channels that wait for settlement, and the windows. *)
Record muxVars := mkMuxVars {
  mx_links : gmap Z Z;
  mx_handlesByDeliveryID : gmap Z Z;
  mx_deliveryIDByHandle : gmap Z Z;
  mx_handlesByRemoteDeliveryID : gmap Z Z;
  mx_settlementByDeliveryID : gmap Z Z;
  mx_nextOutgoingID : Z;
  mx_nextIncomingID : Z;
  mx_remoteIncomingWindow : Z;
  mx_remoteOutgoingWindow : Z
}.

Definition set_mx_links (v : gmap Z Z) (s : muxVars) : muxVars :=
  match s with mkMuxVars _ x2 x3 x4 x5 x6 x7 x8 x9 => mkMuxVars v x2 x3 x4 x5 x6 x7 x8 x9 end.
Definition set_mx_handlesByDeliveryID (v : gmap Z Z) (s : muxVars) : muxVars :=
  match s with mkMuxVars x1 _ x3 x4 x5 x6 x7 x8 x9 => mkMuxVars x1 v x3 x4 x5 x6 x7 x8 x9 end.
Definition set_mx_deliveryIDByHandle (v : gmap Z Z) (s : muxVars) : muxVars :=
  match s with mkMuxVars x1 x2 _ x4 x5 x6 x7 x8 x9 => mkMuxVars x1 x2 v x4 x5 x6 x7 x8 x9 end.
Definition set_mx_handlesByRemoteDeliveryID (v : gmap Z Z) (s : muxVars) : muxVars :=
  match s with mkMuxVars x1 x2 x3 _ x5 x6 x7 x8 x9 => mkMuxVars x1 x2 x3 v x5 x6 x7 x8 x9 end.
Definition set_mx_settlementByDeliveryID (v : gmap Z Z) (s : muxVars) : muxVars :=
  match s with mkMuxVars x1 x2 x3 x4 _ x6 x7 x8 x9 => mkMuxVars x1 x2 x3 x4 v x6 x7 x8 x9 end.
Definition set_mx_nextOutgoingID (v : Z) (s : muxVars) : muxVars :=
  match s with mkMuxVars x1 x2 x3 x4 x5 _ x7 x8 x9 => mkMuxVars x1 x2 x3 x4 x5 v x7 x8 x9 end.
Definition set_mx_nextIncomingID (v : Z) (s : muxVars) : muxVars :=
  match s with mkMuxVars x1 x2 x3 x4 x5 x6 _ x8 x9 => mkMuxVars x1 x2 x3 x4 x5 x6 v x8 x9 end.
Definition set_mx_remoteIncomingWindow (v : Z) (s : muxVars) : muxVars :=
  match s with mkMuxVars x1 x2 x3 x4 x5 x6 x7 _ x9 => mkMuxVars x1 x2 x3 x4 x5 x6 x7 v x9 end.
Definition set_mx_remoteOutgoingWindow (v : Z) (s : muxVars) : muxVars :=
  match s with mkMuxVars x1 x2 x3 x4 x5 x6 x7 x8 _ => mkMuxVars x1 x2 x3 x4 x5 x6 x7 x8 v end.

Definition newMuxVars (remoteBegin : PerformBegin) : muxVars :=
  mkMuxVars ∅ ∅ ∅ ∅ ∅ 0 (b_NextOutgoingID remoteBegin) (b_IncomingWindow remoteBegin)
    (b_OutgoingWindow remoteBegin).

(** What a session does that others see. *)
Inductive action :=
| ATxFrame (body : FrameBody) (done : option Z)
| AToLink (p : Z) (body : FrameBody)
| ASettle (done : Z) (state : option DeliveryState)
| ADeleteSession
| ACloseRx (p : Z).

(** The session, the store of links, the links whose [rx] channel has been closed,
    the variables of the mux and what has been done so far. *)
Record state := mkState {
  st_s : Session;
  st_store : gmap Z link;
  st_closedRx : gset Z;
  st_m : muxVars;
  st_out : list action
}.

Definition set_st_s (v : Session) (s : state) : state :=
  match s with mkState _ x2 x3 x4 x5 => mkState v x2 x3 x4 x5 end.
Definition set_st_store (v : gmap Z link) (s : state) : state :=
  match s with mkState x1 _ x3 x4 x5 => mkState x1 v x3 x4 x5 end.
Definition set_st_closedRx (v : gset Z) (s : state) : state :=
  match s with mkState x1 x2 _ x4 x5 => mkState x1 x2 v x4 x5 end.
Definition set_st_m (v : muxVars) (s : state) : state :=
  match s with mkState x1 x2 x3 _ x5 => mkState x1 x2 x3 v x5 end.
Definition set_st_out (v : list action) (s : state) : state :=
  match s with mkState x1 x2 x3 x4 _ => mkState x1 x2 x3 x4 v end.

Definition on_s (f : Session -> Session) (st : state) : state := set_st_s (f (st_s st)) st.
Definition on_m (f : muxVars -> muxVars) (st : state) : state := set_st_m (f (st_m st)) st.

Definition emit (a : action) : M state unit := modify (fun st => set_st_out (st_out st ++ [a]) st).

Definition deref (p : Z) : M state link :=
  l ← gets (fun st => st_store st !! p);
  match l with Some l => mret l | None => panics NilDereference end.
Definition update (p : Z) (f : link -> link) : M state unit :=
  modify (fun st => set_st_store (alter f p (st_store st)) st).

(** ** Link handles *)

Definition allocateHandle (p : Z) : M state unit :=
  l ← deref p;
  existing ← gets (fun st => ss_linksByKey (st_s st) !! l_key l);
  match existing with
  | Some _ => errorf "link with name '%v' already exists" (key_name (l_key l))
  | None =>
      handles ← gets (fun st => ss_handles (st_s st));
      match Bitmap.Next handles with
      | (next, true, handles) =>
          modify (on_s (set_ss_handles handles));;
          update p (set_l_handle next);;
          modify (on_s (fun s => set_ss_linksByKey (<[ l_key l := p ]> (ss_linksByKey s)) s))
      | (_, false, handles) =>
          modify (on_s (set_ss_handles handles));;
          handleMax ← gets (fun st => ss_handleMax (st_s st));
          errorf "reached session handle max (%d)" [u32 (handleMax + 1)]
      end
  end.

Definition deallocateHandle (p : Z) : M state unit :=
  l ← deref p;
  modify (on_s (fun s => set_ss_linksByKey (delete (l_key l) (ss_linksByKey s)) s));;
  modify (on_s (fun s => set_ss_handles (Bitmap.Remove (ss_handles s) (l_handle l)) s));;
  closed ← gets (fun st => bool_decide (p ∈ st_closedRx st));
  if closed : bool then panics ClosedChannel
  else modify (fun st => set_st_closedRx ({[ p ]} ∪ st_closedRx st) st);; emit (ACloseRx p).

(** ** Frames to the connection and to the links *)

Definition txFrame (body : FrameBody) (done : option Z) : M state unit := emit (ATxFrame body done).

(** The frame is offered to the link.  When the link is detached or the connection
    is done, the [select] can also take that case and drop the frame, which
    [skip p] says; otherwise a closed [rx] makes the send panic.  The [select] for
    transfers, which has no case for a detached link, is the same. *)
Definition muxFrameToLink (skip : Z -> bool) (p : Z) (body : FrameBody) : M state unit :=
  if skip p then mret tt else
  closed ← gets (fun st => bool_decide (p ∈ st_closedRx st));
  if closed : bool then panics ClosedChannel else emit (AToLink p body).

(** ** The mux *)

Inductive phase :=
| MuxRunning
| MuxEnding
| MuxExited.

#[export] Instance phase_eq_dec : EqDecision phase.
Proof. solve_decision. Defined.

Inductive event :=
| EConnDone (doneErr : goerr)
| EClose
| ERxSelect (skip : Z -> bool) (body : FrameBody)
| ETxTransfer (fr : PerformTransfer)
| ETx (body : FrameBody).

(** A frame that is offered to a link is taken by it. *)
Definition taken (p : Z) : bool := false.
Notation ERx := (ERxSelect taken).

(** The deferred function. *)
Definition mux_err (err : option goerr) : goerr :=
  match err with
  | None => ESession None None
  | Some (EConn r i) => EConn r i
  | Some (EAmqp e) => ESession (Some e) None
  | Some EAmqpNil => ESession None None
  | Some e => ESession None (Some e)
  end.

Definition mux_exit : M state phase :=
  emit ADeleteSession;;
  modify (on_s (fun s => set_ss_done true (set_ss_err (Some (mux_err (ss_err s))) s)));;
  mret MuxExited.

Definition mux_fail (e : goerr) : M state phase :=
  modify (on_s (set_ss_err (Some e)));; mux_exit.

(** The flow frame for the session's windows. *)
Definition session_flow (st : state) : PerformFlow :=
  mkFlow (Some (mx_nextIncomingID (st_m st))) (ss_incomingWindow (st_s st))
    (mx_nextOutgoingID (st_m st)) (ss_outgoingWindow (st_s st)) None None None None false false [].

(** One delivery id of a disposition. *)
Definition mux_dispose (skip : Z -> bool) (body : PerformDisposition) (deliveryID : Z) : M state unit :=
  handles ← gets (fun st => if Bool.eqb (dp_Role body) RoleSender
                            then mx_handlesByRemoteDeliveryID (st_m st)
                            else mx_handlesByDeliveryID (st_m st));
  match handles !! deliveryID with
  | None => mret tt
  | Some handle =>
      modify (on_m (if Bool.eqb (dp_Role body) RoleSender
                    then set_mx_handlesByRemoteDeliveryID (delete deliveryID handles)
                    else set_mx_handlesByDeliveryID (delete deliveryID handles)));;
      (if dp_Settled body && Bool.eqb (dp_Role body) RoleReceiver then
         settlement ← gets (fun st => mx_settlementByDeliveryID (st_m st));
         match settlement !! deliveryID with
         | Some done =>
             modify (on_m (set_mx_settlementByDeliveryID (delete deliveryID settlement)));;
             emit (ASettle done (dp_State body))
         | None => mret tt
         end
       else mret tt);;
      l ← gets (fun st => mx_links (st_m st) !! handle);
      match l with
      | None => mret tt
      | Some p => muxFrameToLink skip p (FDisposition body)
      end
  end.

(** [for deliveryID := start; deliveryID <= end; deliveryID++] *)
Fixpoint mux_dispose_loop (skip : Z -> bool) (fuel : nat) (deliveryID end_ : Z) (body : PerformDisposition) : M state unit :=
  if deliveryID <=? end_ then
    match fuel with
    | O => lift OutOfFuel
    | S fuel =>
        mux_dispose skip body deliveryID;; mux_dispose_loop skip fuel (u32 (deliveryID + 1)) end_ body
    end
  else mret tt.

Definition mux_rx_disposition (skip : Z -> bool) (body : PerformDisposition) : M state phase :=
  let start := dp_First body in
  let end_ := default start (dp_Last body) in
  mux_dispose_loop skip (S (Z.to_nat (end_ - start))) start end_ body;;
  mret MuxRunning.

Definition mux_rx_flow (skip : Z -> bool) (body : PerformFlow) : M state phase :=
  match f_NextIncomingID body with
  | None =>
      txFrame (FEnd (mkEnd (Some (mkErr ErrCondNotAllowed
        "next-incoming-id not set after session established")))) None;;
      mux_fail (ErrorText
        "protocol error: received flow without next-incoming-id after session established" [])
  | Some nextIncomingID =>
      modify (on_m (fun m =>
        set_mx_remoteIncomingWindow
          (u32 (u32 (f_IncomingWindow body - mx_nextOutgoingID m) + nextIncomingID))
          (set_mx_remoteOutgoingWindow (f_OutgoingWindow body)
             (set_mx_nextIncomingID (f_NextOutgoingID body) m))));;
      match f_Handle body with
      | Some handle =>
          l ← gets (fun st => mx_links (st_m st) !! handle);
          match l with
          | None => mret MuxRunning
          | Some p => muxFrameToLink skip p (FFlow body);; mret MuxRunning
          end
      | None =>
          if f_Echo body then
            resp ← gets session_flow;
            txFrame (FFlow resp) None;; mret MuxRunning
          else mret MuxRunning
      end
  end.

Definition mux_rx_attach (skip : Z -> bool) (body : PerformAttach) : M state phase :=
  l ← gets (fun st => ss_linksByKey (st_s st) !! mkKey (a_Name body) (negb (a_Role body)));
  match l with
  | None => mux_fail (ErrorText "protocol error: received mismatched attach frame %+v" [])
  | Some p =>
      update p (set_l_remoteHandle (a_Handle body));;
      modify (on_m (fun m => set_mx_links (<[ a_Handle body := p ]> (mx_links m)) m));;
      muxFrameToLink skip p (FAttach body);; mret MuxRunning
  end.

(** The flow that gives the peer its window back once half of it is used. *)
Definition mux_update_window : M state unit :=
  due ← gets (fun st => ss_needFlowCount (st_s st) >=? ss_incomingWindow (st_s st) / 2);
  if due : bool then
    modify (on_s (set_ss_needFlowCount 0));;
    flow ← gets session_flow;
    txFrame (FFlow flow) None
  else mret tt.

Definition mux_rx_transfer (skip : Z -> bool) (body : PerformTransfer) : M state phase :=
  modify (on_s (fun s => set_ss_needFlowCount (u32 (ss_needFlowCount s + 1)) s));;
  modify (on_m (fun m => set_mx_nextIncomingID (u32 (mx_nextIncomingID m + 1)) m));;
  modify (on_m (fun m => if mx_remoteOutgoingWindow m >? 0
                         then set_mx_remoteOutgoingWindow (u32 (mx_remoteOutgoingWindow m - 1)) m
                         else m));;
  l ← gets (fun st => mx_links (st_m st) !! tr_Handle body);
  match l with
  | None => mret MuxRunning
  | Some p =>
      muxFrameToLink skip p (FTransfer body);;
      l ← deref p;
      match tr_Settled body, tr_DeliveryID body, l_receiverSettleMode l with
      | false, Some id, Some m =>
          if m =? ReceiverSettleModeSecond then
            modify (on_m (fun m => set_mx_handlesByRemoteDeliveryID
              (<[ id := tr_Handle body ]> (mx_handlesByRemoteDeliveryID m)) m))
          else mret tt
      | _, _, _ => mret tt
      end;;
      mux_update_window;; mret MuxRunning
  end.

Definition mux_rx_detach (skip : Z -> bool) (body : PerformDetach) : M state phase :=
  l ← gets (fun st => mx_links (st_m st) !! dt_Handle body);
  match l with
  | None => mret MuxRunning
  | Some p =>
      muxFrameToLink skip p (FDetach body);;
      l ← deref p;
      modify (on_m (fun m => set_mx_links (delete (l_remoteHandle l) (mx_links m)) m));;
      modify (on_m (fun m => set_mx_deliveryIDByHandle
        (delete (l_handle l) (mx_deliveryIDByHandle m)) m));;
      mret MuxRunning
  end.

Definition mux_rx_end (body : PerformEnd) : M state phase :=
  txFrame (FEnd (mkEnd None)) None;;
  match e_Error body with
  | Some e => mux_fail (EAmqp e)
  | None => mux_exit
  end.

Definition mux_rx (skip : Z -> bool) (body : FrameBody) : M state phase :=
  match body with
  | FDisposition d => mux_rx_disposition skip d
  | FFlow f => mux_rx_flow skip f
  | FAttach a => mux_rx_attach skip a
  | FTransfer t => mux_rx_transfer skip t
  | FDetach d => mux_rx_detach skip d
  | FEnd e => mux_rx_end e
  | _ => mret MuxRunning
  end.

(** The transfers channel is disabled while a window is zero. *)
Definition window_open (st : state) : bool :=
  negb ((mx_remoteIncomingWindow (st_m st) =? 0) || (ss_outgoingWindow (st_s st) =? 0)).

(** The maps after a transfer: its delivery id, and the variables. *)
Definition track_transfer (fr : PerformTransfer) (m : muxVars) : Z * muxVars :=
  match tr_DeliveryID fr with
  | Some deliveryID =>
      let m := set_mx_deliveryIDByHandle
                 (<[ tr_Handle fr := deliveryID ]> (mx_deliveryIDByHandle m)) m in
      (deliveryID,
       if negb (tr_Settled fr)
       then set_mx_handlesByDeliveryID (<[ deliveryID := tr_Handle fr ]> (mx_handlesByDeliveryID m)) m
       else m)
  | None => (default 0 (mx_deliveryIDByHandle m !! tr_Handle fr), m)
  end.

Definition mux_txTransfer (fr : PerformTransfer) : M state unit :=
  '(deliveryID, m) ← gets (fun st => track_transfer fr (st_m st));
  modify (set_st_m m);;
  (if tr_Settled fr
   then modify (on_m (fun m => set_mx_handlesByDeliveryID
                                 (delete deliveryID (mx_handlesByDeliveryID m)) m))
   else mret tt);;
  fr ← match tr_Settled fr, tr_Done fr with
       | false, Some done =>
           modify (on_m (fun m => set_mx_settlementByDeliveryID
             (<[ deliveryID := done ]> (mx_settlementByDeliveryID m)) m));;
           mret (set_tr_Done None fr)
       | _, _ => mret fr
       end;
  txFrame (FTransfer fr) (tr_Done fr);;
  modify (on_m (fun m => set_mx_nextOutgoingID (u32 (mx_nextOutgoingID m + 1)) m));;
  modify (on_m (fun m => if negb (mx_remoteIncomingWindow m =? 0)
                         then set_mx_remoteIncomingWindow (u32 (mx_remoteIncomingWindow m - 1)) m
                         else m)).

Definition mux_tx (body : FrameBody) : M state unit :=
  match body with
  | FFlow fr =>
      st ← gets id;
      let fr := set_f_OutgoingWindow (ss_outgoingWindow (st_s st))
                  (set_f_NextOutgoingID (mx_nextOutgoingID (st_m st))
                     (set_f_IncomingWindow (ss_incomingWindow (st_s st))
                        (set_f_NextIncomingID (Some (mx_nextIncomingID (st_m st))) fr))) in
      txFrame (FFlow fr) None
  | FTransfer _ => panics ExplicitPanic
  | fr => txFrame fr None
  end.

Definition mux_step (ph : phase) (ev : event) : M state phase :=
  match ph, ev with
  | MuxExited, _ => mret MuxExited
  | _, EConnDone e => mux_fail e
  | MuxEnding, ERxSelect _ (FEnd _) => mux_exit
  | MuxEnding, _ => mret MuxEnding
  | MuxRunning, EClose => txFrame (FEnd (mkEnd None)) None;; mret MuxEnding
  | MuxRunning, ERxSelect skip body => mux_rx skip body
  | MuxRunning, ETxTransfer fr =>
      enabled ← gets window_open;
      if enabled : bool then mux_txTransfer fr;; mret MuxRunning else mret MuxRunning
  | MuxRunning, ETx body => mux_tx body;; mret MuxRunning
  end.

Fixpoint mux_run (ph : phase) (evs : list event) : M state phase :=
  match evs with
  | [] => mret ph
  | ev :: evs => ph ← mux_step ph ev; mux_run ph evs
  end.

(** ** Beginning and closing *)

Definition begin_frame (s : Session) : PerformBegin :=
  mkBegin None 0 (ss_incomingWindow s) (ss_outgoingWindow s) (ss_handleMax s) [] [] None.

Inductive begin_event :=
| BCtxDone
| BConnDone (doneErr : goerr)
| BRx (body : FrameBody).

(** begin, after the frame was sent: it starts the mux, or returns an error. *)
Inductive begin_result :=
| BeginMux (remoteBegin : PerformBegin)
| BeginErr (e : goerr).

Definition begin_wait (ev : begin_event) : list action * begin_result :=
  match ev with
  | BCtxDone => ([ATxFrame (FEnd (mkEnd None)) None], BeginErr ECtx)
  | BConnDone e => ([], BeginErr e)
  | BRx (FBegin b) => ([], BeginMux b)
  | BRx _ => ([ADeleteSession], BeginErr (ErrorText "unexpected begin response: %+v" []))
  end.

(** The clean-up that goes on after the context ended; [None] is the time-out. *)
Definition begin_cleanup (ev : option begin_event) : list action :=
  match ev with
  | Some (BRx _) => [ADeleteSession]
  | _ => []
  end.

(** What Close returns once the session is done. *)
Definition Close_result (s : Session) : option goerr :=
  match ss_err s with
  | Some (ESession None None) => None
  | e => e
  end.

(** Close, after it told the mux to close (which is the mux's [EClose]). *)
Definition Close_wait (ev : wait_event) (s : Session) : option (option goerr) :=
  match ev with
  | WaitDone => if ss_done s then Some (Close_result s) else None
  | WaitCtx => Some (Some ECtx)
  end.

End Session.
