(* ===== verification/SessionSpec.v ===== *)
(** * SessionSpec: properties of the session

    Handles are unique, transfers stay within the peer's window, dispositions
    settle the deliveries they name, and the mux leaves a well-defined error. *)

From S2P Require Import Prelude Bitmap Buffer Types Encode Decode Frames Link Session.
Import Buffer Encode Decode Frames Errors Link Session.
Import Bitmap(al_max, al_wf, al_used, al_next_ok, al_next_full, al_free_ok).
#[local] Existing Instance Bitmap.Bitmap_allocator.

Module SessionSpec.

(** Runs the code of a step on a state. *)
Ltac runs :=
  cbv [mbind M_bind mret M_ret gets modify emit txFrame deref update panics errorf fail lift];
  cbn -[Bitmap.Next Bitmap.Remove u32].
Ltac runs_in H :=
  cbv [mbind M_bind mret M_ret gets modify emit txFrame deref update panics errorf fail lift] in H;
  cbn -[Bitmap.Next Bitmap.Remove u32] in H.

(** ** Relations between the states before and after *)

Lemma Keeps_deref (R : relation state) `{!PreOrder R} p : Keeps R (deref p).
Proof.
  apply (Keeps_bind _); [apply (Keeps_gets _)|]. intros [l|]; [apply (Keeps_ret _)|apply (Keeps_panics _)].
Qed.

(** Walks through the code of a step; the updates are left. *)
Ltac keeps := repeat first [apply (Keeps_deref _) | keeps_walk].

(** ** Handles *)

(** Nothing that concerns handles changes; links may learn their remote handle. *)
Definition same_handles (st st' : state) : Prop :=
  ss_linksByKey (st_s st') = ss_linksByKey (st_s st) /\ ss_handles (st_s st') = ss_handles (st_s st) /\
  ss_handleMax (st_s st') = ss_handleMax (st_s st) /\
  forall p, (fun l => (l_key l, l_handle l)) <$> (st_store st' !! p)
            = (fun l => (l_key l, l_handle l)) <$> (st_store st !! p).

#[export] Instance same_handles_preorder : PreOrder same_handles.
Proof.
  split; [done|]. intros x y z (A1 & A2 & A3 & A4) (B1 & B2 & B3 & B4).
  split_and!; [congruence..|]. intros p. by rewrite B4.
Qed.

Lemma same_handles_modify f :
  (forall st, st_store (f st) = st_store st /\ ss_linksByKey (st_s (f st)) = ss_linksByKey (st_s st) /\
    ss_handles (st_s (f st)) = ss_handles (st_s st) /\ ss_handleMax (st_s (f st)) = ss_handleMax (st_s st)) ->
  Keeps same_handles (modify f).
Proof.
  intros H st. destruct (H st) as (E1 & E2 & E3 & E4). unfold modify, same_handles. cbn.
  by rewrite E1.
Qed.
Lemma same_handles_remote p h : Keeps same_handles (update p (set_l_remoteHandle h)).
Proof.
  intros st. unfold update, modify, same_handles. destruct st as [s store c m o]. cbn. split_and!; [done..|].
  intros q. destruct (decide (p = q)) as [<-|Hne]; [|by rewrite lookup_alter_ne].
  rewrite lookup_alter_eq. destruct (store !! p) as [[]|]; done.
Qed.

Ltac same_handles :=
  keeps; first [ apply same_handles_remote
               | apply same_handles_modify; intros [[] ? ? [] ?]; cbn; repeat case_match; done ].

Lemma mux_dispose_handles skip d id : Keeps same_handles (mux_dispose skip d id).
Proof. unfold mux_dispose, emit, muxFrameToLink. same_handles. Qed.
Lemma mux_dispose_loop_handles skip fuel id last d : Keeps same_handles (mux_dispose_loop skip fuel id last d).
Proof.
  revert id. induction fuel as [|fuel IH]; intros id; cbn; case_match; try apply (Keeps_ret _);
    [apply (Keeps_lift _)|]. apply (Keeps_bind _); [apply mux_dispose_handles|intros]. apply IH.
Qed.
Lemma mux_fail_handles e : Keeps same_handles (mux_fail e).
Proof. unfold mux_fail, mux_exit, emit. same_handles. Qed.
Lemma mux_exit_handles : Keeps same_handles mux_exit.
Proof. unfold mux_exit, emit. same_handles. Qed.

Lemma mux_rx_handles skip body : Keeps same_handles (mux_rx skip body).
Proof.
  destruct body; try apply (Keeps_ret _); cbn [mux_rx].
  - unfold mux_rx_attach, muxFrameToLink, emit. keeps; try apply mux_fail_handles; same_handles.
  - unfold mux_rx_flow, muxFrameToLink, txFrame, emit. keeps; try apply mux_fail_handles; same_handles.
  - unfold mux_rx_transfer, mux_update_window, muxFrameToLink, txFrame, emit. same_handles.
  - apply (Keeps_bind _); [apply mux_dispose_loop_handles|intros; apply (Keeps_ret _)].
  - unfold mux_rx_detach, muxFrameToLink, emit. same_handles.
  - unfold mux_rx_end, txFrame, emit. keeps; try apply mux_fail_handles; try apply mux_exit_handles; same_handles.
Qed.

Lemma mux_txTransfer_handles fr : Keeps same_handles (mux_txTransfer fr).
Proof.
  unfold mux_txTransfer, txFrame, emit.
  apply (Keeps_bind _); [apply (Keeps_gets _)|]. intros [id m].
  same_handles.
Qed.
Lemma mux_step_handles ph ev : Keeps same_handles (mux_step ph ev).
Proof.
  destruct ph, ev; cbn [mux_step]; try apply (Keeps_ret _); try apply mux_fail_handles.
  - unfold txFrame, emit. same_handles.
  - apply mux_rx_handles.
  - apply (Keeps_bind _); [apply (Keeps_gets _)|intros []]; [|apply (Keeps_ret _)].
    apply (Keeps_bind _); [apply mux_txTransfer_handles|intros; apply (Keeps_ret _)].
  - unfold mux_tx, txFrame, emit. same_handles.
  - destruct body; try apply (Keeps_ret _). apply mux_exit_handles.
Qed.

(** The registered links are in the store under their own key, with handles that
    are allocated and pairwise different; and no other handle is allocated. *)
Record handles_ok (st : state) : Prop := mkHandlesOk {
  ho_wf : al_wf (ss_handles (st_s st));
  ho_max : al_max (ss_handles (st_s st)) = ss_handleMax (st_s st);
  ho_registered k p :
    ss_linksByKey (st_s st) !! k = Some p ->
    exists l, st_store st !! p = Some l /\ l_key l = k /\
      al_used (ss_handles (st_s st)) (l_handle l) /\ 0 <= l_handle l <= ss_handleMax (st_s st);
  ho_distinct k k' p p' l l' :
    ss_linksByKey (st_s st) !! k = Some p -> ss_linksByKey (st_s st) !! k' = Some p' ->
    st_store st !! p = Some l -> st_store st !! p' = Some l' -> k <> k' -> l_handle l <> l_handle l';
  ho_used h :
    al_used (ss_handles (st_s st)) h ->
    exists k p l, ss_linksByKey (st_s st) !! k = Some p /\ st_store st !! p = Some l /\ l_handle l = h
}.

Lemma same_handles_lookup st st' p l' :
  same_handles st st' -> st_store st' !! p = Some l' ->
  exists l, st_store st !! p = Some l /\ l_key l = l_key l' /\ l_handle l = l_handle l'.
Proof.
  intros (_ & _ & _ & H) E. specialize (H p). rewrite E in H. destruct (st_store st !! p) as [l|] eqn:El;
    [|done]. exists l. cbn in H. simplify_eq. done.
Qed.

Lemma same_handles_sym st st' : same_handles st st' -> same_handles st' st.
Proof. intros (A & B & C & D). by split_and!. Qed.

Lemma handles_ok_same st st' : same_handles st st' -> handles_ok st -> handles_ok st'.
Proof.
  intros Hs [Hwf Hmax Hreg Hdis Huse]. pose proof (same_handles_sym _ _ Hs) as Hs'.
  destruct (Hs) as (E1 & E2 & E3 & _). constructor; rewrite ?E1, ?E2, ?E3; [done|done|..].
  - intros k p Hk. destruct (Hreg k p Hk) as (l & El & <- & Hl).
    destruct (same_handles_lookup _ _ _ _ Hs' El) as (l' & El' & Ek & Eh). exists l'. by rewrite Ek, Eh.
  - intros k k' p p' l l' Hk Hk' Hl Hl' Hne.
    destruct (same_handles_lookup _ _ _ _ Hs Hl) as (l1 & El & _ & <-).
    destruct (same_handles_lookup _ _ _ _ Hs Hl') as (l2 & El' & _ & <-). by apply (Hdis k k' p p').
  - intros h Hh. destruct (Huse h Hh) as (k & p & l & Hk & Hl & <-).
    destruct (same_handles_lookup _ _ _ _ Hs' Hl) as (l' & El' & _ & Eh). by exists k, p, l'.
Qed.

Lemma allocateHandle_run p st :
  handles_ok st ->
  match allocateHandle p st with
  | (Ok _, st') => exists l n, st_store st !! p = Some l /\ ss_linksByKey (st_s st) !! l_key l = None /\
      0 <= n <= ss_handleMax (st_s st) /\ ~ al_used (ss_handles (st_s st)) n /\
      st_store st' = <[ p := set_l_handle n l ]> (st_store st) /\
      ss_linksByKey (st_s st') = <[ l_key l := p ]> (ss_linksByKey (st_s st)) /\
      ss_handleMax (st_s st') = ss_handleMax (st_s st) /\ al_wf (ss_handles (st_s st')) /\
      al_max (ss_handles (st_s st')) = ss_handleMax (st_s st) /\
      forall m, al_used (ss_handles (st_s st')) m <-> m = n \/ al_used (ss_handles (st_s st)) m
  | (Err _, st') => st' = st /\ exists l, st_store st !! p = Some l /\
      (is_Some (ss_linksByKey (st_s st) !! l_key l) \/
       forall h, 0 <= h <= ss_handleMax (st_s st) -> al_used (ss_handles (st_s st)) h)
  | (_, st') => st' = st
  end.
Proof.
  intros [Hwf Hmax _ _ _]. destruct st as [s store c m o]. cbn in *.
  unfold allocateHandle. runs. destruct (store !! p) as [l|] eqn:El; runs; [|done].
  destruct (ss_linksByKey s !! l_key l) as [q|] eqn:Ek; runs;
    [split; [done|]; exists l; split; [done|left; by rewrite Ek]|].
  destruct (Bitmap.Next (ss_handles s)) as [[n []] h] eqn:En.
  - destruct (@al_next_ok _ Bitmap.Bitmap_allocator (ss_handles s) _ _ Hwf En) as (H1 & H2 & H3 & H4 & H5). exists l, n. cbn in *. rewrite Hmax in *.
    destruct s. cbn in *. split_and!; try done; try lia.
    apply map_eq. intros q. destruct (decide (p = q)) as [<-|Hq].
    + by rewrite lookup_alter_eq, lookup_insert_eq, El.
    + by rewrite lookup_alter_ne, lookup_insert_ne.
  - destruct (@al_next_full _ Bitmap.Bitmap_allocator (ss_handles s) _ _ Hwf En) as [-> Hall]. cbn in Hmax, Hall. rewrite Hmax in Hall.
    split; [by destruct s|]. exists l. split; [done|by right].
Qed.

Lemma allocateHandle_handles p st x st' :
  handles_ok st -> allocateHandle p st = (x, st') -> handles_ok st'.
Proof.
  intros Hok E. pose proof (allocateHandle_run p st Hok) as H. rewrite E in H.
  destruct x as [[]|e|pn|]; [|destruct H as [-> _]; done|by subst..]. destruct H as (l & n & El & Ek & Hn & Hfree & Es & El' & Em & Hw & Hmx & Hu).
  destruct Hok as [Hwf Hmax Hreg Hdis Huse].
  assert (forall k q, ss_linksByKey (st_s st) !! k = Some q -> q <> p) as Hp.
  { intros k q Hk ->. destruct (Hreg k p Hk) as (l0 & E0 & <- & _). congruence. }
  constructor; rewrite ?Em, ?Es, ?El'; try done.
  - intros k q Hk. apply lookup_insert_Some in Hk as [[<- <-]|[Hne Hk]].
    + exists (set_l_handle n l). rewrite lookup_insert_eq. destruct l. cbn in *. split_and!; [done..| |lia|lia].
      apply Hu. by left.
    + destruct (Hreg k q Hk) as (l0 & E0 & Ek0 & Hu0 & Hr). exists l0.
      rewrite lookup_insert_ne by (intros <-; by eapply Hp). split_and!; [done..| |lia|lia]. apply Hu. by right.
  - assert (forall k q lq, l_key l <> k -> ss_linksByKey (st_s st) !! k = Some q ->
      <[p:=set_l_handle n l]> (st_store st) !! q = Some lq ->
      st_store st !! q = Some lq /\ al_used (ss_handles (st_s st)) (l_handle lq)) as Hold.
    { intros k q lq _ Hk Hq. rewrite lookup_insert_ne in Hq by (intros <-; by eapply Hp).
      split; [done|]. destruct (Hreg k q Hk) as (l0 & E0 & _ & Hu0 & _). congruence. }
    assert (forall lq, <[p:=set_l_handle n l]> (st_store st) !! p = Some lq -> l_handle lq = n) as Hnew.
    { intros lq Hq. rewrite lookup_insert_eq in Hq. simplify_eq. by destruct l. }
    intros k k' q q' lq lq' Hk Hk' Hq Hq' Hne.
    apply lookup_insert_Some in Hk as [[<- <-]|[Hk1 Hk]];
      apply lookup_insert_Some in Hk' as [[<- <-]|[Hk1' Hk']]; try done.
    + apply Hnew in Hq as ->. destruct (Hold _ _ _ Hk1' Hk' Hq') as [_ Hu']. intros ->. done.
    + apply Hnew in Hq' as ->. destruct (Hold _ _ _ Hk1 Hk Hq) as [_ Hu']. intros <-. done.
    + destruct (Hold _ _ _ Hk1 Hk Hq), (Hold _ _ _ Hk1' Hk' Hq'). by eapply (Hdis k k').
  - intros h [-> |Hh]%Hu.
    + exists (l_key l), p, (set_l_handle n l). rewrite !lookup_insert_eq. by destruct l.
    + destruct (Huse h Hh) as (k & q & lq & Hk & Hq & <-). exists k, q, lq.
      rewrite !lookup_insert_ne; [done|intros <-; by eapply Hp|intros <-; congruence].
Qed.

Lemma deallocateHandle_handles p l st x st' :
  handles_ok st -> st_store st !! p = Some l -> ss_linksByKey (st_s st) !! l_key l = Some p ->
  deallocateHandle p st = (x, st') -> handles_ok st'.
Proof.
  intros [Hwf Hmax Hreg Hdis Huse] El Ek E.
  destruct (Hreg _ _ Ek) as (l0 & E0 & _ & Hu & Hr). rewrite El in E0. simplify_eq.
  assert (st_store st' = st_store st /\ ss_linksByKey (st_s st') = delete (l_key l0) (ss_linksByKey (st_s st)) /\
    ss_handles (st_s st') = Bitmap.Remove (ss_handles (st_s st)) (l_handle l0) /\
    ss_handleMax (st_s st') = ss_handleMax (st_s st)) as (F1 & F2 & F3 & F4).
  { destruct st as [[] ? ? ? ?]. unfold deallocateHandle in E. cbn in *. runs_in E. rewrite El in E. runs_in E.
    case_match; runs_in E; by simplify_eq. }
  destruct (al_free_ok (ss_handles (st_s st)) (l_handle l0) Hwf ltac:(lia)) as (G1 & G2 & G3). cbn in G1, G2, G3.
  constructor; rewrite ?F1, ?F2, ?F3, ?F4; cbn; try done; [by rewrite G2|..].
  - intros k q Hk. apply lookup_delete_Some in Hk as [Hne Hk].
    destruct (Hreg k q Hk) as (lq & Eq & Ekq & Huq & Hrq). exists lq. split_and!; [done..| |lia|lia].
    apply G1. split; [|done]. by eapply (Hdis k (l_key l0)).
  - intros k k' q q' lq lq' Hk Hk'. apply lookup_delete_Some in Hk as [_ Hk], Hk' as [_ Hk'].
    by eapply Hdis.
  - intros h Hh. apply G1 in Hh as [Hne Hh]. destruct (Huse h Hh) as (k & q & lq & Hk & Hq & <-).
    exists k, q, lq. rewrite lookup_delete_ne; [done|]. intros <-. apply Hne. congruence.
Qed.

(** *** Steps of a session *)

(** What other goroutines do to a session: a link is created, with zero handles;
    it is given a handle when it is attached; it gives it back, once, when it is
    detached; and its own mux changes its other fields. *)
Inductive link_step : state -> state -> Prop :=
| ls_new p l st :
    st_store st !! p = None -> l_handle l = 0 -> l_remoteHandle l = 0 ->
    link_step st (set_st_store (<[ p := l ]> (st_store st)) st)
| ls_allocate p x st st' : allocateHandle p st = (x, st') -> link_step st st'
| ls_deallocate p l st st' :
    st_store st !! p = Some l -> ss_linksByKey (st_s st) !! l_key l = Some p ->
    deallocateHandle p st = (Ok tt, st') -> link_step st st'
| ls_own p l l' st :
    st_store st !! p = Some l -> l_key l' = l_key l -> l_handle l' = l_handle l ->
    l_remoteHandle l' = l_remoteHandle l -> link_step st (set_st_store (<[ p := l' ]> (st_store st)) st).

(** The life of a session: its mux takes an event that satisfies [P], or another
    goroutine does something, in any order. *)
Inductive life_step (P : event -> Prop) : phase * state -> phase * state -> Prop :=
| lf_mux ph ev ph' st st' :
    P ev -> mux_step ph ev st = (Ok ph', st') -> life_step P (ph, st) (ph', st')
| lf_link ph st st' : link_step st st' -> life_step P (ph, st) (ph, st').

Definition any_event (ev : event) : Prop := True.

Lemma life_step_weaken (P Q : event -> Prop) x y :
  (forall ev, P ev -> Q ev) -> life_step P x y -> life_step Q x y.
Proof. intros H [ph ev ph' st st' Hp E|ph st st' E]; [eapply lf_mux; eauto|by apply lf_link]. Qed.

(** What the operations on handles leave alone. *)
Lemma allocateHandle_out p st :
  let st' := (allocateHandle p st).2 in
  st_m st' = st_m st /\ st_out st' = st_out st /\
  ss_done (st_s st') = ss_done (st_s st) /\ ss_err (st_s st') = ss_err (st_s st).
Proof.
  destruct st as [[] store c m o]. unfold allocateHandle. runs. destruct (store !! p); runs; [|done].
  case_match; runs; [done|]. destruct (Bitmap.Next _) as [[n []] h]; by runs.
Qed.
Lemma deallocateHandle_out p st :
  let st' := (deallocateHandle p st).2 in
  st_m st' = st_m st /\ (st_out st' = st_out st \/ st_out st' = st_out st ++ [ACloseRx p]) /\
  ss_done (st_s st') = ss_done (st_s st) /\ ss_err (st_s st') = ss_err (st_s st).
Proof.
  destruct st as [[] store c m o]. unfold deallocateHandle. runs. destruct (store !! p); runs; [|by auto].
  case_match; runs; by auto.
Qed.

Lemma link_step_ok st st' : link_step st st' -> handles_ok st -> handles_ok st'.
Proof.
  intros [p l s Hp _ _|p x s s' E|p l s s' El Ek E|p l l' s El E1 E2 E3] Hok.
  - destruct Hok as [Hwf Hmax Hreg Hdis Huse]. destruct s as [s store c m o]. cbn in *.
    assert (forall k q, ss_linksByKey s !! k = Some q -> <[p:=l]> store !! q = store !! q) as Hq.
    { intros k q Hk. destruct (Hreg k q Hk) as (lq & Eq & _). rewrite lookup_insert_ne; [done|]. congruence. }
    constructor; cbn; try done.
    + intros k q Hk. rewrite (Hq k q Hk). by apply Hreg.
    + intros k k' q q' lq lq' Hk Hk'. rewrite (Hq k q Hk), (Hq k' q' Hk'). by apply Hdis.
    + intros h Hh. destruct (Huse h Hh) as (k & q & lq & Hk & Hlq & <-). exists k, q, lq. by rewrite (Hq k q Hk).
  - by eapply allocateHandle_handles.
  - by eapply deallocateHandle_handles.
  - eapply handles_ok_same; [|done]. destruct s as [s store c m o]. cbn in *. split_and!; [done..|]. intros q. cbn.
    destruct (decide (p = q)) as [<-|Hq]; [|by rewrite lookup_insert_ne]. rewrite lookup_insert_eq, El. cbn. congruence.
Qed.

Lemma life_step_ok P x y : life_step P x y -> handles_ok x.2 -> handles_ok y.2.
Proof.
  intros [ph ev ph' st st' _ E|ph st st' E] Hok; cbn in *; [|by eapply link_step_ok].
  eapply handles_ok_same; [|done]. pose proof (mux_step_handles ph ev st) as H. by rewrite E in H.
Qed.

(** A session before its first link. *)
Definition new_state (channel : Z) (opts : option SessionOptions) (remoteBegin : PerformBegin) : state :=
  mkState (newSession channel opts) ∅ ∅ (newMuxVars remoteBegin) [].

Lemma new_state_handles channel opts rb : handles_ok (new_state channel opts rb).
Proof.
  constructor; cbn; try done; [|intros h; by rewrite Bitmap.mem_New].
  apply Bitmap.New_wf. destruct opts as [o|]; [|done]. case_match; [apply u32_range|done].
Qed.

Lemma life_handles P channel opts rb ph st :
  rtc (life_step P) (MuxRunning, new_state channel opts rb) (ph, st) -> handles_ok st.
Proof.
  intros Hst. change (handles_ok (ph, st).2).
  assert (handles_ok (MuxRunning, new_state channel opts rb).2) as Hok by apply new_state_handles.
  revert Hok. induction Hst; eauto using life_step_ok.
Qed.

(** C20: link handles are unique.  However links are created, attached and
    detached on a session and whatever its mux does in between, two links that
    are registered have different handles, and every handle is within the
    session's own handle-max.  A link is refused, and nothing changes, only when
    a link of its name and role is registered or every handle up to the
    handle-max belongs to a registered link. *)
Theorem handles_unique channel opts rb ph st :
  rtc (life_step any_event) (MuxRunning, new_state channel opts rb) (ph, st) ->
  (forall k p l, ss_linksByKey (st_s st) !! k = Some p -> st_store st !! p = Some l ->
     0 <= l_handle l <= ss_handleMax (st_s st)) /\
  (forall k k' p p' l l', ss_linksByKey (st_s st) !! k = Some p -> ss_linksByKey (st_s st) !! k' = Some p' ->
     st_store st !! p = Some l -> st_store st !! p' = Some l' -> k <> k' -> l_handle l <> l_handle l') /\
  (forall q e st', allocateHandle q st = (Err e, st') ->
     st' = st /\ exists lq, st_store st !! q = Some lq /\
       (is_Some (ss_linksByKey (st_s st) !! l_key lq) \/
        forall h, 0 <= h <= ss_handleMax (st_s st) ->
          exists k p l, ss_linksByKey (st_s st) !! k = Some p /\ st_store st !! p = Some l /\ l_handle l = h)).
Proof.
  intros Hst. apply life_handles in Hst as Hok. pose proof Hok as [_ _ Hreg Hdis Huse]. split_and!.
  - intros k p l Hk Hl. destruct (Hreg k p Hk) as (l0 & El & _ & _ & Hr). congruence.
  - apply Hdis.
  - intros q e st' E. pose proof (allocateHandle_run q st Hok) as H. rewrite E in H.
    destruct H as (-> & lq & Hq & H). split; [done|]. exists lq. split; [done|]. destruct H as [H|H]; [by left|right].
    intros h Hh. by apply Huse, H.
Qed.

Definition sample_begin : PerformBegin := mkBegin (Some 0) 0 3 100 MaxUint32 [] [] None.
Definition sample_link (name : Z) (role : bool) : link := newLink (mkKey [name] role) newSource newTarget.
Definition two_links : state :=
  (allocateHandle 2 (allocateHandle 1
    (set_st_store {[ 1 := sample_link 97 RoleSender; 2 := sample_link 98 RoleReceiver ]}
       (new_state 0 None sample_begin))).2).2.

Lemma two_links_reached P : rtc (life_step P) (MuxRunning, new_state 0 None sample_begin) (MuxRunning, two_links).
Proof.
  eapply rtc_l; [apply lf_link, (ls_new 2 (sample_link 98 RoleReceiver)); reflexivity|].
  eapply rtc_l; [apply lf_link, (ls_new 1 (sample_link 97 RoleSender)); reflexivity|].
  eapply rtc_l; [apply lf_link; eapply (ls_allocate 1); reflexivity|].
  eapply rtc_l; [apply lf_link; eapply (ls_allocate 2); reflexivity|]. apply rtc_refl.
Qed.

Lemma handles_unique_witness :
  l_handle (set_l_handle 0 (sample_link 97 RoleSender)) <> l_handle (set_l_handle 1 (sample_link 98 RoleReceiver)).
Proof.
  destruct (handles_unique 0 None sample_begin MuxRunning two_links (two_links_reached _)) as (_ & H & _).
  apply (H (mkKey [97] RoleSender) (mkKey [98] RoleReceiver) 1 2); [vm_compute; reflexivity..|done].
Defined.

(** ** The peer's window *)

Definition is_transfer (a : action) : bool :=
  match a with ATxFrame (FTransfer _) _ => true | _ => false end.

(** The number of transfers the session has sent. *)
Definition transfers (out : list action) : Z := zlen (List.filter is_transfer out).

Lemma transfers_app o o' : transfers (o ++ o') = transfers o + transfers o'.
Proof. unfold transfers. by rewrite List.filter_app, zlen_app. Qed.

Definition same_window (st st' : state) : Prop :=
  mx_remoteIncomingWindow (st_m st') = mx_remoteIncomingWindow (st_m st) /\
  mx_nextOutgoingID (st_m st') = mx_nextOutgoingID (st_m st) /\
  transfers (st_out st') = transfers (st_out st).

#[export] Instance same_window_preorder : PreOrder same_window.
Proof. split; [done|]. unfold same_window. intros x y z ? ?. naive_solver congruence. Qed.

Lemma same_window_emit a : is_transfer a = false -> Keeps same_window (emit a).
Proof.
  intros Ha st. unfold emit, modify, same_window. destruct st. cbn. rewrite transfers_app.
  unfold transfers at 2. cbn. rewrite Ha. change (zlen []) with 0. split_and!; [done..|lia].
Qed.

Ltac same_window :=
  keeps; first [ by apply same_window_emit
               | apply Keeps_modify; intros [[] ? ? [] ?]; unfold same_window; cbn; repeat case_match; done ].

Lemma mux_dispose_window skip d id : Keeps same_window (mux_dispose skip d id).
Proof. unfold mux_dispose, muxFrameToLink. same_window. Qed.
Lemma mux_dispose_loop_window skip fuel id last d : Keeps same_window (mux_dispose_loop skip fuel id last d).
Proof.
  revert id. induction fuel as [|fuel IH]; intros id; cbn; case_match; try apply (Keeps_ret _);
    [apply (Keeps_lift _)|]. apply (Keeps_bind _); [apply mux_dispose_window|intros]. apply IH.
Qed.
Lemma mux_fail_window e : Keeps same_window (mux_fail e).
Proof. unfold mux_fail, mux_exit. same_window. Qed.
Lemma mux_exit_window : Keeps same_window mux_exit.
Proof. unfold mux_exit. same_window. Qed.

(** A flow frame that can change the window. *)
Definition promises (ph : phase) (ev : event) : bool :=
  match ph, ev with
  | MuxRunning, ERxSelect _ (FFlow f) => bool_decide (f_NextIncomingID f <> None)
  | _, _ => false
  end.

Lemma mux_rx_window skip body : promises MuxRunning (ERxSelect skip body) = false -> Keeps same_window (mux_rx skip body).
Proof.
  intros Hf. destruct body; try apply (Keeps_ret _); cbn [mux_rx].
  - unfold mux_rx_attach, update, muxFrameToLink. keeps; try apply mux_fail_window; same_window.
  - cbn in Hf. unfold mux_rx_flow. destruct (f_NextIncomingID f); [done|]. unfold txFrame.
    keeps; try apply mux_fail_window; same_window.
  - unfold mux_rx_transfer, mux_update_window, muxFrameToLink, txFrame. same_window.
  - apply (Keeps_bind _); [apply mux_dispose_loop_window|intros; apply (Keeps_ret _)].
  - unfold mux_rx_detach, muxFrameToLink. same_window.
  - unfold mux_rx_end, txFrame. keeps; try apply mux_fail_window; try apply mux_exit_window; same_window.
Qed.

(** A promised window replaces the old one; what follows sends no transfer. *)
Lemma mux_rx_flow_window skip f n st :
  f_NextIncomingID f = Some n ->
  exists st1, same_window st1 (mux_rx_flow skip f st).2 /\
    mx_remoteIncomingWindow (st_m st1) = u32 (u32 (f_IncomingWindow f - mx_nextOutgoingID (st_m st)) + n) /\
    mx_nextOutgoingID (st_m st1) = mx_nextOutgoingID (st_m st) /\ st_out st1 = st_out st.
Proof.
  intros Hn. unfold mux_rx_flow. rewrite Hn.
  match goal with |- context [modify ?f ≫= ?k] =>
    exists (f st); assert (Keeps same_window (k tt)) as Hk; [|specialize (Hk (f st))] end.
  - unfold muxFrameToLink, txFrame. same_window.
  - split; [exact Hk|]. destruct st as [? ? ? [] ?]. done.
Qed.

Lemma mux_txTransfer_window fr st :
  window_open st = true -> is_u 32 (mx_remoteIncomingWindow (st_m st)) ->
  exists st', mux_txTransfer fr st = (Ok tt, st') /\
    mx_remoteIncomingWindow (st_m st') = mx_remoteIncomingWindow (st_m st) - 1 /\
    0 <= mx_remoteIncomingWindow (st_m st') /\
    mx_nextOutgoingID (st_m st') = u32 (mx_nextOutgoingID (st_m st) + 1) /\
    transfers (st_out st') = transfers (st_out st) + 1.
Proof.
  unfold window_open. intros Hw Hu. assert (mx_remoteIncomingWindow (st_m st) <> 0) as Hne by lia. clear Hw.
  destruct st as [s store c [lk hd dh hr se no ni riw row] o]. cbn in *.
  unfold mux_txTransfer, track_transfer. runs.
  destruct (tr_DeliveryID fr), (tr_Settled fr), (tr_Done fr); runs;
    replace (riw =? 0) with false by lia; runs; (eexists; split; [reflexivity|]); cbn -[u32];
    rewrite transfers_app; change (transfers [ATxFrame _ _]) with 1;
    (split_and!; [apply u32_small; unfold is_u in *; lia| |done|done]);
    rewrite u32_small; unfold is_u in *; lia.
Qed.

Lemma link_step_window st st' : link_step st st' -> same_window st st'.
Proof.
  intros [p l s _ _ _|p x s s' E|p l s s' _ _ E|p l l' s _ _ _ _].
  - by destruct s.
  - pose proof (allocateHandle_out p s) as (Em & Eo & _). rewrite E in Em, Eo. cbn in Em, Eo. unfold same_window. by rewrite Em, Eo.
  - pose proof (deallocateHandle_out p s) as (Em & Eo & _). rewrite E in Em, Eo. cbn in Em, Eo. unfold same_window.
    rewrite Em. destruct Eo as [-> | ->]; rewrite ?transfers_app; change (transfers [ACloseRx p]) with 0; split_and!; lia.
  - by destruct s.
Qed.

(** The mux runs, and links come and go, while the peer promises room: [lim] is the number of transfers
    the peer has agreed to receive in all.  With a flow frame the peer says how
    many it has received, [r], and how many more it accepts; it does not take
    back room for what was sent already. *)
Inductive window_step : phase * state * Z -> phase * state * Z -> Prop :=
| ws_flow skip f r lim st st' ph' :
    mux_step MuxRunning (ERxSelect skip (FFlow f)) st = (Ok ph', st') ->
    f_NextIncomingID f = Some (u32 r) -> 0 <= r <= transfers (st_out st) ->
    transfers (st_out st) <= r + f_IncomingWindow f < transfers (st_out st) + 2 ^ 32 ->
    window_step (MuxRunning, st, lim) (ph', st', r + f_IncomingWindow f)
| ws_other ph ev lim st st' ph' :
    promises ph ev = false -> mux_step ph ev st = (Ok ph', st') ->
    window_step (ph, st, lim) (ph', st', lim)
| ws_links ph lim st st' : link_step st st' -> window_step (ph, st, lim) (ph, st', lim).

(** The window is what is left of the promise. *)
Definition window_ok (x : phase * state * Z) : Prop :=
  let '(_, st, lim) := x in
  mx_nextOutgoingID (st_m st) = u32 (transfers (st_out st)) /\
  mx_remoteIncomingWindow (st_m st) = lim - transfers (st_out st) /\
  0 <= lim - transfers (st_out st) < 2 ^ 32.

Lemma same_window_ok ph ph' st st' lim :
  same_window st st' -> window_ok (ph, st, lim) -> window_ok (ph', st', lim).
Proof. unfold window_ok. by intros (-> & -> & ->). Qed.

Lemma window_step_ok x y : window_step x y -> window_ok x -> window_ok y.
Proof.
  intros [skip f r lim st st' ph' E Hf Hr Hw|ph ev lim st st' ph' Hp E|ph lim st st' E] Hok.
  - destruct Hok as (Hn & _ & _). destruct (mux_rx_flow_window skip f (u32 r) st Hf) as (st1 & Hs & H1 & H2 & H3).
    cbn [mux_step mux_rx] in E. rewrite E in Hs. eapply (same_window_ok MuxRunning); [exact Hs|].
    unfold window_ok. rewrite H1, H2, H3, Hn, u32_add_r, u32_add_l.
    replace (f_IncomingWindow f - u32 (transfers (st_out st)) + r)
      with (f_IncomingWindow f + r - u32 (transfers (st_out st))) by lia.
    rewrite u32_sub_r. split; [done|]. rewrite u32_small by (split; lia). lia.
  - assert (Keeps same_window (mux_step ph ev) \/ exists fr, ph = MuxRunning /\ ev = ETxTransfer fr) as [Hk|Ht].
    { destruct ph, ev; cbn [mux_step]; try (by right; eexists); left; try apply (Keeps_ret _);
        try apply mux_fail_window.
      - unfold txFrame. same_window.
      - by apply mux_rx_window.
      - destruct body; unfold mux_tx, txFrame; same_window.
      - destruct body; try apply (Keeps_ret _). apply mux_exit_window. }
    + specialize (Hk st). rewrite E in Hk. by eapply same_window_ok.
    + destruct Ht as (fr & -> & ->). cbn [mux_step] in E. runs_in E.
      destruct (window_open st) eqn:Ho; [|by simplify_eq].
      destruct Hok as (Hn & Hw & Hr). destruct (mux_txTransfer_window fr st Ho) as (st1 & E1 & H1 & H2 & H3 & H4).
      { rewrite Hw. split; lia. }
      rewrite E1 in E. simplify_eq. unfold window_ok. rewrite H1 in *. rewrite H3, H4, Hn, u32_add_l.
      split; [done|lia].
  - eapply (same_window_ok ph); [by apply link_step_window|done].
Qed.

(** C12: the session never sends more transfers than the peer has agreed to
    receive: the begin frame gives the first limit, every flow frame a new one.
    What the mux keeps as the remote incoming window is exactly the room that is
    left.  This holds whatever frames and links come and go, for a peer that does
    not take back room for what was sent already ([session_window_wraps] is what
    happens when it does). *)
Theorem session_respects_window channel opts rb ph st lim :
  is_u 32 (b_IncomingWindow rb) ->
  rtc window_step (MuxRunning, new_state channel opts rb, b_IncomingWindow rb) (ph, st, lim) ->
  transfers (st_out st) <= lim /\
  mx_remoteIncomingWindow (st_m st) = lim - transfers (st_out st).
Proof.
  intros Hb Hst.
  assert (window_ok (MuxRunning, new_state channel opts rb, b_IncomingWindow rb)) as H0.
  { unfold window_ok, is_u in *. cbn. change (transfers []) with 0. split_and!; [done|lia..]. }
  assert (window_ok (ph, st, lim)) as (_ & Hw & Hr).
  { revert H0. generalize (MuxRunning, new_state channel opts rb, b_IncomingWindow rb) Hst.
    intros x Hx. clear Hst. induction Hx; [done|]. eauto using window_step_ok. }
  lia.
Qed.

Definition sample_transfer (h id : Z) : PerformTransfer :=
  mkTransfer h (Some id) (Some [1]) (Some 0) false false None None false false false [7] (Some 40).

Definition sent_one : state :=
  (mux_step MuxRunning (ETxTransfer (sample_transfer 0 1)) two_links).2.

Lemma life_window P x y lim :
  rtc (life_step P) x y -> (forall ev, P ev -> promises MuxRunning ev = false /\ promises MuxEnding ev = false) ->
  rtc window_step (x, lim) (y, lim).
Proof.
  intros Hr HP. induction Hr as [x|x y z [ph ev ph' st st' Hp E|ph st st' E] _ IH]; [done|eapply rtc_l; [|exact IH]..].
  - apply (ws_other _ ev); [|done]. destruct (HP ev Hp), ph; try done.
  - by apply ws_links.
Qed.

Lemma session_respects_window_witness :
  rtc window_step (MuxRunning, new_state 0 None sample_begin, 3) (MuxRunning, sent_one, 3) /\
  transfers (st_out sent_one) <= 3 /\
  mx_remoteIncomingWindow (st_m sent_one) = 3 - transfers (st_out sent_one).
Proof.
  assert (rtc window_step (MuxRunning, new_state 0 None sample_begin, 3) (MuxRunning, sent_one, 3)) as Hr.
  { eapply rtc_r; [apply (life_window (fun _ => False) _ _ 3 (two_links_reached _)); done|].
    apply (ws_other _ (ETxTransfer (sample_transfer 0 1))); [done|]. vm_compute. reflexivity. }
  split; [exact Hr|]. apply (session_respects_window 0 None sample_begin MuxRunning sent_one 3); [by vm_compute|exact Hr].
Defined.

(** A flow frame that takes room back makes the window wrap.  When the
    peer's limit is below the number of transfers that were sent, the 32-bit
    subtraction leaves a window of almost 2^32, and the next transfer is sent. *)
Theorem session_window_wraps f n st :
  f_NextIncomingID f = Some n -> is_u 32 n -> is_u 32 (mx_nextOutgoingID (st_m st)) ->
  is_u 32 (f_IncomingWindow f) -> f_Handle f = None -> ss_outgoingWindow (st_s st) <> 0 ->
  n + f_IncomingWindow f < mx_nextOutgoingID (st_m st) ->
  exists st', mux_step MuxRunning (ERx (FFlow f)) st = (Ok MuxRunning, st') /\
    mx_remoteIncomingWindow (st_m st')
    = 2 ^ 32 - (mx_nextOutgoingID (st_m st) - (n + f_IncomingWindow f)) /\
    window_open st' = true.
Proof.
  intros Hf Hn Ho Hw Hh Hout Hlt. destruct st as [[] ? ? [? ? ? ? ? next ? ? ?] ?].
  unfold is_u in *. cbn in Hlt, Ho, Hout.
  cbn [mux_step mux_rx]. unfold mux_rx_flow. rewrite Hf, Hh. runs.
  assert (u32 (u32 (f_IncomingWindow f - next) + n)
    = 2 ^ 32 - (next - (n + f_IncomingWindow f))) as E.
  { rewrite u32_add_l. unfold u32. symmetry. apply (Z.mod_unique_pos _ _ (-1)); lia. }
  destruct (f_Echo f); runs; (eexists; split; [reflexivity|]); cbn -[u32]; rewrite E; (split; [done|]);
    unfold window_open; cbn -[u32]; rewrite ?E; lia.
Qed.

Lemma session_window_wraps_witness :
  exists st', mux_step MuxRunning (ERx (FFlow (mkFlow (Some 0) 0 0 9 None None None None false false []))) sent_one
    = (Ok MuxRunning, st') /\
    mx_remoteIncomingWindow (st_m st') = 2 ^ 32 - (mx_nextOutgoingID (st_m sent_one) - (0 + 0)) /\
    window_open st' = true.
Proof.
  apply (session_window_wraps (mkFlow (Some 0) 0 0 9 None None None None false false []) 0 sent_one);
    by vm_compute.
Defined.

(** ** Dispositions *)

(** No link that is reachable by a remote handle has a closed [rx]. *)
Definition links_open (st : state) : Prop :=
  forall h p, mx_links (st_m st) !! h = Some p -> p ∉ st_closedRx st.

(** The map a disposition refers to. *)
Definition handles_of (d : PerformDisposition) (m : muxVars) : gmap Z Z :=
  if Bool.eqb (dp_Role d) RoleSender then mx_handlesByRemoteDeliveryID m else mx_handlesByDeliveryID m.

(** The disposition settles deliveries that were sent. *)
Definition settles (d : PerformDisposition) : bool := dp_Settled d && Bool.eqb (dp_Role d) RoleReceiver.

(** What a disposition does for the delivery [id]. *)
Definition dispose_acts (d : PerformDisposition) (m : muxVars) (id : Z) : list action :=
  match handles_of d m !! id with
  | None => []
  | Some h =>
      (if settles d then
         match mx_settlementByDeliveryID m !! id with
         | Some done => [ASettle done (dp_State d)]
         | None => []
         end
       else [])
      ++ match mx_links m !! h with Some p => [AToLink p (FDisposition d)] | None => [] end
  end.

(** The state after a disposition of the deliveries in [ids]. *)
Record disposed (d : PerformDisposition) (ids : list Z) (st st' : state) : Prop := mkDisposed {
  ds_out : st_out st' = st_out st ++ concat (map (dispose_acts d (st_m st)) ids);
  ds_handles id : handles_of d (st_m st') !! id
                  = if decide (id ∈ ids) then None else handles_of d (st_m st) !! id;
  ds_settlement id : mx_settlementByDeliveryID (st_m st') !! id
                     = if decide (id ∈ ids /\ settles d = true /\ is_Some (handles_of d (st_m st) !! id))
                       then None else mx_settlementByDeliveryID (st_m st) !! id;
  ds_links : mx_links (st_m st') = mx_links (st_m st);
  ds_closed : st_closedRx st' = st_closedRx st
}.

(** The variables after the disposition of one delivery. *)
Definition dispose_vars (d : PerformDisposition) (id : Z) (m : muxVars) : muxVars :=
  let m1 := if Bool.eqb (dp_Role d) RoleSender
            then set_mx_handlesByRemoteDeliveryID (delete id (mx_handlesByRemoteDeliveryID m)) m
            else set_mx_handlesByDeliveryID (delete id (mx_handlesByDeliveryID m)) m in
  if settles d && bool_decide (is_Some (handles_of d m !! id))
  then set_mx_settlementByDeliveryID (delete id (mx_settlementByDeliveryID m)) m1 else m1.

Lemma mux_dispose_run d id st :
  links_open st ->
  mux_dispose taken d id st
  = (Ok tt, set_st_out (st_out st ++ dispose_acts d (st_m st) id) (set_st_m (dispose_vars d id (st_m st)) st)).
Proof.
  intros Ho. assert (forall h p, mx_links (st_m st) !! h = Some p -> bool_decide (p ∈ st_closedRx st) = false) as Hb.
  { intros h p Hp. apply bool_decide_eq_false, (Ho h p Hp). }
  destruct st as [s store c [lk hd dh hr se no ni riw row] o].
  unfold mux_dispose, muxFrameToLink, dispose_acts, dispose_vars, settles, handles_of in *. cbn in Hb.
  destruct d as [role first last settled stt b]. runs.
  destruct role, settled; cbn;
    match goal with |- context [?m !! id] => destruct (m !! id) as [h|] eqn:Eh end; runs;
    try (rewrite ?app_nil_r; rewrite ?delete_id by done; done).
  all: try destruct (se !! id) eqn:Es; runs; destruct (lk !! h) as [p|] eqn:El; runs; try rewrite (Hb _ _ El);
    runs; rewrite <- ?app_assoc; rewrite ?app_nil_r; cbn; rewrite ?(delete_id se) by done; done.
Qed.

Lemma mux_dispose_spec d id st :
  links_open st -> exists st', mux_dispose taken d id st = (Ok tt, st') /\ disposed d [id] st st'.
Proof.
  intros Ho. eexists. split; [by apply mux_dispose_run|]. unfold dispose_vars.
  destruct st as [s store c [lk hd dh hr se no ni riw row] o]. unfold settles, handles_of.
  constructor; cbn; try done.
  - by rewrite app_nil_r.
  - intros j. unfold handles_of. destruct (decide (j ∈ [id])) as [Hj|Hj];
      rewrite list_elem_of_singleton in Hj; subst; destruct (dp_Role d), (dp_Settled d); cbn;
      repeat case_match; cbn; first [by rewrite lookup_delete_eq|by rewrite lookup_delete_ne by done|done].
  - intros j. unfold handles_of, settles. destruct (dp_Role d), (dp_Settled d); cbn;
      try (destruct (decide _) as [(_ & ? & _)|]; done).
    case_bool_decide as Hs; cbn; destruct (decide (j ∈ [id] /\ _)) as [(Hj & _ & Hs')|Hj].
    + apply list_elem_of_singleton in Hj as ->. apply lookup_delete_eq.
    + destruct (decide (j = id)) as [->|]; [|by rewrite lookup_delete_ne].
      destruct Hj. rewrite list_elem_of_singleton. done.
    + apply list_elem_of_singleton in Hj as ->. done.
    + done.
  - by repeat case_match.
Qed.

Lemma disposed_nil d st : disposed d [] st st.
Proof.
  constructor; try done; [by rewrite app_nil_r|..]; intros j; destruct (decide _) as [Hj|]; try done;
    set_solver.
Qed.

(** Two disjoint dispositions after one another. *)
Lemma disposed_app d ids ids' st st1 st2 :
  (forall i, i ∈ ids -> i ∉ ids') -> disposed d ids st st1 -> disposed d ids' st1 st2 ->
  disposed d (ids ++ ids') st st2.
Proof.
  intros Hd [O1 H1 S1 L1 C1] [O2 H2 S2 L2 C2]. constructor; [..|congruence|congruence].
  - rewrite O2, O1, map_app, concat_app, app_assoc. do 2 f_equal. apply map_ext_in. intros j Hj.
    apply list_elem_of_In in Hj. assert (j ∉ ids) as Hn by (intros Hi; by apply (Hd j)).
    unfold dispose_acts. rewrite H1, S1, L1.
    destruct (decide (j ∈ ids)); [done|]. destruct (decide (j ∈ ids /\ _)) as [[? _]|]; done.
  - intros j. rewrite H2, H1. destruct (decide (j ∈ ids')), (decide (j ∈ ids)), (decide (j ∈ ids ++ ids')) as [E|E];
      rewrite elem_of_app in E; naive_solver.
  - intros j. rewrite S2, S1, H1.
    destruct (decide (j ∈ ids ++ ids' /\ _)) as [(E & Hs & Hi)|E]; rewrite elem_of_app in E.
    + destruct (decide (j ∈ ids' /\ _)) as [|N]; [done|]. destruct (decide (j ∈ ids /\ _)) as [|N']; [done|].
      destruct (decide (j ∈ ids)); naive_solver.
    + destruct (decide (j ∈ ids' /\ _)) as [(P1 & P2 & P3)|N].
      * destruct (decide (j ∈ ids)); [|naive_solver]. by destruct P3.
      * destruct (decide (j ∈ ids /\ _)) as [(Q1 & Q2 & Q3)|N']; [naive_solver|done].
Qed.

Lemma links_open_disposed d ids st st' : disposed d ids st st' -> links_open st -> links_open st'.
Proof. intros [_ _ _ L C] H h p. rewrite L, C. apply H. Qed.

Lemma mux_dispose_loop_spec d last n :
  last < MaxUint32 -> forall fuel id st, 0 <= id -> Z.of_nat n = Z.max 0 (last - id + 1) -> (n <= fuel)%nat ->
  links_open st ->
  exists st', mux_dispose_loop taken fuel id last d st = (Ok tt, st') /\ disposed d (seqZ id (Z.of_nat n)) st st'.
Proof.
  unfold MaxUint32. intros Hl. induction n as [|n IH]; intros fuel id st Hid Hn Hf Ho.
  - exists st. destruct fuel; cbn; replace (id <=? last) with false by lia; split; try done; apply disposed_nil.
  - destruct fuel as [|fuel]; [lia|]. cbn [mux_dispose_loop]. replace (id <=? last) with true by lia.
    destruct (mux_dispose_spec d id st Ho) as (st1 & E1 & D1).
    rewrite (u32_small (id + 1)) by (split; lia).
    destruct (IH fuel (id + 1) st1 ltac:(lia) ltac:(lia) ltac:(lia) (links_open_disposed _ _ _ _ D1 Ho))
      as (st2 & E2 & D2).
    exists st2. split; [unfold mbind, M_bind; by rewrite E1, E2|].
    rewrite seqZ_cons by lia. change (id :: ?l) with ([id] ++ l). replace (Z.succ id) with (id + 1) by lia.
    replace (Z.pred (Z.of_nat (S n))) with (Z.of_nat n) by lia. eapply disposed_app; [|done|done].
    intros i Hi. apply list_elem_of_singleton in Hi as ->. rewrite elem_of_seqZ. lia.
Qed.

Lemma disposition_spec d st :
  0 <= dp_First d -> default (dp_First d) (dp_Last d) < MaxUint32 -> links_open st ->
  exists st', mux_step MuxRunning (ERx (FDisposition d)) st = (Ok MuxRunning, st') /\
    disposed d (seqZ (dp_First d) (default (dp_First d) (dp_Last d) - dp_First d + 1)) st st'.
Proof.
  intros H0 Hl Ho. set (last := default (dp_First d) (dp_Last d)) in *.
  destruct (mux_dispose_loop_spec d last (Z.to_nat (last - dp_First d + 1)) Hl
    (S (Z.to_nat (last - dp_First d))) (dp_First d) st) as (st' & E & D); [lia..|done|].
  exists st'. split; [cbn [mux_step mux_rx]; unfold mux_rx_disposition, mbind, M_bind; fold last; by rewrite E|].
  destruct (decide (0 <= last - dp_First d + 1)); [by rewrite Z2Nat.id in D|].
  rewrite (seqZ_nil _ (last - _ + 1)) by lia. rewrite seqZ_nil in D by lia. done.
Qed.


(** Two deliveries are waiting: 1 on handle 0 and 2 on handle 1. *)
Definition sent_two : state :=
  (mux_run MuxRunning [ETxTransfer (sample_transfer 0 1); ETxTransfer (sample_transfer 1 2)]
    (new_state 0 None sample_begin)).2.
Definition accepted (first last : Z) : PerformDisposition :=
  mkDisposition RoleReceiver first (Some last) true (Some StateAccepted) false.


(** A disposition up to the last delivery id 2^32-1 is never done: the loop
    counter wraps to 0 and the loop goes on, whatever the fuel. *)
Theorem disposition_diverges d st fuel id :
  is_u 32 id -> links_open st -> (mux_dispose_loop taken fuel id MaxUint32 d st).1 = OutOfFuel.
Proof.
  revert id st. induction fuel as [|fuel IH]; intros id st Hid Ho; cbn [mux_dispose_loop];
    replace (id <=? MaxUint32) with true by (unfold is_u, MaxUint32 in *; lia); [done|].
  destruct (mux_dispose_spec d id st Ho) as (st1 & E1 & D1). unfold mbind, M_bind. rewrite E1.
  apply IH; [apply u32_range|by eapply links_open_disposed].
Qed.

Lemma disposition_diverges_witness :
  (mux_dispose_loop taken 9 1 MaxUint32 (accepted 1 MaxUint32) sent_two).1 = OutOfFuel.
Proof.
  apply (disposition_diverges (accepted 1 MaxUint32) sent_two 9 1); [by vm_compute|intros h p H; by vm_compute in H].
Defined.

(** Link 1 is a sender with handle 0, link 2 a receiver with handle 1; the peer
    gave the number 1 to the first and the number 0 to the second. *)
Definition crossed_attach (name h : Z) (role : bool) : FrameBody :=
  FAttach (mkAttach [name] h role None None (Some newSource) (Some newTarget) [] false 0 0 [] [] []).
Definition crossed : state :=
  (mux_run MuxRunning
    [ERx (crossed_attach 97 1 RoleReceiver); ERx (crossed_attach 98 0 RoleSender);
     ETxTransfer (sample_transfer 0 1)] two_links).2.

(** The delivery map holds local handles but links are found by the peer's
    handles: when the two numberings differ, the disposition of a delivery that
    link 1 sent is handed to link 2. *)
Theorem disposition_wrong_link :
  exists st', mux_step MuxRunning (ERx (FDisposition (accepted 1 1))) crossed = (Ok MuxRunning, st') /\
    (l_handle <$> st_store crossed !! 1) = Some 0 /\ mx_handlesByDeliveryID (st_m crossed) !! 1 = Some 0 /\
    st_out st' = st_out crossed
      ++ [ASettle 40 (Some StateAccepted); AToLink 2 (FDisposition (accepted 1 1))].
Proof. eexists. split; [vm_compute; reflexivity|]. by vm_compute. Qed.

(** ** A frame for a link whose channel was closed *)

(** When the peer refuses an attach and then sends something else than the
    detach, attach gives the handle back, which closes the link's [rx], but the
    session still finds the link by its remote handle: the peer's detach makes
    the mux send on a closed channel, and the process panics. *)
Theorem detach_after_failed_attach afterAttach fr l p st st' d :
  (forall x, fr <> FDetach x) -> st_store st !! p = Some l -> mx_links (st_m st) !! dt_Handle d = Some p ->
  deallocateHandle p st = (Ok tt, st') ->
  (exists e, attach_step afterAttach AwaitDetach (ARx fr) l = (l, [DeallocateHandle], AttachFailed e)) /\
  (mux_step MuxRunning (ERx (FDetach d)) st').1 = Panic ClosedChannel.
Proof.
  intros Hfr Hl Hd E. split; [destruct fr; try (by eexists); by edestruct Hfr|].
  unfold deallocateHandle in E. runs_in E. rewrite Hl in E. runs_in E. destruct st as [s store c m o]. cbn in *.
  case_match; runs_in E; simplify_eq. unfold mux_rx_detach, muxFrameToLink. runs. rewrite Hd. runs.
  rewrite bool_decide_true by set_solver. done.
Qed.

Definition refused : state :=
  (mux_run MuxRunning [ERx (FAttach (mkAttach [97] 4 RoleReceiver None None None None [] false 0 0 [] [] []))]
     two_links).2.

Lemma detach_after_failed_attach_witness :
  (exists e, attach_step (fun _ l => l) AwaitDetach (ARx (FFlow (session_flow refused)))
     (set_l_remoteHandle 4 (set_l_handle 0 (sample_link 97 RoleSender)))
     = (set_l_remoteHandle 4 (set_l_handle 0 (sample_link 97 RoleSender)), [DeallocateHandle], AttachFailed e)) /\
  (mux_step MuxRunning (ERx (FDetach (mkDetach 4 true None))) (deallocateHandle 1 refused).2).1
  = Panic ClosedChannel.
Proof.
  apply (detach_after_failed_attach _ _ _ 1 refused); [done|vm_compute; reflexivity..].
Defined.

(** ** Giving the peer its window back *)


Definition attached : state := (mux_run MuxRunning [ERx (crossed_attach 98 0 RoleSender)] two_links).2.


(** ** The end of the session *)

Definition is_delete (a : action) : bool := match a with ADeleteSession => true | _ => false end.
Definition deletes (out : list action) : Z := zlen (List.filter is_delete out).

Lemma deletes_app o o' : deletes (o ++ o') = deletes o + deletes o'.
Proof. unfold deletes. by rewrite List.filter_app, zlen_app. Qed.

(** The session is in use, or it has ended: it was deleted once and holds a
    session or a connection error. *)
Definition live (st : state) : Prop :=
  ss_done (st_s st) = false /\ ss_err (st_s st) = None /\ deletes (st_out st) = 0.
Definition ended (st : state) : Prop :=
  ss_done (st_s st) = true /\ deletes (st_out st) = 1 /\
  exists e, ss_err (st_s st) = Some e /\ match e with ESession _ _ | EConn _ _ => True | _ => False end.

Definition stays_live (st st' : state) : Prop := live st -> live st'.
#[export] Instance stays_live_preorder : PreOrder stays_live.
Proof. split; [intros x H; exact H|]. intros x y z H H' Hx. apply H', H, Hx. Qed.

Lemma stays_live_emit a : is_delete a = false -> Keeps stays_live (emit a).
Proof.
  intros Ha st (H1 & H2 & H3). unfold emit, modify, live. destruct st. cbn in *. rewrite deletes_app, H3.
  unfold deletes. cbn. by rewrite Ha.
Qed.

(** A step that ends the session or keeps it in use. *)
Definition Ends (m : M state phase) : Prop :=
  forall st, live st -> match m st with (Ok MuxExited, st') => ended st' | (_, st') => live st' end.

Lemma Ends_ret ph : ph <> MuxExited -> Ends (mret ph).
Proof. intros H st Hl. by destruct ph. Qed.
Lemma Ends_bind {A} (m : M state A) k : Keeps stays_live m -> (forall a, Ends (k a)) -> Ends (m ≫= k).
Proof.
  intros Hm Hk st Hl. specialize (Hm st Hl). unfold mbind, M_bind. destruct (m st) as [[a|e|p|] st1]; try done.
  by apply Hk.
Qed.
Lemma Ends_err e : Ends (modify (on_s (set_ss_err e));; mux_exit).
Proof.
  intros st (H1 & H2 & H3). unfold mux_exit. runs. unfold ended, on_s. destruct st as [[] ? ? ? ?]. cbn in *.
  rewrite deletes_app, H3. split_and!; [done..|]. exists (mux_err e). split; [done|]. by destruct e as [[]|].
Qed.
Lemma Ends_exit : Ends mux_exit.
Proof.
  intros st Hl. pose proof (Ends_err None st Hl) as H. destruct Hl as (_ & H2 & _).
  destruct st as [[] ? ? ? ?]. cbn in *. by subst.
Qed.
Lemma Ends_fail e : Ends (mux_fail e).
Proof. apply Ends_err. Qed.

Ltac stays_live :=
  keeps; first [ by apply stays_live_emit
               | apply Keeps_modify; intros [[] ? ? [] ?]; unfold stays_live, live; cbn; repeat case_match; done ].
Ltac ends :=
  repeat first
    [ apply Ends_exit | apply Ends_fail | by apply Ends_ret
    | apply Ends_bind; [|intros] | case_match ].

Lemma mux_dispose_loop_live skip fuel id last d : Keeps stays_live (mux_dispose_loop skip fuel id last d).
Proof.
  revert id. induction fuel as [|fuel IH]; intros id; cbn; case_match; try apply (Keeps_ret _);
    [apply (Keeps_lift _)|]. apply (Keeps_bind _); [|intros; apply IH].
  unfold mux_dispose, muxFrameToLink. stays_live.
Qed.

Lemma mux_rx_ends skip body : Ends (mux_rx skip body).
Proof.
  destruct body; try (by apply Ends_ret); cbn [mux_rx].
  - unfold mux_rx_attach, update, muxFrameToLink. ends; stays_live.
  - unfold mux_rx_flow, muxFrameToLink, txFrame. ends; stays_live.
  - unfold mux_rx_transfer, mux_update_window, muxFrameToLink, txFrame. ends; stays_live.
  - apply Ends_bind; [apply mux_dispose_loop_live|intros; by apply Ends_ret].
  - unfold mux_rx_detach, muxFrameToLink. ends; stays_live.
  - unfold mux_rx_end, txFrame. ends; stays_live.
Qed.

Lemma mux_txTransfer_live fr : Keeps stays_live (mux_txTransfer fr).
Proof.
  intros st (H1 & H2 & H3). destruct st as [[] store c [lk hd dh hr se no ni riw row] o]. cbn in H1, H2, H3.
  unfold mux_txTransfer, track_transfer, live. runs.
  destruct (tr_DeliveryID fr), (tr_Settled fr), (tr_Done fr); runs; destruct (riw =? 0); runs;
    by rewrite deletes_app, H3.
Qed.

Lemma mux_step_ends ph ev : ph <> MuxExited -> Ends (mux_step ph ev).
Proof.
  intros Hp. destruct ph, ev; cbn [mux_step]; try done; try apply Ends_fail; try (by apply Ends_ret).
  - unfold txFrame. ends; stays_live.
  - apply mux_rx_ends.
  - apply Ends_bind; [apply (Keeps_gets _)|intros []]; [|by apply Ends_ret].
    apply Ends_bind; [apply mux_txTransfer_live|intros; by apply Ends_ret].
  - unfold mux_tx, txFrame. destruct body; ends; stays_live.
  - destruct body; try (by apply Ends_ret). apply Ends_exit.
Qed.

(** *** How the mux returns *)

(** The event with which the mux returns in the state [st], and the error that the
    session has then. *)
Inductive returns_with (st : state) : phase -> event -> goerr -> Prop :=
| rw_conn ph r i :
    (* the connection is done *)
    returns_with st ph (EConnDone (EConn r i)) (EConn r i)
| rw_remote skip e :
    (* the peer ended the session with an error *)
    returns_with st MuxRunning (ERxSelect skip (FEnd (mkEnd (Some e)))) (ESession (Some e) None)
| rw_end skip :
    returns_with st MuxRunning (ERxSelect skip (FEnd (mkEnd None))) (ESession None None)
| rw_closed skip e :
    (* the answer to our own End *)
    returns_with st MuxEnding (ERxSelect skip (FEnd e)) (ESession None None)
| rw_flow skip f :
    f_NextIncomingID f = None ->
    returns_with st MuxRunning (ERxSelect skip (FFlow f))
      (ESession None (Some (ErrorText
         "protocol error: received flow without next-incoming-id after session established" [])))
| rw_attach skip a :
    ss_linksByKey (st_s st) !! mkKey (a_Name a) (negb (a_Role a)) = None ->
    returns_with st MuxRunning (ERxSelect skip (FAttach a))
      (ESession None (Some (ErrorText "protocol error: received mismatched attach frame %+v" []))).

(** A connection that is done has a ConnError. *)
Definition conn_event (ev : event) : Prop :=
  match ev with EConnDone e => exists r i, e = EConn r i | _ => True end.

(** [m] does not make the mux return. *)
Definition GoesOn (m : M state phase) : Prop := forall st st', m st <> (Ok MuxExited, st').
Lemma GoesOn_ret ph : ph <> MuxExited -> GoesOn (mret ph).
Proof. intros H st st'. unfold mret, M_ret. congruence. Qed.
Lemma GoesOn_bind {A} (m : M state A) k : (forall a, GoesOn (k a)) -> GoesOn (m ≫= k).
Proof. intros H st st'. unfold mbind, M_bind. destruct (m st) as [[a|e|p|] st1]; try done. apply H. Qed.
Ltac goes_on := repeat first [by apply GoesOn_ret | apply GoesOn_bind; intros | case_match].

(** Whatever makes the mux fail is its error. *)
Lemma mux_fail_err e st st' : mux_fail e st = (Ok MuxExited, st') -> ss_err (st_s st') = Some (mux_err (Some e)).
Proof.
  unfold mux_fail, mux_exit. destruct st as [[] store c m o]. intros E. runs_in E. by simplify_eq.
Qed.

Lemma mux_rx_returns skip body st st' :
  ss_err (st_s st) = None -> mux_rx skip body st = (Ok MuxExited, st') ->
  exists e, returns_with st MuxRunning (ERxSelect skip body) e /\ ss_err (st_s st') = Some e.
Proof.
  intros He E. destruct body as [| |a|f|t|d|d|[e]| | | | | |]; cbn [mux_rx] in E; try done.
  - unfold mux_rx_attach, mbind at 1, M_bind at 1, gets in E.
    destruct (ss_linksByKey (st_s st) !! _) as [p|] eqn:El; [exfalso; revert E; apply GoesOn_bind; intros; goes_on|].
    apply mux_fail_err in E. eexists. split; [by apply rw_attach|done].
  - unfold mux_rx_flow in E. destruct (f_NextIncomingID f) eqn:Ef; [exfalso; revert E; goes_on|].
    unfold txFrame, emit, modify, mbind at 1, M_bind at 1 in E. apply mux_fail_err in E.
    eexists. split; [by apply rw_flow|done].
  - exfalso; revert E. unfold mux_rx_transfer. goes_on.
  - exfalso; revert E. unfold mux_rx_disposition. goes_on.
  - exfalso; revert E. unfold mux_rx_detach. goes_on.
  - unfold mux_rx_end, txFrame, emit, modify, mbind at 1, M_bind at 1 in E. cbn [e_Error] in E.
    destruct e as [e|].
    + apply mux_fail_err in E. eexists. split; [apply rw_remote|done].
    + eexists. split; [apply rw_end|]. unfold mux_exit in E. destruct st as [[] store c m o]. cbn in He.
      runs_in E. by simplify_eq.
Qed.

Lemma mux_step_returns ph ev st st' :
  ph <> MuxExited -> conn_event ev -> ss_err (st_s st) = None -> mux_step ph ev st = (Ok MuxExited, st') ->
  exists e, returns_with st ph ev e /\ ss_err (st_s st') = Some e.
Proof.
  intros Hp Hev He E. destruct ev as [e| |skip body|fr|body].
  - destruct Hev as (r & i & ->). eexists. split; [apply rw_conn|].
    destruct ph; [| |done]; by apply (mux_fail_err (EConn r i)) in E.
  - exfalso. destruct ph; [|done..]. revert E. cbn [mux_step]. goes_on.
  - destruct ph; [| |done]; [by apply mux_rx_returns|]. cbn [mux_step] in E. destruct body; try done.
    eexists. split; [apply rw_closed|]. unfold mux_exit in E. destruct st as [[] store c m o]. cbn in He.
    runs_in E. by simplify_eq.
  - exfalso. destruct ph; [|done..]. revert E. cbn [mux_step]. goes_on.
  - exfalso. destruct ph; [|done..]. revert E. cbn [mux_step]. goes_on.
Qed.

Lemma link_step_end st st' :
  link_step st st' ->
  ss_done (st_s st') = ss_done (st_s st) /\ ss_err (st_s st') = ss_err (st_s st) /\
  deletes (st_out st') = deletes (st_out st).
Proof.
  intros [p l s _ _ _|p x s s' E|p l s s' _ _ E|p l l' s _ _ _ _]; [by destruct s| | |by destruct s].
  - pose proof (allocateHandle_out p s) as (_ & Eo & Ed & Ee). rewrite E in Eo, Ed, Ee. cbn in Eo, Ed, Ee.
    by rewrite Eo.
  - pose proof (deallocateHandle_out p s) as (_ & Eo & Ed & Ee). rewrite E in Eo, Ed, Ee. cbn in Eo, Ed, Ee.
    split_and!; [done|done|]. destruct Eo as [-> | ->]; rewrite ?deletes_app; change (deletes [ACloseRx p]) with 0; lia.
Qed.

(** The session has ended: its mux returned with an event of this run, and the
    error is the one for that event. *)
Definition ended_in (x0 : phase * state) (st : state) : Prop :=
  exists ph1 st1 ev st2 e,
    rtc (life_step conn_event) x0 (ph1, st1) /\ ph1 <> MuxExited /\ conn_event ev /\
    mux_step ph1 ev st1 = (Ok MuxExited, st2) /\ rtc (life_step conn_event) (MuxExited, st2) (MuxExited, st) /\
    returns_with st1 ph1 ev e /\
    ss_done (st_s st) = true /\ deletes (st_out st) = 1 /\ ss_err (st_s st) = Some e.

Definition life_inv (x0 x : phase * state) : Prop :=
  rtc (life_step conn_event) x0 x /\ if decide (x.1 = MuxExited) then ended_in x0 x.2 else live x.2.

Lemma life_inv_step x0 x y : life_step conn_event x y -> life_inv x0 x -> life_inv x0 y.
Proof.
  intros Hs [Hr Hi]. split; [by eapply rtc_r|].
  destruct Hs as [ph ev ph' st st' Hev E|ph st st' E]; cbn [fst snd] in *.
  - destruct (decide (ph = MuxExited)) as [->|Hne].
    { cbn in E. runs_in E. simplify_eq. by rewrite decide_True. }
    pose proof (mux_step_ends ph ev Hne st Hi) as He. rewrite E in He.
    destruct (decide (ph' = MuxExited)) as [->|Hne']; [|by destruct ph'].
    destruct (mux_step_returns ph ev st st' Hne Hev ltac:(apply Hi) E) as (e & Hw & Ee).
    destruct He as (Hd & Hn & _). exists ph, st, ev, st', e. split_and!; done.
  - destruct (link_step_end _ _ E) as (E1 & E2 & E3). destruct (decide (ph = MuxExited)) as [->|Hne].
    + destruct Hi as (ph1 & st1 & ev & st2 & e & ? & ? & ? & ? & Hr2 & ? & ? & ? & ?).
      exists ph1, st1, ev, st2, e. rewrite E1, E2, E3. split_and!; try done. eapply rtc_r; [exact Hr2|by apply lf_link].
    + unfold live in *. by rewrite E1, E2, E3.
Qed.

Lemma life_ends x0 ph st :
  x0.1 <> MuxExited -> live x0.2 -> rtc (life_step conn_event) x0 (ph, st) ->
  if decide (ph = MuxExited) then ended_in x0 st else live st.
Proof.
  intros H0 Hl Hst. assert (life_inv x0 x0) as Hi.
  { split; [apply rtc_refl|]. by rewrite decide_False. }
  assert (forall x, rtc (life_step conn_event) x (ph, st) -> life_inv x0 x -> life_inv x0 (ph, st)) as Hrun.
  { intros x Hx. induction Hx; eauto using life_inv_step. }
  by destruct (Hrun x0 Hst Hi) as [_ H].
Qed.

(** C25: a session ends properly.  Whatever events its mux sees and whatever links
    come and go, as long as the mux has not returned the session is not done,
    holds no error and has not been deleted.  When it has returned, the session
    is done, has been deleted exactly once, and holds the error of the event that
    made the mux return ([returns_with]): the connection's error when that was
    done, a SessionError with the peer's error when it ended the session with
    one, an empty SessionError when it ended without one or answered our End, and
    a SessionError for the two protocol errors. *)
Theorem mux_ends_once channel opts rb ph st :
  rtc (life_step conn_event) (MuxRunning, new_state channel opts rb) (ph, st) ->
  if decide (ph = MuxExited) then ended_in (MuxRunning, new_state channel opts rb) st else live st.
Proof. by apply life_ends. Qed.

(** Two links are attached when the peer ends the session with an error. *)
Definition sample_error := mkErr ErrCondNotAllowed "why".
Definition ended_two : state :=
  (mux_step MuxRunning (ERx (FEnd (mkEnd (Some sample_error)))) two_links).2.

Lemma ended_two_reached :
  rtc (life_step conn_event) (MuxRunning, new_state 0 None sample_begin) (MuxExited, ended_two).
Proof.
  eapply rtc_r; [apply two_links_reached|].
  apply (lf_mux _ MuxRunning (ERx (FEnd (mkEnd (Some sample_error))))); [done|vm_compute; reflexivity].
Qed.

Lemma mux_ends_once_witness : ended_in (MuxRunning, new_state 0 None sample_begin) ended_two.
Proof.
  exact (mux_ends_once 0 None sample_begin MuxExited ended_two ended_two_reached).
Defined.

End SessionSpec.
