(* ===== verification/SessionTyping.v ===== *)
(** * SessionTyping: the numbers of a session fit their Go types

    Counters, windows, handles and delivery ids of a session are uint32, its
    channel is a uint16.  They stay in range, and every frame that the session
    passes on is well-typed, whatever the peer sends. *)

From S2P Require Import Prelude Bitmap Buffer Types Encode Decode CodecSafety Frames Parsing FrameRoundtrip FrameTyping Link Session SessionSpec.
Import CodecSafety(any).
Import Buffer Encode Decode Frames Parsing Errors Link FrameTyping Session SessionSpec.

Module SessionTyping.

(** ** Well-typed states *)

Definition map_typed (m : gmap Z Z) (P Q : Z -> Prop) : Prop := forall k v, m !! k = Some v -> P k /\ Q v.

Record vars_typed (m : muxVars) : Prop := mkVarsTyped {
  vt_links : map_typed (mx_links m) (is_u 32) any;
  vt_handles : map_typed (mx_handlesByDeliveryID m) (is_u 32) (is_u 32);
  vt_ids : map_typed (mx_deliveryIDByHandle m) (is_u 32) (is_u 32);
  vt_remote : map_typed (mx_handlesByRemoteDeliveryID m) (is_u 32) (is_u 32);
  vt_settlement : map_typed (mx_settlementByDeliveryID m) (is_u 32) any;
  vt_out : is_u 32 (mx_nextOutgoingID m);
  vt_in : is_u 32 (mx_nextIncomingID m);
  vt_riw : is_u 32 (mx_remoteIncomingWindow m);
  vt_row : is_u 32 (mx_remoteOutgoingWindow m)
}.

Definition own_typed (s : Session) : Prop :=
  is_u 16 (ss_channel s) /\ is_u 32 (ss_incomingWindow s) /\ is_u 32 (ss_outgoingWindow s) /\
  is_u 32 (ss_needFlowCount s) /\ is_u 32 (ss_handleMax s).

Definition action_typed (a : action) : Prop :=
  match a with
  | ATxFrame body _ | AToLink _ body => body_typed body
  | _ => True
  end.

Record session_typed (st : state) : Prop := mkSessionTyped {
  st_own : own_typed (st_s st);
  st_links : forall p l, st_store st !! p = Some l -> is_u 32 (l_remoteHandle l);
  st_vars : vars_typed (st_m st);
  st_acts : Forall action_typed (st_out st)
}.

(** ** What the code of the mux keeps *)

Definition Typed {A} (Q : A -> Prop) (m : M state A) : Prop :=
  forall st, session_typed st -> session_typed (m st).2 /\ forall a, (m st).1 = Ok a -> Q a.

Lemma Typed_bind {A B} (P : A -> Prop) (Q : B -> Prop) (m : M state A) (k : A -> M state B) :
  Typed P m -> (forall a, P a -> Typed Q (k a)) -> Typed Q (m ≫= k).
Proof.
  intros Hm Hk st Hs. unfold mbind, M_bind. destruct (Hm st Hs) as [H1 H2].
  destruct (m st) as [[a|e|p|] st1]; cbn in *; try done. by apply Hk; [apply H2|].
Qed.
Lemma Typed_ret {A} (Q : A -> Prop) a : Q a -> Typed Q (mret a).
Proof. intros Ha st Hs. split; [done|]. intros x E. cbn in E. by simplify_eq. Qed.
Lemma Typed_gets {A} (Q : A -> Prop) (f : state -> A) :
  (forall st, session_typed st -> Q (f st)) -> Typed Q (gets f).
Proof. intros Hf st Hs. split; [done|]. intros x E. cbn in E. simplify_eq. by apply Hf. Qed.
Lemma Typed_panics {A} (Q : A -> Prop) p : Typed Q (panics (A := A) p).
Proof. intros st Hs. by split. Qed.
Lemma Typed_lift {A} (x : res A) : Typed any (lift x).
Proof. intros st Hs. by split. Qed.
Lemma Typed_modify f : (forall st, session_typed st -> session_typed (f st)) -> Typed any (modify f).
Proof. intros Hf st Hs. split; [by apply Hf|done]. Qed.
Lemma Typed_modify_s f : (forall s, own_typed s -> own_typed (f s)) -> Typed any (modify (on_s f)).
Proof. intros Hf. apply Typed_modify. intros [s store c m o] []. constructor; try done. by apply Hf. Qed.
Lemma Typed_modify_m f : (forall m, vars_typed m -> vars_typed (f m)) -> Typed any (modify (on_m f)).
Proof. intros Hf. apply Typed_modify. intros [s store c m o] []. constructor; try done. by apply Hf. Qed.
Lemma Typed_emit a : action_typed a -> Typed any (emit a).
Proof.
  intros Ha. apply Typed_modify. intros [s store c m o] []. constructor; try done.
  apply Forall_app. by repeat constructor.
Qed.
Lemma Typed_deref p : Typed (fun l => is_u 32 (l_remoteHandle l)) (deref p).
Proof.
  apply (Typed_bind (fun l => forall x, l = Some x -> is_u 32 (l_remoteHandle x))).
  - apply Typed_gets. intros st Hs x. by apply Hs.
  - intros [l|] Hl; [apply Typed_ret; by apply Hl|apply Typed_panics].
Qed.
Lemma Typed_update p f :
  (forall l, is_u 32 (l_remoteHandle l) -> is_u 32 (l_remoteHandle (f l))) -> Typed any (update p f).
Proof.
  intros Hf. apply Typed_modify. intros [s store c m o] [? Hl ? ?]. constructor; try done. cbn in *.
  intros q l Hq. apply lookup_alter_Some in Hq as [(<- & l0 & E & ->)|[_ E]]; [|by eapply Hl].
  apply Hf. by eapply Hl.
Qed.
Lemma Typed_toLink skip p body : body_typed body -> Typed any (muxFrameToLink skip p body).
Proof.
  intros Hb. unfold muxFrameToLink. destruct (skip p); [by apply Typed_ret|]. apply (Typed_bind any); [by apply Typed_gets|]. intros [] _; [apply Typed_panics|].
  by apply Typed_emit.
Qed.
Lemma Typed_tx body done : body_typed body -> Typed any (txFrame body done).
Proof. intros Hb. by apply Typed_emit. Qed.

Create HintDb session_types.
#[export] Hint Resolve Typed_panics Typed_lift Typed_emit Typed_deref Typed_toLink Typed_tx : session_types.

(** ** Maps *)

Lemma map_typed_insert m P Q k v : map_typed m P Q -> P k -> Q v -> map_typed (<[ k := v ]> m) P Q.
Proof. intros Hm Hk Hv k' v' [[<- <-]|[_ E]]%lookup_insert_Some; [done|by apply Hm]. Qed.
Lemma map_typed_delete m P Q k : map_typed m P Q -> map_typed (delete k m) P Q.
Proof. intros Hm k' v' [_ E]%lookup_delete_Some. by apply Hm. Qed.
Lemma map_typed_empty P Q : map_typed ∅ P Q.
Proof. intros k v. by rewrite lookup_empty. Qed.
#[export] Hint Resolve map_typed_insert map_typed_delete map_typed_empty u32_range : session_types.
#[export] Hint Extern 0 (any _) => exact I : session_types.

Ltac vars := let m := fresh in intros m; destruct m; intros []; constructor; cbn in *; eauto with session_types.

Lemma session_flow_typed st : session_typed st -> flow_typed (session_flow st).
Proof.
  intros [(H1 & H2 & H3 & H4 & H5) _ [] _]. unfold flow_typed, session_flow, opt_typed. cbn.
  split_and!; try done. intros x [= <-]. done.
Qed.

(** ** The mux *)

(** Walks through code whose intermediate values do not matter. *)
Ltac typed_step :=
  first [ solve [eauto 2 with session_types]
        | by apply Typed_ret
        | by apply Typed_emit
        | by apply Typed_tx
        | apply Typed_modify_s; intros []; unfold own_typed; cbn; intuition auto using u32_range; by split
        | apply Typed_modify_m; vars ].
Ltac typed_next := apply (Typed_bind any); [typed_step|intros ? _].

Lemma mux_exit_typed : Typed any mux_exit.
Proof. unfold mux_exit. typed_next. typed_next. by apply Typed_ret. Qed.
Lemma mux_fail_typed e : Typed any (mux_fail e).
Proof. unfold mux_fail. typed_next. apply mux_exit_typed. Qed.
#[export] Hint Resolve mux_exit_typed mux_fail_typed : session_types.

Lemma mux_dispose_typed skip d id : disposition_typed d -> Typed any (mux_dispose skip d id).
Proof.
  intros Hd. unfold mux_dispose.
  apply (Typed_bind (fun h => map_typed h (is_u 32) (is_u 32))).
  { apply Typed_gets. intros st [_ _ [] _]. by case_match. }
  intros handles Hh. destruct (handles !! id) as [handle|] eqn:E; [|by apply Typed_ret].
  apply (Typed_bind any).
  { apply Typed_modify_m. intros []. case_match; intros []; constructor; cbn in *; eauto with session_types. }
  intros _ _. apply (Typed_bind any).
  { destruct (_ && _); [|by apply Typed_ret]. apply (Typed_bind (fun s => map_typed s (is_u 32) any)).
    { apply Typed_gets. intros st Hs. apply Hs. }
    intros s Hs. destruct (s !! id); [|by apply Typed_ret]. typed_next. typed_step. }
  intros _ _. apply (Typed_bind any); [by apply Typed_gets|]. intros [p|] _; [|by apply Typed_ret].
  by apply Typed_toLink.
Qed.

Lemma mux_dispose_loop_typed skip fuel id last d : disposition_typed d -> Typed any (mux_dispose_loop skip fuel id last d).
Proof.
  intros Hd. revert id. induction fuel as [|fuel IH]; intros id; cbn; case_match; try (by apply Typed_ret);
    [apply Typed_lift|]. apply (Typed_bind any); [by apply mux_dispose_typed|]. intros _ _. apply IH.
Qed.

Lemma mux_rx_flow_typed skip f : flow_typed f -> Typed any (mux_rx_flow skip f).
Proof.
  intros Hf. pose proof Hf as (F1 & F2 & F3 & F4 & F5 & F6 & F7 & F8). unfold mux_rx_flow.
  destruct (f_NextIncomingID f) as [n|]; [|typed_next; apply mux_fail_typed].
  apply (Typed_bind any); [typed_step|]. intros _ _. destruct (f_Handle f) as [h|].
  - apply (Typed_bind any); [by apply Typed_gets|]. intros [p|] _; [|by apply Typed_ret].
    apply (Typed_bind any); [by apply Typed_toLink|]. intros _ _. by apply Typed_ret.
  - destruct (f_Echo f); [|by apply Typed_ret]. apply (Typed_bind flow_typed).
    { apply Typed_gets. apply session_flow_typed. }
    intros resp Hr. apply (Typed_bind any); [by apply Typed_tx|]. intros _ _. by apply Typed_ret.
Qed.

Lemma mux_rx_attach_typed skip a : attach_typed a -> Typed any (mux_rx_attach skip a).
Proof.
  intros Ha. pose proof Ha as (Hh & _). unfold mux_rx_attach. apply (Typed_bind any); [by apply Typed_gets|].
  intros [p|] _; [|apply mux_fail_typed].
  apply (Typed_bind any); [by apply Typed_update; intros []|]. intros _ _. typed_next.
  apply (Typed_bind any); [by apply Typed_toLink|]. intros _ _. by apply Typed_ret.
Qed.

Lemma mux_update_window_typed : Typed any mux_update_window.
Proof.
  unfold mux_update_window. apply (Typed_bind any); [by apply Typed_gets|]. intros [] _; [|by apply Typed_ret].
  typed_next. apply (Typed_bind flow_typed); [apply Typed_gets, session_flow_typed|].
  intros f Hf. by apply Typed_tx.
Qed.

Lemma mux_rx_transfer_typed skip t : transfer_typed t -> Typed any (mux_rx_transfer skip t).
Proof.
  intros Ht. pose proof Ht as (Hh & Hid & _). unfold mux_rx_transfer. typed_next. typed_next.
  apply (Typed_bind any).
  { apply Typed_modify_m. intros []. case_match; [|done]. intros []. constructor; cbn in *; eauto with session_types. }
  intros _ _. apply (Typed_bind any); [by apply Typed_gets|]. intros [p|] _; [|by apply Typed_ret].
  apply (Typed_bind any); [by apply Typed_toLink|]. intros _ _.
  eapply Typed_bind; [apply Typed_deref|]. intros l _. apply (Typed_bind any).
  { repeat case_match; try (by apply Typed_ret). apply Typed_modify_m.
    assert (is_u 32 z) by (by apply Hid). vars. }
  intros _ _. apply (Typed_bind any); [apply mux_update_window_typed|]. intros _ _. by apply Typed_ret.
Qed.

Lemma mux_rx_detach_typed skip d : detach_typed d -> Typed any (mux_rx_detach skip d).
Proof.
  intros Hd. unfold mux_rx_detach. apply (Typed_bind any); [by apply Typed_gets|].
  intros [p|] _; [|by apply Typed_ret]. apply (Typed_bind any); [by apply Typed_toLink|]. intros _ _.
  eapply Typed_bind; [apply Typed_deref|]. intros l _. typed_next. typed_next. by apply Typed_ret.
Qed.

Lemma mux_rx_typed skip body : body_typed body -> Typed any (mux_rx skip body).
Proof.
  intros Hb. destruct body; try (by apply Typed_ret); cbn [mux_rx].
  - by apply mux_rx_attach_typed.
  - by apply mux_rx_flow_typed.
  - by apply mux_rx_transfer_typed.
  - apply (Typed_bind any); [by apply mux_dispose_loop_typed|]. intros _ _. by apply Typed_ret.
  - by apply mux_rx_detach_typed.
  - unfold mux_rx_end. typed_next. case_match; eauto with session_types.
Qed.

Lemma track_transfer_typed t m :
  transfer_typed t -> vars_typed m -> is_u 32 (track_transfer t m).1 /\ vars_typed (track_transfer t m).2.
Proof.
  intros (Hh & Hid & _) Hm. unfold track_transfer. destruct (tr_DeliveryID t) as [id|].
  - specialize (Hid id eq_refl). cbn [fst snd]. split; [done|]. destruct m, Hm.
    case_match; constructor; cbn in *; eauto with session_types.
  - split; [|done]. cbn. destruct Hm. destruct (mx_deliveryIDByHandle m !! tr_Handle t) eqn:E; [|done].
    by apply vt_ids0 in E as [_ ?].
Qed.

Lemma set_done_typed t d : transfer_typed t -> transfer_typed (set_tr_Done d t).
Proof. by destruct t. Qed.

Lemma mux_txTransfer_typed t : transfer_typed t -> Typed any (mux_txTransfer t).
Proof.
  intros Ht. unfold mux_txTransfer.
  apply (Typed_bind (fun x => is_u 32 x.1 /\ vars_typed x.2)).
  { apply Typed_gets. intros st Hs. apply track_transfer_typed; [done|apply Hs]. }
  intros [id m] [Hid Hm]. cbn in Hid, Hm. apply (Typed_bind any).
  { apply Typed_modify. intros [] []. by constructor. }
  intros _ _. apply (Typed_bind any); [case_match; typed_step|]. intros _ _.
  apply (Typed_bind transfer_typed).
  { repeat case_match; try (by apply Typed_ret). typed_next. apply Typed_ret. by apply set_done_typed. }
  intros t' Ht'. apply (Typed_bind any); [by apply Typed_tx|]. intros _ _. typed_next.
  apply Typed_modify_m. intros []. case_match; [|done]. intros []. constructor; cbn in *; eauto with session_types.
Qed.

Lemma mux_tx_typed body : body_typed body -> Typed any (mux_tx body).
Proof.
  intros Hb. unfold mux_tx. destruct body; try (by apply Typed_tx); [|apply Typed_panics].
  apply (Typed_bind session_typed); [by apply Typed_gets|]. intros st [(H1 & H2 & H3 & H4 & H5) _ [] _].
  apply Typed_tx. destruct f. cbn in *. unfold flow_typed, opt_typed in *. cbn in *. naive_solver.
Qed.

(** An event of the mux: a frame of the peer is decoded from bytes, and what the
    links send is well-typed. *)
Definition received_event (ev : event) : Prop :=
  match ev with
  | ERxSelect _ body => exists l, bytes_ok l /\ fst (ParseBody (New l)) = Ok body
  | ETxTransfer t => transfer_typed t
  | ETx body => body_typed body
  | _ => True
  end.

Lemma received_typed skip body : received_event (ERxSelect skip body) -> body_typed body.
Proof.
  intros (l & Hl & E). destruct (ParseBody (New l)) as [x r] eqn:Ep. cbn in E. subst. by eapply ParseBody_typed.
Qed.

Lemma mux_step_typed ph ev : received_event ev -> Typed any (mux_step ph ev).
Proof.
  intros Hev. destruct ph, ev; cbn [mux_step]; try (by apply Typed_ret); try apply mux_fail_typed.
  - typed_next. by apply Typed_ret.
  - by eapply mux_rx_typed, received_typed.
  - apply (Typed_bind any); [by apply Typed_gets|]. intros [] _; [|by apply Typed_ret].
    apply (Typed_bind any); [by apply mux_txTransfer_typed|]. intros _ _. by apply Typed_ret.
  - apply (Typed_bind any); [by apply mux_tx_typed|]. intros _ _. by apply Typed_ret.
  - destruct body; try (by apply Typed_ret). apply mux_exit_typed.
Qed.

Lemma allocateHandle_typed p : Typed any (allocateHandle p).
Proof.
  unfold allocateHandle. eapply Typed_bind; [apply Typed_deref|]. intros l _.
  apply (Typed_bind any); [by apply Typed_gets|]. intros [q|] _; [by intros st Hs|].
  apply (Typed_bind any); [by apply Typed_gets|]. intros h _. destruct (Bitmap.Next h) as [[n []] h'].
  - typed_next. apply (Typed_bind any); [by apply Typed_update; intros []|]. intros _ _. typed_step.
  - typed_next. apply (Typed_bind any); [by apply Typed_gets|]. intros m _. by intros st Hs.
Qed.
Lemma deallocateHandle_typed p : Typed any (deallocateHandle p).
Proof.
  unfold deallocateHandle. eapply Typed_bind; [apply Typed_deref|]. intros l _. typed_next. typed_next.
  apply (Typed_bind any); [by apply Typed_gets|]. intros [] _; [apply Typed_panics|].
  apply (Typed_bind any); [|intros _ _; typed_step]. apply Typed_modify. intros [] []. by constructor.
Qed.

Lemma link_step_typed st st' : link_step st st' -> session_typed st -> session_typed st'.
Proof.
  intros [p l s _ _ H0|p x s s' E|p l s s' _ _ E|p l l' s El _ _ Er] Hs.
  - destruct s as [s store c m o], Hs as [? Hl ? ?]. constructor; try done. cbn in *.
    intros q lq [[<- <-]|[_ E]]%lookup_insert_Some; [by rewrite H0|by eapply Hl].
  - pose proof (allocateHandle_typed p s Hs) as [H _]. by rewrite E in H.
  - pose proof (deallocateHandle_typed p s Hs) as [H _]. by rewrite E in H.
  - destruct s as [s store c m o], Hs as [? Hl ? ?]. constructor; try done. cbn in *.
    intros q lq [[<- <-]|[_ E]]%lookup_insert_Some; [rewrite Er; by eapply Hl|by eapply Hl].
Qed.

Lemma life_typed x y : rtc (life_step received_event) x y -> session_typed x.2 -> session_typed y.2.
Proof.
  induction 1 as [|x y z [ph ev ph' st st' Hev E|ph st st' E] _ IH]; intros Hs; [done|apply IH..]; cbn in *.
  - pose proof (mux_step_typed ph ev Hev st Hs) as [H _]. by rewrite E in H.
  - by eapply link_step_typed.
Qed.

Definition options_typed (opts : option SessionOptions) : Prop :=
  opt_typed (fun o => is_u 32 (so_IncomingWindow o) /\ is_u 32 (so_OutgoingWindow o) /\ is_u 32 (so_MaxLinks o)) opts.

Lemma new_state_typed channel opts rb :
  is_u 16 channel -> options_typed opts -> begin_typed rb -> session_typed (new_state channel opts rb).
Proof.
  intros Hc Ho (_ & H1 & H2 & H3 & _). constructor; cbn.
  - unfold own_typed, newSession. destruct opts as [o|]; cbn; [|by split_and!].
    destruct (Ho o eq_refl) as (O1 & O2 & O3).
    split_and!; [done|by case_match|by case_match|done|case_match; [apply u32_range|done]].
  - intros p l. by rewrite lookup_empty.
  - constructor; cbn; eauto with session_types; done.
  - constructor.
Qed.


(** The peer's attach of the receiving link and a transfer for it. *)
Definition sample_attach : bytes :=
  [0; TypeCodeSmallUlong; TypeCodeAttach; TypeCodeList8; 6; 3; TypeCodeStr8; 1; 98; TypeCodeUint0; TypeCodeBoolFalse].
Definition sample_incoming : bytes :=
  [0; TypeCodeSmallUlong; TypeCodeTransfer; TypeCodeList8; 4; 2; TypeCodeUint0; TypeCodeSmallUint; 1; 42].

Definition parsed (l : bytes) : FrameBody :=
  match fst (ParseBody (New l)) with Ok f => f | _ => FEnd (mkEnd None) end.

Definition transferred : state :=
  (mux_run MuxRunning [ERx (parsed sample_attach); ERx (parsed sample_incoming)] two_links).2.


End SessionTyping.
