(* ===== verification/Confirm.v ===== *)
(** * Confirm: a disposition confirms the message that was sent

    The frames that a sender makes of a message pass through its session, which
    remembers the channel that waits for the settlement; the peer's disposition
    then reaches that channel. *)

From S2P Require Import Prelude Buffer Types Encode Decode Wire CodecRoundtrip FieldRoundtrip Frames Parsing FrameRoundtrip Message MessageRoundtrip Link Sender SenderSpec Session SessionSpec.
Import Buffer Encode Decode Wire CodecRoundtrip FieldRoundtrip Frames Parsing FrameRoundtrip Message
  MessageRoundtrip Errors Link Sender SenderSpec Session SessionSpec.

Module Confirm.

(** What a transfer that is not settled changes in the session. *)
Record tracked (fr : PerformTransfer) (st st' : state) : Prop := mkTracked {
  tk_latest : mx_deliveryIDByHandle (st_m st')
    = match tr_DeliveryID fr with
      | Some id => <[ tr_Handle fr := id ]> (mx_deliveryIDByHandle (st_m st))
      | None => mx_deliveryIDByHandle (st_m st)
      end;
  tk_handles : mx_handlesByDeliveryID (st_m st')
    = match tr_DeliveryID fr with
      | Some id => <[ id := tr_Handle fr ]> (mx_handlesByDeliveryID (st_m st))
      | None => mx_handlesByDeliveryID (st_m st)
      end;
  tk_settlement : mx_settlementByDeliveryID (st_m st')
    = match tr_Done fr with
      | Some done =>
          <[ match tr_DeliveryID fr with
             | Some id => id
             | None => default 0 (mx_deliveryIDByHandle (st_m st) !! tr_Handle fr)
             end := done ]> (mx_settlementByDeliveryID (st_m st))
      | None => mx_settlementByDeliveryID (st_m st)
      end;
  tk_links : mx_links (st_m st') = mx_links (st_m st);
  tk_closed : st_closedRx st' = st_closedRx st;
  tk_outgoing : ss_outgoingWindow (st_s st') = ss_outgoingWindow (st_s st);
  tk_window : mx_remoteIncomingWindow (st_m st') = mx_remoteIncomingWindow (st_m st) - 1
}.

(** The session has room for [n] more transfers. *)
Definition room (st : state) (n : Z) : Prop :=
  ss_outgoingWindow (st_s st) <> 0 /\ n <= mx_remoteIncomingWindow (st_m st) < 2 ^ 32.

Lemma transfer_tracked fr st :
  room st 1 -> tr_Settled fr = false ->
  exists st', mux_step MuxRunning (ETxTransfer fr) st = (Ok MuxRunning, st') /\ tracked fr st st'.
Proof.
  intros [Ho Hw] Hs. destruct st as [[] store c [lk hd dh hr se no ni riw row] o]. cbn in Ho, Hw.
  unfold mux_step, window_open, mux_txTransfer, track_transfer. runs.
  replace (riw =? 0) with false by lia. replace (_ =? 0) with false by lia. runs. rewrite Hs.
  assert (u32 (riw - 1) = riw - 1) as E by (apply u32_small; split; lia).
  destruct (tr_DeliveryID fr) eqn:Ei, (tr_Done fr) eqn:Ed; runs; replace (riw =? 0) with false by lia; runs;
    (eexists; split; [reflexivity|]); constructor; rewrite ?Ei, ?Ed; done.
Qed.

(** The delivery [id] on the handle [h] waits on the channel [done]. *)
Definition waiting (st : state) (id h done : Z) : Prop :=
  mx_handlesByDeliveryID (st_m st) !! id = Some h /\ mx_settlementByDeliveryID (st_m st) !! id = Some done.

Lemma run_step ph ev evs ph1 st st1 :
  mux_step ph ev st = (Ok ph1, st1) -> mux_run ph (ev :: evs) st = mux_run ph1 evs st1.
Proof. intros E. cbn [mux_run]. unfold mbind, M_bind. by rewrite E. Qed.

Lemma zlen_pos {A} (x : A) l : 1 <= zlen (x :: l).
Proof. rewrite zlen_cons. pose proof (zlen_nonneg l). lia. Qed.

Lemma chunk_fields c fr :
  let fr1 := set_tr_More true (set_tr_Payload c fr) in
  tr_Handle fr1 = tr_Handle fr /\ tr_DeliveryID fr1 = tr_DeliveryID fr /\
  tr_Handle (clear_first fr1) = tr_Handle fr /\ tr_DeliveryID (clear_first fr1) = None /\
  tr_Settled (clear_first fr1) = tr_Settled fr /\ tr_Done (clear_first fr1) = tr_Done fr.
Proof. by destruct fr. Qed.

(** The frames after the first one find the delivery by their handle. *)
Lemma rest_tracked done cs fr st id :
  cs <> [] -> tr_DeliveryID fr = None -> tr_Settled fr = false -> tr_Done fr = None -> room st (zlen cs) ->
  mx_deliveryIDByHandle (st_m st) !! tr_Handle fr = Some id ->
  mx_handlesByDeliveryID (st_m st) !! id = Some (tr_Handle fr) ->
  exists st', mux_run MuxRunning (map ETxTransfer (frames_of false done fr cs)) st = (Ok MuxRunning, st') /\
    waiting st' id (tr_Handle fr) done /\ mx_links (st_m st') = mx_links (st_m st) /\
    st_closedRx st' = st_closedRx st.
Proof.
  revert fr st. induction cs as [|c cs IH]; intros fr st Hne Hi Hs Hd Hr Hid Hh; [done|].
  assert (room st 1) as Hr1 by (destruct Hr; pose proof (zlen_pos c cs); split; [done|lia]).
  destruct cs as [|c' cs].
  - cbn [frames_of map]. match goal with |- context [ETxTransfer ?f] =>
      destruct (transfer_tracked f st Hr1 ltac:(by destruct fr)) as (st1 & E & []) end.
    exists st1. split; [by rewrite (run_step _ _ _ _ _ _ E)|]. clear E. destruct fr. cbn in *. subst.
    unfold waiting.
    rewrite tk_handles0, tk_settlement0, Hid. cbn. by rewrite lookup_insert_eq.
  - rewrite frames_of_cons. cbn [map].
    destruct (transfer_tracked (set_tr_More true (set_tr_Payload c fr)) st Hr1) as (st1 & E & T); [by destruct fr|].
    rewrite (run_step _ _ _ _ _ _ E). destruct (chunk_fields c fr) as (F1 & F2 & F3 & F4 & F5 & F6).
    destruct T as [T1 T2 _ T4 T5 T6 T7]. rewrite F1, F2, Hi in *. rewrite <- F3.
    destruct (IH (clear_first (set_tr_More true (set_tr_Payload c fr))) st1) as (st2 & E2 & W & L & C);
      rewrite ?F3; try done; [by rewrite F5|by rewrite F6| |by rewrite T1|by rewrite T2|].
    + destruct Hr as [R1 R2]. rewrite zlen_cons in R2. split; [congruence|]. rewrite T7. lia.
    + exists st2. rewrite L, C, T4, T5. rewrite F3 in W. done.
Qed.

Lemma frames_tracked done cs fr st id :
  cs <> [] -> tr_DeliveryID fr = Some id -> tr_Settled fr = false -> tr_Done fr = None -> room st (zlen cs) ->
  exists st', mux_run MuxRunning (map ETxTransfer (frames_of false done fr cs)) st = (Ok MuxRunning, st') /\
    waiting st' id (tr_Handle fr) done /\ mx_links (st_m st') = mx_links (st_m st) /\
    st_closedRx st' = st_closedRx st.
Proof.
  intros Hne Hi Hs Hd Hr. destruct cs as [|c cs]; [done|].
  assert (room st 1) as Hr1 by (destruct Hr; pose proof (zlen_pos c cs); split; [done|lia]).
  destruct cs as [|c' cs].
  - cbn [frames_of map]. match goal with |- context [ETxTransfer ?f] =>
      destruct (transfer_tracked f st Hr1 ltac:(by destruct fr)) as (st1 & E & []) end.
    exists st1. split; [by rewrite (run_step _ _ _ _ _ _ E)|]. clear E. destruct fr. cbn in *. subst.
    unfold waiting.
    rewrite tk_handles0, tk_settlement0. by rewrite !lookup_insert_eq.
  - rewrite frames_of_cons. cbn [map].
    destruct (transfer_tracked (set_tr_More true (set_tr_Payload c fr)) st Hr1) as (st1 & E & T); [by destruct fr|].
    rewrite (run_step _ _ _ _ _ _ E). destruct (chunk_fields c fr) as (F1 & F2 & F3 & F4 & F5 & F6).
    destruct T as [T1 T2 _ T4 T5 T6 T7]. rewrite F1, F2, Hi in *. rewrite <- F3.
    destruct (rest_tracked done (c' :: cs) (clear_first (set_tr_More true (set_tr_Payload c fr))) st1 id) as (st2 & E2 & W & L & C);
      rewrite ?F3; try done; [by rewrite F5|by rewrite F6| |by rewrite T1, lookup_insert_eq|by rewrite T2, lookup_insert_eq|].
    + destruct Hr as [R1 R2]. rewrite zlen_cons in R2. split; [congruence|]. rewrite T7. lia.
    + exists st2. rewrite L, C, T4, T5. rewrite F3 in W. done.
Qed.

(** The number of chunks is at most the number of bytes. *)
Lemma zlen_chunks (cs : list bytes) : Forall (fun c => 0 < zlen c) cs -> zlen cs <= zlen (concat cs).
Proof.
  induction 1 as [|c cs Hc Hcs IH]; [done|]. cbn [concat]. rewrite zlen_cons, zlen_app. lia.
Qed.

(** What Send returns does not depend on what send changes in the sender. *)
Lemma confirmed_outcome state msg s b b' :
  Send_confirmed state (set_s_buf b (deliveryTag (set_s_buf b' s) msg).2)
  = match state with
    | Some (StateRejected e) =>
        if detachOnRejectDisp s then Some (EDetach e None) else Some (from_option EAmqp EAmqpNil e)
    | _ => None
    end.
Proof.
  assert (detachOnRejectDisp (set_s_buf b (deliveryTag (set_s_buf b' s) msg).2) = detachOnRejectDisp s) as E
    by (unfold deliveryTag; destruct s; by case_match).
  unfold Send_confirmed. rewrite E. destruct state as [[? ?| |[]| |]|]; done.
Qed.

(** The session takes the frames of a message and the disposition completes it. *)
Lemma sent_confirmed peerMax nextID done msg s bs k st d :
  Encodes (Message_Marshal msg) bs -> sendable s msg bs -> maxTransferFrameHeader < peerMax ->
  zlen bs <= Z.of_nat k -> senderSettled s msg = false -> l_detached (s_l s) = false ->
  links_open st -> room st (zlen bs) -> dp_Role d = RoleReceiver -> dp_Settled d = true ->
  0 <= dp_First d <= u32 (nextID + 1) ->
  u32 (nextID + 1) <= default (dp_First d) (dp_Last d) < MaxUint32 ->
  exists frs s' st1 st2 out,
    send peerMax nextID done (replicate k SSent) msg s
      = (Ok (SendDone (Some done)), frs, u32 (nextID + 1), s') /\
    Send peerMax nextID done (replicate k SSent) (SConfirmed (dp_State d)) msg s
      = (Ok (Some (match dp_State d with
                   | Some (StateRejected e) =>
                       if detachOnRejectDisp s then Some (EDetach e None) else Some (from_option EAmqp EAmqpNil e)
                   | _ => None
                   end)), frs, u32 (nextID + 1), s') /\
    mux_run MuxRunning (map ETxTransfer frs) st = (Ok MuxRunning, st1) /\
    mux_step MuxRunning (ERx (FDisposition d)) st1 = (Ok MuxRunning, st2) /\
    st_out st2 = st_out st1 ++ out /\ ASettle done (dp_State d) ∈ out.
Proof.
  intros He Hsend Hp Hk Hset Hdet Ho Hroom Hrole Hsettled H1 H2.
  destruct (send_frames peerMax nextID done msg s bs k He Hsend Hp Hk) as (cs & Ec & Hne & Hcs & E).
  cbn zeta in E. rewrite Hset in E.
  match type of E with context [frames_of false done ?f cs] => set (fr := f) in E end.
  destruct (frames_tracked done cs fr st (u32 (nextID + 1))) as (st1 & E1 & [W1 W2] & L & C); try done.
  { destruct Hroom as [R1 R2]. split; [done|]. pose proof (zlen_chunks cs) as Hz. rewrite Ec in Hz.
    specialize (Hz ltac:(eapply Forall_impl; [exact Hcs|]; cbn; intros; lia)). lia. }
  destruct (disposition_spec d st1) as (st2 & E2 & D); [lia|lia|by intros h p; rewrite L, C; apply Ho|].
  eexists _, _, st1, st2, _. split; [exact E|]. split; [unfold Send; rewrite Hdet, E; cbn [Send_wait]; by rewrite confirmed_outcome|].
  split; [exact E1|]. split; [exact E2|].
  split; [apply (ds_out _ _ _ _ D)|].
  apply list_elem_of_In, in_concat. exists (dispose_acts d (st_m st1) (u32 (nextID + 1))). split.
  - apply in_map, list_elem_of_In, elem_of_seqZ. lia.
  - unfold dispose_acts, handles_of, settles. rewrite Hrole, Hsettled. cbn. rewrite W1, W2. by left.
Qed.

(** A message that was sent unsettled is confirmed by the peer's
    disposition.  The session takes the frames of the message one by one; when
    then a settled disposition of a receiver arrives whose range covers the
    delivery id, the channel on which Send waits gets the delivery state, and
    with it Send returns: nil, or an error if the message was rejected. *)
Theorem delivery_confirmed peerMax nextID done msg s bs k st d :
  Encodes (Message_Marshal msg) bs -> sendable s msg bs -> maxTransferFrameHeader < peerMax ->
  zlen bs <= Z.of_nat k -> senderSettled s msg = false -> l_detached (s_l s) = false ->
  links_open st -> room st (zlen bs) -> dp_Role d = RoleReceiver -> dp_Settled d = true ->
  0 <= dp_First d <= u32 (nextID + 1) ->
  u32 (nextID + 1) <= default (dp_First d) (dp_Last d) < MaxUint32 ->
  exists frs s' st1 st2 out,
    Send peerMax nextID done (replicate k SSent) (SConfirmed (dp_State d)) msg s
      = (Ok (Some (match dp_State d with
                   | Some (StateRejected e) =>
                       if detachOnRejectDisp s then Some (EDetach e None) else Some (from_option EAmqp EAmqpNil e)
                   | _ => None
                   end)), frs, u32 (nextID + 1), s') /\
    mux_run MuxRunning (map ETxTransfer frs) st = (Ok MuxRunning, st1) /\
    mux_step MuxRunning (ERx (FDisposition d)) st1 = (Ok MuxRunning, st2) /\
    st_out st2 = st_out st1 ++ out /\ ASettle done (dp_State d) ∈ out.
Proof.
  intros. edestruct sent_confirmed as (frs & s' & st1 & st2 & out & _ & H'); [done..|].
  by exists frs, s', st1, st2, out.
Qed.

Lemma delivery_confirmed_witness :
  exists frs s' st1 st2 out,
    Send 70 0 1 (replicate 10 SSent) (SConfirmed (Some StateAccepted)) (NewMessage [104; 101; 108; 108; 111])
      sample_sender = (Ok (Some None), frs, u32 (0 + 1), s') /\
    mux_run MuxRunning (map ETxTransfer frs) (new_state 0 None (set_b_IncomingWindow 10 sample_begin))
      = (Ok MuxRunning, st1) /\
    mux_step MuxRunning (ERx (FDisposition (accepted 1 1))) st1 = (Ok MuxRunning, st2) /\
    st_out st2 = st_out st1 ++ out /\ ASettle 1 (dp_State (accepted 1 1)) ∈ out.
Proof.
  apply (delivery_confirmed 70 0 1 (NewMessage [104; 101; 108; 108; 111]) sample_sender sample_bytes 10
    (new_state 0 None (set_b_IncomingWindow 10 sample_begin)) (accepted 1 1));
    [exact sample_encodes|split; [|split; [|left]]; by cbn|by cbn|by cbn|reflexivity|reflexivity|
     intros h p H; by vm_compute in H|split; by vm_compute|reflexivity|reflexivity|by vm_compute|by vm_compute].
Defined.

End Confirm.
