(* ===== verification/Settle.v ===== *)
(** * Settle: the verdict of the receiver is the outcome of Send

    The whole way of a message and back: a message that is sent unsettled is
    received, the application accepts, rejects, releases or modifies it, and the
    Send that waits for it returns accordingly. *)

From S2P Require Import Prelude Buffer Types Encode Decode Wire CodecRoundtrip FieldRoundtrip ValueRoundtrip Frames Parsing FrameRoundtrip Message MessageRoundtrip Link Creditor Receiver ReceiverSpec Sender SenderSpec Delivery Session SessionSpec Confirm.
Import Buffer Encode Decode Wire CodecRoundtrip FieldRoundtrip Frames Parsing FrameRoundtrip Message
  MessageRoundtrip Errors Link ReceiverSpec Sender SenderSpec Delivery Session SessionSpec Confirm.

Module Settle.

(** ** The calls with which the application settles a message *)

Inductive verdict :=
| Accept
| Reject (e : option Error)
| Release
| Modify (options : option Receiver.ModifyMessageOptions).

Definition settle (v : verdict) (wait : Z) (m : Message) (r : Receiver.Receiver) :=
  match v with
  | Accept => Receiver.AcceptMessage None wait m r
  | Reject e => Receiver.RejectMessage None wait m e r
  | Release => Receiver.ReleaseMessage None wait m r
  | Modify o => Receiver.ModifyMessage None wait m o r
  end.

(** The state that goes out. *)
Definition state_of (v : verdict) : DeliveryState :=
  match v with
  | Accept => StateAccepted
  | Reject e => StateRejected e
  | Release => StateReleased
  | Modify o =>
      let o := default (Receiver.mkModifyMessageOptions false false None) o in
      StateModified (Receiver.mo_DeliveryFailed o) (Receiver.mo_UndeliverableHere o) (Receiver.mo_Annotations o)
  end.

(** What the sender's application sees. *)
Definition outcome (v : verdict) (s : Sender) : option goerr :=
  match v with
  | Reject e =>
      Some (if detachOnRejectDisp s then EDetach (norm_err e) None
            else from_option EAmqp EAmqpNil (norm_err e))
  | _ => None
  end.

Lemma outcome_norm v s :
  match norm_state_ norm (state_of v) with
  | StateRejected e => if detachOnRejectDisp s then Some (EDetach e None) else Some (from_option EAmqp EAmqpNil e)
  | _ => None
  end = outcome v s.
Proof. destruct v as [|[]| |[[? ? []]|]]; cbn; try done; by destruct (detachOnRejectDisp s). Qed.

(** A receiver as it is by default: it settles first and does not batch. *)
Record direct (r : Receiver.Receiver) : Prop := mkDirect {
  di_first : match l_receiverSettleMode (Receiver.r_l r) with
             | None => True | Some m => m = ReceiverSettleModeFirst end;
  di_batching : Receiver.r_batching r = false;
  di_detached : l_detached (Receiver.r_l r) = false
}.

Lemma settle_direct v wait m r :
  direct r -> m_settled m = false ->
  settle v wait m r
  = ((None, false), [FDisposition (mkDisposition RoleReceiver (m_deliveryID m) None true (Some (state_of v)) false)], r).
Proof.
  intros [Hf Hb Hd] Hm.
  assert (forall state, Receiver.messageDisposition_send None wait m state r
    = ((None, false), [FDisposition (mkDisposition RoleReceiver (m_deliveryID m) None true (Some state) false)], r)) as E.
  { intros state. unfold Receiver.messageDisposition_send, Receiver.sendDisposition, Receiver.disposition_frame.
    destruct (l_receiverSettleMode _) as [mode|] eqn:Em; [subst mode|]; cbn; by rewrite Hb, ?Hd, ?Em. }
  destruct v; cbn; unfold Receiver.AcceptMessage, Receiver.RejectMessage, Receiver.ReleaseMessage,
    Receiver.ModifyMessage, shouldSendDisposition; rewrite Hm; apply E.
Qed.

(** Receiving does not change how the receiver settles. *)
Lemma muxReceive_direct fr r x r' : Receiver.muxReceive fr r = (x, r') -> direct r -> direct r'.
Proof.
  intros E [Hf Hb Hd].
  enough (l_receiverSettleMode (Receiver.r_l r') = l_receiverSettleMode (Receiver.r_l r) /\
          Receiver.r_batching r' = Receiver.r_batching r /\
          l_detached (Receiver.r_l r') = l_detached (Receiver.r_l r)) as (E1 & E2 & E3).
  { constructor; [by rewrite E1|congruence..]. }
  clear Hf Hb Hd. revert E.
  unfold Receiver.muxReceive, Receiver.muxReceive_first, Receiver.muxReceive_next, Receiver.muxReceive_complete,
    Receiver.closeWithError, Receiver.addUnsettled.
  destruct r as [[]]; cbn; intros E; repeat (case_match; simplify_eq; cbn in * ); done.
Qed.

Lemma receive_all_direct frs r x r' : receive_all frs r = (x, r') -> direct r -> direct r'.
Proof.
  revert r. induction frs as [|fr frs IH]; intros r; cbn; [by intros [= _ <-]|].
  destruct (Receiver.muxReceive fr r) as [[[e|]|?|?|] r1] eqn:E; intros H Hd;
    pose proof (muxReceive_direct _ _ _ _ E Hd); simplify_eq; eauto.
Qed.

(** ** There and back *)

(** The peer decodes the frame [f] to [f'], if it fits into a frame at all. *)
Definition body_crosses (f f' : FrameBody) : Prop :=
  exists body, Encodes (FrameBody_Marshal f) body /\
    (zlen body < 2 ^ 32 -> fst (ParseBody (New body)) = Ok f').

Lemma disposition_crosses d : disposition_ok d = true -> body_crosses (FDisposition d) (FDisposition (norm_disposition d)).
Proof. intros H. destruct (body_rt (FDisposition d) H) as (body & He & Hp). exists body. split; [done|]. intros Hl. apply (Hp Hl []). Qed.

(** C3: the receiver's verdict on a message is what Send returns.  A message is sent
    unsettled; its frames go through the session and over the wire; the receiver
    puts it together and hands it to the application, which accepts, rejects,
    releases or modifies it.  The call returns nil and sends one disposition;
    decoded by the peer, it makes the session signal the channel on which Send
    waits, and Send returns nil, or, for a message that was rejected, the error
    that the receiver gave. *)
Theorem verdict_reaches_send peerMax nextID done wait msg s bs k st r v :
  message_ok msg = true -> Encodes (Message_Marshal msg) bs -> sendable s msg bs ->
  maxTransferFrameHeader < peerMax < 2 ^ 32 -> zlen bs <= Z.of_nat k ->
  inu 32 (l_handle (s_l s)) = true -> inu 32 (m_Format msg) = true ->
  senderSettled s msg = false -> l_detached (s_l s) = false -> links_open st -> room st (zlen bs) ->
  u32 (nextID + 1) < MaxUint32 ->
  idle r -> size_ok r (zlen bs) -> direct r -> Receiver.r_messages r = [] -> state_ok (state_of v) = true ->
  exists frs s' st1 r1 m r2 d d' st2 out,
    Send peerMax nextID done (replicate k SSent) (SConfirmed (dp_State d')) msg s
      = (Ok (Some (outcome v s)), frs, u32 (nextID + 1), s') /\
    mux_run MuxRunning (map ETxTransfer frs) st = (Ok MuxRunning, st1) /\
    Forall2 crosses frs (received frs) /\ receive_all (received frs) r = (Ok None, r1) /\
    Receiver.Prefetched r1 = (Some m, r2) /\
    m = set_m_rcvr (Some (key_name (l_key (Receiver.r_l r1)))) (arriving s nextID msg) /\
    settle v wait m r2 = ((None, false), [FDisposition d], r2) /\
    body_crosses (FDisposition d) (FDisposition d') /\
    mux_step MuxRunning (ERx (FDisposition d')) st1 = (Ok MuxRunning, st2) /\
    st_out st2 = st_out st1 ++ out /\ ASettle done (dp_State d') ∈ out.
Proof.
  intros Hok He Hsend Hp Hk Hh Hf Hset Hdet Ho Hroom Hid Hr Hs Hd Hq Hv.
  destruct (send_delivers peerMax nextID done msg s bs k Hok He Hsend Hp Hk Hh Hf)
    as (frs & s' & E & _ & [Hx Hrcv]).
  destruct (Hrcv r Hr Hs) as (r1 & Er & _ & Hm & _). rewrite Hq in Hm. cbn [app] in Hm.
  set (d := mkDisposition RoleReceiver (u32 (nextID + 1)) None true (Some (state_of v)) false).
  pose proof (u32_range (nextID + 1)) as Hu. unfold is_u in Hu.
  destruct (sent_confirmed peerMax nextID done msg s bs k st (norm_disposition d))
    as (frs' & s'' & st1 & st2 & out & E' & ES & E1 & E2 & Eo & Hin); try done; try (cbn; lia).
  rewrite E in E'. simplify_eq.
  exists frs', s'', st1, r1. eexists _, (Receiver.set_r_messages [] (Receiver.signalReady r1)). exists d, (norm_disposition d), st2, out.
  assert (direct (Receiver.set_r_messages [] (Receiver.signalReady r1))) as Hd2
    by (destruct (receive_all_direct _ _ _ _ Er Hd); destruct r1; by constructor).
  split_and!; try done.
  - rewrite ES, <- outcome_norm. done.
  - exact (all_cross _ _ Hx).
  - unfold Receiver.Prefetched. cbn zeta.
    replace (Receiver.r_messages (Receiver.signalReady r1)) with (Receiver.r_messages r1) by (by destruct r1).
    rewrite Hm. by destruct r1.
  - rewrite settle_direct; [done|done|done].
  - apply disposition_crosses. unfold disposition_ok. cbn. rewrite Hv. unfold inu. lia.
Qed.

(** A message of ten bytes is rejected. *)
Definition hello : Message := NewMessage [104; 101; 108; 108; 111].
Definition refusal : Error := mkErr ErrCondNotAllowed "no thanks".
Definition sending_session : state := new_state 0 None (set_b_IncomingWindow 10 sample_begin).

Lemma verdict_reaches_send_witness :
  exists frs s' st1 r1 m r2 d d' st2 out,
    Send 70 0 1 (replicate 10 SSent) (SConfirmed (dp_State d')) hello sample_sender
      = (Ok (Some (outcome (Reject (Some refusal)) sample_sender)), frs, u32 (0 + 1), s') /\
    mux_run MuxRunning (map ETxTransfer frs) sending_session = (Ok MuxRunning, st1) /\
    Forall2 crosses frs (received frs) /\ receive_all (received frs) sample_receiver = (Ok None, r1) /\
    Receiver.Prefetched r1 = (Some m, r2) /\
    m = set_m_rcvr (Some (key_name (l_key (Receiver.r_l r1)))) (arriving sample_sender 0 hello) /\
    settle (Reject (Some refusal)) 2 m r2 = ((None, false), [FDisposition d], r2) /\
    body_crosses (FDisposition d) (FDisposition d') /\
    mux_step MuxRunning (ERx (FDisposition d')) st1 = (Ok MuxRunning, st2) /\
    st_out st2 = st_out st1 ++ out /\ ASettle 1 (dp_State d') ∈ out.
Proof.
  apply (verdict_reaches_send 70 0 1 2 hello sample_sender sample_bytes 10 sending_session sample_receiver);
    [reflexivity|exact sample_encodes|split; [|split; [|left]]; by cbn|by cbn|by cbn|reflexivity|reflexivity|
     reflexivity|reflexivity|intros h p H; by vm_compute in H|split; by vm_compute|by vm_compute|done|
     split; [by cbn|by left]|by constructor|reflexivity|by vm_compute].
Defined.

End Settle.
