(* ===== verification/Batched.v ===== *)
(** * Batched: verdicts that are sent in batches

    The disposition batcher of a receiver joins the verdicts of the application into
    ranges.  Its frames, taken by the session of the peer, settle every delivery
    exactly once and in order, whatever the timer does. *)

From S2P Require Import Prelude Buffer Types Encode Decode Wire CodecRoundtrip FieldRoundtrip ValueRoundtrip Frames Parsing FrameRoundtrip Message Link Creditor Receiver ReceiverSpec Session SessionSpec Settle.
Import Buffer Encode Wire FieldRoundtrip Frames Parsing FrameRoundtrip Link Receiver ReceiverSpec Session SessionSpec Settle.

Module Batched.

(** ** Lists of verdicts *)

(** The verdicts on deliveries that are not in [seen] and have no earlier verdict. *)
Fixpoint fresh {A} (seen : list Z) (l : list (Z * A)) : list (Z * A) :=
  match l with
  | [] => []
  | (id, s) :: l => if decide (id ∈ seen) then fresh seen l else (id, s) :: fresh (id :: seen) l
  end.

Lemma fresh_same {A} seen seen' (l : list (Z * A)) :
  (forall id, id ∈ seen <-> id ∈ seen') -> fresh seen l = fresh seen' l.
Proof.
  revert seen seen'. induction l as [|[id s] l IH]; intros seen seen' H; [done|]. cbn.
  destruct (decide (id ∈ seen)), (decide (id ∈ seen')); try (exfalso; naive_solver); [by apply IH|].
  f_equal. apply IH. intros j. rewrite !elem_of_cons. naive_solver.
Qed.

Lemma fresh_app {A} seen (l1 l2 : list (Z * A)) :
  fresh seen (l1 ++ l2) = fresh seen l1 ++ fresh (l1.*1 ++ seen) l2.
Proof.
  revert seen. induction l1 as [|[id s] l1 IH]; intros seen; [done|]. cbn.
  destruct (decide (id ∈ seen)); rewrite IH; [|cbn; f_equal]; f_equal; apply fresh_same; intros j;
    rewrite ?elem_of_app, ?elem_of_cons, ?elem_of_app; naive_solver.
Qed.

Lemma fresh_new {A} seen (l : list (Z * A)) :
  NoDup l.*1 -> (forall id, id ∈ l.*1 -> id ∉ seen) -> fresh seen l = l.
Proof.
  revert seen. induction l as [|[id s] l IH]; intros seen Hn Hs; [done|]. cbn in *.
  apply NoDup_cons in Hn as [Hid Hn]. destruct (decide (id ∈ seen)); [exfalso; eapply Hs; [left|done]|].
  f_equal. apply IH; [done|]. intros j Hj. rewrite elem_of_cons. intros [->|?]; [done|].
  eapply Hs; [by right|done].
Qed.

Lemma fresh_old {A} seen (l : list (Z * A)) : (forall id, id ∈ l.*1 -> id ∈ seen) -> fresh seen l = [].
Proof.
  revert seen. induction l as [|[id s] l IH]; intros seen Hs; [done|]. cbn in *.
  destruct (decide (id ∈ seen)) as [|N]; [|destruct N; apply Hs; left]. apply IH. intros j Hj. apply Hs. by right.
Qed.

Lemma fresh_ids {A} (l : list (Z * A)) id : id ∈ l.*1 <-> id ∈ (fresh [] l).*1.
Proof.
  enough (forall seen, id ∉ seen -> (id ∈ l.*1 <-> id ∈ (fresh seen l).*1)) as H by (apply H; set_solver).
  induction l as [|[j s] l IH]; intros seen Hs; [done|]. cbn. destruct (decide (j ∈ seen)).
  - rewrite elem_of_cons, IH by done. split; [intros [->|]; done|by right].
  - cbn. rewrite !elem_of_cons. destruct (decide (id = j)) as [->|]; [by split; left|].
    rewrite (IH (j :: seen)) by (rewrite elem_of_cons; naive_solver). done.
Qed.

(** ** The batcher *)

(** The ids of a range stay in range. *)
Definition ranged (b : batcher) : Prop := b_timer b = true -> is_u 32 (b_first b) /\ is_u 32 (b_last b).

(** What a timer would send that was not stopped when its batch was flushed. *)
Definition stale (b : batcher) : list Z :=
  if b_timer b && negb (batchStarted b) then ids (b_first b) (b_last b) else [].

(** The frames of the batcher. *)
Definition batch_frame (r : Receiver) (fr : FrameBody) : Prop :=
  exists first last state, fr = FDisposition (disposition_frame first last state r) /\
    is_u 32 first /\ from_option (is_u 32) True last /\ state_ok state = true.

Lemma batch_frame_one r id state :
  is_u 32 id -> state_ok state = true -> batch_frame r (FDisposition (disposition_frame id None state r)).
Proof. intros. by exists id, None, state. Qed.
Lemma batch_frame_range r first last :
  is_u 32 first -> is_u 32 last -> batch_frame r (FDisposition (disposition_frame first (Some last) StateAccepted r)).
Proof. intros. by exists first, (Some last), StateAccepted. Qed.
#[local] Hint Resolve batch_frame_one batch_frame_range : core.

(** A step of the batcher: what it sends, what stays pending, and that a timer
    left behind only repeats what was sent. *)
Record batch_steps (ev : bevent) (b : batcher) (r : Receiver) (o : rout) (b' : batcher) : Prop := mkSteps {
  bs_ok : batch_ok b' r;
  bs_ranged : ranged b';
  bs_frames : Forall (batch_frame r) (ro_frames o);
  bs_stale id : id ∈ stale b' -> id ∈ stale b \/ id ∈ (flat_map ReceiverSpec.disposed (ro_frames o)).*1;
  bs_sent : flat_map ReceiverSpec.disposed (ro_frames o) ++ pending b' = pending b ++ requested [ev] \/
            (pending b = [] /\ pending b' = [] /\ requested [ev] = [] /\
             forall id, id ∈ (flat_map ReceiverSpec.disposed (ro_frames o)).*1 -> id ∈ stale b)
}.

Lemma disposed_range first last state r :
  ReceiverSpec.disposed (FDisposition (disposition_frame first (Some last) state r))
  = map (fun id => (id, state)) (ids first last).
Proof. done. Qed.

Lemma fst_pairs {B} (x : B) (l : list Z) : (map (fun id => (id, x)) l).*1 = l.
Proof. induction l as [|id l IH]; [done|]. cbn. by f_equal. Qed.

Lemma batch_disposition_steps d b r :
  l_detached (r_l r) = false -> is_u 32 (md_id d) -> state_ok (md_state d) = true -> r_maxCredit r < 2 ^ 32 ->
  batch_ok b r -> ranged b ->
  exists o b', batch_step None (BDisposition d) b r = Ok (o, r, b') /\ batch_steps (BDisposition d) b r o b'.
Proof.
  intros Hd Hid Hok Hm Hb Hr. destruct (batch_disposition_covers d b r Hd Hid Hm Hb) as (o & b' & E & Hb' & Hp).
  exists o, b'. split; [exact E|]. revert E Hp. cbn [batch_step]. unfold batch_disposition.
  destruct b as [started f l t]. cbn [batchStarted b_first b_last b_timer].
  assert (started = true -> t = true /\ is_u 32 f /\ is_u 32 l) as Hs
    by (intros ->; destruct (Hb eq_refl) as (? & ? & ? & _); done).
  destruct (negb (is_accept (md_state d)) || _) eqn:Ec.
  - destruct started; [destruct (Hs eq_refl) as (-> & Hf & Hl)|];
      rewrite ?batch_send_ok by done; cbn; rewrite ?batch_send_ok by done; cbn;
      intros [= <- <-] Hp; constructor; try done; try (by left); try (by repeat constructor; auto).
    intros id Hi. right. cbn -[ids] in Hi |- *. rewrite fmap_app, fst_pairs. apply elem_of_app. by left.
  - apply orb_false_elim in Ec as [_ Ec]. destruct (_ >=? _).
    + destruct started; cbn [batchStarted b_first b_last b_timer] in *;
        [destruct (Hs eq_refl) as (-> & Hf & Hl)|]; rewrite batch_send_ok by done; intros [= <- <-] Hp;
        constructor; try done; try (by left); try (intros id Hi; cbn in Hi; set_solver);
        repeat constructor; apply batch_frame_range; try done; apply u32_range.
    + intros [= <- <-] Hp. constructor; try done; [| |by left].
      * intros _. destruct started; cbn; [|done]. destruct (Hs eq_refl) as (_ & Hf & _). split; [done|apply u32_range].
      * intros id Hi. unfold stale in Hi. destruct started; cbn in Hi; rewrite ?andb_false_r in Hi; set_solver.
Qed.

Lemma batch_timer_steps b r :
  l_detached (r_l r) = false -> batch_ok b r -> ranged b ->
  exists o b', batch_step None BTimer b r = Ok (o, r, b') /\ batch_steps BTimer b r o b'.
Proof.
  intros Hd Hb Hr. cbn [batch_step]. destruct (b_timer b) eqn:Et.
  - unfold batch_timer. rewrite batch_send_ok by done. eexists _, _. split; [reflexivity|].
    destruct (Hr Et) as [Hf Hl]. constructor; try done; [by repeat constructor; auto|intros id Hi; cbn in Hi; set_solver|].
    unfold pending, stale. rewrite Et. destruct (batchStarted b); cbn [batchStarted negb andb].
    + left. cbn -[ids]. by rewrite !app_nil_r.
    + right. split_and!; [done..|]. intros id. cbn -[ids]. by rewrite app_nil_r, fst_pairs.
  - eexists _, b. split; [reflexivity|]. constructor; try done; [intros id Hi; by left|left].
    cbn. by rewrite app_nil_r.
Qed.

Lemma requested_cons ev evs : requested (ev :: evs) = requested [ev] ++ requested evs.
Proof. by destruct ev. Qed.

(** A run: without the repetitions, what is sent plus what is pending is what was
    asked for. *)
Lemma batch_run_fresh r evs :
  l_detached (r_l r) = false -> r_maxCredit r < 2 ^ 32 ->
  forall b sent, batch_ok b r -> ranged b -> (forall id, id ∈ stale b -> id ∈ sent) ->
  Forall (fun x => is_u 32 x.1 /\ state_ok x.2 = true) (requested evs) -> NoDup (pending b ++ requested evs).*1 ->
  (forall id, id ∈ (pending b ++ requested evs).*1 -> id ∉ sent) ->
  exists frs b', batch_run evs b r = Ok (frs, r, b') /\ Forall (batch_frame r) frs /\
    fresh sent (flat_map ReceiverSpec.disposed frs) ++ pending b' = pending b ++ requested evs.
Proof.
  intros Hd Hm. induction evs as [|ev evs IH]; intros b sent Hb Hr Hs Hu Hn Hx.
  - exists [], b. by rewrite app_nil_r.
  - rewrite requested_cons in *. apply Forall_app in Hu as [Hu1 Hu2].
    assert (exists o b', batch_step None ev b r = Ok (o, r, b') /\ batch_steps ev b r o b') as (o & b1 & E & St).
    { destruct ev as [d|]; [|by apply batch_timer_steps]. apply Forall_inv in Hu1 as [Hu Hok]. by apply batch_disposition_steps. }
    destruct St as [B1 B2 B3 B4 B5]. set (D := flat_map ReceiverSpec.disposed (ro_frames o)) in *.
    assert (fresh sent D ++ (pending b1 ++ requested evs) = pending b ++ requested [ev] ++ requested evs /\
            (forall id, id ∈ D.*1 -> id ∈ sent \/ id ∉ (pending b1 ++ requested evs).*1)) as [Ef Hnew].
    { destruct B5 as [E5|(P1 & P2 & P3 & Hold)].
      - rewrite !app_assoc, <- E5, <- !app_assoc in *. rewrite fmap_app in Hn, Hx. apply NoDup_app in Hn as (N1 & N2 & _).
        rewrite fresh_new; [split; [done|by right; apply N2]|done|].
        intros id Hi. apply Hx, elem_of_app. by left.
      - rewrite P1, P2, P3 in *. rewrite fresh_old by (intros; by apply Hs, Hold). split; [done|].
        intros id Hi. left. by apply Hs, Hold. }
    destruct (IH b1 (D.*1 ++ sent)) as (frs & b' & Er & Hf & Ep); try done.
    + intros id [Hi|Hi]%B4; apply elem_of_app; [right; by apply Hs|by left].
    + rewrite <- Ef, fmap_app in Hn. by apply NoDup_app in Hn as (_ & _ & ?).
    + intros id Hi [Hj|Hj]%elem_of_app; [destruct (Hnew id Hj) as [Hk|]; [|done]; revert Hk|revert Hj];
        apply Hx; rewrite <- Ef, fmap_app; apply elem_of_app; by right.
    + exists (ro_frames o ++ frs), b'. split; [cbn [batch_run]; rewrite E; cbn; by rewrite Er|].
      split; [by apply Forall_app|]. rewrite flat_map_app, fresh_app. fold D. by rewrite <- app_assoc, Ep.
Qed.

(** ** The session at the other end *)

(** The channel on which the Send of a delivery waits. *)
Definition waits (st : state) (id : Z) : option Z :=
  mx_handlesByDeliveryID (st_m st) !! id ≫= fun _ => mx_settlementByDeliveryID (st_m st) !! id.

(** What the waiting calls get. *)
Definition settlement (a : action) : option (Z * option DeliveryState) :=
  match a with ASettle done state => Some (done, state) | _ => None end.

(** The call that waits for a delivery gets the verdict, as it comes off the wire. *)
Definition informed (f : Z -> option Z) (x : Z * DeliveryState) : option (Z * option DeliveryState) :=
  (fun done => (done, Some (norm_state_ norm x.2))) <$> f x.1.

Lemma dispose_settles d m ids :
  settles d = true ->
  omap settlement (concat (map (dispose_acts d m) ids))
  = omap (fun id => (fun done => (done, dp_State d)) <$>
            (mx_handlesByDeliveryID m !! id ≫= fun _ => mx_settlementByDeliveryID m !! id)) ids.
Proof.
  intros Hs. induction ids as [|id ids IH]; [done|]. cbn [map concat]. rewrite omap_app, IH.
  unfold dispose_acts, handles_of. rewrite Hs. apply andb_prop in Hs as [_ ->%Bool.eqb_prop]. cbn.
  destruct (mx_handlesByDeliveryID m !! id) as [h|]; [|done]. cbn.
  destruct (mx_settlementByDeliveryID m !! id), (mx_links m !! h); done.
Qed.

Lemma informed_fresh (f f' : Z -> option Z) seen state ids :
  NoDup ids -> (forall id, id ∈ ids -> f' id = if decide (id ∈ seen) then None else f id) ->
  omap (fun id => (fun done => (done, Some (norm_state_ norm state))) <$> f' id) ids
  = omap (informed f) (fresh seen (map (fun id => (id, state)) ids)).
Proof.
  revert seen. induction ids as [|id ids IH]; intros seen Hn Hf; [done|]. apply NoDup_cons in Hn as [Hid Hn].
  cbn. rewrite (Hf id) by left. destruct (decide (id ∈ seen)); cbn.
  - apply IH; [done|]. intros j Hj. apply Hf. by right.
  - unfold informed at 1. cbn.
    rewrite (IH (id :: seen)); [by destruct (f id)|done|]. intros j Hj. rewrite (Hf j) by (by right).
    assert (j <> id) by (by intros ->). destruct (decide (j ∈ seen)), (decide (j ∈ id :: seen)) as [E|E];
      rewrite elem_of_cons in E; naive_solver.
Qed.

(** A range that does not reach 2^32-1 does not wrap. *)
Lemma ids_seqZ first last :
  is_u 32 first -> is_u 32 last -> Forall (fun id => id < MaxUint32) (ids first last) ->
  first <= last < MaxUint32 /\ ids first last = seqZ first (last - first + 1).
Proof.
  intros Hf Hl Hall. unfold is_u in *. unfold ids in *.
  assert (forall k, 0 <= k <= u32 (last - first) -> u32 (first + k) < MaxUint32) as H.
  { intros k Hk. rewrite Forall_map, Forall_forall in Hall. apply Hall, elem_of_seqZ. lia. }
  destruct (decide (first <= last)) as [Hle|Hgt].
  - rewrite (u32_small (last - first)) in * by (unfold is_u; lia).
    assert (last < MaxUint32).
    { specialize (H (last - first) ltac:(lia)). rewrite u32_small in H by (unfold is_u; lia). lia. }
    split; [done|]. apply list_eq. intros k. rewrite list_lookup_fmap.
    destruct (decide (Z.of_nat k < last - first + 1)).
    + rewrite !lookup_seqZ_lt by lia. cbn. rewrite u32_small by (unfold is_u, MaxUint32 in *; lia). done.
    + rewrite !lookup_seqZ_ge by lia. done.
  - exfalso. assert (u32 (last - first) = last - first + 2 ^ 32) as E by ilia.
    specialize (H (MaxUint32 - first)). rewrite E in H. unfold MaxUint32 in H.
    rewrite u32_small in H by (unfold is_u; lia). lia.
Qed.

(** A receiver that settles first. *)
Definition settles_first (r : Receiver) : Prop :=
  match l_receiverSettleMode (r_l r) with None => True | Some m => m = ReceiverSettleModeFirst end.

(** One frame of the batcher. *)
Lemma frame_settles r fr st0 seen st :
  settles_first r -> batch_frame r fr -> Forall (fun x => x.1 < MaxUint32) (ReceiverSpec.disposed fr) ->
  links_open st -> (forall id, waits st id = if decide (id ∈ seen) then None else waits st0 id) ->
  exists st' out, mux_step MuxRunning (ERx (norm_body fr)) st = (Ok MuxRunning, st') /\
    st_out st' = st_out st ++ out /\ links_open st' /\
    (forall id, waits st' id = if decide (id ∈ (ReceiverSpec.disposed fr).*1 ++ seen) then None else waits st0 id) /\
    omap settlement out = omap (informed (waits st0)) (fresh seen (ReceiverSpec.disposed fr)).
Proof.
  intros Hr (first & last & state & -> & Hf & Hl & _) Hall Ho Hw. cbn [norm_body].
  set (d := norm_disposition (disposition_frame first last state r)).
  assert (settles d = true) as Hs.
  { unfold settles, d, disposition_frame. unfold settles_first in Hr.
    revert Hr. destruct (l_receiverSettleMode _); [by intros ->|done]. }
  assert (exists ids, 0 <= first /\ default first last < MaxUint32 /\ NoDup ids /\
    seqZ first (default first last - first + 1) = ids /\
    ReceiverSpec.disposed (FDisposition (disposition_frame first last state r)) = map (fun id => (id, state)) ids)
    as (l & H1 & H2 & Hn & El & Ed).
  { destruct last as [last|]; cbn [from_option default] in Hl |- *.
    - rewrite disposed_range in *. rewrite Forall_map in Hall. destruct (ids_seqZ first last Hf Hl Hall) as [Hle ->].
      eexists. split_and!; [apply Hf|apply Hle|apply NoDup_seqZ|done..].
    - exists [first]. cbn in Hall |- *. apply Forall_inv in Hall. cbn in Hall.
      split_and!; [apply Hf|exact Hall|apply NoDup_singleton|by replace (first - first + 1) with 1 by lia|done]. }
  rewrite Ed, fst_pairs. destruct (disposition_spec d st H1 H2 Ho) as (st' & E & D).
  change (dp_First d) with first in D. change (dp_Last d) with last in D. rewrite El in D.
  exists st'. eexists. split; [exact E|]. split; [apply (ds_out _ _ _ _ D)|].
  split; [by eapply links_open_disposed|]. split.
  - intros id. destruct D as [_ Dh Ds _ _]. specialize (Dh id). specialize (Ds id).
    unfold handles_of in Dh, Ds. change (Bool.eqb (dp_Role d) RoleSender) with false in *. cbn [dp_Role] in *.
    unfold waits at 1. rewrite Dh. destruct (decide (id ∈ l)) as [Hi|Hi].
    + rewrite decide_True by (apply elem_of_app; by left). done.
    + rewrite Ds, decide_False by naive_solver. change (_ ≫= _) with (waits st id). rewrite Hw.
      destruct (decide (id ∈ seen)), (decide (id ∈ l ++ seen)) as [E'|E']; rewrite elem_of_app in E'; naive_solver.
  - rewrite dispose_settles by done. apply (informed_fresh (waits st0) (waits st)); [done|]. intros id _. apply Hw.
Qed.

Lemma frames_settle r frs st0 :
  settles_first r -> Forall (batch_frame r) frs ->
  Forall (fun x => x.1 < MaxUint32) (flat_map ReceiverSpec.disposed frs) ->
  forall seen st, links_open st -> (forall id, waits st id = if decide (id ∈ seen) then None else waits st0 id) ->
  exists st' out, mux_run MuxRunning (map (fun fr => ERx (norm_body fr)) frs) st = (Ok MuxRunning, st') /\
    st_out st' = st_out st ++ out /\
    omap settlement out = omap (informed (waits st0)) (fresh seen (flat_map ReceiverSpec.disposed frs)).
Proof.
  intros Hr. induction 1 as [|fr frs Hfr _ IH]; intros Hall seen st Ho Hw.
  - exists st, []. by rewrite app_nil_r.
  - cbn [flat_map map] in *. apply Forall_app in Hall as [Ha1 Ha2].
    destruct (frame_settles r fr st0 seen st Hr Hfr Ha1 Ho Hw) as (st1 & out1 & E1 & O1 & Ho1 & Hw1 & S1).
    destruct (IH Ha2 _ st1 Ho1 Hw1) as (st2 & out2 & E2 & O2 & S2).
    exists st2, (out1 ++ out2). split; [cbn [mux_run]; unfold mbind, M_bind; by rewrite E1|].
    split; [by rewrite O2, O1, app_assoc|]. by rewrite omap_app, S1, S2, fresh_app, omap_app.
Qed.

(** The frames can be sent. *)
Lemma batch_frames_cross r frs : Forall (batch_frame r) frs -> Forall2 body_crosses frs (map norm_body frs).
Proof.
  induction 1 as [|fr frs (first & last & state & -> & Hf & Hl & Hok) _ IH]; constructor; [|done].
  apply disposition_crosses. unfold disposition_ok, disposition_frame, inu, is_u in *. cbn.
  rewrite Hok, andb_true_r. destruct last; cbn in *; lia.
Qed.

(** What the Send of a delivery is told. *)
Definition told (st : state) (x : Z * DeliveryState) : Z * option DeliveryState :=
  (default 0 (waits st x.1), Some (norm_state_ norm x.2)).

Lemma informed_told st l :
  Forall (fun x => is_Some (waits st x.1)) l -> omap (informed (waits st)) l = map (told st) l.
Proof.
  induction 1 as [|x l [c E] _ IH]; [done|]. cbn. unfold informed at 1, told at 1. rewrite E. cbn. by rewrite IH.
Qed.

(** C4: batching changes nothing for the sender.  The batcher of a receiver takes
    verdicts on distinct deliveries, and its timer elapses at any time, also
    when a timer that was not stopped is left from an earlier batch.  The frames it
    sends can be decoded by the peer, and make the session there tell every
    waiting Send its verdict, in the order of the verdicts, each exactly once;
    what is not told yet is the open batch. *)
Theorem batched_verdicts_settle evs r st :
  l_detached (r_l r) = false -> settles_first r -> r_maxCredit r < 2 ^ 32 -> links_open st ->
  Forall (fun x => 0 <= x.1 < MaxUint32 /\ state_ok x.2 = true /\ is_Some (waits st x.1)) (requested evs) ->
  NoDup (requested evs).*1 ->
  exists frs b st' out,
    batch_run evs newBatcher r = Ok (frs, r, b) /\ Forall2 body_crosses frs (map norm_body frs) /\
    mux_run MuxRunning (map (fun fr => ERx (norm_body fr)) frs) st = (Ok MuxRunning, st') /\
    st_out st' = st_out st ++ out /\
    omap settlement out ++ map (told st) (pending b) = map (told st) (requested evs).
Proof.
  intros Hd Hs Hm Ho Hall Hn.
  destruct (batch_run_fresh r evs Hd Hm newBatcher []) as (frs & b & E & Hf & Ep); try done;
    [|intros id _; apply not_elem_of_nil|].
  { eapply Forall_impl; [exact Hall|]. intros x (H & H' & _). unfold is_u, MaxUint32 in *. split; [lia|done]. }
  cbn [pending newBatcher batchStarted app] in Ep.
  destruct (frames_settle r frs st Hs Hf) with (seen := @nil Z) (st := st) as (st' & out & E2 & Eo & Es); try done.
  { apply Forall_forall. intros x Hx. apply (list_elem_of_fmap_2 fst), fresh_ids in Hx.
    assert (x.1 ∈ (requested evs).*1) as (y & -> & Hy)%list_elem_of_fmap
      by (rewrite <- Ep, fmap_app; apply elem_of_app; by left).
    rewrite Forall_forall in Hall. destruct (Hall y Hy) as [Hy' _]. lia. }
  exists frs, b, st', out. split; [done|]. split; [by eapply batch_frames_cross|]. split; [done|]. split; [done|].
  rewrite Es, <- Ep, map_app, informed_told; [done|].
  rewrite <- Ep in Hall. apply Forall_app in Hall as [Hall _]. eapply Forall_impl; [exact Hall|]. naive_solver.
Qed.

(** Two deliveries; the timer of the batch that the second verdict flushes is not stopped. *)
Definition two_verdicts : list bevent :=
  [BDisposition (mkDisp 1 StateAccepted); BDisposition (mkDisp 2 StateReleased); BTimer].

Lemma batched_verdicts_settle_witness :
  exists frs b st' out,
    batch_run two_verdicts newBatcher sample_receiver = Ok (frs, sample_receiver, b) /\
    Forall2 body_crosses frs (map norm_body frs) /\
    mux_run MuxRunning (map (fun fr => ERx (norm_body fr)) frs) sent_two = (Ok MuxRunning, st') /\
    st_out st' = st_out sent_two ++ out /\
    omap settlement out ++ map (told sent_two) (pending b) = map (told sent_two) (requested two_verdicts).
Proof.
  apply (batched_verdicts_settle two_verdicts sample_receiver sent_two);
    [reflexivity|done|reflexivity|intros h p H; by vm_compute in H| |].
  - repeat constructor; try by vm_compute; try (eexists; vm_compute; reflexivity).
  - apply (bool_decide_unpack _). by vm_compute.
Defined.

End Batched.
