(* ===== verification/Second.v ===== *)
(** * Second: a receiver that settles second

    The receiver sends its verdict unsettled and waits; the sender's link answers
    with a settled disposition, which ends the wait.  The Send of the message,
    though, is not completed, and cannot be any more. *)

From S2P Require Import Prelude Buffer Types Encode Decode Wire CodecRoundtrip FieldRoundtrip ValueRoundtrip Frames Parsing FrameRoundtrip Message MessageRoundtrip Link Creditor Receiver ReceiverSpec Sender SenderSpec Session SessionSpec Settle Batched.
Import Buffer Encode Wire FieldRoundtrip Frames Parsing FrameRoundtrip Message Errors Link Sender SenderSpec ReceiverSpec
  Session SessionSpec Settle Batched.

Module Second.

(** ** The receiver's session *)

(** A transfer that is not settled is remembered for the answer of the sender. *)
Lemma transfer_registers fr st p l id :
  links_open st -> mx_links (st_m st) !! tr_Handle fr = Some p -> st_store st !! p = Some l ->
  l_receiverSettleMode l = Some ReceiverSettleModeSecond -> tr_Settled fr = false -> tr_DeliveryID fr = Some id ->
  exists st', mux_step MuxRunning (ERx (FTransfer fr)) st = (Ok MuxRunning, st') /\
    mx_handlesByRemoteDeliveryID (st_m st') !! id = Some (tr_Handle fr) /\
    mx_links (st_m st') !! tr_Handle fr = Some p /\ links_open st'.
Proof.
  intros Ho Hl Hp Hm Hs Hi. pose proof (Ho _ _ Hl) as Hc. unfold links_open in *.
  destruct st as [[] store c [lk hd dh hr se no ni riw row] o]. cbn in Ho, Hl, Hp, Hc.
  cbn [mux_step mux_rx]. unfold mux_rx_transfer, muxFrameToLink, mux_update_window. runs.
  replace (mx_links _) with lk by (by destruct (row >? 0)). rewrite Hl. runs.
  rewrite bool_decide_eq_false_2 by done. runs. rewrite Hp, Hs, Hi, Hm. runs.
  destruct (row >? 0); runs; (destruct (_ >=? _); runs; eexists; (split; [reflexivity|]); cbn;
    rewrite lookup_insert_eq; done).
Qed.

(** ** The receiver *)

(** The call waits on [wait] for the answer. *)
Definition registered (id wait : Z) (r : Receiver.Receiver) : Prop :=
  exists m, Receiver.r_inFlight r = Some m /\ m !! id = Some wait.

Record second (r : Receiver.Receiver) : Prop := mkSecond {
  se_mode : l_receiverSettleMode (Receiver.r_l r) = Some ReceiverSettleModeSecond;
  se_batching : Receiver.r_batching r = false;
  se_detached : l_detached (Receiver.r_l r) = false
}.

Lemma settle_second v wait m r :
  second r -> m_settled m = false ->
  exists r1, settle v wait m r
    = ((None, true), [FDisposition (mkDisposition RoleReceiver (m_deliveryID m) None false (Some (state_of v)) false)], r1) /\
    registered (m_deliveryID m) wait r1 /\ Receiver.r_unsettledMessages r1 = Receiver.r_unsettledMessages r.
Proof.
  intros [Hs Hb Hd] Hm.
  set (r1 := Receiver.set_r_inFlight (Receiver.inFlight_add (m_deliveryID m) wait (Receiver.r_inFlight r)) r).
  assert (forall state, Receiver.messageDisposition_send None wait m state r
    = ((None, true), [FDisposition (mkDisposition RoleReceiver (m_deliveryID m) None false (Some state) false)], r1)) as E.
  { intros state. unfold Receiver.messageDisposition_send, Receiver.sendDisposition, Receiver.disposition_frame.
    rewrite Hs. cbn -[Receiver.inFlight_add]. fold r1. destruct r as [[]]. cbn in *. subst. cbn. done. }
  exists r1. split; [|split; [|by destruct r]].
  - destruct v; cbn; unfold Receiver.AcceptMessage, Receiver.RejectMessage, Receiver.ReleaseMessage,
      Receiver.ModifyMessage, shouldSendDisposition; rewrite Hm; apply E.
  - unfold registered. destruct r as [? ? ? ? ? ? ? ? ? ? ? ? [f|]]; cbn; eexists; (split; [reflexivity|]);
      [apply lookup_insert_eq|apply lookup_singleton_eq].
Qed.

(** The top of the mux's loop does not look at them. *)
Lemma mux_top_keeps r :
  Receiver.r_inFlight (Receiver.mux_top r).1 = Receiver.r_inFlight r /\
  Receiver.r_unsettledMessages (Receiver.mux_top r).1 = Receiver.r_unsettledMessages r.
Proof.
  unfold Receiver.mux_top, Receiver.fail_with, Receiver.on_l. destruct r as [[]]. cbn.
  repeat (case_match; cbn); done.
Qed.

(** The settled disposition of a sender ends the wait. *)
Definition answer (id : Z) : PerformDisposition := mkDisposition RoleSender id None true None false.

Lemma answer_wakes id wait rst r :
  0 <= id < MaxUint32 -> registered id wait r -> rst <> Receiver.RExit ->
  exists r' rst', Receiver.mux_step rst (Receiver.RRx (FDisposition (answer id))) r
      = (Ok tt, Receiver.mkRout [] [(wait, None)], r', rst') /\
    (exists m, Receiver.r_inFlight r' = Some m /\ m !! id = None) /\
    Receiver.r_unsettledMessages r' = Receiver.r_unsettledMessages r.
Proof.
  intros Hid (m & Em & Hw) Hst.
  assert (Receiver.muxHandleFrame (FDisposition (answer id)) r
    = (Ok None, Receiver.mkRout [] [(wait, None)], Receiver.set_r_inFlight (Some (delete id m)) r)) as E.
  { cbn [Receiver.muxHandleFrame answer dp_State dp_First dp_Last]. rewrite Em. unfold Receiver.inFlight_remove. cbn [default].
    rewrite Z.sub_diag. change (Z.to_nat 0) with O.
    cbn [Receiver.inFlight_loop]. replace (id <=? id) with true by lia. rewrite Hw.
    rewrite u32_small by (unfold is_u, MaxUint32 in *; lia). by replace (id + 1 <=? id) with false by lia. }
  destruct rst as [|fr|]; [| |done]; cbn [Receiver.mux_step]; unfold Receiver.mux_rx; rewrite E.
  - set (r1 := Receiver.fail_with None _). destruct (mux_top_keeps r1) as [K1 K2].
    destruct (Receiver.mux_top r1) as [r2 st2]. cbn [fst] in *. exists r2, st2. split; [done|].
    rewrite K1, K2. split; [exists (delete id m); split; [by destruct r|apply lookup_delete_eq]|by destruct r].
  - eexists _, _. split; [reflexivity|]. split; [exists (delete id m); split; [by destruct r|apply lookup_delete_eq]|by destruct r].
Qed.

(** ** A disposition of one delivery, at either session *)

Lemma one_disposed d id h p st :
  dp_First d = id -> dp_Last d = None -> 0 <= id < MaxUint32 -> links_open st ->
  handles_of d (st_m st) !! id = Some h -> mx_links (st_m st) !! h = Some p ->
  exists st' out, mux_step MuxRunning (ERx (FDisposition d)) st = (Ok MuxRunning, st') /\
    st_out st' = st_out st ++ out /\ AToLink p (FDisposition d) ∈ out /\ handles_of d (st_m st') !! id = None /\
    (settles d = false -> omap settlement out = [] /\
       mx_settlementByDeliveryID (st_m st') !! id = mx_settlementByDeliveryID (st_m st) !! id).
Proof.
  intros <- Hl Hid Ho Hh Hp. destruct (disposition_spec d st) as (st' & E & [D1 D2 D3 _ _]);
    [lia|rewrite Hl; cbn; lia|done|]. rewrite Hl in *. cbn [default] in *.
  replace (dp_First d - dp_First d + 1) with 1 in * by lia. cbn [seqZ seq fmap list_fmap] in *.
  replace (seqZ (dp_First d) 1) with [dp_First d] in * by (rewrite seqZ_cons by lia; done).
  exists st'. eexists. split; [exact E|]. split; [exact D1|]. cbn [map concat]. rewrite app_nil_r.
  unfold dispose_acts. rewrite Hh, Hp. split; [apply elem_of_app; right; by left|]. split.
  - by rewrite D2, decide_True by left.
  - intros Hs. rewrite D3, Hs. split; [done|]. by rewrite decide_False by naive_solver.
Qed.

(** C5: the exchange with a receiver that settles second.  When the application
    settles such a message, the call sends its verdict unsettled and waits.  Over the wire
    and the sender's session it comes to the sender's link, which answers; over
    the wire and the receiver's session, which remembers the delivery since
    its transfer arrived, the answer comes to the receiver, whose mux wakes
    the call.  It returns nil, the message is settled and not counted
    as unsettled any more.  At the sender, the exchange does not complete the Send of
    the message and leaves no way to complete it. *)
Theorem second_mode_handshake v wait m r rst s sst fr st0 l p sts h q :
  second r -> m_settled m = false -> rst <> Receiver.RExit -> state_ok (state_of v) = true ->
  0 <= m_deliveryID m < MaxUint32 -> tr_DeliveryID fr = Some (m_deliveryID m) -> tr_Settled fr = false ->
  links_open st0 -> mx_links (st_m st0) !! tr_Handle fr = Some p -> st_store st0 !! p = Some l ->
  l_receiverSettleMode l = Some ReceiverSettleModeSecond ->
  links_open sts -> mx_handlesByDeliveryID (st_m sts) !! m_deliveryID m = Some h -> mx_links (st_m sts) !! h = Some q ->
  l_receiverSettleMode (s_l s) = Some ReceiverSettleModeSecond -> sst <> SExit ->
  exists str d d' r1 sts' outs s' resp str' outr r2 rst',
    mux_step MuxRunning (ERx (FTransfer fr)) st0 = (Ok MuxRunning, str) /\
    settle v wait m r = ((None, true), [FDisposition d], r1) /\ body_crosses (FDisposition d) (FDisposition d') /\
    mux_step MuxRunning (ERx (FDisposition d')) sts = (Ok MuxRunning, sts') /\
    st_out sts' = st_out sts ++ outs /\ AToLink q (FDisposition d') ∈ outs /\
    sender_mux_step sst (SRx (FDisposition d')) s = (Ok tt, mkSout [FDisposition resp] [], s', sst) /\
    body_crosses (FDisposition resp) (FDisposition resp) /\
    mux_step MuxRunning (ERx (FDisposition resp)) str = (Ok MuxRunning, str') /\
    st_out str' = st_out str ++ outr /\ AToLink p (FDisposition resp) ∈ outr /\
    Receiver.mux_step rst (Receiver.RRx (FDisposition resp)) r1
      = (Ok tt, Receiver.mkRout [] [(wait, None)], r2, rst') /\
    (let '(err, m', r3) := Receiver.messageDisposition_wait (Receiver.DispositionConfirmed None) m r2 in
     err = None /\ m_settled m' = true /\
     Receiver.r_unsettledMessages r3 = Receiver.r_unsettledMessages r ∖ {[ m_DeliveryTag m ]}) /\
    omap settlement outs = [] /\ waits sts' (m_deliveryID m) = None.
Proof.
  intros Hr Hm Hst Hok Hid Hfr Hfs Ho0 Hl0 Hp0 Hm0 Hos Hh Hq Hsm Hsst.
  destruct (transfer_registers fr st0 p l _ Ho0 Hl0 Hp0 Hm0 Hfs Hfr) as (str & E0 & Hhr & Hlr & Hor).
  destruct (settle_second v wait m r Hr Hm) as (r1 & E1 & Hreg & Hu1).
  set (d := mkDisposition RoleReceiver (m_deliveryID m) None false (Some (state_of v)) false) in E1.
  destruct (one_disposed (norm_disposition d) (m_deliveryID m) h q sts) as (sts' & outs & E2 & O2 & Hin2 & Hn2 & Hx);
    [done..|]. destruct (Hx eq_refl) as [Hx1 _].
  destruct (one_disposed (answer (m_deliveryID m)) (m_deliveryID m) (tr_Handle fr) p str)
    as (str' & outr & E3 & O3 & Hin3 & _); [done..|].
  destruct (answer_wakes (m_deliveryID m) wait rst r1 Hid Hreg Hst) as (r2 & rst' & E4 & _ & Hu2).
  assert (detachOnRejectDisp s = false) as Hdet by (unfold detachOnRejectDisp; rewrite Hsm; apply andb_false_r).
  exists str, d, (norm_disposition d), r1, sts', outs. eexists. exists (answer (m_deliveryID m)), str', outr, r2, rst'.
  assert (forall id, 0 <= id < MaxUint32 -> inu 32 id = true) as Hu
    by (intros id; unfold inu, MaxUint32; lia).
  split_and!; try done.
  - apply disposition_crosses. unfold disposition_ok. cbn. rewrite Hok, Hu by done. done.
  - destruct sst; [| |done]; cbn [sender_mux_step]; unfold sender_mux_rx, sender_muxHandleFrame;
      cbn [norm_disposition d set_dp_State dp_State dp_Settled dp_First dp_Last]; rewrite Hdet;
      (destruct (_ : option (option Error)); reflexivity).
  - pose proof (disposition_crosses (answer (m_deliveryID m))) as Hc. apply Hc. unfold disposition_ok. cbn. by rewrite Hu.
  - cbn. split_and!; [done|by destruct m|]. destruct r2. cbn in *. by rewrite Hu2, Hu1.
  - unfold waits. change (handles_of (norm_disposition d) (st_m sts') !! m_deliveryID m = None) in Hn2.
    unfold handles_of in Hn2. cbn in Hn2. by rewrite Hn2.
Qed.

(** Delivery 1 on handle 0 at both ends; the receiver is link 5, the sender link 7. *)
Definition mode_second (l : link) : link := set_l_receiverSettleMode (Some ReceiverSettleModeSecond) l.
Definition second_receiver : Receiver.Receiver := Receiver.on_l mode_second sample_receiver.
Definition second_sender : Sender := on_sl mode_second sample_sender.
Definition received_one : Message := set_m_DeliveryTag [1] (set_m_deliveryID 1 emptyMessage).
Definition receiving : state :=
  mkState (newSession 0 None) {[ 5 := Receiver.r_l second_receiver ]} ∅
    (set_mx_links {[ 0 := 5 ]} (newMuxVars sample_begin)) [].
Definition sending : state :=
  mkState (newSession 0 None) {[ 7 := s_l second_sender ]} ∅
    (set_mx_handlesByDeliveryID {[ 1 := 0 ]} (set_mx_links {[ 0 := 7 ]} (newMuxVars sample_begin))) [].

Lemma second_mode_handshake_witness :
  exists r1 r2 rst' resp d,
    settle Accept 9 received_one second_receiver = ((None, true), [FDisposition d], r1) /\
    Receiver.mux_step Receiver.RSelect (Receiver.RRx (FDisposition resp)) r1
      = (Ok tt, Receiver.mkRout [] [(9, None)], r2, rst').
Proof.
  destruct (second_mode_handshake Accept 9 received_one second_receiver Receiver.RSelect second_sender SSelect
    (sample_transfer 0 1) receiving (Receiver.r_l second_receiver) 5 sending 0 7)
    as (str & d & d' & r1 & sts' & outs & s' & resp & str' & outr & r2 & rst' & _ & E1 & _ & _ & _ & _ & _ & _ & _ & _ & _ & E2 & _);
    [by constructor|reflexivity|done|reflexivity|by vm_compute|reflexivity|reflexivity| |reflexivity|reflexivity|reflexivity| |
     reflexivity|reflexivity|reflexivity|done|].
  - intros h' p' _. set_solver.
  - intros h' p' _. set_solver.
  - by exists r1, r2, rst', resp, d.
Defined.

End Second.
