(* ===== verification/Fifo.v ===== *)
(** * Fifo: a link is a queue of messages

    A sender, its session, the wire, the peer's session and a receiver, composed
    the way the goroutines and channels of the program compose them: each of
    them takes its own steps, in any interleaving, also those that have nothing
    to do with the transfers, that end a mux or that detach a link.  Whatever
    the interleaving, what the application sees is a first-in first-out queue:
    messages arrive in the order in which they were sent, each at most once,
    whole, and with all their sections; and nothing that was sent is missing
    once the pipeline of an attached link has run empty. *)

From S2P Require Import Prelude Buffer Types Encode Decode Wire CodecRoundtrip FieldRoundtrip Frames Parsing FrameRoundtrip Message MessageRoundtrip Link Creditor Receiver ReceiverSpec Sender SenderSpec Delivery Session SessionSpec.
Import Buffer Encode Decode Wire CodecRoundtrip FieldRoundtrip Frames Parsing FrameRoundtrip Message
  MessageRoundtrip Errors Link Creditor.
Import Receiver(Receiver, r_l, r_more, r_msg, r_msgBuf, r_messages, set_r_l, muxReceive, rstate, RSelect,
  RFlow, RExit, revent, RRx).
Import ReceiverSpec(sample_receiver).
Import Sender SenderSpec Delivery Session SessionSpec.

Module Fifo.

(** ** The abstract queue *)

(** What the application sees. *)
Inductive act :=
| Sent (msg : Message)
| Got (msg : Message).

(** The message [m] is [msg] as it arrives: the same format, sections and, if
    it has one, delivery tag; the delivery id and the settlement are the ones
    that were chosen when it was sent. *)
Definition arrives (msg m : Message) : Prop :=
  exists id tag settled, (m_DeliveryTag msg <> [] -> tag = m_DeliveryTag msg) /\
    m = norm_into (identified id tag (m_Format msg) settled) msg.

Inductive qstep : list Message -> option act -> list Message -> Prop :=
| q_internal q : qstep q None q
| q_sent q msg : qstep q (Some (Sent msg)) (q ++ [msg])
| q_got q msg m rcvr : arrives msg m -> qstep (msg :: q) (Some (Got (set_m_rcvr rcvr m))) q.

(** The visible actions of a run. *)
Inductive trace {S} (step : S -> option act -> S -> Prop) : S -> list act -> S -> Prop :=
| trace_refl s : trace step s [] s
| trace_step s a s1 tr s2 : step s a s1 -> trace step s1 tr s2 -> trace step s (option_list a ++ tr) s2.

(** ** The system *)

(** A step of a session, and what it passes on. *)
Definition session_step (ph : phase) (ev : event) (st : state) : res phase * state * list action :=
  let '(x, st1) := mux_step ph ev (set_st_out [] st) in (x, set_st_out [] st1, st_out st1).

(** The transfers among them: to the connection for the link with the handle
    [h], and to the link [p]. *)
Definition transfer_on (h : Z) (a : action) : option PerformTransfer :=
  match a with
  | ATxFrame (FTransfer fr) _ => if tr_Handle fr =? h then Some fr else None
  | _ => None
  end.
Definition transfer_to (p : Z) (a : action) : option PerformTransfer :=
  match a with
  | AToLink q (FTransfer fr) => if q =? p then Some fr else None
  | _ => None
  end.

(** The frames of the Send under way that have not been taken yet, those
    between the sessions, and those in the receiver's [rx] channel. *)
Record system := mkSystem {
  y_s : Sender;
  y_sst : sstate;
  y_outbox : list PerformTransfer;
  y_sph : phase;
  y_sses : state;
  y_wire : list PerformTransfer;
  y_pph : phase;
  y_pses : state;
  y_rxq : list PerformTransfer;
  y_r : Receiver;
  y_rst : rstate
}.

(** What the callers of a receiver and its other goroutines do, receiving a
    message apart. *)
Inductive calls : Receiver -> Receiver -> Prop :=
| c_issue credit r x r' : Receiver.Receiver_IssueCredit credit r = (x, r') -> calls r r'
| c_drain_signal r x r' : Receiver.DrainCredit_signal r = (x, r') -> calls r r'
| c_drain r x r' : Receiver.DrainCredit_request r = (x, r') -> calls r r'
| c_nothing r r' : Receiver.Prefetched r = (None, r') -> calls r r'
| c_dispose connDone wait msg state r x r' :
    Receiver.messageDisposition_send connDone wait msg state r = (x, r') -> calls r r'
| c_confirmed msg r msg' r' : Receiver.messageDisposition_confirmed msg r = (msg', r') -> calls r r'
| c_batch connDone ev b r o r' b' : Receiver.batch_step connDone ev b r = Ok (o, r', b') -> calls r r'
| c_close r : calls r (Receiver.on_l (set_l_close true) r)
| c_deferred r w r' : Receiver.mux_deferred r = (w, r') -> calls r r'
| c_detaching dst ev r l' o dst' :
    (forall fr, ev <> DRx (FTransfer fr)) -> muxDetach_step dst ev (r_l r) = (l', o, dst') ->
    calls r (set_r_l l' r).

Section System.
(** The link's handle, the pointer of its receiver in the peer's session, and
    the frame size that the peer accepts. *)
Context (h p peerMax : Z).

(** An event of the sender's session that is not a transfer of this link. *)
Definition not_ours (ev : event) : Prop :=
  match ev with ETxTransfer fr => tr_Handle fr <> h | _ => True end.

(** An event of the peer's session that is not a transfer to this receiver, nor
    another attachment under its handle. *)
Definition not_theirs (ev : event) (st : state) : Prop :=
  match ev with
  | ERxSelect _ (FTransfer fr) => mx_links (st_m st) !! tr_Handle fr <> Some p
  | ERxSelect _ (FAttach a) => a_Handle a <> h
  | _ => True
  end.

Inductive step : system -> option act -> system -> Prop :=
(* Send: the frames of one message at a time are offered to the mux *)
| s_send s sst sph sses wire pph pses rxq r rst nextID done msg bs k d frs id' s' :
    message_ok msg = true -> inu 32 (m_Format msg) = true -> Encodes (Message_Marshal msg) bs ->
    sendable s msg bs -> zlen bs <= Z.of_nat k ->
    send peerMax nextID done (replicate k SSent) msg s = (Ok (SendDone d), frs, id', s') ->
    step (mkSystem s sst [] sph sses wire pph pses rxq r rst) (Some (Sent msg))
         (mkSystem s' sst frs sph sses wire pph pses rxq r rst)
(* the sender's mux takes a frame, as long as there is credit *)
| s_take s fr outbox sph sses wire pph pses rxq r rst o s' sst' :
    l_availableCredit (s_l s) > 0 ->
    sender_mux_step SSelect (STransfer fr) s = (Ok tt, o, s', sst') ->
    step (mkSystem s SSelect (fr :: outbox) sph sses wire pph pses rxq r rst) None
         (mkSystem s' sst' outbox sph sses wire pph pses rxq r rst)
(* the session takes the frame from the sender's mux, as long as its window is open *)
| s_transfer s fr outbox sses wire pph pses rxq r rst o s' sst' sph' sses' out frs :
    window_open sses = true ->
    sender_mux_step (SPending fr) STx s = (Ok tt, o, s', sst') ->
    session_step MuxRunning (ETxTransfer fr) sses = (Ok sph', sses', out) ->
    Forall2 crosses (omap (transfer_on h) out) frs ->
    step (mkSystem s (SPending fr) outbox MuxRunning sses wire pph pses rxq r rst) None
         (mkSystem s' sst' outbox sph' sses' (wire ++ frs) pph pses rxq r rst)
(* anything else that the sender's mux does *)
| s_sender s sst outbox sph sses wire pph pses rxq r rst ev x o s' sst' :
    (forall fr, ev <> STransfer fr) -> ev <> STx ->
    sender_mux_step sst ev s = (x, o, s', sst') ->
    step (mkSystem s sst outbox sph sses wire pph pses rxq r rst) None
         (mkSystem s' sst' outbox sph sses wire pph pses rxq r rst)
(* anything else that the sender's session does *)
| s_session s sst outbox sph sses wire pph pses rxq r rst ev sph' sses' out frs :
    not_ours ev -> session_step sph ev sses = (Ok sph', sses', out) ->
    Forall2 crosses (omap (transfer_on h) out) frs ->
    step (mkSystem s sst outbox sph sses wire pph pses rxq r rst) None
         (mkSystem s sst outbox sph' sses' (wire ++ frs) pph pses rxq r rst)
(* a frame reaches the peer's session *)
| s_arrive s sst outbox sph sses fr wire pph pses rxq r rst pph' pses' out :
    session_step pph (ERx (FTransfer fr)) pses = (Ok pph', pses', out) ->
    step (mkSystem s sst outbox sph sses (fr :: wire) pph pses rxq r rst) None
         (mkSystem s sst outbox sph sses wire pph' pses' (rxq ++ omap (transfer_to p) out) r rst)
(* anything else that the peer's session does *)
| s_peer s sst outbox sph sses wire pph pses rxq r rst ev pph' pses' out :
    not_theirs ev pses -> session_step pph ev pses = (Ok pph', pses', out) ->
    step (mkSystem s sst outbox sph sses wire pph pses rxq r rst) None
         (mkSystem s sst outbox sph sses wire pph' pses' (rxq ++ omap (transfer_to p) out) r rst)
(* other goroutines change the sessions, but not the variables of their muxes *)
| s_shared s sst outbox sph sses wire pph pses rxq r rst sses' pses' :
    st_m sses' = st_m sses -> st_m pses' = st_m pses ->
    step (mkSystem s sst outbox sph sses wire pph pses rxq r rst) None
         (mkSystem s sst outbox sph sses' wire pph pses' rxq r rst)
(* the receiver's mux handles a transfer *)
| s_receive s sst outbox sph sses wire pph pses fr rxq r rst o r' rst' :
    rst <> RExit -> Receiver.mux_step rst (RRx (FTransfer fr)) r = (Ok tt, o, r', rst') ->
    step (mkSystem s sst outbox sph sses wire pph pses (fr :: rxq) r rst) None
         (mkSystem s sst outbox sph sses wire pph pses rxq r' rst')
(* it still handles transfers, but not their errors, while it is detaching *)
| s_detaching s sst outbox sph sses wire pph pses fr rxq r dst l' o dst' x r' :
    dst <> DetachExited -> muxDetach_step dst (DRx (FTransfer fr)) (r_l r) = (l', o, dst') ->
    receive_all (do_transfers o) (set_r_l l' r) = (x, r') ->
    step (mkSystem s sst outbox sph sses wire pph pses (fr :: rxq) r RExit) None
         (mkSystem s sst outbox sph sses wire pph pses rxq r' RExit)
(* anything else that the receiver's mux does *)
| s_receiver s sst outbox sph sses wire pph pses rxq r rst ev x o r' rst' :
    (forall fr, ev <> RRx (FTransfer fr)) -> Receiver.mux_step rst ev r = (x, o, r', rst') ->
    step (mkSystem s sst outbox sph sses wire pph pses rxq r rst) None
         (mkSystem s sst outbox sph sses wire pph pses rxq r' rst')
| s_calls s sst outbox sph sses wire pph pses rxq r rst r' :
    calls r r' ->
    step (mkSystem s sst outbox sph sses wire pph pses rxq r rst) None
         (mkSystem s sst outbox sph sses wire pph pses rxq r' rst)
(* the application receives a message *)
| s_got s sst outbox sph sses wire pph pses rxq r rst ev m e r' :
    Receiver.Receive ev r = (Some m, e, r') ->
    step (mkSystem s sst outbox sph sses wire pph pses rxq r rst) (Some (Got m))
         (mkSystem s sst outbox sph sses wire pph pses rxq r' rst).

End System.

(** ** The receiver's side *)

(** What the reassembly of messages depends on. *)
Definition same_view (r r' : Receiver) : Prop :=
  r_more r = r_more r' /\ r_msg r = r_msg r' /\ r_msgBuf r = r_msgBuf r' /\
  l_maxMessageSize (r_l r) = l_maxMessageSize (r_l r').

#[export] Instance same_view_equivalence : Equivalence same_view.
Proof.
  unfold same_view. split; [done| |].
  - intros r r' H. naive_solver.
  - intros r1 r2 r3 H H'. naive_solver congruence.
Qed.

(** Nothing that concerns messages changes. *)
Definition same_messages (r r' : Receiver) : Prop := same_view r r' /\ r_messages r' = r_messages r.

#[export] Instance same_messages_preorder : PreOrder same_messages.
Proof.
  split; [done|]. intros r1 r2 r3 [H1 E1] [H2 E2]. split; [by etrans|congruence].
Qed.

(** Both receivers end the same way and have got the same messages. *)
Definition alike {A} (r1 r2 : Receiver) (x1 x2 : A * Receiver) : Prop :=
  x1.1 = x2.1 /\ same_view x1.2 x2.2 /\
  exists new, r_messages x1.2 = r_messages r1 ++ new /\ r_messages x2.2 = r_messages r2 ++ new.

Lemma alike_none {A} r1 r2 (x : A) r1' r2' :
  same_view r1' r2' -> r_messages r1' = r_messages r1 -> r_messages r2' = r_messages r2 ->
  alike r1 r2 (x, r1') (x, r2').
Proof. intros Hv H1 H2. split_and!; [done|done|]. exists []. by rewrite !app_nil_r. Qed.

Ltac views :=
  unfold same_messages, same_view, Receiver.closeWithError, Receiver.fail_with, Receiver.on_l, Receiver.addUnsettled,
    Receiver.signalReady in *;
  repeat case_match; simplify_eq; cbn in *; naive_solver.

Lemma closeWithError_alike de r1 r2 :
  same_view r1 r2 -> alike r1 r2 (Receiver.closeWithError de r1) (Receiver.closeWithError de r2).
Proof.
  intros Hv. destruct r1 as [[]], r2 as [[]]. split; [done|]. split; [|exists []; rewrite !app_nil_r]; views.
Qed.

Lemma complete_alike r1 r2 :
  same_view r1 r2 -> alike r1 r2 (Receiver.muxReceive_complete r1) (Receiver.muxReceive_complete r2).
Proof.
  intros Hv. unfold Receiver.muxReceive_complete. destruct (Hv) as (_ & <- & <- & _).
  destruct (Message_Unmarshal _ _) as [[msg|e|pn|] buf].
  - destruct r1 as [[]], r2 as [[]]. split; [done|]. split; [|exists [msg]]; views.
  - destruct r1 as [[]], r2 as [[]]. apply alike_none; views.
  - destruct r1 as [[]], r2 as [[]]. apply alike_none; views.
  - destruct r1 as [[]], r2 as [[]]. apply alike_none; views.
Qed.

Lemma alike_after {A B} r1 r2 (x1 x2 : A * Receiver) (y1 y2 : B * Receiver) :
  alike r1 r2 x1 x2 -> alike x1.2 x2.2 y1 y2 -> alike r1 r2 y1 y2.
Proof.
  intros (_ & _ & new & E1 & E2) (H & Hv & new' & E1' & E2'). split; [done|]. split; [done|].
  exists (new ++ new'). by rewrite E1', E2', E1, E2, <- !app_assoc.
Qed.

Lemma first_alike fr r1 r2 :
  same_view r1 r2 -> alike r1 r2 (Receiver.muxReceive_first fr r1) (Receiver.muxReceive_first fr r2).
Proof.
  intros Hv. unfold Receiver.muxReceive_first. destruct (Hv) as (_ & <- & _). cbn zeta.
  set (msg := set_m_DeliveryTag _ _).
  assert (alike r1 r2 (tt, Receiver.set_r_msg msg r1) (tt, Receiver.set_r_msg msg r2)) as Ha.
  { destruct r1 as [[]], r2 as [[]]. apply alike_none; views. }
  assert (same_view (Receiver.set_r_msg msg r1) (Receiver.set_r_msg msg r2)) as Hv' by apply Ha.
  assert (forall de, alike r1 r2 (Receiver.closeWithError de (Receiver.set_r_msg msg r1))
                       (Receiver.closeWithError de (Receiver.set_r_msg msg r2))) as Hc
    by (intros de; eapply alike_after; [exact Ha|by apply closeWithError_alike]).
  destruct (tr_DeliveryID fr); [|apply Hc]. destruct (tr_MessageFormat fr); [|apply Hc].
  destruct (tr_DeliveryTag fr); [|apply Hc]. by destruct Ha as (_ & H).
Qed.

Lemma next_alike fr r1 r2 :
  same_view r1 r2 -> alike r1 r2 (Receiver.muxReceive_next fr r1) (Receiver.muxReceive_next fr r2).
Proof.
  intros Hv. unfold Receiver.muxReceive_next. destruct (Hv) as (_ & <- & _).
  repeat (case_match; [by apply closeWithError_alike|]). by apply alike_none.
Qed.

(** What muxReceive does does not depend on the rest of the receiver. *)
Lemma muxReceive_alike fr r1 r2 : same_view r1 r2 -> alike r1 r2 (muxReceive fr r1) (muxReceive fr r2).
Proof.
  intros Hv. unfold muxReceive.
  assert (alike r1 r2 (if negb (r_more r1) then Receiver.muxReceive_first fr r1 else Receiver.muxReceive_next fr r1)
            (if negb (r_more r2) then Receiver.muxReceive_first fr r2 else Receiver.muxReceive_next fr r2)) as Ha.
  { destruct (Hv) as (<- & _). destruct (negb _); [by apply first_alike|by apply next_alike]. }
  revert Ha. destruct (if negb (r_more r1) then _ else _) as [e1 ra], (if negb (r_more r2) then _ else _) as [e2 rb].
  intros Ha. destruct (Ha) as (E & Hv1 & _). cbn in E, Hv1. subst e2.
  apply (alike_after _ _ _ _ _ _ Ha). cbn [snd]. clear Ha Hv r1 r2.
  destruct e1 as [e|]; [by apply alike_none|]. destruct (Hv1) as (_ & _ & E3 & E4). rewrite E3, E4.
  destruct (tr_Aborted fr); [destruct ra as [[]], rb as [[]]; apply alike_none; views|].
  case_match.
  - pose proof (closeWithError_alike (mkErr ErrCondMessageSizeExceeded "received message larger than max size of %d")
      ra rb Hv1) as Hc. destruct (Receiver.closeWithError _ ra) as [e ra'], (Receiver.closeWithError _ rb) as [e' rb'].
    destruct Hc as (Ec & Hc). cbn in Ec. subst. by split.
  - cbn zeta.
    match goal with |- alike _ _ (if _ then (_, ?a) else _) (if _ then (_, ?b) else _) =>
      assert (alike ra rb (tt, a) (tt, b)) as Ha; [|revert Ha; generalize a, b] end.
    { destruct ra as [[]], rb as [[]]. apply alike_none; views. }
    intros a b Ha. destruct (tr_More fr); [by destruct Ha as (_ & Ha)|].
    eapply alike_after; [exact Ha|]. apply complete_alike. apply Ha.
Qed.

Lemma receive_all_alike frs r1 r2 :
  same_view r1 r2 -> alike r1 r2 (receive_all frs r1) (receive_all frs r2).
Proof.
  revert r1 r2. induction frs as [|fr frs IH]; intros r1 r2 Hv; [by apply alike_none|]. cbn [receive_all].
  pose proof (muxReceive_alike fr r1 r2 Hv) as Ha. revert Ha.
  destruct (muxReceive fr r1) as [x ra], (muxReceive fr r2) as [x' rb]. intros Ha.
  destruct (Ha) as (E & Hv1 & _). cbn in E. subst x'. destruct x as [[e|]|e|pn|]; try done.
  apply (alike_after _ _ _ _ _ _ Ha). by apply IH.
Qed.

(** A receiver that differs in nothing that matters receives the same. *)
Lemma receive_all_same frs r1 r2 r1' :
  same_messages r1 r2 -> receive_all frs r1 = (Ok None, r1') ->
  exists r2', receive_all frs r2 = (Ok None, r2') /\ same_messages r1' r2'.
Proof.
  intros [Hv Em] E. pose proof (receive_all_alike frs r1 r2 Hv) as (H1 & H2 & new & H3 & H4).
  rewrite E in *. destruct (receive_all frs r2) as [x r2']. cbn in *. subst. exists r2'.
  split; [done|]. split; [done|]. congruence.
Qed.

(** ** The receiver's other steps *)

Lemma fail_with_messages e r : same_messages r (Receiver.fail_with e r).
Proof. by destruct r as [[]]. Qed.

Lemma set_r_l_messages l r : l_maxMessageSize l = l_maxMessageSize (r_l r) -> same_messages r (set_r_l l r).
Proof. destruct r as [[]]. unfold same_messages, same_view. cbn. by intros ->. Qed.

Lemma mux_top_messages r : same_messages r (Receiver.mux_top r).1.
Proof.
  unfold Receiver.mux_top. cbn zeta.
  set (r0 := if _ && _ then _ else r).
  assert (same_messages r r0) as H0.
  { unfold r0. case_match; [|done]. destruct (IssueCredit _ _ _ _ _) as [[]]; destruct r as [[]]; views. }
  clearbody r0. apply (transitivity H0). clear H0. destruct (l_err (r_l r0)); [done|].
  destruct (FlowBits _ _) as [[]]. destruct r0 as [[]]. case_match; [|views]. case_match; views.
Qed.

Lemma muxDetach_max dst ev l l' o dst' :
  muxDetach_step dst ev l = (l', o, dst') -> l_maxMessageSize l' = l_maxMessageSize l.
Proof. unfold muxDetach_step, detach_exit. intros E. destruct l. by repeat (case_match; simplify_eq; cbn in *). Qed.

Lemma link_muxHandleFrame_same fr l :
  l_handle (link_muxHandleFrame fr l).2 = l_handle l /\
  l_maxMessageSize (link_muxHandleFrame fr l).2 = l_maxMessageSize l.
Proof. destruct l. unfold link_muxHandleFrame. by repeat case_match. Qed.

Lemma muxHandleFrame_messages fr r :
  (forall t, fr <> FTransfer t) -> same_messages r (Receiver.muxHandleFrame fr r).2.
Proof.
  intros Ht. pose proof (link_muxHandleFrame_same fr (r_l r)) as [_ Hl].
  assert (same_messages r (let '(x, l) := link_muxHandleFrame fr (r_l r) in
    (Ok (A := option goerr) x, Receiver.no_out, set_r_l l r)).2) as H.
  { revert Hl. destruct (link_muxHandleFrame fr (r_l r)) as [x l]. cbn. apply set_r_l_messages. }
  destruct fr; try exact H; clear H Hl; cbn [Receiver.muxHandleFrame].
  - repeat case_match; simplify_eq; destruct r as [[]]; views.
  - by destruct (Ht t).
  - destruct (Receiver.inFlight_remove _ _ _ _) as [[]| | |]; destruct r as [[]]; views.
Qed.

(** The mux changes nothing else when it handles a frame. *)
Lemma mux_rx_messages st fr r x o r' st' :
  Receiver.mux_rx st fr r = (x, o, r', st') -> same_messages (Receiver.muxHandleFrame fr r).2 r'.
Proof.
  unfold Receiver.mux_rx. destruct (Receiver.muxHandleFrame fr r) as [[[[e|]|e|pn|] o1] r1]; cbn [snd];
    try (intros; simplify_eq; first [done|apply fail_with_messages]).
  destruct st; [|intros; by simplify_eq..].
  pose proof (mux_top_messages (Receiver.fail_with None r1)) as H.
  destruct (Receiver.mux_top _) as [r2 st2]. intros; simplify_eq. cbn in H.
  etrans; [apply fail_with_messages|exact H].
Qed.

Lemma mux_step_messages st ev r x o r' st' :
  (forall fr, ev <> RRx (FTransfer fr)) -> Receiver.mux_step st ev r = (x, o, r', st') -> same_messages r r'.
Proof.
  intros Hev.
  assert (forall fr, ev = RRx fr -> Receiver.mux_rx st fr r = (x, o, r', st') -> same_messages r r') as Hrx.
  { intros fr -> E. etrans; [apply (muxHandleFrame_messages fr); intros t ->; by destruct (Hev t)|].
    by eapply mux_rx_messages. }
  destruct st, ev; cbn [Receiver.mux_step]; try (by apply Hrx);
    try (intros; simplify_eq; first [done|apply fail_with_messages]).
  - destruct (Receiver.r_receiverReady r); [|intros; by simplify_eq].
    pose proof (mux_top_messages (Receiver.set_r_receiverReady false r)) as H.
    destruct (Receiver.mux_top _) as [r2 st2]. intros; simplify_eq. etrans; [|exact H].
    by destruct r as [[]].
  - case_match; intros; simplify_eq; [apply fail_with_messages|done].
  - case_match; intros; simplify_eq; [apply fail_with_messages|done].
Qed.

Lemma batch_send_messages connDone first last state r o r' :
  Receiver.batch_send connDone first last state r = Ok (o, r') -> same_messages r r'.
Proof.
  unfold Receiver.batch_send. intros E. repeat (case_match; simplify_eq; try done).
  cbn in E. destruct (Receiver.inFlight_remove _ _ _ _) as [[]| | |]; try done. inversion E; subst.
  by destruct r as [[]].
Qed.

Lemma res_bind_inv {A B} (x : res A) (k : A -> res B) b : x ≫= k = Ok b -> exists a, x = Ok a /\ k a = Ok b.
Proof. destruct x; try done. by exists a. Qed.

Lemma batch_step_messages connDone ev b r o r' b' :
  Receiver.batch_step connDone ev b r = Ok (o, r', b') -> same_messages r r'.
Proof.
  unfold Receiver.batch_step, Receiver.batch_disposition, Receiver.batch_timer. intros E.
  destruct ev as [d|]; cbn zeta in E.
  - destruct (_ || _).
    + apply res_bind_inv in E as ([o1 r1] & E1 & E). apply res_bind_inv in E as ([o2 r2] & E2 & E).
      inversion E; subst. apply batch_send_messages in E2. etrans; [|exact E2].
      destruct (Receiver.batchStarted b); [by eapply batch_send_messages|by inversion E1].
    + destruct (_ >=? _); [|by inversion E]. apply res_bind_inv in E as ([o1 r1] & E1 & E).
      inversion E; subst. by eapply batch_send_messages.
  - destruct (Receiver.b_timer b); [|by inversion E]. apply res_bind_inv in E as ([o1 r1] & E1 & E).
    inversion E; subst. by eapply batch_send_messages.
Qed.

Lemma calls_messages r r' : calls r r' -> same_messages r r'.
Proof.
  destruct 1 as [credit r x r' E|r x r' E|r x r' E|r r' E|cd wait msg state r x r' E|msg r msg' r' E|
    cd ev b r o r' b' E|r|r w r' E|dst ev r l' o dst' Hev E].
  - unfold Receiver.Receiver_IssueCredit in E. destruct r as [[]]. repeat (case_match; simplify_eq); views.
  - unfold Receiver.DrainCredit_signal in E. destruct r as [[]]. repeat (case_match; simplify_eq); views.
  - unfold Receiver.DrainCredit_request in E. destruct r as [[]]. repeat (case_match; simplify_eq); views.
  - unfold Receiver.Prefetched in E. destruct r as [[]]. repeat (case_match; simplify_eq); views.
  - unfold Receiver.messageDisposition_send in E. destruct r as [[]].
    repeat (case_match; simplify_eq); views.
  - unfold Receiver.messageDisposition_confirmed in E. simplify_eq. by destruct r as [[]].
  - by eapply batch_step_messages.
  - by destruct r as [[]].
  - unfold Receiver.mux_deferred in E. destruct r as [[]]. repeat (case_match; simplify_eq); views.
  - apply set_r_l_messages. by eapply muxDetach_max.
Qed.

(** ** The sender's side *)

Lemma sender_step_link st ev s x o s' st' :
  sender_mux_step st ev s = (x, o, s', st') ->
  l_handle (s_l s') = l_handle (s_l s) /\ l_maxMessageSize (s_l s') = l_maxMessageSize (s_l s).
Proof.
  assert (forall fr, sender_mux_rx st fr s = (x, o, s', st') ->
    l_handle (s_l s') = l_handle (s_l s) /\ l_maxMessageSize (s_l s') = l_maxMessageSize (s_l s)) as Hrx.
  { intros fr. unfold sender_mux_rx.
    assert (l_handle (s_l (sender_muxHandleFrame fr s).2) = l_handle (s_l s) /\
            l_maxMessageSize (s_l (sender_muxHandleFrame fr s).2) = l_maxMessageSize (s_l s)) as H.
    { pose proof (link_muxHandleFrame_same fr (s_l s)) as Hl. destruct fr; cbn [sender_muxHandleFrame];
        try (destruct (link_muxHandleFrame _ _) as [y l]; by destruct s);
        destruct s as [[]]; by repeat case_match. }
    revert H. destruct (sender_muxHandleFrame fr s) as [[y o1] s1]. cbn. intros H E.
    repeat (case_match; simplify_eq); try done; by destruct s1 as [[]]. }
  destruct st, ev; cbn [sender_mux_step]; try (by apply Hrx); intros E; destruct s as [[]];
    clear Hrx; repeat case_match; by simplify_eq.
Qed.

Lemma sender_step_other st ev s x o s' st' :
  (forall fr, ev <> STransfer fr) -> ev <> STx -> sender_mux_step st ev s = (x, o, s', st') ->
  st' = st \/ st' = SExit.
Proof.
  intros H1 H2. unfold sender_mux_step, sender_mux_rx.
  destruct st, ev; intros E; repeat (case_match; simplify_eq); simplify_eq; auto; by edestruct H1.
Qed.

(** *** The sender's session sends nothing of its own *)

Definition quiet (h : Z) (st st' : state) : Prop :=
  omap (transfer_on h) (st_out st') = omap (transfer_on h) (st_out st).

#[export] Instance quiet_preorder h : PreOrder (quiet h).
Proof. unfold quiet. split; [done|]. intros x y z ? ?. congruence. Qed.

Lemma quiet_emit h a : transfer_on h a = None -> Keeps (quiet h) (emit a).
Proof.
  intros Ha st. unfold emit, modify, quiet. destruct st. cbn. rewrite omap_app. cbn.
  rewrite Ha. by rewrite app_nil_r.
Qed.

Ltac quiet :=
  keeps; first [ by apply quiet_emit
               | apply Keeps_modify; intros [[] ? ? [] ?]; unfold quiet; cbn; repeat case_match; done ].

Lemma mux_dispose_loop_quiet h skip fuel id last d : Keeps (quiet h) (mux_dispose_loop skip fuel id last d).
Proof.
  revert id. induction fuel as [|fuel IH]; intros id; cbn; case_match; try apply (Keeps_ret _);
    [apply (Keeps_lift _)|]. apply (Keeps_bind _); [|intros; apply IH].
  unfold mux_dispose, muxFrameToLink. quiet.
Qed.
Lemma mux_fail_quiet h e : Keeps (quiet h) (mux_fail e).
Proof. unfold mux_fail, mux_exit. quiet. Qed.
Lemma mux_exit_quiet h : Keeps (quiet h) mux_exit.
Proof. unfold mux_exit. quiet. Qed.

Lemma mux_rx_quiet h skip body : Keeps (quiet h) (mux_rx skip body).
Proof.
  destruct body; try apply (Keeps_ret _); cbn [mux_rx].
  - unfold mux_rx_attach, update, muxFrameToLink. keeps; try apply mux_fail_quiet; quiet.
  - unfold mux_rx_flow, muxFrameToLink, txFrame. keeps; try apply mux_fail_quiet; quiet.
  - unfold mux_rx_transfer, mux_update_window, muxFrameToLink, txFrame. quiet.
  - apply (Keeps_bind _); [apply mux_dispose_loop_quiet|intros; apply (Keeps_ret _)].
  - unfold mux_rx_detach, muxFrameToLink. quiet.
  - unfold mux_rx_end, txFrame. keeps; try apply mux_fail_quiet; try apply mux_exit_quiet; quiet.
Qed.

(** The one frame that a transfer becomes. *)
Lemma mux_txTransfer_out fr st :
  exists st' fr', mux_txTransfer fr st = (Ok tt, st') /\ mx_links (st_m st') = mx_links (st_m st) /\
    st_out st' = st_out st ++ [ATxFrame (FTransfer fr') (tr_Done fr')] /\
    (fr' = fr \/ fr' = set_tr_Done None fr).
Proof.
  destruct st as [[] store c [lk hd dh hr se no ni riw row] o]. unfold mux_txTransfer, track_transfer. runs.
  destruct (tr_DeliveryID fr), (tr_Settled fr) eqn:Es, (tr_Done fr) eqn:Ed; runs; destruct (_ =? 0); runs;
    first [by eexists _, fr; rewrite ?Ed; cbn; auto
          | eexists _, (set_tr_Done None fr); (split; [reflexivity|]); split_and!; [done|done|by right]].
Qed.

Lemma session_step_quiet h ph ev st ph' st' out :
  not_ours h ev -> session_step ph ev st = (Ok ph', st', out) -> omap (transfer_on h) out = [].
Proof.
  intros Hev. unfold session_step.
  assert (Keeps (quiet h) (mux_step ph ev)) as Hk.
  { destruct ph, ev; cbn [mux_step]; try apply (Keeps_ret _); try apply mux_fail_quiet.
    - unfold txFrame. quiet.
    - apply mux_rx_quiet.
    - apply (Keeps_bind _); [apply (Keeps_gets _)|intros []]; [|apply (Keeps_ret _)].
      apply (Keeps_bind _); [|intros; apply (Keeps_ret _)]. intros s0.
      destruct (mux_txTransfer_out fr s0) as (s1 & fr' & -> & _ & E & Hfr). unfold quiet. cbn [snd].
      rewrite E, omap_app. cbn. replace (tr_Handle fr' =? h) with false; [by rewrite app_nil_r|].
      cbn in Hev. symmetry. apply Z.eqb_neq. by destruct Hfr as [-> | ->]; [|destruct fr].
    - unfold mux_tx, txFrame. quiet.
    - destruct body; try apply (Keeps_ret _). apply mux_exit_quiet. }
  specialize (Hk (set_st_out [] st)). destruct (mux_step ph ev _) as [x st1]. intros; simplify_eq.
  unfold quiet in Hk. cbn [snd] in Hk. rewrite Hk. by destruct st.
Qed.

(** The session passes a transfer of the link on, without its channel. *)
Lemma session_step_transfer h fr st ph' st' out :
  window_open st = true -> tr_Handle fr = h -> session_step MuxRunning (ETxTransfer fr) st = (Ok ph', st', out) ->
  exists fr', omap (transfer_on h) out = [fr'] /\ (fr' = fr \/ fr' = set_tr_Done None fr).
Proof.
  intros Hw Hh. unfold session_step. cbn [mux_step]. unfold mbind, M_bind, gets.
  replace (window_open (set_st_out [] st)) with true by (by destruct st as [[] ? ? [] ?]).
  destruct (mux_txTransfer_out fr (set_st_out [] st)) as (s1 & fr' & -> & _ & E & Hfr).
  intros H. unfold mret, M_ret in H. simplify_eq. exists fr'. rewrite E. split; [|done]. destruct st. cbn.
  replace (_ =? _) with true; [done|]. symmetry. apply Z.eqb_eq. by destruct Hfr as [-> | ->]; [|destruct fr].
Qed.

(** *** The peer's session *)

(** The receiver is registered under the link's handle with a mux that runs. *)
Definition connected (h p : Z) (ph : phase) (st : state) : Prop :=
  ph = MuxRunning /\ mx_links (st_m st) !! h = Some p.

(** The receiver gets no transfer, and is not registered anew. *)
Definition stays (h p : Z) (st st' : state) : Prop :=
  omap (transfer_to p) (st_out st') = omap (transfer_to p) (st_out st) /\
  (mx_links (st_m st') !! h = Some p -> mx_links (st_m st) !! h = Some p).

#[export] Instance stays_preorder h p : PreOrder (stays h p).
Proof.
  unfold stays. split; [done|]. intros x y z [H1 H2] [H3 H4]. split; [congruence|auto].
Qed.

Lemma stays_emit h p a : transfer_to p a = None -> Keeps (stays h p) (emit a).
Proof.
  intros Ha st. unfold emit, modify, stays. destruct st. cbn. rewrite omap_app. cbn.
  rewrite Ha. by rewrite app_nil_r.
Qed.

Ltac stays :=
  keeps; first [ by apply stays_emit
               | apply Keeps_modify; intros [[] ? ? [] ?]; unfold stays; cbn; repeat case_match; done ].

Lemma mux_dispose_loop_stays h p skip fuel id last d : Keeps (stays h p) (mux_dispose_loop skip fuel id last d).
Proof.
  revert id. induction fuel as [|fuel IH]; intros id; cbn; case_match; try apply (Keeps_ret _);
    [apply (Keeps_lift _)|]. apply (Keeps_bind _); [|intros; apply IH].
  unfold mux_dispose, muxFrameToLink. stays.
Qed.
Lemma mux_fail_stays h p e : Keeps (stays h p) (mux_fail e).
Proof. unfold mux_fail, mux_exit. stays. Qed.
Lemma mux_exit_stays h p : Keeps (stays h p) mux_exit.
Proof. unfold mux_exit. stays. Qed.

Lemma stays_links h p f :
  (forall m, f m !! h = Some p -> m !! h = Some p) ->
  Keeps (stays h p) (modify (on_m (fun m => set_mx_links (f (mx_links m)) m))).
Proof. intros Hf. apply Keeps_modify. intros [? ? ? [] ?]. split; [done|]. cbn. apply Hf. Qed.

(** A transfer is handed to the link that is registered under its handle, if the
    link takes it. *)
Lemma mux_rx_transfer_out p skip fr st ph st' :
  mux_rx_transfer skip fr st = (Ok ph, st') ->
  ph = MuxRunning /\ mx_links (st_m st') = mx_links (st_m st) /\
  omap (transfer_to p) (st_out st') = omap (transfer_to p) (st_out st)
    ++ (if decide (mx_links (st_m st) !! tr_Handle fr = Some p /\ skip p = false) then [fr] else []).
Proof.
  destruct st as [[] store c [lk hd dh hr se no ni riw row] o].
  unfold mux_rx_transfer, muxFrameToLink, mux_update_window. intros E. runs_in E.
  replace (mx_links _) with lk in E by (by destruct (row >? 0)).
  destruct (lk !! tr_Handle fr) as [q|] eqn:El; runs_in E.
  2:{ simplify_eq. rewrite decide_False by (cbn; rewrite El; by intros [? _]).
      destruct (row >? 0); cbn; by rewrite app_nil_r. }
  assert (omap (transfer_to p) (if skip q then [] else [AToLink q (FTransfer fr)])
    = (if decide (lk !! tr_Handle fr = Some p /\ skip p = false) then [fr] else [])) as Ea.
  { rewrite El. destruct (Z.eqb_spec q p) as [->|Hne].
    - destruct (skip p); cbn; [by rewrite decide_False by (by intros [_ ?])|by rewrite Z.eqb_refl, decide_True].
    - rewrite (decide_False (P := Some q = Some p /\ _)) by (intros [? _]; congruence). destruct (skip q); cbn; [done|].
      by replace (q =? p) with false by lia. }
  destruct (skip q); [|destruct (bool_decide _); runs_in E; [done|]]; runs_in E;
    (destruct (store !! q) as [l|]; runs_in E; [|done]);
    (destruct (tr_Settled fr), (tr_DeliveryID fr), (l_receiverSettleMode l); try destruct (_ =? _); runs_in E;
    (destruct (row >? 0); runs_in E; destruct (_ >=? _); runs_in E; simplify_eq; cbn [st_m st_out mx_links];
     rewrite <- Ea, ?omap_app, <- ?app_assoc; split_and!; try done; cbn; by rewrite ?app_nil_r)).
Qed.

Lemma mux_rx_stays h p skip body :
  (forall fr, body <> FTransfer fr) -> (forall a, body = FAttach a -> a_Handle a <> h) ->
  Keeps (stays h p) (mux_rx skip body).
Proof.
  intros Ht Ha. destruct body; try apply (Keeps_ret _); cbn [mux_rx].
  - unfold mux_rx_attach, update, muxFrameToLink. keeps; try apply mux_fail_stays; try stays.
    apply (stays_links h p (fun m => <[ a_Handle a := _ ]> m)). intros m.
    by rewrite lookup_insert_ne by (by apply Ha).
  - unfold mux_rx_flow, muxFrameToLink, txFrame. keeps; try apply mux_fail_stays; stays.
  - by destruct (Ht t).
  - apply (Keeps_bind _); [apply mux_dispose_loop_stays|intros; apply (Keeps_ret _)].
  - unfold mux_rx_detach, muxFrameToLink. keeps; try stays.
    match goal with |- Keeps _ (modify (on_m (fun m => set_mx_links (delete ?k _) _))) =>
      apply (stays_links h p (delete k)) end. intros m. by intros [_ ?]%lookup_delete_Some.
  - unfold mux_rx_end, txFrame. keeps; try apply mux_fail_stays; try apply mux_exit_stays; stays.
Qed.

(** A mux that has stopped stays stopped. *)
Lemma mux_step_running ph ev st st' : mux_step ph ev st = (Ok MuxRunning, st') -> ph = MuxRunning.
Proof.
  destruct ph; [done|..]; destruct ev as [| |? []| |]; cbn [mux_step]; unfold mux_fail, mux_exit; runs; done.
Qed.

Lemma session_step_stays h p ph ev st ph' st' out :
  not_theirs h p ev st -> session_step ph ev st = (Ok ph', st', out) ->
  omap (transfer_to p) out = [] /\ (connected h p ph' st' -> connected h p ph st).
Proof.
  intros Hev. unfold session_step. destruct (mux_step ph ev (set_st_out [] st)) as [x st1] eqn:E.
  intros; simplify_eq. unfold connected.
  assert (stays h p (set_st_out [] st) st1) as [H1 H2].
  { assert ((exists skip fr, ph = MuxRunning /\ ev = ERxSelect skip (FTransfer fr)) \/
            (forall skip fr, ph = MuxRunning -> ev <> ERxSelect skip (FTransfer fr))) as [(skip & fr & -> & ->)|Hn]
      by (destruct ph, ev as [| |? []| |]; eauto; by right).
    - cbn [mux_step mux_rx] in E. apply (mux_rx_transfer_out p) in E as (_ & E1 & E2).
      destruct st as [s0 ? ? m0 ?]. cbn in Hev, E1, E2. rewrite decide_False in E2 by (by intros [? _]).
      split; [by rewrite E2|]. cbn. by rewrite E1.
    - replace st1 with (mux_step ph ev (set_st_out [] st)).2 by (by rewrite E). generalize (set_st_out [] st).
      fold (Keeps (stays h p) (mux_step ph ev)). clear E.
      destruct ph, ev; cbn [mux_step]; try apply (Keeps_ret _); try apply mux_fail_stays.
      + unfold txFrame. stays.
      + apply mux_rx_stays; [intros fr ->; by apply (Hn skip fr)|intros a ->; exact Hev].
      + apply (Keeps_bind _); [apply (Keeps_gets _)|intros []]; [|apply (Keeps_ret _)].
        apply (Keeps_bind _); [|intros; apply (Keeps_ret _)]. intros s0.
        destruct (mux_txTransfer_out fr s0) as (s1 & fr' & -> & El & E & _). unfold stays. cbn [snd].
        rewrite E, El, omap_app. cbn. by rewrite app_nil_r.
      + unfold mux_tx, txFrame. stays.
      + destruct body; try apply (Keeps_ret _). apply mux_exit_stays. }
  split; [rewrite H1; by destruct st|]. intros [-> Hl]. split; [by eapply mux_step_running|].
  destruct st, st1. by apply H2.
Qed.

Lemma session_step_arrives h p ph fr st ph' st' out :
  connected h p ph st -> tr_Handle fr = h -> session_step ph (ERx (FTransfer fr)) st = (Ok ph', st', out) ->
  omap (transfer_to p) out = [fr] /\ connected h p ph' st'.
Proof.
  intros [-> Hl] Hh. unfold session_step. cbn [mux_step mux_rx].
  destruct (mux_rx_transfer taken fr (set_st_out [] st)) as [x st1] eqn:E. intros; simplify_eq.
  apply (mux_rx_transfer_out p) in E as (-> & E1 & E2). destruct st, st1. cbn in *. subst.
  rewrite decide_True in E2 by done. split; [done|]. split; [done|]. cbn. by rewrite E1.
Qed.

(** ** The simulation *)

(** The frame that the sender's mux holds. *)
Definition held (sst : sstate) : list PerformTransfer :=
  match sst with SPending fr => [fr] | _ => [] end.

(** The frames [t] that have not reached the receiver's channel: as long as it is
    connected, those on the wire and, as long as the sender's mux runs, those
    that it has not sent. *)
Definition upstream (h p : Z) (y : system) (t : list PerformTransfer) : Prop :=
  connected h p (y_pph y) (y_pses y) ->
  exists u, t = y_wire y ++ u /\ (y_sst y <> SExit -> u = received (held (y_sst y) ++ y_outbox y)).

(** [r'] is the receiver once it has handled all the frames. *)
Definition drains_to (rxq t : list PerformTransfer) (r : Receiver) (q : list Message) : Prop :=
  exists r', receive_all (rxq ++ t) r = (Ok None, r') /\ idle r' /\ Forall2 arrives q (r_messages r').

Record simulates (h p : Z) (y : system) (q : list Message) : Prop := mkSimulates {
  sim_handle : l_handle (s_l (y_s y)) = h;
  sim_max : l_maxMessageSize (r_l (y_r y)) = 0 \/
            0 < l_maxMessageSize (s_l (y_s y)) <= l_maxMessageSize (r_l (y_r y));
  sim_wire : Forall (fun fr => tr_Handle fr = h) (y_wire y);
  sim_frames : Forall (fun fr => tr_Handle fr = h /\ crosses fr (norm_transfer fr)) (held (y_sst y) ++ y_outbox y);
  sim_queue : exists t, upstream h p y t /\ drains_to (y_rxq y) t (y_r y) q
}.

Lemma drains_same rxq t r r' q : same_messages r r' -> drains_to rxq t r q -> drains_to rxq t r' q.
Proof.
  intros Hs (r1 & E & Hi & Hq). destruct (receive_all_same _ _ _ _ Hs E) as (r2 & E2 & (V1 & V2 & V3 & _) & Em).
  exists r2. split; [done|]. split; [|by rewrite Em]. unfold idle in *. congruence.
Qed.

(** Handling the first frame in the receiver's channel. *)
Lemma drains_next fr rxq t r q x r1 :
  drains_to (fr :: rxq) t r q -> muxReceive fr r = (x, r1) -> x = Ok None /\ drains_to rxq t r1 q.
Proof.
  intros (r' & E & H) Er. cbn [app receive_all] in E. rewrite Er in E.
  destruct x as [[e|]|e|pn|]; try done. split; [done|]. by exists r'.
Qed.

Lemma closeWithError_max de r : l_maxMessageSize (r_l (Receiver.closeWithError de r).2) = l_maxMessageSize (r_l r).
Proof. unfold Receiver.closeWithError. by destruct r as [[]]; cbn; case_match. Qed.

Lemma muxReceive_max fr r : l_maxMessageSize (r_l (muxReceive fr r).2) = l_maxMessageSize (r_l r).
Proof.
  unfold muxReceive.
  assert (l_maxMessageSize (r_l (if negb (r_more r) then Receiver.muxReceive_first fr r
            else Receiver.muxReceive_next fr r).2) = l_maxMessageSize (r_l r)) as H.
  { unfold Receiver.muxReceive_first, Receiver.muxReceive_next. repeat case_match; try done;
      rewrite ?closeWithError_max; by destruct r. }
  destruct (if negb (r_more r) then _ else _) as [[e|] r1]; [done|]. rewrite <- H. cbn [snd]. clear H r.
  destruct (tr_Aborted fr); [by destruct r1|]. destruct (_ && _).
  { pose proof (closeWithError_max (mkErr ErrCondMessageSizeExceeded "received message larger than max size of %d") r1)
      as H. by destruct (Receiver.closeWithError _ r1). }
  cbn zeta. destruct (tr_More fr); [by destruct r1|]. unfold Receiver.muxReceive_complete, Receiver.addUnsettled, Receiver.on_l.
  destruct r1 as [[]]. cbn. by repeat case_match.
Qed.

Lemma receive_all_max frs r : l_maxMessageSize (r_l (receive_all frs r).2) = l_maxMessageSize (r_l r).
Proof.
  revert r. induction frs as [|fr frs IH]; intros r; [done|]. cbn [receive_all]. pose proof (muxReceive_max fr r) as H.
  destruct (muxReceive fr r) as [[[e|]|e|pn|] r1]; cbn in H; try done. by rewrite IH.
Qed.

(** A message is sent: its frames come last. *)
Lemma drains_sent rxq t r q msg s m n frs :
  drains_to rxq t r q -> delivers s m n frs -> arrives msg m -> size_ok r n ->
  drains_to rxq (t ++ received frs) r (q ++ [msg]).
Proof.
  intros (r1 & E & Hi & Hq) [_ Hd] Ha Hs.
  pose proof (receive_all_max (rxq ++ t) r) as Em. rewrite E in Em. cbn in Em.
  destruct (Hd r1 Hi) as (r2 & E2 & Hi2 & Em2 & _); [by unfold size_ok; rewrite Em|].
  exists r2. split; [|split; [done|]].
  - by rewrite app_assoc, receive_all_app, E.
  - rewrite Em2. apply Forall2_app; [done|]. by repeat constructor.
Qed.

(** The application takes the first message. *)
Lemma drains_got rxq t r q ev m e r' :
  drains_to rxq t r q -> Receiver.Receive ev r = (Some m, e, r') ->
  exists msg q' m0 rcvr, q = msg :: q' /\ arrives msg m0 /\ m = set_m_rcvr rcvr m0 /\ drains_to rxq t r' q'.
Proof.
  intros (r1 & E & Hi & Hq) Er.
  assert (exists m0 rcvr, r_messages r = m0 :: r_messages r' /\ m = set_m_rcvr rcvr m0 /\ same_view r r')
    as (m0 & rcvr & Em & -> & Hv).
  { unfold Receiver.Receive, Receiver.Prefetched, Receiver.Receive_wait in Er.
    destruct r as [[] ? ms]. cbn in Er |- *. destruct ms; [by destruct ev|]. cbn in Er. simplify_eq. cbn.
    by eexists _, _. }
  pose proof (receive_all_alike (rxq ++ t) r r' Hv) as (H1 & (V1 & V2 & V3 & _) & new & H3 & H4).
  rewrite E in *. destruct (receive_all (rxq ++ t) r') as [x r2] eqn:E2. cbn in *. subst x.
  rewrite H3, Em in Hq. cbn in Hq. apply Forall2_cons_inv_r in Hq as (msg & q' & Ha & Hq' & ->).
  exists msg, q', m0, rcvr. split_and!; try done. exists r2. split; [done|]. rewrite H4. split; [|done].
  unfold idle in *. congruence.
Qed.

Lemma receive_max ev r m e r' :
  Receiver.Receive ev r = (m, e, r') -> l_maxMessageSize (r_l r') = l_maxMessageSize (r_l r).
Proof.
  unfold Receiver.Receive, Receiver.Prefetched, Receiver.Receive_wait. destruct r as [[] ? ms]. cbn.
  destruct ms; [destruct ev|]; cbn; intros; by simplify_eq.
Qed.

Lemma crosses_unique fr fr1 fr2 : crosses fr fr1 -> crosses fr fr2 -> fr1 = fr2.
Proof.
  intros (b1 & H1 & E1) (b2 & H2 & E2). rewrite (Encodes_unique _ _ _ H1 H2) in E1. congruence.
Qed.

(** The channel of a frame is not encoded. *)
Lemma crosses_done fr fr' d : crosses (set_tr_Done d fr) fr' -> crosses fr fr'.
Proof. intros (b & H & E). exists b. split; [|done]. by destruct fr. Qed.

Lemma norm_transfer_handle fr : tr_Handle (norm_transfer fr) = tr_Handle fr.
Proof. by destruct fr. Qed.

(** *** One case for every kind of step *)

Section Steps.
Context (h p peerMax : Z).
Hypothesis handle_ok : inu 32 h = true.
Hypothesis peerMax_ok : maxTransferFrameHeader < peerMax < 2 ^ 32.

(** Steps that only concern the receiver's side. *)
Lemma sim_receiver s sst outbox sph sses wire pph pses rxq r rst r' rst' q :
  same_messages r r' -> simulates h p (mkSystem s sst outbox sph sses wire pph pses rxq r rst) q ->
  simulates h p (mkSystem s sst outbox sph sses wire pph pses rxq r' rst') q.
Proof.
  intros Hs [Hh Hm Hw Hf (t & Hu & Hd)]. constructor; try done.
  - destruct Hs as [(_ & _ & _ & Em) _]. cbn in *. by rewrite <- Em.
  - exists t. split; [exact Hu|]. by eapply drains_same.
Qed.

Lemma sim_handled s sst outbox sph sses wire pph pses fr rxq r rst r1 r' rst' x q :
  muxReceive fr r = (x, r1) -> same_messages r1 r' ->
  simulates h p (mkSystem s sst outbox sph sses wire pph pses (fr :: rxq) r rst) q ->
  simulates h p (mkSystem s sst outbox sph sses wire pph pses rxq r' rst') q.
Proof.
  intros E Hs [Hh Hm Hw Hf (t & Hu & Hd)].
  apply (sim_receiver _ _ _ _ _ _ _ _ _ r1 rst); [done|]. constructor; try done.
  - pose proof (muxReceive_max fr r) as Em. rewrite E in Em. cbn in *. by rewrite Em.
  - exists t. split; [exact Hu|]. by eapply drains_next in Hd as [_ Hd].
Qed.

Lemma sim_send s sst sph sses wire pph pses rxq r rst nextID done msg bs k d frs id' s' q :
  message_ok msg = true -> inu 32 (m_Format msg) = true -> Encodes (Message_Marshal msg) bs ->
  sendable s msg bs -> zlen bs <= Z.of_nat k ->
  send peerMax nextID done (replicate k SSent) msg s = (Ok (SendDone d), frs, id', s') ->
  simulates h p (mkSystem s sst [] sph sses wire pph pses rxq r rst) q ->
  simulates h p (mkSystem s' sst frs sph sses wire pph pses rxq r rst) (q ++ [msg]).
Proof.
  intros Hok Hfmt He Hsend Hk E [Hh Hm Hw Hf (t & Hu & Hd)]. cbn in Hh, Hm, Hw, Hf, Hd.
  destruct (send_delivers peerMax nextID done msg s bs k) as (frs' & s1 & E' & El & Hdv); try done; [by rewrite Hh|].
  rewrite E in E'. simplify_eq. rename frs' into frs, s1 into s'.
  assert (arrives msg (arriving s nextID msg)) as Ha.
  { eexists _, _, _. split; [|reflexivity]. intros Ht. unfold deliveryTag.
    replace (_ =? 0) with false; [done|]. destruct (m_DeliveryTag msg); [done|]. symmetry. zlia. }
  constructor; cbn; rewrite ?El; try done.
  - rewrite app_nil_r in Hf. apply Forall_app. split; [done|]. apply Hdv.
  - exists (t ++ received frs). split.
    + intros Hc. destruct (Hu Hc) as (u & -> & Hsst). cbn. exists (u ++ received frs).
      split; [by rewrite app_assoc|]. intros Hne. cbn in Hsst. rewrite (Hsst Hne), app_nil_r.
      unfold received. by rewrite map_app.
    + eapply drains_sent; [done|done|done|]. destruct Hsend as (_ & Hl & Hs). unfold size_ok. lia.
Qed.

Lemma sim_take s fr outbox sph sses wire pph pses rxq r rst o s' sst' q :
  l_availableCredit (s_l s) > 0 ->
  sender_mux_step SSelect (STransfer fr) s = (Ok tt, o, s', sst') ->
  simulates h p (mkSystem s SSelect (fr :: outbox) sph sses wire pph pses rxq r rst) q ->
  simulates h p (mkSystem s' sst' outbox sph sses wire pph pses rxq r rst) q.
Proof.
  intros Hc E [Hh Hm Hw Hf (t & Hu & Hd)]. cbn [sender_mux_step] in E.
  replace (_ >? 0) with true in E by lia. simplify_eq. constructor; try done.
  exists t. split; [|done]. intros Hco. destruct (Hu Hco) as (u & -> & Hs). exists u. split; [done|].
  intros _. by apply Hs.
Qed.

Lemma sim_transfer s fr outbox sses wire pph pses rxq r rst o s' sst' sph' sses' out frs q :
  window_open sses = true -> sender_mux_step (SPending fr) STx s = (Ok tt, o, s', sst') ->
  session_step MuxRunning (ETxTransfer fr) sses = (Ok sph', sses', out) ->
  Forall2 crosses (omap (transfer_on h) out) frs ->
  simulates h p (mkSystem s (SPending fr) outbox MuxRunning sses wire pph pses rxq r rst) q ->
  simulates h p (mkSystem s' sst' outbox sph' sses' (wire ++ frs) pph pses rxq r rst) q.
Proof.
  intros Hwin Es Ess Hx [Hh Hm Hw Hf (t & Hu & Hd)]. cbn in Hf. apply Forall_cons in Hf as [[Hfh Hfx] Hf].
  destruct (session_step_transfer h fr sses sph' sses' out Hwin Hfh Ess) as (fr' & Eo & Hfr).
  rewrite Eo in Hx. apply Forall2_cons_inv_l in Hx as (fr1 & ? & Hx & ->%Forall2_nil_inv_l & ->).
  assert (fr1 = norm_transfer fr) as ->.
  { apply (crosses_unique fr); [|done]. destruct Hfr as [-> | ->]; [done|by eapply crosses_done]. }
  destruct (sender_step_link _ _ _ _ _ _ _ Es) as [E1 E2].
  assert (sst' = SSelect) as -> by (cbn in Es; by simplify_eq).
  constructor; cbn; rewrite ?E1, ?E2; try done.
  - apply Forall_app. split; [done|]. constructor; [by rewrite norm_transfer_handle|done].
  - exists t. split; [|done]. intros Hc. destruct (Hu Hc) as (u & -> & Hs). cbn in Hs |- *.
    rewrite (Hs ltac:(done)). exists (received outbox). split; [by rewrite <- app_assoc|done].
Qed.

Lemma sim_sender s sst outbox sph sses wire pph pses rxq r rst ev x o s' sst' q :
  (forall fr, ev <> STransfer fr) -> ev <> STx -> sender_mux_step sst ev s = (x, o, s', sst') ->
  simulates h p (mkSystem s sst outbox sph sses wire pph pses rxq r rst) q ->
  simulates h p (mkSystem s' sst' outbox sph sses wire pph pses rxq r rst) q.
Proof.
  intros H1 H2 E [Hh Hm Hw Hf (t & Hu & Hd)]. destruct (sender_step_link _ _ _ _ _ _ _ E) as [E1 E2].
  destruct (sender_step_other _ _ _ _ _ _ _ H1 H2 E) as [-> | ->]; constructor; cbn in *; rewrite ?E1, ?E2; try done.
  - by exists t.
  - apply Forall_app in Hf as [_ Hf]. done.
  - exists t. split; [|done]. intros Hc. destruct (Hu Hc) as (u & -> & _). by exists u.
Qed.

Lemma sim_session s sst outbox sph sses wire pph pses rxq r rst ev sph' sses' out frs q :
  not_ours h ev -> session_step sph ev sses = (Ok sph', sses', out) ->
  Forall2 crosses (omap (transfer_on h) out) frs ->
  simulates h p (mkSystem s sst outbox sph sses wire pph pses rxq r rst) q ->
  simulates h p (mkSystem s sst outbox sph' sses' (wire ++ frs) pph pses rxq r rst) q.
Proof.
  intros Hev E Hx [Hh Hm Hw Hf Hq]. rewrite (session_step_quiet h _ _ _ _ _ _ Hev E) in Hx.
  apply Forall2_nil_inv_l in Hx as ->. rewrite app_nil_r. by constructor.
Qed.

Lemma sim_peer s sst outbox sph sses wire wire' pph pses rxq r rst pph' pses' frs q :
  (connected h p pph' pses' -> connected h p pph pses /\ wire = frs ++ wire') ->
  (frs = [] \/ connected h p pph' pses') -> Forall (fun fr => tr_Handle fr = h) wire' ->
  simulates h p (mkSystem s sst outbox sph sses wire pph pses rxq r rst) q ->
  simulates h p (mkSystem s sst outbox sph sses wire' pph' pses' (rxq ++ frs) r rst) q.
Proof.
  intros Hc Hfr Hw' [Hh Hm Hw Hf (t & Hu & Hd)]. constructor; try done.
  destruct Hfr as [-> | Hc'].
  - exists t. rewrite app_nil_r. split; [|done]. intros Hc1. destruct (Hc Hc1) as [Hc0 ->].
    exact (Hu Hc0).
  - destruct (Hc Hc') as [Hc0 ->]. destruct (Hu Hc0) as (u & -> & Hs). exists (wire' ++ u). split.
    + intros _. by exists u.
    + cbn in *. unfold drains_to in *. by rewrite <- !app_assoc in *.
Qed.

Lemma sim_arrive s sst outbox sph sses fr wire pph pses rxq r rst pph' pses' out q :
  session_step pph (ERx (FTransfer fr)) pses = (Ok pph', pses', out) ->
  simulates h p (mkSystem s sst outbox sph sses (fr :: wire) pph pses rxq r rst) q ->
  simulates h p (mkSystem s sst outbox sph sses wire pph' pses' (rxq ++ omap (transfer_to p) out) r rst) q.
Proof.
  intros E Hsim. assert (tr_Handle fr = h /\ Forall (fun fr => tr_Handle fr = h) wire) as [Hh Hw].
  { destruct Hsim as [_ _ Hw _ _]. by apply Forall_cons in Hw. }
  destruct (decide (pph = MuxRunning)) as [->|Hph].
  - destruct (decide (mx_links (st_m pses) !! h = Some p)) as [Hl|Hl].
    + destruct (session_step_arrives h p MuxRunning fr pses pph' pses' out (conj eq_refl Hl) Hh E) as [Eo Hc].
      rewrite Eo. eapply sim_peer; [|by right|done|exact Hsim]. by intros _.
    + destruct (session_step_stays h p MuxRunning (ERx (FTransfer fr)) pses pph' pses' out) as [Eo Hc];
        [cbn; by rewrite Hh|done|].
      rewrite Eo. eapply sim_peer; [|by left|done|exact Hsim]. intros Hc1. by destruct (Hc Hc1).
  - assert (pph' = pph /\ out = []) as [-> ->].
    { unfold session_step in E. destruct pph; [done|..]; cbn in E; unfold mret, M_ret in E; simplify_eq;
        by destruct pses. }
    cbn. eapply sim_peer; [|by left|done|exact Hsim]. by intros [? _].
Qed.

(** Every step of the system is a step of the queue. *)
Lemma link_step_simulates y a y1 q :
  step h p peerMax y a y1 -> simulates h p y q -> exists q1, qstep q a q1 /\ simulates h p y1 q1.
Proof.
  intros Hstep Hsim. destruct Hstep.
  - exists (q ++ [msg]). split; [constructor|]. by eapply sim_send.
  - exists q. split; [constructor|]. by eapply sim_take.
  - exists q. split; [constructor|]. by eapply sim_transfer.
  - exists q. split; [constructor|]. by eapply sim_sender.
  - exists q. split; [constructor|]. by eapply sim_session.
  - exists q. split; [constructor|]. by eapply sim_arrive.
  - exists q. split; [constructor|]. edestruct session_step_stays as [Eo Hc]; [done|done|]. rewrite Eo.
    eapply sim_peer; [|by left| |exact Hsim]; [intros Hc1; by split; [apply Hc|]|by destruct Hsim].
  - exists q. split; [constructor|]. destruct Hsim as [Hh Hm Hw Hf (t & Hu & Hd)]. constructor; try done.
    exists t. split; [|done]. unfold upstream, connected in *. cbn in *.
    match goal with E : st_m pses' = _ |- _ => by rewrite E end.
  - exists q. split; [constructor|].
    match goal with E : Receiver.mux_step rst _ r = _ |- _ =>
      assert (Receiver.mux_rx rst (FTransfer fr) r = (Ok tt, o, r', rst')) as Erx by (by destruct rst) end.
    apply mux_rx_messages in Erx. cbn [Receiver.muxHandleFrame] in Erx.
    destruct (muxReceive fr r) as [x r1] eqn:Er. by eapply sim_handled.
  - exists q. split; [constructor|].
    assert (do_transfers o = [fr]) as Eo by (destruct dst; cbn in *; by simplify_eq).
    assert (l' = r_l r) as -> by (destruct dst; cbn in *; by simplify_eq).
    replace (set_r_l (r_l r) r) with r in * by (by destruct r). rewrite Eo in *. cbn [receive_all] in *.
    destruct (muxReceive fr r) as [y r1] eqn:Er. eapply sim_handled; [exact Er| |exact Hsim].
    destruct y as [[e|]|e|pn|]; by simplify_eq.
  - exists q. split; [constructor|]. eapply sim_receiver; [by eapply mux_step_messages|exact Hsim].
  - exists q. split; [constructor|]. eapply sim_receiver; [by apply calls_messages|exact Hsim].
  - destruct Hsim as [Hh Hm Hw Hf (t & Hu & Hd)].
    match goal with E : Receiver.Receive _ _ = _ |- _ =>
      pose proof (receive_max _ _ _ _ _ E) as Em;
      destruct (drains_got _ _ _ _ _ _ _ _ Hd E) as (msg & q' & m0 & rcvr & -> & Ha & -> & Hd') end.
    exists q'. split; [by constructor|]. constructor; try done; [cbn in *; by rewrite Em|]. by exists t.
Qed.

End Steps.

(** ** A link is a queue *)

(** A link that has just been attached: nothing is under way, the receiver is
    registered, and the sender's limit on messages is within the receiver's. *)
Record just_attached (h p : Z) (y : system) : Prop := mkAttached {
  ja_handle : l_handle (s_l (y_s y)) = h;
  ja_max : l_maxMessageSize (r_l (y_r y)) = 0 \/
           0 < l_maxMessageSize (s_l (y_s y)) <= l_maxMessageSize (r_l (y_r y));
  ja_connected : connected h p (y_pph y) (y_pses y);
  ja_empty : y_sst y = SSelect /\ y_outbox y = [] /\ y_wire y = [] /\ y_rxq y = [] /\ r_messages (y_r y) = [];
  ja_idle : idle (y_r y)
}.

(** Nothing is under way between two ends that are up. *)
Definition run_empty (h p : Z) (y : system) : Prop :=
  connected h p (y_pph y) (y_pses y) /\
  y_sst y = SSelect /\ y_outbox y = [] /\ y_wire y = [] /\ y_rxq y = [] /\ r_messages (y_r y) = [].

Lemma attached_simulates h p y : just_attached h p y -> simulates h p y [].
Proof.
  intros [Hh Hm Hc (E1 & E2 & E3 & E4 & E5) Hi]. constructor; rewrite ?E1, ?E2, ?E3; try done.
  exists []. split; [intros _; exists []; by rewrite E3, E1, E2|]. exists (y_r y). rewrite E4, E5. by split_and!.
Qed.

(** C1: the link refines a queue: whatever the interleaving of the two muxes, the
    two sessions, the callers and the other links, what the applications on both
    ends see is a run of a first-in first-out queue.  A message that is received
    is the oldest one that has been sent and not yet been received, whole and
    with its format, sections and tag; nothing is duplicated, reordered or made
    up, also when muxes end or links detach on the way.  And nothing is lost: the
    queue is empty when nothing is under way between two ends that are up.
    Every Send of the system hands over its whole message, and a message that can
    be decoded ([message_ok]): a Send that is cancelled in the middle of a message
    and one of a message that the codec cannot read back are not steps of the
    system, since they break the queue ([cancelled_send_corrupts] of Cancel,
    [broken_message_leaks] of Broken). *)
Theorem link_refines_queue h p peerMax y0 tr y :
  inu 32 h = true -> maxTransferFrameHeader < peerMax < 2 ^ 32 -> just_attached h p y0 ->
  trace (step h p peerMax) y0 tr y ->
  exists q, trace qstep [] tr q /\ (run_empty h p y -> q = []).
Proof.
  intros Hh Hp Ha%attached_simulates Ht.
  enough (exists q, trace qstep [] tr q /\ simulates h p y q) as (q & Hq & [_ _ _ _ (t & Hu & r' & E & Hi & Hf)]).
  { exists q. split; [done|]. intros (Hc & E1 & E2 & E3 & E4 & E5). destruct (Hu Hc) as (u & -> & Hs).
    rewrite E3, (Hs ltac:(by rewrite E1)), E1, E2, E4 in E. cbn in E. simplify_eq. rewrite E5 in Hf.
    by apply Forall2_nil_inv_r in Hf. }
  revert Ha. generalize (@nil Message) as q0. induction Ht as [y|y a y1 tr y2 Hstep _ IH]; intros q0 Hsim.
  - exists q0. split; [constructor|done].
  - destruct (link_step_simulates h p peerMax Hh Hp y a y1 q0 Hstep Hsim) as (q1 & Hq & Hsim1).
    destruct (IH q1 Hsim1) as (q2 & Ht & Hsim2). exists q2. split; [by econstructor|done].
Qed.

(** A link whose sender has credit, attached to a receiver. *)
Definition hello : Message := NewMessage [104; 101; 108; 108; 111].
Definition sample_system : system :=
  mkSystem (on_sl (set_l_availableCredit 5) sample_sender) SSelect [] MuxRunning
    (new_state 0 None (set_b_IncomingWindow 10 sample_begin)) [] MuxRunning
    (mkState (newSession 0 None) {[ 1 := r_l sample_receiver ]} ∅
       (set_mx_links {[ 0 := 1 ]} (newMuxVars sample_begin)) [])
    [] sample_receiver RSelect.

Lemma link_refines_queue_witness :
  trace qstep [] [Sent hello; Got (set_m_rcvr (Some [120])
    (norm_into (identified 1 [0; 0; 0; 0; 0; 0; 0; 7] 0 false) hello))] [].
Proof.
  edestruct (link_refines_queue 0 1 100 sample_system) as (q & Hq & He).
  - reflexivity.
  - by cbn.
  - constructor; [reflexivity|by left|by split|by split_and!|done].
  - eapply (trace_step _ _ (Some (Sent hello))).
    { eapply (s_send _ _ _ _ _ _ _ _ _ _ _ _ _ 0 1 hello sample_bytes 10);
        [reflexivity|reflexivity|exact sample_encodes|split; [|split; [|left]]; by cbn|by cbn|vm_compute; reflexivity]. }
    eapply (trace_step _ _ None); [eapply s_take; [|vm_compute; reflexivity]; by vm_compute|].
    eapply (trace_step _ _ None).
    { eapply s_transfer; [by vm_compute|vm_compute; reflexivity|vm_compute; reflexivity|].
      constructor; [|constructor]. by apply transfer_crosses; vm_compute. }
    eapply (trace_step _ _ None); [eapply s_arrive; vm_compute; reflexivity|].
    eapply (trace_step _ _ None); [eapply s_receive; [done|vm_compute; reflexivity]|].
    eapply (trace_step _ _ (Some (Got _))); [eapply s_got with (ev := Receiver.RcvMessage); vm_compute; reflexivity|].
    apply trace_refl.
  - rewrite He in Hq by (by split_and!). exact Hq.
Defined.

End Fifo.
