(* ===== verification/Sasl.v ===== *)
(** * Sasl: authentication mechanisms (sasl.go)

    A mechanism is configured before the connection is opened and kept in a map
    by its name; what it does when it is selected is part of the connection's
    state machine. *)

From S2P Require Import Prelude Buffer Types Encode Decode Frames.
Import Buffer Encode Decode Frames.

Module Sasl.

Definition saslMechanismPLAIN : bytes := bytes_of_string "PLAIN".
Definition saslMechanismANONYMOUS : bytes := bytes_of_string "ANONYMOUS".
Definition saslMechanismEXTERNAL : bytes := bytes_of_string "EXTERNAL".
Definition saslMechanismXOAUTH2 : bytes := bytes_of_string "XOAUTH2".

Definition CodeSASLOK : Z := 0.

(** saslXOAUTH2Handler; the connection is implicit. *)
Record saslXOAUTH2Handler := mkXOAUTH2 {
  maxFrameSizeOverride : Z;
  response : bytes;
  errorResponse : option bytes
}.

(** A handler in the map, with the variables it closes over. *)
Inductive saslHandler :=
| HPlain (username password : bytes)
| HAnonymous
| HExternal (resp : bytes)
| HXOAUTH2 (s : saslXOAUTH2Handler).

Definition saslHandlers : Type := option (gmap bytes saslHandler).

Definition add_handler (mech : bytes) (h : saslHandler) (hs : saslHandlers) : saslHandlers :=
  Some (<[ mech := h ]> (default ∅ hs)).

(** The loops go over runes; a byte from 0x80 on is part of a rune above 0x7E. *)
Definition saslXOAUTH2InitialResponse (username bearer : bytes) : res bytes :=
  if zlen bearer =? 0 then Err (Errorf "unacceptable bearer token" [])
  else if existsb (fun c => (c <? 0x20) || (c >? 0x7E)) bearer then
    Err (Errorf "unacceptable bearer token" [])
  else if existsb (fun c => c =? 1) username then Err (Errorf "unacceptable username" [])
  else Ok (bytes_of_string "user=" ++ username ++ [1] ++ bytes_of_string "auth=Bearer " ++ bearer ++ [1; 1]).

(** SASLType: a function that configures the handlers of a connection. *)
Definition SASLType : Type := saslHandlers -> res saslHandlers.

Definition SASLTypePlain (username password : bytes) : SASLType := fun hs =>
  Ok (add_handler saslMechanismPLAIN (HPlain username password) hs).
Definition SASLTypeAnonymous : SASLType := fun hs =>
  Ok (add_handler saslMechanismANONYMOUS HAnonymous hs).
Definition SASLTypeExternal (resp : bytes) : SASLType := fun hs =>
  Ok (add_handler saslMechanismEXTERNAL (HExternal resp) hs).
Definition SASLTypeXOAUTH2 (username bearer : bytes) (saslMaxFrameSizeOverride : Z) : SASLType := fun hs =>
  response ← saslXOAUTH2InitialResponse username bearer;
  mret (add_handler saslMechanismXOAUTH2 (HXOAUTH2 (mkXOAUTH2 saslMaxFrameSizeOverride response None)) hs).

(** The saslInit frame of the handlers that go on to the outcome. *)
Definition saslInit_plain (username password : bytes) : SASLInit :=
  mkSASLInit (bytes_of_string "PLAIN") ([0] ++ username ++ [0] ++ password) [].
Definition saslInit_anonymous : SASLInit :=
  mkSASLInit saslMechanismANONYMOUS (bytes_of_string "anonymous") [].
Definition saslInit_external (resp : bytes) : SASLInit := mkSASLInit saslMechanismEXTERNAL resp [].

End Sasl.
