(* ===== verification/Conn.v ===== *)
(** * Conn: the connection (conn.go, and the handlers of sasl.go)

    The connection reads and writes frames, negotiates protocols and
    authentication, opens the AMQP connection and passes frames to sessions.

    The network is what it gives and takes: [cn_net] lists what the coming reads
    return, [cn_netWrites] how the coming writes end (they succeed after the
    list), and [cn_written] is what has been written.  A read after the last
    entry of [cn_net] reports EOF.  Deadlines are not modelled; the time-outs
    they cause are errors of [cn_net]. *)

From S2P Require Import Prelude Bitmap Buffer Types Encode Decode Frames Parsing Link Sasl.
Import Buffer Encode Decode Frames Parsing Errors Link Sasl.

Module Conn.

Definition defaultIdleTimeout : Z := 60 * 1000000000.
Definition defaultMaxFrameSize : Z := 65536.
Definition defaultMaxSessions : Z := 65536.

(** net.ErrClosed *)
Definition ErrClosed : error := Errorf "use of closed network connection" [].
Definition goerr_of (e : error) : goerr := if decide (e = ErrClosed) then ENetClosed else EText e.

(** ConnOptions, without the TLS configuration and the dialer. *)
Record ConnOptions := mkConnOptions {
  co_ContainerID : bytes;
  co_HostName : bytes;
  co_IdleTimeout : Z;
  co_MaxFrameSize : Z;
  co_MaxSessions : Z;
  co_Properties : option (list (bytes * value));
  co_SASLType : option SASLType;
  co_Timeout : Z
}.

(** Conn; [cn_sessionsByChannel] holds pointers to sessions.  The channels that only
    signal are events of the step functions. *)
Record Conn := mkConn {
  cn_connectTimeout : Z;
  cn_tlsNegotiation : bool;
  cn_tlsComplete : bool;
  cn_saslHandlers : saslHandlers;
  cn_saslComplete : bool;
  cn_maxFrameSize : Z;
  cn_channelMax : Z;
  cn_hostname : bytes;
  cn_idleTimeout : Z;
  cn_properties : list (bytes * value);
  cn_containerID : bytes;
  cn_peerIdleTimeout : Z;
  cn_peerMaxFrameSize : Z;
  cn_doneErr : option goerr;
  cn_channels : Bitmap.Bitmap;
  cn_sessionsByChannel : gmap Z Z;
  cn_rxBuf : Buffer;
  cn_rxErr : option goerr;
  cn_txBuf : Buffer;
  cn_txErr : option goerr;
  cn_net : list (bytes * option error);
  cn_netWrites : list (option error);
  cn_written : list bytes
}.

Definition set_cn_connectTimeout (v : Z) (s : Conn) : Conn :=
  match s with mkConn _ x2 x3 x4 x5 x6 x7 x8 x9 x10 x11 x12 x13 x14 x15 x16 x17 x18 x19 x20 x21
    x22 x23 => mkConn v x2 x3 x4 x5 x6 x7 x8 x9 x10 x11 x12 x13 x14 x15 x16 x17 x18 x19 x20 x21
    x22 x23 end.
Definition set_cn_tlsNegotiation (v : bool) (s : Conn) : Conn :=
  match s with mkConn x1 _ x3 x4 x5 x6 x7 x8 x9 x10 x11 x12 x13 x14 x15 x16 x17 x18 x19 x20 x21
    x22 x23 => mkConn x1 v x3 x4 x5 x6 x7 x8 x9 x10 x11 x12 x13 x14 x15 x16 x17 x18 x19 x20 x21
    x22 x23 end.
Definition set_cn_tlsComplete (v : bool) (s : Conn) : Conn :=
  match s with mkConn x1 x2 _ x4 x5 x6 x7 x8 x9 x10 x11 x12 x13 x14 x15 x16 x17 x18 x19 x20 x21
    x22 x23 => mkConn x1 x2 v x4 x5 x6 x7 x8 x9 x10 x11 x12 x13 x14 x15 x16 x17 x18 x19 x20 x21
    x22 x23 end.
Definition set_cn_saslHandlers (v : saslHandlers) (s : Conn) : Conn :=
  match s with mkConn x1 x2 x3 _ x5 x6 x7 x8 x9 x10 x11 x12 x13 x14 x15 x16 x17 x18 x19 x20 x21
    x22 x23 => mkConn x1 x2 x3 v x5 x6 x7 x8 x9 x10 x11 x12 x13 x14 x15 x16 x17 x18 x19 x20 x21
    x22 x23 end.
Definition set_cn_saslComplete (v : bool) (s : Conn) : Conn :=
  match s with mkConn x1 x2 x3 x4 _ x6 x7 x8 x9 x10 x11 x12 x13 x14 x15 x16 x17 x18 x19 x20 x21
    x22 x23 => mkConn x1 x2 x3 x4 v x6 x7 x8 x9 x10 x11 x12 x13 x14 x15 x16 x17 x18 x19 x20 x21
    x22 x23 end.
Definition set_cn_maxFrameSize (v : Z) (s : Conn) : Conn :=
  match s with mkConn x1 x2 x3 x4 x5 _ x7 x8 x9 x10 x11 x12 x13 x14 x15 x16 x17 x18 x19 x20 x21
    x22 x23 => mkConn x1 x2 x3 x4 x5 v x7 x8 x9 x10 x11 x12 x13 x14 x15 x16 x17 x18 x19 x20 x21
    x22 x23 end.
Definition set_cn_channelMax (v : Z) (s : Conn) : Conn :=
  match s with mkConn x1 x2 x3 x4 x5 x6 _ x8 x9 x10 x11 x12 x13 x14 x15 x16 x17 x18 x19 x20 x21
    x22 x23 => mkConn x1 x2 x3 x4 x5 x6 v x8 x9 x10 x11 x12 x13 x14 x15 x16 x17 x18 x19 x20 x21
    x22 x23 end.
Definition set_cn_hostname (v : bytes) (s : Conn) : Conn :=
  match s with mkConn x1 x2 x3 x4 x5 x6 x7 _ x9 x10 x11 x12 x13 x14 x15 x16 x17 x18 x19 x20 x21
    x22 x23 => mkConn x1 x2 x3 x4 x5 x6 x7 v x9 x10 x11 x12 x13 x14 x15 x16 x17 x18 x19 x20 x21
    x22 x23 end.
Definition set_cn_idleTimeout (v : Z) (s : Conn) : Conn :=
  match s with mkConn x1 x2 x3 x4 x5 x6 x7 x8 _ x10 x11 x12 x13 x14 x15 x16 x17 x18 x19 x20 x21
    x22 x23 => mkConn x1 x2 x3 x4 x5 x6 x7 x8 v x10 x11 x12 x13 x14 x15 x16 x17 x18 x19 x20 x21
    x22 x23 end.
Definition set_cn_properties (v : list (bytes * value)) (s : Conn) : Conn :=
  match s with mkConn x1 x2 x3 x4 x5 x6 x7 x8 x9 _ x11 x12 x13 x14 x15 x16 x17 x18 x19 x20 x21
    x22 x23 => mkConn x1 x2 x3 x4 x5 x6 x7 x8 x9 v x11 x12 x13 x14 x15 x16 x17 x18 x19 x20 x21
    x22 x23 end.
Definition set_cn_containerID (v : bytes) (s : Conn) : Conn :=
  match s with mkConn x1 x2 x3 x4 x5 x6 x7 x8 x9 x10 _ x12 x13 x14 x15 x16 x17 x18 x19 x20 x21
    x22 x23 => mkConn x1 x2 x3 x4 x5 x6 x7 x8 x9 x10 v x12 x13 x14 x15 x16 x17 x18 x19 x20 x21
    x22 x23 end.
Definition set_cn_peerIdleTimeout (v : Z) (s : Conn) : Conn :=
  match s with mkConn x1 x2 x3 x4 x5 x6 x7 x8 x9 x10 x11 _ x13 x14 x15 x16 x17 x18 x19 x20 x21
    x22 x23 => mkConn x1 x2 x3 x4 x5 x6 x7 x8 x9 x10 x11 v x13 x14 x15 x16 x17 x18 x19 x20 x21
    x22 x23 end.
Definition set_cn_peerMaxFrameSize (v : Z) (s : Conn) : Conn :=
  match s with mkConn x1 x2 x3 x4 x5 x6 x7 x8 x9 x10 x11 x12 _ x14 x15 x16 x17 x18 x19 x20 x21
    x22 x23 => mkConn x1 x2 x3 x4 x5 x6 x7 x8 x9 x10 x11 x12 v x14 x15 x16 x17 x18 x19 x20 x21
    x22 x23 end.
Definition set_cn_doneErr (v : option goerr) (s : Conn) : Conn :=
  match s with mkConn x1 x2 x3 x4 x5 x6 x7 x8 x9 x10 x11 x12 x13 _ x15 x16 x17 x18 x19 x20 x21
    x22 x23 => mkConn x1 x2 x3 x4 x5 x6 x7 x8 x9 x10 x11 x12 x13 v x15 x16 x17 x18 x19 x20 x21
    x22 x23 end.
Definition set_cn_channels (v : Bitmap.Bitmap) (s : Conn) : Conn :=
  match s with mkConn x1 x2 x3 x4 x5 x6 x7 x8 x9 x10 x11 x12 x13 x14 _ x16 x17 x18 x19 x20 x21
    x22 x23 => mkConn x1 x2 x3 x4 x5 x6 x7 x8 x9 x10 x11 x12 x13 x14 v x16 x17 x18 x19 x20 x21
    x22 x23 end.
Definition set_cn_sessionsByChannel (v : gmap Z Z) (s : Conn) : Conn :=
  match s with mkConn x1 x2 x3 x4 x5 x6 x7 x8 x9 x10 x11 x12 x13 x14 x15 _ x17 x18 x19 x20 x21
    x22 x23 => mkConn x1 x2 x3 x4 x5 x6 x7 x8 x9 x10 x11 x12 x13 x14 x15 v x17 x18 x19 x20 x21
    x22 x23 end.
Definition set_cn_rxBuf (v : Buffer) (s : Conn) : Conn :=
  match s with mkConn x1 x2 x3 x4 x5 x6 x7 x8 x9 x10 x11 x12 x13 x14 x15 x16 _ x18 x19 x20 x21
    x22 x23 => mkConn x1 x2 x3 x4 x5 x6 x7 x8 x9 x10 x11 x12 x13 x14 x15 x16 v x18 x19 x20 x21
    x22 x23 end.
Definition set_cn_rxErr (v : option goerr) (s : Conn) : Conn :=
  match s with mkConn x1 x2 x3 x4 x5 x6 x7 x8 x9 x10 x11 x12 x13 x14 x15 x16 x17 _ x19 x20 x21
    x22 x23 => mkConn x1 x2 x3 x4 x5 x6 x7 x8 x9 x10 x11 x12 x13 x14 x15 x16 x17 v x19 x20 x21
    x22 x23 end.
Definition set_cn_txBuf (v : Buffer) (s : Conn) : Conn :=
  match s with mkConn x1 x2 x3 x4 x5 x6 x7 x8 x9 x10 x11 x12 x13 x14 x15 x16 x17 x18 _ x20 x21
    x22 x23 => mkConn x1 x2 x3 x4 x5 x6 x7 x8 x9 x10 x11 x12 x13 x14 x15 x16 x17 x18 v x20 x21
    x22 x23 end.
Definition set_cn_txErr (v : option goerr) (s : Conn) : Conn :=
  match s with mkConn x1 x2 x3 x4 x5 x6 x7 x8 x9 x10 x11 x12 x13 x14 x15 x16 x17 x18 x19 _ x21
    x22 x23 => mkConn x1 x2 x3 x4 x5 x6 x7 x8 x9 x10 x11 x12 x13 x14 x15 x16 x17 x18 x19 v x21
    x22 x23 end.
Definition set_cn_net (v : list (bytes * option error)) (s : Conn) : Conn :=
  match s with mkConn x1 x2 x3 x4 x5 x6 x7 x8 x9 x10 x11 x12 x13 x14 x15 x16 x17 x18 x19 x20 _
    x22 x23 => mkConn x1 x2 x3 x4 x5 x6 x7 x8 x9 x10 x11 x12 x13 x14 x15 x16 x17 x18 x19 x20 v
    x22 x23 end.
Definition set_cn_netWrites (v : list (option error)) (s : Conn) : Conn :=
  match s with mkConn x1 x2 x3 x4 x5 x6 x7 x8 x9 x10 x11 x12 x13 x14 x15 x16 x17 x18 x19 x20 x21
    _ x23 => mkConn x1 x2 x3 x4 x5 x6 x7 x8 x9 x10 x11 x12 x13 x14 x15 x16 x17 x18 x19 x20 x21 v
    x23 end.
Definition set_cn_written (v : list bytes) (s : Conn) : Conn :=
  match s with mkConn x1 x2 x3 x4 x5 x6 x7 x8 x9 x10 x11 x12 x13 x14 x15 x16 x17 x18 x19 x20 x21
    x22 _ => mkConn x1 x2 x3 x4 x5 x6 x7 x8 x9 x10 x11 x12 x13 x14 x15 x16 x17 x18 x19 x20 x21
    x22 v end.

(** newConn: [containerID] is the random name, [net] the network. *)
Definition newConn (containerID : bytes) (net : list (bytes * option error)) (opts : option ConnOptions)
  : res Conn :=
  let opts := default (mkConnOptions [] [] 0 0 0 None None 0) opts in
  let containerID := if negb (zlen (co_ContainerID opts) =? 0) then co_ContainerID opts else containerID in
  let hostname := co_HostName opts in
  let idleTimeout := if co_IdleTimeout opts >? 0 then co_IdleTimeout opts
                     else if co_IdleTimeout opts <? 0 then 0 else defaultIdleTimeout in
  if (co_MaxFrameSize opts >? 0) && (co_MaxFrameSize opts <? 512) then
    Err (Errorf "invalid MaxFrameSize value %d" [co_MaxFrameSize opts])
  else
    let maxFrameSize := if co_MaxFrameSize opts >? 512 then co_MaxFrameSize opts else defaultMaxFrameSize in
    let channelMax := if co_MaxSessions opts >? 0 then co_MaxSessions opts else defaultMaxSessions - 1 in
    handlers ← match co_SASLType opts with
               | Some t => t None
               | None => mret None
               end;
    let connectTimeout := if co_Timeout opts >? 0 then co_Timeout opts else 0 in
    mret (mkConn connectTimeout false false handlers false maxFrameSize channelMax hostname idleTimeout
            (default [] (co_Properties opts)) containerID 0 defaultMaxFrameSize None (Bitmap.New 0) ∅
            (New []) None (New []) None net [] []).

(** ** The network *)

(** A function of a buffer, on the receive buffer. *)
Definition on_rxBuf {A} (m : M Buffer A) : M Conn A := fun c =>
  let '(x, b) := m (cn_rxBuf c) in (x, set_cn_rxBuf b c).

(** [c.rxBuf.ReadFromOnce(c.net)]: the next of the reads that the network has in
    store; after the last one it is at its end.  The list is finite, so a network
    that delivers for ever is represented by its prefixes only. *)
Definition readNet : M Conn unit := fun c =>
  match cn_net c with
  | [] => (Err EOF, c)
  | (p, err) :: net => on_rxBuf (ReadFromOnce 0 (fun _ => (p, err))) (set_cn_net net c)
  end.

(** [c.net.Write(p)] *)
Definition writeNet (p : bytes) : M Conn unit := fun c =>
  match cn_netWrites c with
  | [] | None :: _ =>
      (Ok tt, set_cn_netWrites (tail (cn_netWrites c)) (set_cn_written (cn_written c ++ [p]) c))
  | Some e :: ws => (Err e, set_cn_netWrites ws c)
  end.

Definition rxLen : M Conn Z := gets (fun c => Len (cn_rxBuf c)).

(** ** Frames *)

Definition HeaderSize : Z := 8.
Definition MaxInt32 : Z := 2 ^ 31 - 1.

(** The rest of an iteration of the loop of readFrame: the header is known. *)
Inductive read_step :=
| ReadMore (h : option Header)
| ReadDone (fr : Frame).

Definition readFrame_body (h : Header) : M Conn read_step :=
  if Size h >? MaxInt32 then errorf "payload too large" []
  else
    let bodySize := u32 (Size h - HeaderSize) in
    n ← rxLen;
    if n <? bodySize then mret (ReadMore (Some h))
    else if bodySize =? 0 then mret (ReadMore None)
    else
      '(b, ok) ← on_rxBuf (Next bodySize);
      if negb ok then errorf "buffer EOF; requested bytes: %d, actual size: %d" [bodySize; n]
      else
        parsedBody ← lift (fst (ParseBody (New b)));
        mret (ReadDone (mkFrame 0 (HChannel h) parsedBody None)).

(** One iteration; [h] is [currentHeader] while [frameInProgress]. *)
Definition readFrame_step (h : option Header) : M Conn read_step :=
  n ← rxLen;
  (if bool_decide (h <> None) || (n <? HeaderSize) then readNet else mret tt);;
  n ← rxLen;
  if n <? HeaderSize then mret (ReadMore h)
  else
    match h with
    | None => h ← on_rxBuf ParseHeader; readFrame_body h
    | Some h => readFrame_body h
    end.

Fixpoint readFrame_loop (fuel : nat) (h : option Header) : M Conn Frame :=
  match fuel with
  | O => lift OutOfFuel
  | S fuel =>
      x ← readFrame_step h;
      match x with
      | ReadMore h => readFrame_loop fuel h
      | ReadDone fr => mret fr
      end
  end.

(** The bytes that are still to be parsed: every iteration uses up one of them
    or one read. *)
Definition pending (c : Conn) : bytes :=
  drop (Z.to_nat (i (cn_rxBuf c))) (b (cn_rxBuf c)) ++ concat (map fst (cn_net c)).
Definition readFrame_fuel (c : Conn) : nat := S (length (cn_net c) + length (pending c)).

Definition readFrame : M Conn Frame :=
  n ← rxLen;
  size ← gets (fun c => i (cn_rxBuf c));
  max ← gets cn_maxFrameSize;
  (if n =? 0 then modify (fun c => set_cn_rxBuf (Reset (cn_rxBuf c)) c)
   else if size >? max then on_rxBuf Reclaim
   else mret tt);;
  fuel ← gets readFrame_fuel;
  readFrame_loop fuel None.

Definition readSingleFrame : M Conn Frame := readFrame.

Definition writeFrame (fr : Frame) : M Conn unit := fun c =>
  match Write fr (Reset (cn_txBuf c)) with
  | (Ok _, buf) =>
      let c := set_cn_txBuf buf c in
      if u64 (Len buf) >? cn_peerMaxFrameSize c then
        (Err (Errorf "%T frame size %d larger than peer's max frame size %d"
                [Len buf; cn_peerMaxFrameSize c]), c)
      else (p ← lift (Bytes buf); writeNet p) c
  | (Err e, buf) => (Err e, set_cn_txBuf buf c)
  | (Panic p, buf) => (Panic p, set_cn_txBuf buf c)
  | (OutOfFuel, buf) => (OutOfFuel, set_cn_txBuf buf c)
  end.

(** ** Establishing the connection *)

Definition protoAMQP : Z := 0.
Definition protoTLS : Z := 2.
Definition protoSASL : Z := 3.

Definition writeProtoHeader (pID : Z) : M Conn unit := writeNet [65; 77; 81; 80; pID; 1; 0; 0].

(** protoHeader *)
Record protoHeader := mkProtoHeader { ProtoID : Z; Major : Z; Minor : Z; Revision : Z }.

Definition protoHeaderSize : Z := 8.

(** The loop that reads until a header is there; every iteration takes a read. *)
Fixpoint readProto_loop (fuel : nat) : M Conn unit :=
  match fuel with
  | O => lift OutOfFuel
  | S fuel =>
      readNet;;
      n ← rxLen;
      if n >=? protoHeaderSize then mret tt else readProto_loop fuel
  end.

Definition parseProtoHeader (buf : bytes) : res protoHeader :=
  if negb (bool_decide (slice buf 0 4 = [65; 77; 81; 80])) then
    Err (Errorf "unexpected protocol %q" (slice buf 0 4))
  else
    let p := mkProtoHeader (nthb buf 4) (nthb buf 5) (nthb buf 6) (nthb buf 7) in
    if negb (Major p =? 1) || negb (Minor p =? 0) || negb (Revision p =? 0) then
      Err (Errorf "unexpected protocol version %d.%d.%d" [Major p; Minor p; Revision p])
    else Ok p.

Definition readProtoHeader : M Conn protoHeader :=
  n ← rxLen;
  fuel ← gets (fun c => S (length (cn_net c)));
  (if n =? 0 then readProto_loop fuel else mret tt);;
  buf ← on_rxBuf (NextOr protoHeaderSize (Errorf "invalid protoHeader" []));
  lift (parseProtoHeader buf).

(** stateFunc: the states, with what they close over. *)
Inductive stateFunc :=
| NegotiateProto
| OpenAMQP
| StartTLS
| NegotiateSASL
| SaslHandler (h : saslHandler)
| SaslOutcome
| XOAUTH2_step (s : saslXOAUTH2Handler).

Definition exchangeProtoHeader (pID : Z) : M Conn (option stateFunc) :=
  writeProtoHeader pID;;
  p ← readProtoHeader;
  if negb (pID =? ProtoID p) then
    errorf "unexpected protocol header %#00x, expected %#00x" [ProtoID p; pID]
  else if pID =? protoAMQP then mret (Some OpenAMQP)
  else if pID =? protoTLS then mret (Some StartTLS)
  else if pID =? protoSASL then mret (Some NegotiateSASL)
  else errorf "unknown protocol ID %#02x" [ProtoID p].

Definition negotiateProto : M Conn (option stateFunc) :=
  c ← gets id;
  if cn_tlsNegotiation c && negb (cn_tlsComplete c) then exchangeProtoHeader protoTLS
  else if bool_decide (cn_saslHandlers c <> None) && negb (cn_saslComplete c)
  then exchangeProtoHeader protoSASL
  else exchangeProtoHeader protoAMQP.

Definition open_frame (c : Conn) : PerformOpen :=
  mkOpen (cn_containerID c) (cn_hostname c) (cn_maxFrameSize c) (cn_channelMax c)
    (Z.quot (cn_idleTimeout c) 2) [] [] [] [] (cn_properties c).

Definition open_accept (o : PerformOpen) (c : Conn) : Conn :=
  let c := if o_MaxFrameSize o >? 0 then set_cn_peerMaxFrameSize (o_MaxFrameSize o) c else c in
  let c := if o_IdleTimeout o >? 0 then set_cn_peerIdleTimeout (o_IdleTimeout o) c else c in
  if o_ChannelMax o <? cn_channelMax c then set_cn_channelMax (o_ChannelMax o) c else c.

Definition openAMQP : M Conn (option stateFunc) :=
  open ← gets open_frame;
  writeFrame (mkFrame TypeAMQP 0 (FOpen open) None);;
  fr ← readSingleFrame;
  match Body fr with
  | FOpen o => modify (open_accept o);; mret None
  | _ => errorf "openAMQP: unexpected frame type %T" []
  end.

Fixpoint first_match (handlers : gmap bytes saslHandler) (mechs : list bytes) : option saslHandler :=
  match mechs with
  | [] => None
  | mech :: mechs =>
      match handlers !! mech with
      | Some h => Some h
      | None => first_match handlers mechs
      end
  end.

Definition negotiateSASL : M Conn (option stateFunc) :=
  fr ← readSingleFrame;
  match Body fr with
  | FSASLMechanisms sm =>
      handlers ← gets (fun c => default ∅ (cn_saslHandlers c));
      match first_match handlers (sm_Mechanisms sm) with
      | Some h => mret (Some (SaslHandler h))
      | None => errorf "no supported auth mechanism (%v)" []
      end
  | _ => errorf "negotiateSASL: unexpected frame type %T" []
  end.

Definition saslOutcome : M Conn (option stateFunc) :=
  fr ← readSingleFrame;
  match Body fr with
  | FSASLOutcome so =>
      if negb (so_Code so =? CodeSASLOK) then
        errorf "SASL PLAIN auth failed with code %#00x: %s" [so_Code so]
      else modify (set_cn_saslComplete true);; mret (Some NegotiateProto)
  | _ => errorf "saslOutcome: unexpected frame type %T" []
  end.

Definition sasl_frame (b : FrameBody) : Frame := mkFrame TypeSASL 0 b None.

Definition XOAUTH2_init (s : saslXOAUTH2Handler) : M Conn (option stateFunc) := fun c =>
  let original := cn_peerMaxFrameSize c in
  let c := if maxFrameSizeOverride s >? original
           then set_cn_peerMaxFrameSize (maxFrameSizeOverride s) c else c in
  let '(x, c) :=
    writeFrame (sasl_frame (FSASLInit (mkSASLInit saslMechanismXOAUTH2 (response s) []))) c in
  ((_ ← x; mret (Some (XOAUTH2_step s))), set_cn_peerMaxFrameSize original c).

Definition XOAUTH2_next (s : saslXOAUTH2Handler) : M Conn (option stateFunc) :=
  fr ← readFrame;
  match Body fr with
  | FSASLOutcome v =>
      if negb (so_Code v =? CodeSASLOK) then
        errorf "SASL XOAUTH2 auth failed with code %#00x: %s : %s" [so_Code v]
      else modify (set_cn_saslComplete true);; mret (Some NegotiateProto)
  | FSASLChallenge v =>
      match errorResponse s with
      | None =>
          writeFrame (sasl_frame (FSASLResponse (mkSASLResponse [])));;
          mret (Some (XOAUTH2_step (mkXOAUTH2 (maxFrameSizeOverride s) (response s) (Some (sc_Challenge v)))))
      | Some _ => errorf "SASL XOAUTH2 unexpected additional error response received during exchange" []
      end
  | _ => errorf "sasl: unexpected frame type %T" []
  end.

(** The functions in the map of handlers. *)
Definition plain_handler (username password : bytes) : M Conn (option stateFunc) :=
  writeFrame (sasl_frame (FSASLInit (saslInit_plain username password)));; mret (Some SaslOutcome).
Definition anonymous_handler : M Conn (option stateFunc) :=
  writeFrame (sasl_frame (FSASLInit saslInit_anonymous));; mret (Some SaslOutcome).
Definition external_handler (resp : bytes) : M Conn (option stateFunc) :=
  writeFrame (sasl_frame (FSASLInit (saslInit_external resp)));; mret (Some SaslOutcome).

Definition run_handler (h : saslHandler) : M Conn (option stateFunc) :=
  match h with
  | HPlain username password => plain_handler username password
  | HAnonymous => anonymous_handler
  | HExternal resp => external_handler resp
  | HXOAUTH2 s => XOAUTH2_init s
  end.

(** The TLS handshake belongs to crypto/tls: it ends with an error or gives the
    network that replaces the old one. *)
Section Handshake.
Context (handshake : list (bytes * option error) -> res (list (bytes * option error))).

Definition startTLS : M Conn (option stateFunc) :=
  net ← gets cn_net;
  net ← lift (handshake net);
  modify (set_cn_net net);;
  modify (set_cn_tlsComplete true);;
  mret (Some NegotiateProto).

Definition run_state (st : stateFunc) : M Conn (option stateFunc) :=
  match st with
  | NegotiateProto => negotiateProto
  | OpenAMQP => openAMQP
  | StartTLS => startTLS
  | NegotiateSASL => negotiateSASL
  | SaslHandler h => run_handler h
  | SaslOutcome => saslOutcome
  | XOAUTH2_step s => XOAUTH2_next s
  end.

Fixpoint start_loop (fuel : nat) (st : option stateFunc) : M Conn unit :=
  match st with
  | None => mret tt
  | Some st =>
      match fuel with
      | O => lift OutOfFuel
      | S fuel => st ← run_state st; start_loop fuel st
      end
  end.

(** TLS, SASL and AMQP take three states each at most; XOAUTH2 one more step
    after a challenge. *)
Definition start_fuel : nat := 10.

Definition start : M Conn unit :=
  start_loop start_fuel (Some NegotiateProto);;
  modify (fun c => set_cn_channels (Bitmap.New (cn_channelMax c)) c).

End Handshake.

(** ** Sessions *)

(** newSession: the channel of the session, whose pointer is [p]. *)
Definition newSession (p : Z) : M Conn Z :=
  channels ← gets cn_channels;
  match Bitmap.Next channels with
  | (channel, true, channels) =>
      modify (set_cn_channels channels);;
      modify (fun c => set_cn_sessionsByChannel (<[ u16 channel := p ]> (cn_sessionsByChannel c)) c);;
      mret (u16 channel)
  | (_, false, channels) =>
      modify (set_cn_channels channels);;
      channelMax ← gets cn_channelMax;
      errorf "reached connection channel max (%d)" [channelMax]
  end.

Definition deleteSession (channel : Z) : M Conn unit :=
  modify (fun c => set_cn_sessionsByChannel (delete channel (cn_sessionsByChannel c)) c);;
  modify (fun c => set_cn_channels (Bitmap.Remove (cn_channels c) channel) c).

(** ** connReader *)

(** What the reader does with a frame: stop, fail, or pass it to a session. *)
Inductive rx_action :=
| RxReturn
| RxErr (e : goerr)
| RxToSession (p : Z) (fr : Frame).

(** [byRemote] is sessionsByRemoteChannel; the number that is stored in the
    session itself is not read by anything. *)
Definition connReader_dispatch (fr : Frame) (byRemote : gmap Z Z) (c : Conn) : rx_action * gmap Z Z :=
  match Body fr with
  | FClose cl =>
      match c_Error cl with
      | None => (RxReturn, byRemote)
      | Some e => (RxErr (EAmqp e), byRemote)
      end
  | FBegin b =>
      match b_RemoteChannel b with
      | None => (RxErr (ErrorText "%T: nil RemoteChannel" []), byRemote)
      | Some ch =>
          match cn_sessionsByChannel c !! ch with
          | None => (RxErr (ErrorText "unexpected remote channel number %d" [ch]), byRemote)
          | Some p => (RxToSession p fr, <[ Channel fr := p ]> byRemote)
          end
      end
  | FEnd _ =>
      match byRemote !! Channel fr with
      | None => (RxErr (ErrorText "%T: didn't find channel %d in sessionsByRemoteChannel (PerformEnd)"
                          [Channel fr]), byRemote)
      | Some p => (RxToSession p fr, delete (Channel fr) byRemote)
      end
  | _ =>
      match byRemote !! Channel fr with
      | None => (RxErr (ErrorText "%T: didn't find channel %d in sessionsByRemoteChannel"
                          [Channel fr]), byRemote)
      | Some p => (RxToSession p fr, byRemote)
      end
  end.

(** One iteration: [None] when the reader has returned.  [taken] says whether
    the session takes the frame before the connection is told to exit. *)
Definition connReader_step (taken : bool) (byRemote : gmap Z Z) (c : Conn)
  : res (option (Z * Frame * gmap Z Z)) * Conn :=
  match readFrame c with
  | (Ok fr, c) =>
      match connReader_dispatch fr byRemote c with
      | (RxReturn, _) => (Ok None, c)
      | (RxErr e, _) => (Ok None, set_cn_rxErr (Some e) c)
      | (RxToSession p fr, byRemote) => (Ok (if taken then Some (p, fr, byRemote) else None), c)
      end
  | (Err e, c) => (Ok None, set_cn_rxErr (Some (goerr_of e)) c)
  | (Panic p, c) => (Panic p, c)
  | (OutOfFuel, c) => (OutOfFuel, c)
  end.

(** The loop, one iteration for every element of [taken]: the frames that the
    sessions got, and whether the reader still runs. *)
Fixpoint connReader_loop (taken : list bool) (byRemote : gmap Z Z) (c : Conn)
  : res (list (Z * Frame) * bool) * Conn :=
  match taken with
  | [] => (Ok ([], true), c)
  | t :: taken =>
      match connReader_step t byRemote c with
      | (Ok (Some (p, fr, byRemote)), c) =>
          match connReader_loop taken byRemote c with
          | (Ok (out, run), c) => (Ok ((p, fr) :: out, run), c)
          | x => x
          end
      | (Ok None, c) => (Ok ([], false), c)
      | (Err e, c) => (Err e, c)
      | (Panic p, c) => (Panic p, c)
      | (OutOfFuel, c) => (OutOfFuel, c)
      end
  end.

Definition connReader (taken : list bool) (c : Conn) : res (list (Z * Frame) * bool) * Conn :=
  connReader_loop taken ∅ c.

(** ** connWriter *)

Definition keepaliveFrame : bytes := [0; 0; 0; 8; 2; 0; 0; 0].

Definition keepaliveInterval (c : Conn) : Z := Z.quot (cn_peerIdleTimeout c) 2.

Inductive tx_event :=
| TxFrame (fr : Frame)
| TxKeepalive
| TxExit.

(** One iteration: whether the writer goes on, and the Done channel it closes. *)
Definition connWriter_step (ev : tx_event) (c : Conn) : res (bool * option Z) * Conn :=
  let finish (x : res unit * Conn) (done : option Z) : res (bool * option Z) * Conn :=
    match x with
    | (Ok _, c) => (Ok (true, done), c)
    | (Err e, c) => (Ok (false, None), set_cn_txErr (Some (goerr_of e)) c)
    | (Panic p, c) => (Panic p, c)
    | (OutOfFuel, c) => (OutOfFuel, c)
    end in
  match ev with
  | TxFrame fr => finish (writeFrame fr c) (Done fr)
  | TxKeepalive =>
      if keepaliveInterval c >? 0 then finish (writeNet keepaliveFrame c) None
      else (Ok (true, None), c)
  | TxExit =>
      match writeFrame (mkFrame TypeAMQP 0 (FClose (mkClose None)) None) c with
      | (Ok _, c) => (Ok (false, None), set_cn_txErr None c)
      | (Err e, c) => (Ok (false, None), set_cn_txErr (Some (goerr_of e)) c)
      | (Panic p, c) => (Panic p, c)
      | (OutOfFuel, c) => (OutOfFuel, c)
      end
  end.

(** The loop: whether the writer still runs, and the Done channels it closed. *)
Fixpoint connWriter_loop (evs : list tx_event) (c : Conn) : res (bool * list Z) * Conn :=
  match evs with
  | [] => (Ok (true, []), c)
  | ev :: evs =>
      match connWriter_step ev c with
      | (Ok (true, done), c) =>
          match connWriter_loop evs c with
          | (Ok (run, dones), c) => (Ok (run, option_list done ++ dones), c)
          | x => x
          end
      | (Ok (false, done), c) => (Ok (false, option_list done), c)
      | (Err e, c) => (Err e, c)
      | (Panic p, c) => (Panic p, c)
      | (OutOfFuel, c) => (OutOfFuel, c)
      end
  end.

(** The write timeout is for the negotiation only. *)
Definition connWriter_start (c : Conn) : Conn :=
  if negb (cn_connectTimeout c =? 0) then set_cn_connectTimeout 0 c else c.

Definition connWriter (evs : list tx_event) (c : Conn) : res (bool * list Z) * Conn :=
  connWriter_loop evs (connWriter_start c).

(** sendFrame: the writer takes the frame, or the connection is done. *)
Definition sendFrame (taken : bool) (fr : Frame) (c : Conn) : option goerr * list tx_event :=
  if taken then (None, [TxFrame fr]) else (cn_doneErr c, []).

(** ** Closing *)

(** close, once the reader and the writer are done; [closeErr] is what closing
    the network returned. *)
Definition close (closeErr : option goerr) (c : Conn) : Conn :=
  let c := match cn_rxErr c with Some ENetClosed => set_cn_rxErr None c | _ => c end in
  let doneErr :=
    match cn_txErr c, cn_rxErr c, closeErr with
    | None, None, None => EConn None None
    | _, Some (EAmqp e), _ => EConn (Some e) None
    | _, Some EAmqpNil, _ => EConn None None
    | Some e, _, _ => EConn None (Some e)
    | None, Some e, _ => EConn None (Some e)
    | None, None, e => EConn None e
    end in
  set_cn_doneErr (Some doneErr) c.

Definition Close_result (c : Conn) : option goerr :=
  match cn_doneErr c with
  | Some (EConn None None) => None
  | e => e
  end.

End Conn.
