(* ===== verification/ConnSpec.v ===== *)
(** * ConnSpec: properties of the connection

    Frames are read back from any split of the byte stream, and reading always
    ends. *)

From S2P Require Import Prelude Bitmap Buffer Types Encode Decode CodecSafety Wire CodecRoundtrip FieldRoundtrip Frames Parsing FrameRoundtrip Link Sasl Conn.
Import Buffer Encode Decode CodecSafety Wire CodecRoundtrip FieldRoundtrip Frames Parsing FrameRoundtrip
  Errors Link Sasl Conn.

Module ConnSpec.

(** ** Reading frames *)

(** The connection [c] with the receive buffer and the network replaced. *)
Definition io (c : Conn) (pre un : bytes) (net : list (bytes * option error)) : Conn :=
  set_cn_net net (set_cn_rxBuf (at_ pre un) c).

Lemma io_eta c pre un net : cn_rxBuf c = at_ pre un -> cn_net c = net -> c = io c pre un net.
Proof. intros H <-. unfold io. rewrite <- H. by destruct c. Qed.

(** Reads without errors. *)
Definition chunks (ps : list bytes) : list (bytes * option error) := map (fun p => (p, None)) ps.

Lemma rxLen_io c pre un net : rxLen (io c pre un net) = (Ok (zlen un), io c pre un net).
Proof. unfold rxLen, gets, io. destruct c. cbn -[Len at_]. by rewrite Len_at. Qed.

Lemma readNet_io c pre un p net :
  readNet (io c pre un ((p, None) :: net)) = (Ok tt, io c pre (un ++ p) net).
Proof. destruct c. cbn. unfold io, at_. cbn. by rewrite <- app_assoc. Qed.

Lemma readNet_err c pre un p e net :
  readNet (io c pre un ((p, Some e) :: net)) = (Err e, io c pre (un ++ p) net).
Proof. destruct c. cbn. unfold io, at_. cbn. by rewrite <- app_assoc. Qed.
Lemma readNet_eof c pre un : readNet (io c pre un []) = (Err EOF, io c pre un []).
Proof. by destruct c. Qed.

Lemma on_rxBuf_io {A} (m : M Buffer A) x c pre un net pre' un' :
  m (at_ pre un) = (x, at_ pre' un') -> on_rxBuf m (io c pre un net) = (x, io c pre' un' net).
Proof. intros E. destruct c. unfold on_rxBuf, io. cbn -[at_]. by rewrite E. Qed.

(** A list that is at least as long as a prefix starts with it. *)
Lemma app_eq_split (l1 l2 a b : bytes) :
  l1 ++ l2 = a ++ b -> zlen a <= zlen l1 -> exists x, l1 = a ++ x /\ x ++ l2 = b.
Proof.
  intros E Hl. exists (drop (length a) l1).
  assert (a = take (length a) l1) as Ea.
  { rewrite <- (take_app_length a b) at 1. rewrite <- E. apply take_app_le. unfold zlen in Hl. lia. }
  rewrite Ea at 1. rewrite take_drop. split; [done|]. apply (app_inv_head a). rewrite <- E, app_assoc.
  rewrite Ea at 1. by rewrite take_drop.
Qed.

(** The frame [fb] on the channel of [h], whose body is [body]. *)
Section OneFrame.
Context (h : Header) (body : bytes) (fb : FrameBody).
Context (Hsize : Size h = 8 + zlen body) (Hmax : 8 + zlen body <= MaxInt32) (Hpos : 0 < zlen body).
Context (Hparse : fst (ParseBody (New body)) = Ok fb).

Definition the_frame : Frame := mkFrame 0 (HChannel h) fb None.

Lemma body_size : u32 (Size h - Conn.HeaderSize) = zlen body.
Proof. rewrite Hsize. unfold Conn.HeaderSize, MaxInt32 in *. rewrite u32_small by (split; lia). lia. Qed.

Lemma readFrame_body_waits c pre un net :
  zlen un < zlen body ->
  readFrame_body h (io c pre un net) = (Ok (ReadMore (Some h)), io c pre un net).
Proof.
  intros Hu. unfold readFrame_body. replace (Size h >? MaxInt32) with false by lia.
  rewrite body_size. erewrite bind_Ok by apply rxLen_io. by replace (zlen un <? zlen body) with true by lia.
Qed.

Lemma readFrame_body_done c pre un net :
  readFrame_body h (io c pre (body ++ un) net) = (Ok (ReadDone the_frame), io c (pre ++ body) un net).
Proof.
  unfold readFrame_body. replace (Size h >? MaxInt32) with false by lia.
  rewrite body_size. erewrite bind_Ok by apply rxLen_io. rewrite zlen_app. pose proof (zlen_nonneg un).
  replace (_ <? zlen body) with false by lia. replace (zlen body =? 0) with false by lia.
  erewrite bind_Ok by by apply on_rxBuf_io, Next_at. cbn [negb].
  unfold mbind at 1, M_bind at 1, lift. by rewrite Hparse.
Qed.

(** The header has been parsed and the body is still incomplete, or complete but
    shorter than a header: more chunks are read until the body and eight bytes
    are there. *)
Lemma readFrame_in_progress c rest tl :
  8 <= zlen (body ++ rest) -> forall ps pre un fuel,
  un ++ concat ps = body ++ rest -> zlen un < Z.max 8 (zlen body) -> (length ps <= fuel)%nat ->
  exists pre' un' ps', readFrame_loop fuel (Some h) (io c pre un (chunks ps ++ tl))
    = (Ok the_frame, io c pre' un' (chunks ps' ++ tl)) /\ un' ++ concat ps' = rest /\ ps' `suffix_of` ps.
Proof.
  intros H8. induction ps as [|p ps IH]; intros pre un fuel E Hu Hf.
  { cbn in E. rewrite app_nil_r in E. subst un. rewrite zlen_app in *. pose proof (zlen_nonneg rest). lia. }
  destruct fuel as [|fuel]; [cbn in Hf; lia|]. cbn [length] in Hf. cbn [concat] in E. rewrite app_assoc in E.
  assert (readFrame_step (Some h) (io c pre un (chunks (p :: ps) ++ tl))
    = if zlen (un ++ p) <? 8 then (Ok (ReadMore (Some h)), io c pre (un ++ p) (chunks ps ++ tl))
      else readFrame_body h (io c pre (un ++ p) (chunks ps ++ tl))) as Es.
  { unfold readFrame_step. erewrite bind_Ok by apply rxLen_io. rewrite bool_decide_true by done. cbn [orb].
    erewrite bind_Ok by apply readNet_io. erewrite bind_Ok by apply rxLen_io.
    change Conn.HeaderSize with 8. by destruct (zlen (un ++ p) <? 8). }
  cbn [readFrame_loop]. unfold mbind, M_bind. rewrite Es.
  destruct (decide (zlen (un ++ p) < Z.max 8 (zlen body))) as [Hlt|Hge].
  - destruct (IH pre (un ++ p) fuel E Hlt ltac:(lia)) as (pre' & un' & ps' & E' & Er & Hs).
    exists pre', un', ps'. split_and!; [|done|by apply suffix_cons_r]. destruct (_ <? 8) eqn:E8; [done|].
    rewrite readFrame_body_waits; [done|lia].
  - replace (_ <? 8) with false by lia.
    destruct (app_eq_split (un ++ p) (concat ps) body rest E ltac:(lia)) as (x & Ex & Er). rewrite Ex.
    rewrite readFrame_body_done. eexists _, x, ps. split_and!; [done|done|by apply suffix_cons_r].
Qed.

End OneFrame.

(** When readFrame recognises a frame: its body and what follows it have at least
    eight bytes, or the last read of the network brings all of this together
    with the end of the header. *)
Definition arrives (body rest : bytes) (ps : list bytes) : Prop :=
  8 <= zlen (body ++ rest) \/
  match last ps with Some p => zlen (body ++ rest) < zlen p | None => True end.

Lemma last_suffix {A} (ps' ps : list A) : ps' `suffix_of` ps -> ps' = [] \/ last ps' = last ps.
Proof.
  intros [q ->]. destruct ps' as [|x ps']; [by left|right]. by rewrite last_app_cons.
Qed.

Lemma arrives_suffix body rest ps ps' : ps' `suffix_of` ps -> arrives body rest ps -> arrives body rest ps'.
Proof. unfold arrives. intros [-> | ->]%last_suffix [H|H]; auto; by right. Qed.

(** A frame of which a part is still to be read has eight bytes. *)
Lemma arrives_partial body rest ps un :
  arrives body rest ps -> un ++ concat ps = body ++ rest -> zlen un < zlen body -> 8 <= zlen (body ++ rest).
Proof.
  intros [H|H] E Hu; [done|]. exfalso. destruct ps as [|p0 ps] using rev_ind.
  - cbn in E. rewrite app_nil_r in E. subst un. rewrite zlen_app in Hu. pose proof (zlen_nonneg rest). lia.
  - rewrite last_snoc in H. rewrite <- E, concat_app in H. cbn in H. rewrite app_nil_r, !zlen_app in H.
    pose proof (zlen_nonneg un). pose proof (zlen_nonneg (concat ps)). lia.
Qed.

(** A stream of [k] keepalives, a frame and what follows. *)
Section Stream.
Context (type_ ch : Z) (body rest : bytes) (fb : FrameBody).
Context (Htype : is_u 8 type_) (Hch : is_u 16 ch).
Context (H8 : 0 < zlen body) (Hmax : 8 + zlen body <= MaxInt32).
Context (Hparse : fst (ParseBody (New body)) = Ok fb).

Definition stream (k : nat) : bytes :=
  concat (replicate k keepaliveFrame) ++ header_bytes type_ ch (zlen body) ++ body ++ rest.

Definition hdr : Header := mkHeader (8 + zlen body) 2 type_ ch.

Lemma stream_long k : 8 < zlen (stream k).
Proof.
  unfold stream. rewrite !zlen_app. change (zlen (header_bytes _ _ _)) with 8. pose_zlen. lia.
Qed.

(** A header is in the buffer. *)
Inductive header_step (c : Conn) (ps : list bytes) tl : nat -> res read_step * Conn -> Prop :=
| hs_keepalive k pre un :
    un ++ concat ps = stream k ->
    header_step c ps tl (S k) (Ok (ReadMore None), io c pre un (chunks ps ++ tl))
| hs_partial pre un :
    un ++ concat ps = body ++ rest -> zlen un < zlen body ->
    header_step c ps tl 0 (Ok (ReadMore (Some hdr)), io c pre un (chunks ps ++ tl))
| hs_frame pre un :
    un ++ concat ps = rest ->
    header_step c ps tl 0 (Ok (ReadDone (the_frame hdr fb)), io c pre un (chunks ps ++ tl)).

Lemma readFrame_header c pre un ps tl k :
  un ++ concat ps = stream k -> 8 <= zlen un ->
  header_step c ps tl k ((h ← on_rxBuf ParseHeader; readFrame_body h) (io c pre un (chunks ps ++ tl))).
Proof.
  intros E Hu. unfold MaxInt32 in Hmax. destruct k as [|k].
  - change (stream 0) with (header_bytes type_ ch (zlen body) ++ body ++ rest) in E.
    destruct (app_eq_split _ _ _ _ E Hu) as (x & -> & Ex).
    erewrite bind_Ok by (apply on_rxBuf_io, ParseHeader_header; try done; lia).
    change (mkHeader _ _ _ _) with hdr. destruct (decide (zlen x < zlen body)) as [Hlt|Hge].
    + rewrite (readFrame_body_waits hdr body) by (try done; unfold MaxInt32; lia). by constructor.
    + destruct (app_eq_split _ _ _ _ Ex ltac:(lia)) as (y & -> & Ey).
      rewrite (readFrame_body_done hdr body fb) by (try done; unfold MaxInt32; lia). by constructor.
  - change (stream (S k)) with (keepaliveFrame ++ stream k) in E.
    destruct (app_eq_split _ _ _ _ E Hu) as (x & -> & Ex).
    erewrite bind_Ok by (apply on_rxBuf_io, (ParseHeader_header 0 0 0); done).
    unfold readFrame_body. change (Size _ >? MaxInt32) with false. cbv zeta iota. erewrite bind_Ok by apply rxLen_io.
    pose proof (zlen_nonneg x). change (u32 _) with 0. replace (zlen x <? 0) with false by lia. by constructor.
Qed.

(** The rest of the loop after an iteration. *)
Definition readFrame_after (fuel : nat) (x : res read_step * Conn) : res Frame * Conn :=
  match x with
  | (Ok (ReadMore h), c) => readFrame_loop fuel h c
  | (Ok (ReadDone fr), c) => (Ok fr, c)
  | (Err e, c) => (Err e, c)
  | (Panic p, c) => (Panic p, c)
  | (OutOfFuel, c) => (OutOfFuel, c)
  end.

Lemma readFrame_loop_S fuel h c :
  readFrame_loop (S fuel) h c = readFrame_after fuel (readFrame_step h c).
Proof.
  cbn [readFrame_loop]. unfold mbind, M_bind. by destruct (readFrame_step h c) as [[[]|e|p|] c'].
Qed.

Lemma readFrame_skips c tl fuel : forall k ps pre un,
  un ++ concat ps = stream k -> arrives body rest ps -> (length ps + length (un ++ concat ps) < fuel)%nat ->
  exists pre' un' ps', readFrame_loop fuel None (io c pre un (chunks ps ++ tl))
    = (Ok (the_frame hdr fb), io c pre' un' (chunks ps' ++ tl)) /\ un' ++ concat ps' = rest /\ ps' `suffix_of` ps.
Proof.
  induction fuel as [|fuel IH]; intros k ps pre un E Ha Hf; [lia|].
  (* once a header is in the buffer *)
  assert (forall ps un, un ++ concat ps = stream k -> arrives body rest ps -> 8 <= zlen un ->
    (length ps + length (un ++ concat ps) < S fuel)%nat ->
    exists pre' un' ps', readFrame_after fuel
      ((h ← on_rxBuf ParseHeader; readFrame_body h) (io c pre un (chunks ps ++ tl)))
      = (Ok (the_frame hdr fb), io c pre' un' (chunks ps' ++ tl)) /\ un' ++ concat ps' = rest /\
        ps' `suffix_of` ps) as Hgo.
  { clear E Ha Hf ps un. intros ps un E Ha Hu Hf. rewrite E in Hf.
    destruct (readFrame_header c pre un ps tl k E Hu) as [k pre' un' E'|pre' un' E' Hlt|pre' un' E']; cbn [readFrame_after].
    - apply (IH k); [done|done|]. rewrite E'. change (stream (S k)) with (keepaliveFrame ++ stream k) in Hf.
      rewrite length_app in Hf. cbn in Hf. lia.
    - pose proof (arrives_partial _ _ _ _ Ha E' Hlt).
      apply (readFrame_in_progress hdr body fb); try done; unfold MaxInt32 in *; lia.
    - by eexists _, un', ps. }
  rewrite readFrame_loop_S. unfold readFrame_step. erewrite bind_Ok by apply rxLen_io.
  rewrite bool_decide_false by auto. cbn [orb]. change Conn.HeaderSize with 8.
  destruct (zlen un <? 8) eqn:Hu.
  - destruct ps as [|p ps].
    { pose proof (stream_long k). rewrite <- E in *. cbn in *. rewrite app_nil_r in *. lia. }
    erewrite bind_Ok by apply readNet_io. erewrite bind_Ok by apply rxLen_io.
    assert (ps `suffix_of` p :: ps) as Hsuf by (by apply suffix_cons_r).
    apply (arrives_suffix _ _ _ _ Hsuf) in Ha. cbn [concat length] in *. rewrite app_assoc in *.
    destruct (zlen (un ++ p) <? 8) eqn:Hp.
    + destruct (IH k ps pre (un ++ p) E Ha ltac:(lia)) as (pre' & un' & ps' & E1 & E2 & Hs).
      exists pre', un', ps'. split_and!; [done|done|by etrans].
    + destruct (Hgo ps (un ++ p) E Ha ltac:(lia) ltac:(lia)) as (pre' & un' & ps' & E1 & E2 & Hs).
      exists pre', un', ps'. split_and!; [done|done|by etrans].
  - erewrite bind_Ok by reflexivity. erewrite bind_Ok by apply rxLen_io. rewrite Hu. apply Hgo; [done|done|lia|lia].
Qed.

End Stream.

(** Before the loop the buffer is emptied, compacted or left alone: the unread
    bytes stay. *)
Lemma readFrame_start c pre un net :
  exists pre' fuel, readFrame (io c pre un net) = readFrame_loop fuel None (io c pre' un net) /\
    fuel = S (length net + length (un ++ concat (map fst net))) /\ (pre' = [] \/ pre' = pre).
Proof.
  assert (forall pre, readFrame_fuel (io c pre un net) = S (length net + length (un ++ concat (map fst net)))) as Hfuel.
  { intros q. unfold readFrame_fuel, pending, io. destruct c. cbn. unfold at_. cbn. unfold zlen.
    by rewrite Nat2Z.id, drop_app_length. }
  unfold readFrame. erewrite bind_Ok by apply rxLen_io. erewrite bind_Ok by reflexivity.
  erewrite bind_Ok by reflexivity. destruct (zlen un =? 0) eqn:E.
  - assert (un = []) as -> by (destruct un; [done|]; zlia).
    exists [], (S (length net + length ([] ++ concat (map fst net)))). split; [|split; [done|by left]].
    rewrite <- (Hfuel []). destruct c. reflexivity.
  - destruct (_ >? _).
    + exists [], (S (length net + length (un ++ concat (map fst net)))). split; [|split; [done|by left]].
      erewrite bind_Ok by apply on_rxBuf_io, Reclaim_at. rewrite <- (Hfuel []). done.
    + exists pre, (S (length net + length (un ++ concat (map fst net)))). split; [|split; [done|by right]].
      rewrite <- (Hfuel pre). done.
Qed.

Lemma readFrame_io c pre un ps tl k type_ ch body rest fb :
  un ++ concat ps = concat (replicate k keepaliveFrame) ++ header_bytes type_ ch (zlen body) ++ body ++ rest ->
  is_u 8 type_ -> is_u 16 ch -> 0 < zlen body -> 8 + zlen body <= MaxInt32 -> arrives body rest ps ->
  fst (ParseBody (New body)) = Ok fb ->
  exists pre' un' ps', readFrame (io c pre un (chunks ps ++ tl))
    = (Ok (mkFrame 0 ch fb None), io c pre' un' (chunks ps' ++ tl)) /\ un' ++ concat ps' = rest /\
      ps' `suffix_of` ps.
Proof.
  intros E Ht Hc H8 Hm Ha Hp.
  destruct (readFrame_start c pre un (chunks ps ++ tl)) as (pre1 & fuel & -> & Hf & _).
  destruct (readFrame_skips type_ ch body rest fb Ht Hc H8 Hm Hp c tl fuel k ps pre1 un E Ha)
    as (pre' & un' & ps' & -> & Er & Hs); [|by exists pre', un', ps'].
  rewrite Hf, !length_app, map_app, concat_app, length_app. unfold chunks. rewrite length_map, map_map, map_id. lia.
Qed.

Lemma readFrame_split c pre un ps tl k type_ ch body rest fb :
  cn_rxBuf c = at_ pre un -> cn_net c = chunks ps ++ tl ->
  un ++ concat ps = concat (replicate k keepaliveFrame) ++ header_bytes type_ ch (zlen body) ++ body ++ rest ->
  is_u 8 type_ -> is_u 16 ch -> 0 < zlen body -> 8 + zlen body <= MaxInt32 -> arrives body rest ps ->
  fst (ParseBody (New body)) = Ok fb ->
  exists pre' un' ps' c', readFrame c = (Ok (mkFrame 0 ch fb None), c') /\
    cn_rxBuf c' = at_ pre' un' /\ cn_net c' = chunks ps' ++ tl /\ un' ++ concat ps' = rest.
Proof.
  intros Hb Hn E Ht Hc H8 Hm Ha Hp. rewrite (io_eta c pre un _ Hb Hn).
  destruct (readFrame_io c pre un ps tl k type_ ch body rest fb) as (pre' & un' & ps' & -> & Er & _); try done.
  eexists pre', un', ps', _. split; [reflexivity|]. split; [|split; [|done]]; by destruct c.
Qed.

(** C8: a frame is read whatever way its bytes arrive.  The unread bytes of the
    buffer and the coming reads together hold any number of keepalive frames,
    a frame, and more: however the reads split the stream, readFrame skips the
    keepalives, returns the frame on its channel, and leaves exactly the rest.
    The body and what follows it have at least eight bytes; or else, at the end
    of a stream, the last read brings them together with a part of the header
    ([small_frame_stalls] is the case that is left). *)
Theorem readFrame_any_split c pre un ps tl k type_ ch body rest fb :
  cn_rxBuf c = at_ pre un -> cn_net c = chunks ps ++ tl ->
  un ++ concat ps = concat (replicate k keepaliveFrame) ++ header_bytes type_ ch (zlen body) ++ body ++ rest ->
  is_u 8 type_ -> is_u 16 ch -> 0 < zlen body -> 8 + zlen body <= MaxInt32 -> arrives body rest ps ->
  fst (ParseBody (New body)) = Ok fb ->
  exists pre' un' ps' c', readFrame c = (Ok (mkFrame 0 ch fb None), c') /\
    cn_rxBuf c' = at_ pre' un' /\ cn_net c' = chunks ps' ++ tl /\ un' ++ concat ps' = rest.
Proof. apply readFrame_split. Qed.

Definition small_close : bytes := [0; TypeCodeSmallUlong; TypeCodeClose; TypeCodeList0].

Definition sample_conn (net : list (bytes * option error)) : Conn :=
  mkConn 0 false false None false 65536 65535 [] 0 [] [99] 0 65536 None (Bitmap.New 65535) ∅
    (New []) None (New []) None net [] [].

(** A keepalive and a Close of four bytes, split inside the keepalive, between the
    header and the body of the Close and inside its body; more bytes follow. *)
Lemma readFrame_any_split_witness :
  exists pre' un' ps' c',
    readFrame (sample_conn (chunks [take 5 keepaliveFrame; drop 5 keepaliveFrame ++ header_bytes 0 3 4;
                                    take 3 small_close; drop 3 small_close; [9; 8]; [7; 6; 5]] ++ []))
    = (Ok (mkFrame 0 3 (FClose (mkClose None)) None), c') /\
    cn_rxBuf c' = at_ pre' un' /\ cn_net c' = chunks ps' ++ [] /\ un' ++ concat ps' = [9; 8; 7; 6; 5].
Proof.
  apply (readFrame_any_split _ [] [] [take 5 keepaliveFrame; drop 5 keepaliveFrame ++ header_bytes 0 3 4;
      take 3 small_close; drop 3 small_close; [9; 8]; [7; 6; 5]] [] 1 0 3 small_close [9; 8; 7; 6; 5]); try done; by left.
Defined.

(** A frame with a body of less than 8 bytes that is split after its header
    is not recognised when it is complete: the reader asks the network for more
    although all bytes of the frame have arrived. *)
Theorem small_frame_stalls ch body c :
  cn_rxBuf c = New [] -> cn_net c = [(header_bytes TypeAMQP ch (zlen body), None); (body, None)] ->
  is_u 16 ch -> 0 < zlen body < 8 ->
  exists pre c', readFrame c = (Err EOF, c') /\ cn_rxBuf c' = at_ pre body /\ cn_net c' = [].
Proof.
  intros Hb Hn Hc Hl. rewrite (io_eta c [] [] _ Hb Hn).
  destruct (readFrame_start c [] [] [(header_bytes TypeAMQP ch (zlen body), None); (body, None)])
    as (pre & fuel & -> & Hf & _).
  assert (exists n, fuel = S (S (S n))) as [n ->].
  { exists (fuel - 3)%nat. cbn in Hf. lia. }
  assert (readFrame_step None (io c pre [] [(header_bytes TypeAMQP ch (zlen body), None); (body, None)])
    = (Ok (ReadMore (Some (mkHeader (8 + zlen body) 2 TypeAMQP ch))),
       io c (pre ++ header_bytes TypeAMQP ch (zlen body)) [] [(body, None)])) as E1.
  { unfold readFrame_step. erewrite bind_Ok by apply rxLen_io. rewrite bool_decide_false by auto.
    erewrite bind_Ok by apply readNet_io. cbn [app]. erewrite bind_Ok by apply rxLen_io.
    change (zlen (header_bytes TypeAMQP ch (zlen body)) <? Conn.HeaderSize) with false. cbv iota.
    rewrite <- (app_nil_r (header_bytes TypeAMQP ch (zlen body))) at 1.
    erewrite bind_Ok by (apply on_rxBuf_io, ParseHeader_header; try done; lia).
    apply (readFrame_body_waits _ body); try done; unfold MaxInt32; change (zlen (@nil Z)) with 0; lia. }
  rewrite readFrame_loop_S, E1. cbn [readFrame_after].
  assert (forall h, readFrame_step (Some h) (io c (pre ++ header_bytes TypeAMQP ch (zlen body)) [] [(body, None)])
    = (Ok (ReadMore (Some h)), io c (pre ++ header_bytes TypeAMQP ch (zlen body)) body [])) as E2.
  { intros h. unfold readFrame_step. erewrite bind_Ok by apply rxLen_io. rewrite bool_decide_true by done.
    erewrite bind_Ok by apply readNet_io. cbn [app]. erewrite bind_Ok by apply rxLen_io.
    change Conn.HeaderSize with 8. by replace (zlen body <? 8) with true by lia. }
  rewrite readFrame_loop_S, E2. cbn [readFrame_after]. rewrite readFrame_loop_S.
  unfold readFrame_step. erewrite bind_Ok by apply rxLen_io. rewrite bool_decide_true by done.
  erewrite bind_Err by apply readNet_eof. eexists _, _. split; [reflexivity|]. by destruct c.
Qed.

Lemma small_frame_stalls_witness :
  exists pre c', readFrame (sample_conn [(header_bytes TypeAMQP 0 4, None); (small_close, None)]) = (Err EOF, c') /\
    cn_rxBuf c' = at_ pre small_close /\ cn_net c' = [].
Proof. apply (small_frame_stalls 0 small_close); by vm_compute. Defined.

(** Keepalives do not make readFrame return: however many have arrived, it reads
    all of them and then waits for the network, here for its end. *)
Theorem keepalives_wait k : forall c,
  cn_rxBuf c = New [] -> cn_net c = chunks (replicate k keepaliveFrame) ->
  exists c', readFrame c = (Err EOF, c') /\ cn_net c' = [].
Proof.
  intros c Hb Hn. rewrite (io_eta c [] [] _ Hb Hn).
  destruct (readFrame_start c [] [] (chunks (replicate k keepaliveFrame))) as (pre & fuel & -> & Hf & _).
  assert (k < fuel)%nat as Hk.
  { rewrite Hf. unfold chunks. rewrite length_map, length_replicate. lia. }
  clear Hf Hn Hb. revert pre fuel Hk. induction k as [|k IH]; intros pre fuel Hk; (destruct fuel as [|fuel]; [lia|]);
    rewrite readFrame_loop_S; unfold readFrame_step; erewrite bind_Ok by apply rxLen_io;
    rewrite bool_decide_false by auto; change (false || (zlen (@nil Z) <? Conn.HeaderSize)) with true; cbv iota.
  - erewrite bind_Err by apply readNet_eof. eexists. split; [reflexivity|]. by destruct c.
  - change (chunks (replicate (S k) keepaliveFrame)) with ((keepaliveFrame, None) :: chunks (replicate k keepaliveFrame)).
    erewrite bind_Ok by apply readNet_io. erewrite bind_Ok by apply rxLen_io.
    change (zlen ([] ++ keepaliveFrame) <? Conn.HeaderSize) with false. cbv iota.
    change ([] ++ keepaliveFrame) with (header_bytes 0 0 0 ++ []).
    erewrite bind_Ok by (apply on_rxBuf_io, (ParseHeader_header 0 0 0); done).
    unfold readFrame_body. change (Size _ >? MaxInt32) with false. cbv zeta iota. erewrite bind_Ok by apply rxLen_io.
    apply (IH (pre ++ header_bytes 0 0 0) fuel). lia.
Qed.

Lemma keepalives_wait_witness :
  exists c', readFrame (sample_conn (chunks (replicate 2 keepaliveFrame))) = (Err EOF, c') /\ cn_net c' = [].
Proof. apply (keepalives_wait 2); reflexivity. Defined.

(** ** Reading always ends *)

Definition net_ok (net : list (bytes * option error)) : Prop := Forall (fun x => bytes_ok x.1) net.

(** The receive buffer and what the network delivers are byte sequences. *)
Definition rx_ok (c : Conn) : Prop := wf (cn_rxBuf c) /\ bytes_ok (b (cn_rxBuf c)) /\ net_ok (cn_net c).

(** What is left: the reads to come and the bytes that are not parsed. *)
Definition left_ (un : bytes) (net : list (bytes * option error)) : nat :=
  length net + length (un ++ concat (map fst net)).

Lemma rx_ok_io c pre un net : rx_ok (io c pre un net) <-> bytes_ok pre /\ bytes_ok un /\ net_ok net.
Proof.
  unfold rx_ok, io. destruct c. cbn -[at_ bytes_ok]. split.
  - intros (_ & H & Hn). apply bytes_ok_app in H as [H1 H2]. done.
  - intros (H1 & H2 & Hn). split_and!; [apply at_wf|by apply bytes_ok_app|done].
Qed.

Lemma rx_ok_at c : rx_ok c -> exists pre un, c = io c pre un (cn_net c).
Proof. intros (Hw & _). destruct (wf_at _ Hw) as (pre & un & E). exists pre, un. by apply io_eta. Qed.

(** The outcomes that the loop can have. *)
Definition ends {A} (r : res A) : Prop :=
  match r with Ok _ | Err _ => True | Panic p => p = UnhashableKey | OutOfFuel => False end.

(** An iteration keeps the invariant, and when the loop goes on there is less
    left. *)
Definition progress (c : Conn) (bound : nat) (x : res read_step * Conn) : Prop :=
  exists pre un net, x.2 = io c pre un net /\ rx_ok x.2 /\ ends x.1 /\
    match x.1 with Ok (ReadMore _) => (left_ un net < bound)%nat | _ => True end.

Lemma progress_intro c bound r pre un net :
  rx_ok (io c pre un net) -> ends r ->
  match r with Ok (ReadMore _) => (left_ un net < bound)%nat | _ => True end ->
  progress c bound (r, io c pre un net).
Proof. intros H1 H2 H3. by exists pre, un, net. Qed.

Lemma ParseBody_ends l : bytes_ok l -> ends (fst (ParseBody (New l))).
Proof.
  intros H. pose proof (Safe_ParseBody (zlen l) (New l)) as Hs.
  destruct (ParseBody (New l)) as [x r]. destruct Hs as [_ Hs]; [split; cbn; pose_zlen; lia|done|unfold Len; cbn; lia|].
  by destruct x.
Qed.

Lemma readFrame_body_progress h c pre un net bound :
  rx_ok (io c pre un net) -> (left_ un net < bound)%nat ->
  progress c bound (readFrame_body h (io c pre un net)).
Proof.
  intros Hok Hl. unfold readFrame_body. destruct (Size h >? MaxInt32); [by apply progress_intro|].
  erewrite bind_Ok by apply rxLen_io. set (n := u32 _). destruct (zlen un <? n) eqn:E1; [by apply progress_intro|].
  destruct (n =? 0) eqn:E2; [by apply progress_intro|].
  assert (0 <= n) as Hn0 by apply u32_range.
  destruct (zsplit un n) as (x & y & -> & Hx); [lia|].
  erewrite bind_Ok by by apply on_rxBuf_io, Next_at. cbn [negb].
  apply rx_ok_io in Hok as (Hp & Hu & Hn). apply bytes_ok_app in Hu as [Hx' Hy].
  assert (rx_ok (io c (pre ++ x) y net)) as Hok by (apply rx_ok_io; split_and!; [by apply bytes_ok_app|done..]).
  pose proof (ParseBody_ends x Hx') as Hb. unfold mbind, M_bind, lift.
  destruct (fst (ParseBody (New x))); by apply progress_intro.
Qed.

Lemma ParseHeader_ends pre x un :
  zlen x = 8 -> exists r, ParseHeader (at_ pre (x ++ un)) = (r, at_ (pre ++ x) un) /\ ends r.
Proof.
  intros Hx. unfold ParseHeader. erewrite bind_Ok by by apply (Decodes_NextOr 8 _ x 0), zlen_nonneg.
  repeat case_match; by eexists.
Qed.

(** The part of an iteration after the read. *)
Definition readFrame_parse (h : option Header) : M Conn read_step :=
  n ← rxLen;
  if n <? Conn.HeaderSize then mret (ReadMore h)
  else match h with None => h ← on_rxBuf ParseHeader; readFrame_body h | Some h => readFrame_body h end.

Lemma readFrame_parse_progress h c pre un net bound :
  rx_ok (io c pre un net) ->
  (left_ un net < bound)%nat \/ h = None /\ 8 <= zlen un /\ (left_ un net <= bound)%nat ->
  progress c bound (readFrame_parse h (io c pre un net)).
Proof.
  intros Hok Hl. unfold readFrame_parse. erewrite bind_Ok by apply rxLen_io. change Conn.HeaderSize with 8.
  destruct (zlen un <? 8) eqn:E8.
  { destruct Hl as [Hl|(_ & Hl & _)]; [by apply progress_intro|lia]. }
  destruct h as [h|]; [apply readFrame_body_progress; [done|by destruct Hl as [|[? _]]]|].
  destruct (zsplit un 8) as (x & y & -> & Hx); [lia|].
  destruct (ParseHeader_ends pre x y Hx) as (r & E & Hr). unfold mbind, M_bind.
  erewrite on_rxBuf_io by exact E. apply rx_ok_io in Hok as (Hp & Hu & Hn). apply bytes_ok_app in Hu as [Hx' Hy].
  assert (rx_ok (io c (pre ++ x) y net)) as Hok by (apply rx_ok_io; split_and!; [by apply bytes_ok_app|done..]).
  destruct r; try (by apply progress_intro). apply readFrame_body_progress; [done|].
  unfold left_ in *. rewrite !length_app in *. unfold zlen in Hx. lia.
Qed.

Lemma readFrame_step_progress h c pre un net :
  rx_ok (io c pre un net) -> progress c (left_ un net) (readFrame_step h (io c pre un net)).
Proof.
  intros Hok. unfold readFrame_step. erewrite bind_Ok by apply rxLen_io.
  fold (readFrame_parse h). destruct (bool_decide (h <> None) || (zlen un <? Conn.HeaderSize)) eqn:Er.
  - apply rx_ok_io in Hok as (Hp & Hu & Hn). destruct net as [|[p e] net].
    { erewrite bind_Err by apply readNet_eof. apply progress_intro; [by apply rx_ok_io|done..]. }
    apply Forall_cons in Hn as [Hp' Hn].
    assert (rx_ok (io c pre (un ++ p) net)) as Hok by (apply rx_ok_io; split_and!; [done|by apply bytes_ok_app|done]).
    destruct e as [e|]; [erewrite bind_Err by apply readNet_err; by apply progress_intro|].
    erewrite bind_Ok by apply readNet_io. apply readFrame_parse_progress; [done|]. left.
    unfold left_. cbn. rewrite <- app_assoc. lia.
  - apply orb_false_iff in Er as [Eh El]. apply bool_decide_eq_false in Eh. change Conn.HeaderSize with 8 in El.
    erewrite bind_Ok by reflexivity. apply readFrame_parse_progress; [done|]. right.
    split_and!; [destruct h; [by destruct Eh|done]|lia|lia].
Qed.

Lemma readFrame_loop_ends c fuel : forall h pre un net,
  rx_ok (io c pre un net) -> (left_ un net < fuel)%nat ->
  let x := readFrame_loop fuel h (io c pre un net) in ends x.1 /\ rx_ok x.2.
Proof.
  induction fuel as [|fuel IH]; intros h pre un net Hok Hl; [lia|]. cbn zeta.
  rewrite readFrame_loop_S. destruct (readFrame_step_progress h c pre un net Hok) as (pre' & un' & net' & E & Hok' & He & Hm).
  destruct (readFrame_step h (io c pre un net)) as [[[h'|fr]|e|p|] c']; cbn in *; try done. subst c'.
  apply IH; [done|lia].
Qed.

(** No operation leaves the invariant, and all end. *)
Definition Total {A} (m : M Conn A) : Prop := forall c, rx_ok c -> ends (m c).1 /\ rx_ok (m c).2.

Lemma Total_readFrame : Total readFrame.
Proof.
  intros c Hok. destruct (rx_ok_at c Hok) as (pre & un & E). rewrite E in Hok |- *.
  destruct (readFrame_start c pre un (cn_net c)) as (pre' & fuel & -> & Hf & Hp).
  apply readFrame_loop_ends; [|unfold left_; lia]. apply rx_ok_io in Hok as (H1 & H2 & H3).
  apply rx_ok_io. split_and!; [|done..]. by destruct Hp as [-> | ->]; [constructor|].
Qed.

(** C29: ReadFrame always ends, with a frame or an error: whatever finite sequence
    of reads the network delivers before it fails or ends, and however the bytes
    are split, the loop uses up a read or some bytes in every iteration.  The one
    panic that is left is that of an unhashable map key in the frame's body.  A
    peer that never stops sending keepalives keeps readFrame busy for ever
    ([keepalives_wait]). *)
Theorem readFrame_total c : rx_ok c -> ends (readFrame c).1 /\ rx_ok (readFrame c).2.
Proof. apply Total_readFrame. Qed.

Definition sample_net : list (bytes * option error) :=
  [([0; 0; 0; 9], None); ([2; 0; 0; 0], None); ([7], Some EOF)].
Lemma sample_net_ok : rx_ok (sample_conn sample_net).
Proof. split_and!; [split; by cbn|constructor|repeat constructor; by cbn]. Qed.

Lemma readFrame_total_witness :
  ends (readFrame (sample_conn sample_net)).1 /\ rx_ok (readFrame (sample_conn sample_net)).2.
Proof. apply (readFrame_total (sample_conn sample_net)). exact sample_net_ok. Defined.

End ConnSpec.
