(* ===== verification/Establish.v ===== *)
(** * Establish: writing frames, establishing and closing the connection

    What writeFrame puts on the wire is read back by the peer; the state machine
    of start ends, and it ends with an open connection only after the
    authentication that was configured; session channels are unique; the error
    that a closed connection reports. *)

From S2P Require Import Prelude Bitmap Buffer Types Encode Decode CodecSafety Wire CodecRoundtrip FieldRoundtrip Frames Parsing Message EncodeSafety FrameRoundtrip Link Sasl Conn ConnSpec.
Import Buffer Encode Decode CodecSafety Wire CodecRoundtrip FieldRoundtrip Frames Parsing EncodeSafety FrameRoundtrip
  Errors Link Sasl Conn ConnSpec.
Import Bitmap(al_max, al_wf, al_used, al_next_ok, al_next_full, al_free_ok).
#[local] Existing Instance Bitmap.Bitmap_allocator.

Module Establish.

(** ** Writing frames *)

(** The connection after [p] has been written from the send buffer. *)
Definition wrote (p : bytes) (c : Conn) : Conn :=
  set_cn_netWrites [] (set_cn_written (cn_written c ++ [p]) (set_cn_txBuf (New p) c)).

Lemma writeFrame_run fr body c :
  Encodes (FrameBody_Marshal (Body fr)) body -> 8 + zlen body < 2 ^ 32 -> cn_netWrites c = [] ->
  let p := frame_bytes fr body in
  writeFrame fr c
  = if zlen p <=? cn_peerMaxFrameSize c then (Ok tt, wrote p c)
    else (Err (Errorf "%T frame size %d larger than peer's max frame size %d" [zlen p; cn_peerMaxFrameSize c]),
          set_cn_txBuf (New p) c).
Proof.
  intros He Hs Hw p. unfold writeFrame. change (Reset (cn_txBuf c)) with (New []).
  rewrite (Write_bytes fr body He Hs). fold p. change (New p) with (at_ [] p). rewrite Len_at.
  assert (zlen p = 8 + zlen body) as Hp by apply zlen_frame_bytes. pose proof (zlen_nonneg body).
  rewrite u64_small by (split; lia).
  replace (cn_peerMaxFrameSize (set_cn_txBuf (at_ [] p) c)) with (cn_peerMaxFrameSize c) by (by destruct c).
  destruct (zlen p <=? cn_peerMaxFrameSize c) eqn:E.
  - replace (_ >? _) with false by lia. rewrite Bytes_at. destruct c. cbn in Hw. by subst.
  - by replace (_ >? _) with true by lia.
Qed.

(** WriteFrame writes exactly the bytes of the frame when they fit the
    peer's maximum frame size; otherwise it writes nothing and returns an
    error. *)
Theorem writeFrame_fits fr body c :
  Encodes (FrameBody_Marshal (Body fr)) body -> 8 + zlen body < 2 ^ 32 -> cn_netWrites c = [] ->
  if 8 + zlen body <=? cn_peerMaxFrameSize c
  then exists c', writeFrame fr c = (Ok tt, c') /\ cn_written c' = cn_written c ++ [frame_bytes fr body]
  else exists e c', writeFrame fr c = (Err e, c') /\ cn_written c' = cn_written c.
Proof.
  intros He Hs Hw. rewrite (writeFrame_run fr body c He Hs Hw), zlen_frame_bytes.
  destruct (8 + zlen body <=? cn_peerMaxFrameSize c).
  - eexists. split; [done|]. by destruct c.
  - eexists _, _. split; [done|]. by destruct c.
Qed.

Definition sample_close : Frame := mkFrame TypeAMQP 0 (FClose (mkClose None)) None.

Lemma sample_close_encodes : Encodes (FrameBody_Marshal (Body sample_close)) small_close.
Proof.
  destruct (body_rt (Body sample_close)) as (l & He & _); [vm_compute; reflexivity|].
  apply (Encodes_eval _ l); [done|]. vm_compute. reflexivity.
Qed.

Lemma writeFrame_fits_witness :
  if 8 + zlen small_close <=? cn_peerMaxFrameSize (sample_conn [])
  then exists c', writeFrame sample_close (sample_conn []) = (Ok tt, c') /\
    cn_written c' = cn_written (sample_conn []) ++ [frame_bytes sample_close small_close]
  else exists e c', writeFrame sample_close (sample_conn []) = (Err e, c') /\
    cn_written c' = cn_written (sample_conn []).
Proof. apply (writeFrame_fits sample_close small_close (sample_conn [])); [exact sample_close_encodes|by cbn|done]. Defined.

(** A frame that one connection writes is the frame that the other one
    reads.  The frame fits the peer, and the bytes that were written reach the
    peer behind any number of keepalives and split in any way: the peer's
    readFrame returns the frame on the same channel, in the normal form of the
    wire. *)
Theorem frame_crosses fr body c1 :
  body_ok (Body fr) = true -> is_u 8 (Type_ fr) -> is_u 16 (Channel fr) ->
  Encodes (FrameBody_Marshal (Body fr)) body ->
  8 + zlen body <= cn_peerMaxFrameSize c1 <= MaxInt32 -> cn_netWrites c1 = [] ->
  exists p c1', writeFrame fr c1 = (Ok tt, c1') /\ cn_written c1' = cn_written c1 ++ [p] /\
    forall c2 ps k rest, cn_rxBuf c2 = New [] -> cn_net c2 = chunks ps ->
      concat ps = concat (replicate k keepaliveFrame) ++ p ++ rest -> arrives body rest ps ->
      exists c2', readFrame c2 = (Ok (mkFrame 0 (Channel fr) (norm_body (Body fr)) None), c2').
Proof.
  intros Hok Ht Hc He Hmax Hw. unfold MaxInt32 in Hmax.
  pose proof (body_nonempty (Body fr) body Hok He) as H8.
  destruct (body_rt (Body fr) Hok) as (body' & He' & Hp). rewrite (Encodes_unique _ _ _ He' He) in Hp.
  exists (frame_bytes fr body), (wrote (frame_bytes fr body) c1).
  rewrite (writeFrame_run fr body c1 He ltac:(lia) Hw), zlen_frame_bytes.
  replace (_ <=? _) with true by lia. split; [done|]. split; [by destruct c1|].
  intros c2 ps k rest Hb Hn E Ha. unfold frame_bytes in E. rewrite <- app_assoc in E.
  destruct (readFrame_split c2 [] [] ps [] k (Type_ fr) (Channel fr) body rest (norm_body (Body fr)))
    as (pre & un & ps' & c2' & Er & _); try done; [by rewrite app_nil_r|unfold MaxInt32; lia| |by eexists].
  apply (Hp ltac:(lia) []).
Qed.

Definition sample_frame : Frame := mkFrame TypeAMQP 3 (FClose (mkClose (Some (mkError [120] [] [])))) None.

Definition sample_frame_body : bytes :=
  [0; 83; 24; 208; 0; 0; 0; 19; 0; 0; 0; 1; 0; 83; 29; 208; 0; 0; 0; 7; 0; 0; 0; 1; 163; 1; 120].

Lemma sample_frame_encodes : Encodes (FrameBody_Marshal (Body sample_frame)) sample_frame_body.
Proof.
  destruct (body_rt (Body sample_frame)) as (l & He & _); [vm_compute; reflexivity|].
  apply (Encodes_eval _ l); [done|]. vm_compute. reflexivity.
Qed.

Lemma frame_crosses_witness :
  body_ok (Body sample_frame) = true /\
  exists p c1', writeFrame sample_frame (sample_conn []) = (Ok tt, c1') /\
    cn_written c1' = cn_written (sample_conn []) ++ [p] /\
    forall c2 ps k rest, cn_rxBuf c2 = New [] -> cn_net c2 = chunks ps ->
      concat ps = concat (replicate k keepaliveFrame) ++ p ++ rest -> arrives sample_frame_body rest ps ->
      exists c2', readFrame c2 = (Ok (mkFrame 0 3 (norm_body (Body sample_frame)) None), c2').
Proof.
  split; [vm_compute; reflexivity|].
  apply (frame_crosses sample_frame sample_frame_body (sample_conn []));
    [vm_compute; reflexivity|by vm_compute|by vm_compute|exact sample_frame_encodes|by vm_compute|done].
Defined.

(** ** Establishing the connection *)

(** The flags that steer the state machine. *)
Definition conf (c : Conn) := (cn_saslHandlers c, cn_saslComplete c, cn_tlsNegotiation c, cn_tlsComplete c).
Definition same_conf (c c' : Conn) : Prop := conf c' = conf c.

#[export] Instance same_conf_preorder : PreOrder same_conf.
Proof. split; [done|]. unfold same_conf. intros x y z H H'. by rewrite H'. Qed.

Lemma conf_modify f : (forall c, conf (f c) = conf c) -> Keeps same_conf (modify f).
Proof. intros H c. apply H. Qed.
Lemma conf_on_rxBuf {A} (m : M Buffer A) : Keeps same_conf (on_rxBuf m).
Proof. intros c. unfold on_rxBuf, same_conf. destruct (m (cn_rxBuf c)). by destruct c. Qed.
Lemma conf_readNet : Keeps same_conf readNet.
Proof.
  intros c. unfold readNet. destruct (cn_net c) as [|[p e] net]; [done|].
  etrans; [|apply conf_on_rxBuf]. by destruct c.
Qed.
Lemma conf_writeNet p : Keeps same_conf (writeNet p).
Proof. intros c. unfold writeNet, same_conf. destruct c. cbn. by repeat case_match. Qed.

#[export] Hint Resolve conf_on_rxBuf conf_readNet conf_writeNet : conf.
Ltac conf := repeat first [by eauto with conf | keeps_walk].

Lemma conf_writeFrame fr : Keeps same_conf (writeFrame fr).
Proof.
  intros c. unfold writeFrame. destruct (Write fr _) as [[]buf]; try (by destruct c).
  assert (same_conf c (set_cn_txBuf buf c)) as Hc by (by destruct c). case_match; [done|]. etrans; [exact Hc|]. apply (Keeps_bind _); [apply (Keeps_lift _)|intros; apply conf_writeNet].
Qed.
Lemma conf_readFrame_body h : Keeps same_conf (readFrame_body h).
Proof. unfold readFrame_body, rxLen. conf. Qed.
#[export] Hint Resolve conf_writeFrame conf_readFrame_body : conf.
Lemma conf_readFrame_step h : Keeps same_conf (readFrame_step h).
Proof. unfold readFrame_step, rxLen. conf. Qed.
#[export] Hint Resolve conf_readFrame_step : conf.
Lemma conf_readFrame_loop fuel h : Keeps same_conf (readFrame_loop fuel h).
Proof.
  revert h. induction fuel as [|fuel IH]; intros h; cbn [readFrame_loop]; [apply (Keeps_lift _)|].
  apply (Keeps_bind _); [apply conf_readFrame_step|intros []; [apply IH|apply (Keeps_ret _)]].
Qed.
#[export] Hint Resolve conf_readFrame_loop : conf.
Lemma conf_readFrame : Keeps same_conf readFrame.
Proof. unfold readFrame, rxLen. conf. apply conf_modify. by intros []. Qed.
#[export] Hint Resolve conf_readFrame : conf.
Lemma conf_readProto_loop fuel : Keeps same_conf (readProto_loop fuel).
Proof.
  induction fuel as [|fuel IH]; cbn [readProto_loop]; [apply (Keeps_lift _)|]. unfold rxLen. conf.
Qed.
#[export] Hint Resolve conf_readProto_loop : conf.
Lemma conf_exchange pID : Keeps same_conf (exchangeProtoHeader pID).
Proof. unfold exchangeProtoHeader, writeProtoHeader, readProtoHeader, rxLen. conf. Qed.

Definition tls_pending (c : Conn) : bool := cn_tlsNegotiation c && negb (cn_tlsComplete c).
Definition sasl_pending (c : Conn) : bool := bool_decide (cn_saslHandlers c <> None) && negb (cn_saslComplete c).

(** What a state can lead to. *)
Inductive next (c c' : Conn) : stateFunc -> option stateFunc -> Prop :=
| next_proto :
    same_conf c c' ->
    next c c' NegotiateProto
      (Some (if tls_pending c then StartTLS else if sasl_pending c then NegotiateSASL else OpenAMQP))
| next_open : same_conf c c' -> next c c' OpenAMQP None
| next_tls :
    cn_saslHandlers c' = cn_saslHandlers c -> cn_saslComplete c' = cn_saslComplete c ->
    tls_pending c' = false -> next c c' StartTLS (Some NegotiateProto)
| next_sasl h : same_conf c c' -> next c c' NegotiateSASL (Some (SaslHandler h))
| next_init h : same_conf c c' -> next c c' (SaslHandler h) (Some SaslOutcome)
| next_xoauth2 h s : same_conf c c' -> next c c' (SaslHandler h) (Some (XOAUTH2_step s))
| next_outcome st :
    st = SaslOutcome \/ (exists s, st = XOAUTH2_step s) ->
    cn_saslHandlers c' = cn_saslHandlers c -> cn_saslComplete c' = true ->
    tls_pending c' = tls_pending c -> next c c' st (Some NegotiateProto)
| next_challenge s s' :
    same_conf c c' -> errorResponse s = None -> errorResponse s' <> None ->
    next c c' (XOAUTH2_step s) (Some (XOAUTH2_step s')).

Lemma bind_inv {S A B} (m : M S A) (k : A -> M S B) s b s' :
  (m ≫= k) s = (Ok b, s') -> exists a s1, m s = (Ok a, s1) /\ k a s1 = (Ok b, s').
Proof. unfold mbind, M_bind. destruct (m s) as [[a|e|p|] s1]; intros; simplify_eq. by eexists _, _. Qed.

Lemma Keeps_Ok {S A} (R : relation S) (m : M S A) s a s' : Keeps R m -> m s = (Ok a, s') -> R s s'.
Proof. intros H E. specialize (H s). by rewrite E in H. Qed.

Lemma exchange_next pID c st c' :
  exchangeProtoHeader pID c = (Ok st, c') ->
  same_conf c c' /\ (pID = protoAMQP -> st = Some OpenAMQP) /\ (pID = protoTLS -> st = Some StartTLS) /\
  (pID = protoSASL -> st = Some NegotiateSASL).
Proof.
  intros E. split; [by eapply Keeps_Ok; [apply conf_exchange|]|]. unfold exchangeProtoHeader in E.
  apply bind_inv in E as (? & ? & _ & E). apply bind_inv in E as (p & c1 & _ & E).
  destruct (negb _); [done|]. split_and!; intros ->; cbn in E; unfold mret, M_ret in E; by simplify_eq.
Qed.

Lemma tls_pending_conf c c' : same_conf c c' -> tls_pending c' = tls_pending c.
Proof. unfold same_conf, conf, tls_pending. intros; by simplify_eq/=; congruence. Qed.

(** An accepting outcome. *)
Lemma outcome_conf c c1 :
  same_conf c c1 ->
  cn_saslHandlers (set_cn_saslComplete true c1) = cn_saslHandlers c /\
  cn_saslComplete (set_cn_saslComplete true c1) = true /\
  tls_pending (set_cn_saslComplete true c1) = tls_pending c.
Proof.
  intros Hc. destruct c, c1. unfold same_conf, conf, tls_pending in *. cbn in *. by simplify_eq.
Qed.

Lemma conf_run_handler h : Keeps same_conf (run_handler h).
Proof.
  destruct h as [| | |s]; cbn [run_handler]; try (by conf). intros c. unfold XOAUTH2_init.
  set (c1 := if _ >? _ then _ else c). assert (same_conf c c1) as H1 by (unfold c1; case_match; by destruct c).
  pose proof (conf_writeFrame (sasl_frame (FSASLInit (mkSASLInit saslMechanismXOAUTH2 (response s) []))) c1) as Hk.
  destruct (writeFrame _ c1) as [x c2]. cbn in *. etrans; [exact H1|]. etrans; [exact Hk|]. by destruct c2.
Qed.

Section Machine.
Context (handshake : list (bytes * option error) -> res (list (bytes * option error))).

Lemma run_state_next st c st' c' : run_state handshake st c = (Ok st', c') -> next c c' st st'.
Proof.
  destruct st; cbn [run_state]; intros E.
  - unfold negotiateProto in E. apply bind_inv in E as (c0 & c1 & E0 & E). unfold gets, id in E0. simplify_eq.
    pose proof (next_proto c0 c') as Hn. fold (tls_pending c0) (sasl_pending c0) in E.
    destruct (tls_pending c0); [|destruct (sasl_pending c0)]; apply exchange_next in E as (Hc & H1 & H2 & H3);
      rewrite ?H1, ?H2, ?H3 by done; by apply Hn.
  - assert (same_conf c c') as Hc.
    { eapply Keeps_Ok; [|exact E]. unfold openAMQP, readSingleFrame. conf. apply conf_modify.
      intros x. unfold open_accept. destruct x. by repeat case_match. }
    unfold openAMQP in E. apply bind_inv in E as (? & ? & _ & E). apply bind_inv in E as (? & ? & _ & E).
    apply bind_inv in E as (fr & ? & _ & E). destruct (Body fr); try done.
    apply bind_inv in E as (? & ? & _ & E). unfold mret, M_ret in E. simplify_eq. by constructor.
  - unfold startTLS, mbind, M_bind, gets, lift, modify, mret, M_ret in E.
    destruct (handshake (cn_net c)); simplify_eq. destruct c.
    constructor; try done. unfold tls_pending. cbn. by rewrite andb_false_r.
  - assert (same_conf c c') as Hc.
    { eapply Keeps_Ok; [|exact E]. unfold negotiateSASL, readSingleFrame. conf. }
    unfold negotiateSASL in E. apply bind_inv in E as (fr & ? & _ & E). destruct (Body fr); try done.
    apply bind_inv in E as (? & ? & _ & E). destruct (first_match _ _); [|done].
    unfold mret, M_ret in E. simplify_eq. by constructor.
  - pose proof (Keeps_Ok _ _ _ _ _ (conf_run_handler h) E) as Hc.
    destruct h; cbn [run_handler] in E;
      try (apply bind_inv in E as (? & ? & _ & E); unfold mret, M_ret in E; simplify_eq; by apply next_init).
    unfold XOAUTH2_init in E. destruct (writeFrame _ _) as [[[]|e|p|] c1]; unfold mbind, res_bind, mret, res_ret in E;
      simplify_eq. by apply next_xoauth2.
  - unfold saslOutcome in E. apply bind_inv in E as (fr & c1 & E1 & E).
    pose proof (Keeps_Ok _ _ _ _ _ conf_readFrame E1) as Hc. destruct (Body fr); try done.
    destruct (negb _); [done|]. apply bind_inv in E as (? & ? & E2 & E). unfold modify, mret, M_ret in *. simplify_eq.
    destruct (outcome_conf c c1 Hc) as (? & ? & ?). apply next_outcome; [by left|done..].
  - unfold XOAUTH2_next in E. apply bind_inv in E as (fr & c1 & E1 & E).
    pose proof (Keeps_Ok _ _ _ _ _ conf_readFrame E1) as Hc. destruct (Body fr); try done.
    + destruct (errorResponse s) eqn:Es; [done|]. apply bind_inv in E as (? & c2 & E2 & E).
      pose proof (Keeps_Ok _ _ _ _ _ (conf_writeFrame _) E2) as Hc2. unfold mret, M_ret in E. simplify_eq.
      apply next_challenge; [by etrans|done|done].
    + destruct (negb _); [done|]. apply bind_inv in E as (? & ? & E2 & E). unfold modify, mret, M_ret in *. simplify_eq.
      destruct (outcome_conf c c1 Hc) as (? & ? & ?). apply next_outcome; [right; by eexists|done..].
Qed.

End Machine.

(** *** Every state returns *)

(** [m] returns, panicking at most because of an unhashable map key, and what is
    still to be read stays a sequence of bytes. *)
Definition Returns {A} (m : M Conn A) : Prop := forall c, rx_ok c -> ends (m c).1 /\ rx_ok (m c).2.

Lemma Returns_pure {A} (m : M Conn A) :
  (forall c, ends (m c).1 /\ cn_rxBuf (m c).2 = cn_rxBuf c /\ cn_net (m c).2 = cn_net c) -> Returns m.
Proof. intros H c Hok. destruct (H c) as (? & E1 & E2). unfold rx_ok. by rewrite E1, E2. Qed.
Lemma Returns_ret {A} (a : A) : Returns (mret a).
Proof. by apply Returns_pure. Qed.
Lemma Returns_gets {A} (f : Conn -> A) : Returns (gets f).
Proof. by apply Returns_pure. Qed.
Lemma Returns_errorf {A} msg args : Returns (errorf (A := A) msg args).
Proof. by apply Returns_pure. Qed.
Lemma Returns_modify f :
  (forall c, cn_rxBuf (f c) = cn_rxBuf c /\ cn_net (f c) = cn_net c) -> Returns (modify f).
Proof. intros H. apply Returns_pure. intros c. by destruct (H c). Qed.
Lemma Returns_bind_at {A B} (m : M Conn A) (k : A -> M Conn B) c :
  ends (m c).1 /\ rx_ok (m c).2 -> (forall a, Returns (k a)) ->
  ends ((m ≫= k) c).1 /\ rx_ok ((m ≫= k) c).2.
Proof.
  intros [H1 H2] Hk. unfold mbind, M_bind.
  destruct (m c) as [[a|e|p|] c1]; cbn in *; try done. by apply Hk.
Qed.
Lemma Returns_bind {A B} (m : M Conn A) (k : A -> M Conn B) :
  Returns m -> (forall a, Returns (k a)) -> Returns (m ≫= k).
Proof. intros Hm Hk c Hok. apply Returns_bind_at; auto. Qed.
Lemma Returns_on_rxBuf {A} min post (d : M Buffer A) : (forall n, Safe n min post d) -> Returns (on_rxBuf d).
Proof.
  intros Hd c (Hw & Hb & Hn). specialize (Hd _ _ Hw Hb (Z.le_refl _)). unfold on_rxBuf.
  destruct (d (cn_rxBuf c)) as [x r']. destruct Hd as [(H1 & H2 & _) Hx]. split; [by destruct x|].
  destruct c. cbn in *. unfold rx_ok. cbn. by rewrite H2.
Qed.
Lemma Returns_readFrame : Returns readFrame.
Proof. exact Total_readFrame. Qed.
Lemma Returns_writeNet p : Returns (writeNet p).
Proof. apply Returns_pure. intros c. unfold writeNet. destruct c. cbn. by repeat case_match. Qed.
Lemma Returns_writeFrame fr : nil_body (Body fr) = false -> Returns (writeFrame fr).
Proof.
  intros Hnil c Hok. unfold writeFrame. change (Reset (cn_txBuf c)) with (New []).
  destruct (Write_returns fr) as (p & Hb & Hw). destruct (Write fr (New [])) as [x buf]. cbn in Hb, Hw. subst buf. rewrite Hnil in Hw.
  assert (rx_ok (set_cn_txBuf (mkBuffer p 0) c)) as Hok' by (destruct c; exact Hok).
  destruct x; cbn in Hw; [|done|by destruct Hw|done]. case_match; [done|].
  change (mkBuffer p 0) with (at_ [] p). rewrite Bytes_at. by apply (Returns_writeNet p).
Qed.
#[export] Hint Resolve Returns_ret Returns_gets Returns_errorf Returns_readFrame Returns_writeNet
  Returns_writeFrame : returns.
Ltac returns := repeat first [ by eauto with returns | apply Returns_bind; [|intros] | case_match ].

(** Reading the protocol header takes at most one read more than the network
    delivers. *)
Lemma readProto_loop_returns fuel : forall c,
  rx_ok c -> (length (cn_net c) < fuel)%nat ->
  ends (readProto_loop fuel c).1 /\ rx_ok (readProto_loop fuel c).2.
Proof.
  induction fuel as [|fuel IH]; intros c Hok Hf; [lia|]. destruct (rx_ok_at c Hok) as (pre & un & E).
  cbn [readProto_loop]. rewrite E in Hok |- *. apply rx_ok_io in Hok as (H1 & H2 & H3).
  destruct (cn_net c) as [|[p [e|]] net].
  - erewrite bind_Err by apply readNet_eof. split; [done|by apply rx_ok_io].
  - apply Forall_cons in H3 as [Hp Hn]. erewrite bind_Err by apply readNet_err.
    split; [done|]. apply rx_ok_io. split_and!; [done|by apply bytes_ok_app|done].
  - apply Forall_cons in H3 as [Hp Hn]. erewrite bind_Ok by apply readNet_io. erewrite bind_Ok by apply rxLen_io.
    assert (rx_ok (io c pre (un ++ p) net)) as Hok by (apply rx_ok_io; split_and!; [done|by apply bytes_ok_app|done]).
    case_match; [done|]. apply IH; [done|]. destruct c. cbn in *. lia.
Qed.

Lemma Returns_exchange pID : Returns (exchangeProtoHeader pID).
Proof.
  assert (Returns readProtoHeader) as Hr.
  { unfold readProtoHeader. apply Returns_bind; [by apply Returns_pure|intros n]. intros c Hok.
    apply (Returns_bind_at (if n =? 0 then readProto_loop (S (length (cn_net c))) else mret tt)).
    - case_match; [by apply readProto_loop_returns; [|lia]|done].
    - intros _. apply Returns_bind; [by eapply Returns_on_rxBuf; intros; apply Safe_NextOr|intros buf].
      apply Returns_pure. intros c'. cbn. split; [|done]. unfold parseProtoHeader. by repeat case_match. }
  unfold exchangeProtoHeader, writeProtoHeader. returns.
Qed.
#[export] Hint Resolve Returns_exchange : returns.

Lemma open_accept_keeps o c : cn_rxBuf (open_accept o c) = cn_rxBuf c /\ cn_net (open_accept o c) = cn_net c.
Proof. unfold open_accept. destruct c. by repeat case_match. Qed.

Section Returning.
Context (handshake : list (bytes * option error) -> res (list (bytes * option error))).
(** The TLS library returns, without a panic, and delivers bytes. *)
Hypothesis handshake_returns : forall net, net_ok net ->
  match handshake net with Ok net' => net_ok net' | Err _ => True | _ => False end.

Lemma Returns_run_state st : Returns (run_state handshake st).
Proof.
  destruct st as [| | | |[]| |]; cbn [run_state run_handler].
  - unfold negotiateProto. returns.
  - unfold openAMQP, readSingleFrame. returns. apply Returns_modify, open_accept_keeps.
  - intros c (H1 & H2 & H3). unfold startTLS, mbind, M_bind, gets, lift, modify, mret, M_ret.
    specialize (handshake_returns _ H3). destruct (handshake (cn_net c)); try done. by destruct c.
  - unfold negotiateSASL, readSingleFrame. returns.
  - returns.
  - returns.
  - returns.
  - intros c Hok. unfold XOAUTH2_init. set (c1 := if _ >? _ then _ else c).
    assert (rx_ok c1) as Hok1 by (unfold c1; case_match; [by destruct c|done]).
    destruct (Returns_writeFrame (sasl_frame (FSASLInit (mkSASLInit saslMechanismXOAUTH2 (response s) []))) eq_refl c1 Hok1) as [Hx Hr].
    destruct (writeFrame _ c1) as [x c2]. cbn in *. split; [by destruct x|by destruct c2].
  - unfold saslOutcome, readSingleFrame. returns. apply Returns_modify. by intros [].
  - unfold XOAUTH2_next. returns. apply Returns_modify. by intros [].
Qed.
End Returning.


(** TLS is settled in the states after it, and authentication before the
    connection is opened. *)
Definition st_inv (st : option stateFunc) (c : Conn) : Prop :=
  match st with
  | Some NegotiateProto | Some StartTLS => True
  | Some OpenAMQP | None => tls_pending c = false /\ sasl_pending c = false
  | _ => tls_pending c = false
  end.

(** How many states can still follow. *)
Definition rank (st : stateFunc) (c : Conn) : nat :=
  match st with
  | NegotiateProto => 2 + (if tls_pending c then 2 else 0) + (if sasl_pending c then 5 else 0)
  | OpenAMQP => 1
  | StartTLS => 3 + (if sasl_pending c then 5 else 0)
  | NegotiateSASL => 6
  | SaslHandler _ => 5
  | SaslOutcome => 3
  | XOAUTH2_step s => match errorResponse s with None => 4 | Some _ => 3 end
  end.

Lemma sasl_pending_conf c c' : same_conf c c' -> sasl_pending c' = sasl_pending c.
Proof. destruct c, c'. unfold same_conf, conf, sasl_pending. cbn. intros. by simplify_eq. Qed.

(** A step keeps the invariant and comes closer to the end. *)
Lemma next_decreases c c' st st' :
  next c c' st st' -> st_inv (Some st) c ->
  st_inv st' c' /\ cn_saslHandlers c' = cn_saslHandlers c /\
  match st' with Some s => (rank s c' < rank st c)%nat | None => True end.
Proof.
  intros Hn Hi.
  assert (same_conf c c' -> cn_saslHandlers c' = cn_saslHandlers c) as Hh.
  { destruct c, c'. unfold same_conf, conf. cbn. intros. by simplify_eq. }
  destruct Hn as [Hc|Hc|H1 H2 H3|h Hc|h Hc|h s Hc|st Hst H1 H2 H3|s s' Hc H1 H2];
    try pose proof (tls_pending_conf _ _ Hc) as Et; try pose proof (sasl_pending_conf _ _ Hc) as Es;
    cbn [st_inv rank] in *.
  - split_and!; [|by apply Hh|].
    + destruct (tls_pending c) eqn:?; [done|]. destruct (sasl_pending c) eqn:?; cbn; by rewrite ?Et, ?Es.
    + destruct (tls_pending c) eqn:?; cbn; rewrite ?Es; [lia|]. destruct (sasl_pending c); cbn; lia.
  - rewrite Et, Es. destruct Hi. split_and!; [done|done|by apply Hh|done].
  - rewrite H3. replace (sasl_pending c') with (sasl_pending c) by (unfold sasl_pending; by rewrite H1, H2).
    split_and!; [done..|lia].
  - rewrite Et. split_and!; [done|by apply Hh|lia].
  - rewrite Et. split_and!; [done|by apply Hh|lia].
  - rewrite Et. split_and!; [done|by apply Hh|]. case_match; lia.
  - replace (sasl_pending c') with false by (unfold sasl_pending; rewrite H2; by rewrite andb_false_r).
    split_and!; [done..|]. destruct Hst as [-> | [s ->]]; cbn in *; rewrite H3, Hi; [lia|]. case_match; lia.
  - rewrite Et, H1. split_and!; [done|by apply Hh|]. by destruct (errorResponse s'); [lia|].
Qed.

Section Start.
Context (handshake : list (bytes * option error) -> res (list (bytes * option error))).

Lemma start_loop_S fuel st c :
  start_loop handshake (S fuel) (Some st) c
  = match run_state handshake st c with
    | (Ok st', c') => start_loop handshake fuel st' c'
    | (Err e, c') => (Err e, c')
    | (Panic p, c') => (Panic p, c')
    | (OutOfFuel, c') => (OutOfFuel, c')
    end.
Proof. done. Qed.

Hypothesis handshake_returns : forall net, net_ok net ->
  match handshake net with Ok net' => net_ok net' | Err _ => True | _ => False end.

Lemma start_loop_returns fuel : forall st c,
  rx_ok c -> st_inv st c -> match st with Some st => (rank st c <= fuel)%nat | None => True end ->
  ends (start_loop handshake fuel st c).1.
Proof.
  induction fuel as [|fuel IH]; intros [st|] c Hok Hi Hr; try done.
  { destruct st; cbn in Hr; repeat case_match; lia. }
  rewrite start_loop_S. destruct (Returns_run_state handshake handshake_returns st c Hok) as [Hx Hok'].
  destruct (run_state handshake st c) as [[st'|e|p|] c'] eqn:E; try done.
  apply run_state_next in E. destruct (next_decreases _ _ _ _ E Hi) as (Hi' & _ & Hr').
  apply IH; [done|done|]. destruct st'; [lia|done].
Qed.

(** C30: establishing a connection ends.  Whatever the peer sends before the
    network ends, start returns, with or without an error: every state does, and
    the state machine visits at most ten of them; in particular a peer cannot
    keep the client in the XOAUTH2 exchange by sending challenges.  The one panic
    is that of an unhashable key in a map that the peer sends (in the properties
    of its Open).  The hypothesis says that the TLS handshake returns and gives
    bytes or an error. *)
Theorem start_ends c : rx_ok c -> ends (start handshake c).1.
Proof.
  intros Hok. assert (ends (start_loop handshake start_fuel (Some NegotiateProto) c).1) as H.
  { apply start_loop_returns; [done|done|]. unfold start_fuel. cbn. repeat case_match; lia. }
  unfold start, mbind, M_bind. destruct (start_loop _ _ _ _) as [[] c1]; done.
Qed.

Lemma start_loop_inv fuel : forall st c c',
  st_inv st c -> start_loop handshake fuel st c = (Ok tt, c') ->
  st_inv None c' /\ cn_saslHandlers c' = cn_saslHandlers c.
Proof.
  induction fuel as [|fuel IH]; intros [st|] c c' Hi E; [done|unfold start_loop, mret, M_ret in E; by simplify_eq| |
    unfold start_loop, mret, M_ret in E; by simplify_eq].
  rewrite start_loop_S in E. destruct (run_state handshake st c) as [[st'|e|p|] c1] eqn:E1; try done.
  apply run_state_next in E1. destruct (next_decreases _ _ _ _ E1 Hi) as (Hi' & Hh & _).
  destruct (IH st' c1 c' Hi' E) as [H1 H2]. split; [done|congruence].
Qed.

Lemma start_inv c c' :
  start handshake c = (Ok tt, c') ->
  cn_saslHandlers c' = cn_saslHandlers c /\ (cn_saslHandlers c <> None -> cn_saslComplete c' = true) /\
  (cn_tlsNegotiation c' = true -> cn_tlsComplete c' = true) /\
  cn_channels c' = Bitmap.New (cn_channelMax c').
Proof.
  intros E. unfold start in E. apply bind_inv in E as ([] & c1 & E1 & E).
  destruct (start_loop_inv start_fuel (Some NegotiateProto) c c1 I E1) as [[Ht Hs] Hh].
  unfold modify in E. simplify_eq. unfold tls_pending, sasl_pending in Ht, Hs. rewrite Hh in Hs.
  destruct c1. cbn in *. split_and!; [done| |..|done].
  - intros Hne. rewrite bool_decide_true in Hs by done. by apply negb_false_iff in Hs.
  - intros ->. by apply negb_false_iff in Ht.
Qed.

(** *** What the peer has said *)

(** One state of the machine leads to the next. *)
Definition machine_step (x y : stateFunc * Conn) : Prop :=
  run_state handshake x.1 x.2 = (Ok (Some y.1), y.2).

(** The machine, started on [c0], has read the peer's mechanisms, and [h] is the
    handler configured for one of them. *)
Definition offered (c0 : Conn) (h : saslHandler) (c : Conn) : Prop :=
  exists c1 fr sm mech, rtc machine_step (NegotiateProto, c0) (NegotiateSASL, c1) /\
    readFrame c1 = (Ok fr, c) /\ Body fr = FSASLMechanisms sm /\ mech ∈ sm_Mechanisms sm /\
    default ∅ (cn_saslHandlers c0) !! mech = Some h.

(** Such a handler has sent its sasl-init, and the machine has gone on from there. *)
Definition answered (c0 : Conn) (st : stateFunc) (c : Conn) : Prop :=
  exists h c1 st1 c2, offered c0 h c1 /\ run_handler h c1 = (Ok (Some st1), c2) /\
    rtc machine_step (st1, c2) (st, c).

(** Then the peer has sent an outcome with the code OK, and the machine has gone on
    from there with the protocol header. *)
Definition accepted (c0 : Conn) (st : stateFunc) (c : Conn) : Prop :=
  exists st1 c1 fr so c2, answered c0 st1 c1 /\ readFrame c1 = (Ok fr, c2) /\
    Body fr = FSASLOutcome so /\ so_Code so = CodeSASLOK /\
    rtc machine_step (NegotiateProto, set_cn_saslComplete true c2) (st, c).

(** The TLS handshake has succeeded on the way. *)
Definition handshaken (c0 : Conn) (st : stateFunc) (c : Conn) : Prop :=
  exists c1 net c2, rtc machine_step (NegotiateProto, c0) (StartTLS, c1) /\ handshake (cn_net c1) = Ok net /\
    run_state handshake StartTLS c1 = (Ok (Some NegotiateProto), c2) /\ cn_net c2 = net /\
    rtc machine_step (NegotiateProto, c2) (st, c).

Record machine_inv (c0 : Conn) (st : stateFunc) (c : Conn) : Prop := mkMachineInv {
  mi_reached : rtc machine_step (NegotiateProto, c0) (st, c);
  mi_handlers : cn_saslHandlers c = cn_saslHandlers c0;
  mi_tls_set : cn_tlsNegotiation c = cn_tlsNegotiation c0;
  mi_sasl : cn_saslComplete c = cn_saslComplete c0 \/ accepted c0 st c;
  mi_tls : cn_tlsComplete c = cn_tlsComplete c0 \/ handshaken c0 st c;
  mi_state : match st with
             | SaslHandler h => offered c0 h c
             | SaslOutcome | XOAUTH2_step _ => answered c0 st c
             | _ => True
             end
}.

Lemma first_match_spec handlers mechs h :
  first_match handlers mechs = Some h -> exists mech, mech ∈ mechs /\ handlers !! mech = Some h.
Proof.
  induction mechs as [|m mechs IH]; cbn; [done|]. destruct (handlers !! m) as [h'|] eqn:E.
  - intros; simplify_eq. exists m. split; [by left|done].
  - intros (mech & ? & ?)%IH. exists mech. split; [by right|done].
Qed.

Lemma accepted_step c0 st c st' c' : machine_step (st, c) (st', c') -> accepted c0 st c -> accepted c0 st' c'.
Proof.
  intros Hs (st1 & c1 & fr & so & c2 & ? & ? & ? & ? & Hr). exists st1, c1, fr, so, c2. split_and!; try done.
  by eapply rtc_r.
Qed.
Lemma handshaken_step c0 st c st' c' : machine_step (st, c) (st', c') -> handshaken c0 st c -> handshaken c0 st' c'.
Proof.
  intros Hs (c1 & net & c2 & ? & ? & ? & ? & Hr). exists c1, net, c2. split_and!; try done. by eapply rtc_r.
Qed.
Lemma answered_step c0 st c st' c' : machine_step (st, c) (st', c') -> answered c0 st c -> answered c0 st' c'.
Proof. intros Hs (h & c1 & st1 & c2 & ? & ? & Hr). exists h, c1, st1, c2. split_and!; try done. by eapply rtc_r. Qed.

(** A state that reads the outcome and is done with it has read an accepting one. *)
Lemma outcome_accepts c0 st c c' :
  answered c0 st c -> st = SaslOutcome \/ (exists s, st = XOAUTH2_step s) ->
  run_state handshake st c = (Ok (Some NegotiateProto), c') ->
  accepted c0 NegotiateProto c' /\ exists c1, same_conf c c1 /\ c' = set_cn_saslComplete true c1.
Proof.
  intros Ha [-> | [s ->]] E; cbn [run_state] in E.
  - unfold saslOutcome, readSingleFrame in E. apply bind_inv in E as (fr & c1 & E1 & E).
    destruct (Body fr) eqn:Eb; try done. destruct (so_Code _ =? CodeSASLOK) eqn:Eo; cbn [negb] in E; [|done].
    apply bind_inv in E as (? & ? & E2 & E). unfold modify, mret, M_ret in *. simplify_eq.
    split; [|exists c1; split; [by apply (Keeps_Ok _ _ _ _ _ conf_readFrame E1)|done]].
    eexists _, c, fr, _, c1. split_and!; [exact Ha|done|done|by apply Z.eqb_eq|apply rtc_refl].
  - unfold XOAUTH2_next in E. apply bind_inv in E as (fr & c1 & E1 & E).
    destruct (Body fr) eqn:Eb; try done.
    + destruct (errorResponse s); [done|]. apply bind_inv in E as (? & ? & _ & E). unfold mret, M_ret in E. simplify_eq.
    + destruct (so_Code _ =? CodeSASLOK) eqn:Eo; cbn [negb] in E; [|done].
      apply bind_inv in E as (? & ? & E2 & E). unfold modify, mret, M_ret in *. simplify_eq.
      split; [|exists c1; split; [by apply (Keeps_Ok _ _ _ _ _ conf_readFrame E1)|done]].
      eexists _, c, fr, _, c1. split_and!; [exact Ha|done|done|by apply Z.eqb_eq|apply rtc_refl].
Qed.

(** The handler that negotiateSASL selects was offered. *)
Lemma negotiate_offers c0 c h c' :
  rtc machine_step (NegotiateProto, c0) (NegotiateSASL, c) -> cn_saslHandlers c = cn_saslHandlers c0 ->
  run_state handshake NegotiateSASL c = (Ok (Some (SaslHandler h)), c') -> offered c0 h c'.
Proof.
  intros Hr Hh E. cbn [run_state] in E. unfold negotiateSASL, readSingleFrame in E.
  apply bind_inv in E as (fr & c1 & E1 & E). destruct (Body fr) eqn:Eb; try done.
  apply bind_inv in E as (hs & c2 & E2 & E). unfold gets in E2. simplify_eq.
  destruct (first_match _ _) as [h'|] eqn:Ef; [|done]. unfold mret, M_ret in E. simplify_eq.
  apply first_match_spec in Ef as (mech & Hin & Hl). exists c, fr, sm, mech. split_and!; [done|done|exact Eb|done|].
  rewrite <- Hh. assert (cn_saslHandlers c' = cn_saslHandlers c) as <-; [|done].
  pose proof (Keeps_Ok _ _ _ _ _ conf_readFrame E1) as Hc. unfold same_conf, conf in Hc. by simplify_eq.
Qed.

(** A state that only exchanges frames. *)
Lemma machine_inv_same c0 st c st' c' :
  machine_inv c0 st c -> machine_step (st, c) (st', c') -> same_conf c c' ->
  match st' with
  | SaslHandler h => offered c0 h c'
  | SaslOutcome | XOAUTH2_step _ => answered c0 st' c'
  | _ => True
  end -> machine_inv c0 st' c'.
Proof.
  intros [H1 H2 H3 H4 H5 _] Hs Hc Hst. unfold same_conf, conf in Hc. injection Hc as Ea Eb Ec Ed.
  constructor; [by eapply rtc_r|congruence|congruence| | |done].
  - rewrite Eb. destruct H4; [by left|right; by eapply accepted_step].
  - rewrite Ed. destruct H5; [by left|right; by eapply handshaken_step].
Qed.

Lemma machine_inv_step c0 st c st' c' :
  machine_inv c0 st c -> machine_step (st, c) (st', c') -> machine_inv c0 st' c'.
Proof.
  intros Hi Hs. pose proof Hi as [H1 H2 H3 H4 H5 H6]. pose proof Hs as E. unfold machine_step in E. cbn [fst snd] in E.
  pose proof (run_state_next _ _ _ _ _ E) as Hn.
  inversion Hn as [Hc|Hc|G1 G2 G3|h Hc|h Hc|h s Hc|stx Hst G1 G2 G3|s s' Hc G1 G2]; subst.
  - apply (machine_inv_same _ _ _ _ _ Hi Hs Hc). by repeat case_match.
  - unfold startTLS in E. cbn [run_state] in E. apply bind_inv in E as (n0 & ca & Ea & E). unfold gets in Ea. simplify_eq.
    apply bind_inv in E as (net & cb & Eb & E). unfold lift in Eb. simplify_eq.
    unfold mbind, M_bind, modify, mret, M_ret in E. simplify_eq.
    assert (handshaken c0 NegotiateProto (set_cn_tlsComplete true (set_cn_net net cb))) as Hh.
    { exists cb, net, (set_cn_tlsComplete true (set_cn_net net cb)). split_and!; [done|done|exact Hs|by destruct cb|apply rtc_refl]. }
    constructor; [by eapply rtc_r|by destruct cb|by destruct cb| |by right|done].
    destruct H4 as [H4|H4]; [left; by destruct cb|right; by eapply accepted_step].
  - apply (machine_inv_same _ _ _ _ _ Hi Hs Hc). by eapply negotiate_offers.
  - apply (machine_inv_same _ _ _ _ _ Hi Hs Hc). exists h, c, SaslOutcome, c'. by split_and!.
  - apply (machine_inv_same _ _ _ _ _ Hi Hs Hc). exists h, c, (XOAUTH2_step s), c'. by split_and!.
  - assert (answered c0 st c) as Ha by (by destruct Hst as [-> | [s ->]]).
    destruct (outcome_accepts c0 st c c' Ha Hst E) as (Hacc & c1 & Hc & ->).
    unfold same_conf, conf in Hc. injection Hc as Ea Eb Ec Ed.
    constructor; [by eapply rtc_r|destruct c1; cbn in *; congruence|destruct c1; cbn in *; congruence|by right| |done].
    destruct H5 as [H5|H5]; [left; destruct c1; cbn in *; congruence|right; by eapply handshaken_step].
  - apply (machine_inv_same _ _ _ _ _ Hi Hs Hc). by eapply answered_step.
Qed.

Lemma start_loop_machine c0 fuel : forall st c c',
  machine_inv c0 st c -> start_loop handshake fuel (Some st) c = (Ok tt, c') ->
  exists st1 c1, machine_inv c0 st1 c1 /\ run_state handshake st1 c1 = (Ok None, c').
Proof.
  induction fuel as [|fuel IH]; intros st c c' Hi E; [done|].
  rewrite start_loop_S in E. destruct (run_state handshake st c) as [[[st'|]|e|p|] c1] eqn:E1; try done.
  - apply (IH st' c1 c'); [|done]. by eapply machine_inv_step.
  - exists st, c. assert (c1 = c') as <- by (destruct fuel; unfold start_loop, mret, M_ret in E; by simplify_eq). done.
Qed.

Lemma start_accepted c c' :
  start handshake c = (Ok tt, c') ->
  cn_saslHandlers c' = cn_saslHandlers c /\ cn_channels c' = Bitmap.New (cn_channelMax c') /\
  exists c1 c2, run_state handshake OpenAMQP c1 = (Ok None, c2) /\
    c' = set_cn_channels (Bitmap.New (cn_channelMax c2)) c2 /\
    rtc machine_step (NegotiateProto, c) (OpenAMQP, c1) /\
    (cn_saslHandlers c <> None -> cn_saslComplete c = false -> accepted c OpenAMQP c1) /\
    (cn_tlsNegotiation c = true -> cn_tlsComplete c = false -> handshaken c OpenAMQP c1).
Proof.
  intros E. destruct (start_inv c c' E) as (Hh & Hs & Ht & Hc). split; [done|]. split; [done|].
  unfold start in E. apply bind_inv in E as ([] & c2 & E1 & E). unfold modify in E. simplify_eq.
  destruct (start_loop_machine c start_fuel NegotiateProto c c2) as (st1 & c1 & [I1 I2 I3 I4 I5 _] & E2); [|done|].
  { constructor; [apply rtc_refl|done|done|by left|by left|done]. }
  pose proof (run_state_next _ _ _ _ _ E2) as Hn. inversion Hn as [|Hcf| | | | | |]; subst.
  assert (cn_saslComplete c1 = cn_saslComplete c2 /\ cn_tlsComplete c1 = cn_tlsComplete c2 /\
    cn_tlsNegotiation c1 = cn_tlsNegotiation c2) as (Es & Et & En).
  { unfold same_conf, conf in Hcf. by simplify_eq. }
  exists c1, c2. split_and!; [done|done|done| |].
  - intros Hne Hf. destruct I4 as [I4|I4]; [|done]. specialize (Hs Hne). destruct c2; cbn in *. congruence.
  - intros Hne Hf. destruct I5 as [I5|I5]; [|done].
    assert (cn_tlsComplete c2 = true) as Hx; [|congruence]. destruct c2. cbn in *. apply Ht. congruence.
Qed.

(** C15: no connection without the configured authentication.  When start
    succeeds on a new connection with SASL handlers, then before it opened the
    connection it had read the peer's mechanisms, run the handler that is
    configured for one of them, which sent a sasl-init, and read a sasl-outcome
    of the peer with the code OK; and when TLS was to be negotiated, the
    handshake had succeeded.  The handlers are unchanged, and the channel
    allocator has the negotiated limit. *)
Theorem start_authenticates c c' :
  start handshake c = (Ok tt, c') ->
  cn_saslHandlers c' = cn_saslHandlers c /\ cn_channels c' = Bitmap.New (cn_channelMax c') /\
  exists c1 c2, run_state handshake OpenAMQP c1 = (Ok None, c2) /\
    c' = set_cn_channels (Bitmap.New (cn_channelMax c2)) c2 /\
    rtc machine_step (NegotiateProto, c) (OpenAMQP, c1) /\
    (cn_saslHandlers c <> None -> cn_saslComplete c = false -> accepted c OpenAMQP c1) /\
    (cn_tlsNegotiation c = true -> cn_tlsComplete c = false -> handshaken c OpenAMQP c1).
Proof. apply start_accepted. Qed.

End Start.

(** A connection with PLAIN authentication and a peer that accepts it. *)
Definition wire (fr : Frame) : bytes := b (Write fr (New [])).2.
Definition plain_net : list (bytes * option error) :=
  chunks [[65; 77; 81; 80; 3; 1; 0; 0];
          wire (sasl_frame (FSASLMechanisms (mkSASLMechanisms [saslMechanismEXTERNAL; saslMechanismPLAIN])));
          wire (sasl_frame (FSASLOutcome (mkSASLOutcome CodeSASLOK [])));
          [65; 77; 81; 80; 0; 1; 0; 0];
          wire (mkFrame TypeAMQP 0 (FOpen (mkOpen [115] [] 512 7 0 [] [] [] [] [])) None)].
Definition plain_conn : Conn :=
  set_cn_saslHandlers (add_handler saslMechanismPLAIN (HPlain [117] [112]) None) (sample_conn plain_net).

Lemma start_authenticates_witness :
  let hs := fun net => Ok net in
  exists c1 c2, run_state hs OpenAMQP c1 = (Ok None, c2) /\
    (start hs plain_conn).2 = set_cn_channels (Bitmap.New (cn_channelMax c2)) c2 /\
    accepted hs plain_conn OpenAMQP c1.
Proof.
  intros hs. destruct (start_authenticates hs plain_conn (start hs plain_conn).2)
    as (_ & _ & c1 & c2 & H1 & H2 & _ & H3 & _); [vm_compute; reflexivity|].
  exists c1, c2. split; [exact H1|]. split; [exact H2|]. apply H3; done.
Defined.

Lemma net_okb_ok net : forallb (fun x => bytes_okb x.1) net = true -> net_ok net.
Proof.
  unfold net_ok. rewrite forallb_forall, List.Forall_forall. intros H x Hx. by apply bytes_okb_ok, H.
Qed.

Lemma start_ends_witness :
  rx_ok plain_conn /\ ends (start (fun net => Ok net) plain_conn).1.
Proof.
  assert (rx_ok plain_conn) as Hok
    by (split_and!; [split; by cbn|constructor|apply net_okb_ok; vm_compute; reflexivity]).
  split; [exact Hok|]. apply (start_ends (fun net => Ok net)); [intros net H; exact H|exact Hok].
Defined.

(** ** Session channels *)

(** The channels in use are the keys of the session map. *)
Record channels_ok (c : Conn) : Prop := mkChannelsOk {
  co_wf : al_wf (cn_channels c);
  co_max : al_max (cn_channels c) = cn_channelMax c;
  co_range : is_u 16 (cn_channelMax c);
  co_used ch : is_Some (cn_sessionsByChannel c !! ch) <-> al_used (cn_channels c) ch;
  co_bound ch : al_used (cn_channels c) ch -> 0 <= ch
}.

Lemma newSession_run p c :
  channels_ok c ->
  match newSession p c with
  | (Ok ch, c') => cn_sessionsByChannel c !! ch = None /\ 0 <= ch <= cn_channelMax c /\
      cn_sessionsByChannel c' = <[ ch := p ]> (cn_sessionsByChannel c) /\ channels_ok c'
  | (Err _, c') => c' = c /\ forall ch, 0 <= ch <= cn_channelMax c -> is_Some (cn_sessionsByChannel c !! ch)
  | _ => False
  end.
Proof.
  intros [Hwf Hmax Hr Hu Hb]. unfold newSession. unfold mbind, M_bind, gets, modify, mret, M_ret.
  destruct (Bitmap.Next (cn_channels c)) as [[n []] h] eqn:En.
  - destruct (@al_next_ok _ Bitmap.Bitmap_allocator (cn_channels c) _ _ Hwf En) as (H1 & H2 & H3 & H4 & H5).
    cbn in *. rewrite Hmax in *. rewrite u16_small by (unfold is_u in *; lia).
    destruct c. cbn in *. split_and!; [|lia|lia|done|].
    + apply eq_None_not_Some. by rewrite Hu.
    + constructor; cbn; [done|by rewrite H4|done| |].
      * intros ch. rewrite H3, <- Hu, lookup_insert_is_Some. destruct (decide (ch = n)); naive_solver.
      * intros ch. rewrite H3. intros [-> |]; [lia|by apply Hb].
  - destruct (@al_next_full _ Bitmap.Bitmap_allocator (cn_channels c) _ _ Hwf En) as [-> Hall]. cbn in *.
    rewrite Hmax in Hall. split; [by destruct c|]. intros ch Hch. apply Hu. by apply Hall.
Qed.

Lemma deleteSession_ok ch p c :
  channels_ok c -> cn_sessionsByChannel c !! ch = Some p -> channels_ok (deleteSession ch c).2.
Proof.
  intros [Hwf Hmax Hr Hu Hb] Hp. assert (0 <= ch) as H0 by (apply Hb, Hu; by eexists).
  destruct (@al_free_ok _ Bitmap.Bitmap_allocator (cn_channels c) ch Hwf H0) as (G1 & G2 & G3). cbn in G1, G2, G3.
  assert (cn_channels (deleteSession ch c).2 = Bitmap.Remove (cn_channels c) ch
          /\ cn_sessionsByChannel (deleteSession ch c).2 = delete ch (cn_sessionsByChannel c)
          /\ cn_channelMax (deleteSession ch c).2 = cn_channelMax c) as (E1 & E2 & E3) by (by destruct c).
  constructor; rewrite ?E1, ?E2, ?E3; [exact G3|exact (eq_trans G2 Hmax)|exact Hr| |].
  - intros k. rewrite lookup_delete_is_Some, Hu. change (al_used (Bitmap.Remove (cn_channels c) ch) k)
      with (Bitmap.mem (Bitmap.Remove (cn_channels c) ch) k = true). rewrite G1. naive_solver.
  - intros k Hk. apply G1 in Hk as [_ Hk]. by apply Hb.
Qed.

(** Sessions are created and deleted; other operations leave the maps alone. *)
Inductive chan_step : Conn -> Conn -> Prop :=
| cs_new p x c c' : newSession p c = (x, c') -> chan_step c c'
| cs_delete ch p c c' :
    cn_sessionsByChannel c !! ch = Some p -> deleteSession ch c = (Ok tt, c') -> chan_step c c'.

Lemma chan_step_ok c c' : chan_step c c' -> channels_ok c -> channels_ok c'.
Proof.
  intros [p x c1 c2 E|ch p c1 c2 Hp E] Hok.
  - pose proof (newSession_run p c1 Hok) as H. rewrite E in H. destruct x; try done; [by destruct H as (_ & _ & _ & ?)|].
    by destruct H as [-> _].
  - pose proof (deleteSession_ok ch p c1 Hok Hp) as H. by rewrite E in H.
Qed.

Lemma fresh_channels c :
  cn_channels c = Bitmap.New (cn_channelMax c) -> is_u 16 (cn_channelMax c) -> cn_sessionsByChannel c = ∅ ->
  channels_ok c.
Proof.
  intros Hc Hr Hs. constructor; rewrite ?Hc, ?Hs; cbn; try done.
  - apply Bitmap.New_wf. unfold is_u in *. lia.
  - intros ch. rewrite Bitmap.mem_New, lookup_empty. split; [by intros [? ?]|done].
  - intros ch. by rewrite Bitmap.mem_New.
Qed.

(** C21: session channels are unique.  Whatever sessions have been created and
    deleted on a connection that was started, a new session gets a channel that
    no other session has, within the negotiated channel-max, and is registered
    under it; it is refused only when all channels are in use. *)
Theorem channels_unique c0 c p :
  cn_channels c0 = Bitmap.New (cn_channelMax c0) -> is_u 16 (cn_channelMax c0) ->
  cn_sessionsByChannel c0 = ∅ -> rtc chan_step c0 c ->
  match newSession p c with
  | (Ok ch, c') => cn_sessionsByChannel c !! ch = None /\ 0 <= ch <= cn_channelMax c /\
      cn_sessionsByChannel c' = <[ ch := p ]> (cn_sessionsByChannel c)
  | (Err _, c') => c' = c /\ forall ch, 0 <= ch <= cn_channelMax c -> is_Some (cn_sessionsByChannel c !! ch)
  | _ => False
  end.
Proof.
  intros Hc Hr Hs Hst. assert (channels_ok c0) as H0 by (by apply fresh_channels).
  assert (channels_ok c) as Hok by (clear - H0 Hst; induction Hst; eauto using chan_step_ok).
  pose proof (newSession_run p c Hok) as H. destruct (newSession p c) as [[ch|e|q|] c']; try done.
  by destruct H as (? & ? & ? & _).
Qed.

Lemma channels_unique_witness :
  match newSession 11 (newSession 10 (sample_conn [])).2 with
  | (Ok ch, c') => cn_sessionsByChannel (newSession 10 (sample_conn [])).2 !! ch = None /\
      0 <= ch <= cn_channelMax (newSession 10 (sample_conn [])).2 /\
      cn_sessionsByChannel c' = <[ ch := 11 ]> (cn_sessionsByChannel (newSession 10 (sample_conn [])).2)
  | (Err _, c') => c' = (newSession 10 (sample_conn [])).2 /\
      forall ch, 0 <= ch <= cn_channelMax (newSession 10 (sample_conn [])).2 ->
        is_Some (cn_sessionsByChannel (newSession 10 (sample_conn [])).2 !! ch)
  | _ => False
  end.
Proof.
  apply (channels_unique (sample_conn []) (newSession 10 (sample_conn [])).2 11);
    [reflexivity|by vm_compute|reflexivity|].
  apply rtc_once. eapply (cs_new 10). vm_compute. reflexivity.
Defined.

(** ** Closing *)

(** C39: what a closed connection reports.  An error that the peer sent with its
    close is reported as the remote error, whatever else went wrong; otherwise an
    error of the writer; otherwise an error of the reader, unless it is that the
    network was closed, which is what closing the connection causes; otherwise
    the error of closing the network; and Close returns nil exactly when there
    was none of these. *)
Theorem close_reports closeErr c :
  cn_rxErr c <> Some EAmqpNil ->
  (forall e, cn_rxErr c = Some (EAmqp e) -> Close_result (close closeErr c) = Some (EConn (Some e) None)) /\
  (forall e, cn_txErr c = Some e -> (forall r, cn_rxErr c <> Some (EAmqp r)) ->
     Close_result (close closeErr c) = Some (EConn None (Some e))) /\
  (forall e, cn_rxErr c = Some e -> e <> ENetClosed -> (forall r, e <> EAmqp r) -> cn_txErr c = None ->
     Close_result (close closeErr c) = Some (EConn None (Some e))) /\
  (forall e, closeErr = Some e -> cn_txErr c = None -> cn_rxErr c = None \/ cn_rxErr c = Some ENetClosed ->
     Close_result (close closeErr c) = Some (EConn None (Some e))) /\
  (Close_result (close closeErr c) = None <->
   cn_txErr c = None /\ closeErr = None /\ (cn_rxErr c = None \/ cn_rxErr c = Some ENetClosed)).
Proof.
  intros Hn. unfold Close_result, close.
  destruct c. cbn in *. destruct cn_rxErr0 as [[]|], cn_txErr0 as [?|], closeErr as [?|]; cbn;
    split_and!; naive_solver.
Qed.

(** The reader's "connection closed" does not hide the error of the network. *)
Lemma close_reports_witness :
  let c := set_cn_rxErr (Some ENetClosed) (sample_conn []) in
  Close_result (close (Some (EText EOF)) c) = Some (EConn None (Some (EText EOF))) /\
  (Close_result (close None c) = None <->
   cn_txErr c = None /\ @None goerr = None /\ (cn_rxErr c = None \/ cn_rxErr c = Some ENetClosed)).
Proof.
  intros c. split; [|apply (close_reports None c); done].
  apply (close_reports (Some (EText EOF)) c); [done|done|done|by right].
Defined.

(** ** Authentication data *)

(** The fields between the bytes 0x01. *)
Fixpoint fields_of (l : bytes) : list bytes :=
  match l with
  | [] => [[]]
  | c :: l =>
      if c =? 1 then [] :: fields_of l
      else match fields_of l with f :: fs => (c :: f) :: fs | [] => [[c]] end
  end.

Lemma fields_of_app f l :
  existsb (fun c => c =? 1) f = false -> fields_of (f ++ 1 :: l) = f :: fields_of l.
Proof.
  induction f as [|c f IH]; cbn; [done|]. intros H. apply orb_false_iff in H as [H1 H2]. rewrite H1.
  change (f ++ 1 :: l) with (f ++ 1 :: l). by rewrite IH.
Qed.

(** The XOAUTH2 response cannot be forged by its parts: whatever user name
    and token are accepted, the response consists of exactly the two fields
    user and auth with these values, then two empty ones. *)
Theorem xoauth2_fields username bearer r :
  saslXOAUTH2InitialResponse username bearer = Ok r ->
  fields_of r = [bytes_of_string "user=" ++ username; bytes_of_string "auth=Bearer " ++ bearer; []; []].
Proof.
  unfold saslXOAUTH2InitialResponse. destruct (_ =? 0); [done|].
  destruct (existsb _ bearer) eqn:Hb; [done|]. destruct (existsb _ username) eqn:Hu; [done|].
  intros E. assert (r = (bytes_of_string "user=" ++ username) ++ 1 :: (bytes_of_string "auth=Bearer " ++ bearer) ++ 1 :: [1])
    as -> by (injection E as <-; by rewrite <- !app_assoc). clear E.
  assert (existsb (fun c => c =? 1) bearer = false) as Hb1.
  { clear - Hb. induction bearer as [|c l IH]; [done|]. cbn in *. apply orb_false_iff in Hb as [H1 H2].
    rewrite IH by done. lia. }
  rewrite !fields_of_app; [done| |]; rewrite existsb_app; [by rewrite Hb1|by rewrite Hu].
Qed.

Lemma xoauth2_fields_witness :
  fields_of ([117; 115; 101; 114; 61; 98; 111; 98; 1] ++ bytes_of_string "auth=Bearer tok" ++ [1; 1])
  = [bytes_of_string "user=" ++ [98; 111; 98]; bytes_of_string "auth=Bearer " ++ [116; 111; 107]; []; []].
Proof. apply (xoauth2_fields [98; 111; 98] [116; 111; 107]). vm_compute. reflexivity. Defined.

(** A maximum frame size of exactly 512, the least value that is allowed,
    is not applied: the connection keeps the default of 65536. *)
Theorem newConn_ignores_512 cid net :
  exists c, newConn cid net (Some (mkConnOptions [] [] 0 512 0 None None 0)) = Ok c /\
    cn_maxFrameSize c = defaultMaxFrameSize.
Proof. by eexists. Qed.

End Establish.
