(* ===== verification/Transport.v ===== *)
(** * Transport: what one connection writes, the other dispatches

    The writer of one connection and the reader of the other, with a network
    between them that splits and joins the bytes as it likes.  The reader hands
    the sessions exactly the frames that were written, in order; which session
    gets a frame depends on its channel only. *)

From S2P Require Import Prelude Bitmap Buffer Types Encode Decode Wire CodecSafety CodecRoundtrip FieldRoundtrip Frames Parsing FrameRoundtrip Message Link Sasl Conn ConnSpec Establish.
Import Buffer Encode Decode Wire CodecRoundtrip FieldRoundtrip Frames Parsing FrameRoundtrip Errors Sasl.
Import Conn ConnSpec Establish.

Module Transport.

(** ** The abstract reader: a function of the frames *)

(** The frames that sessions get, the table of remote channels or [None] when the
    reader has ended, and the error it left. *)
Fixpoint dispatch_all (sessions : Conn) (frs : list Frame) (byRemote : gmap Z Z)
  : list (Z * Frame) * option (gmap Z Z) * option goerr :=
  match frs with
  | [] => ([], Some byRemote, cn_rxErr sessions)
  | fr :: frs =>
      match connReader_dispatch fr byRemote sessions with
      | (RxReturn, _) => ([], None, cn_rxErr sessions)
      | (RxErr e, _) => ([], None, Some e)
      | (RxToSession p fr, byRemote) =>
          let '(out, t, e) := dispatch_all sessions frs byRemote in ((p, fr) :: out, t, e)
      end
  end.

(** ** What is written *)

(** A frame that fits the peer. *)
Definition fits (c : Conn) (fr : Frame) : Prop :=
  body_ok (Body fr) = true /\ is_u 8 (Type_ fr) /\ is_u 16 (Channel fr) /\
  exists body, Encodes (FrameBody_Marshal (Body fr)) body /\
    8 + zlen body <= Z.min (cn_peerMaxFrameSize c) MaxInt32.

Definition frame_of (ev : tx_event) : option Frame :=
  match ev with TxFrame fr => Some fr | _ => None end.

(** An event of a writer that goes on. *)
Definition sends (c : Conn) (ev : tx_event) : Prop :=
  match ev with
  | TxFrame fr => fits c fr
  | TxKeepalive => True
  | TxExit => False
  end.

(** The bytes of an event. *)
Definition piece (c : Conn) (ev : tx_event) (p : bytes) : Prop :=
  match ev with
  | TxFrame fr => fits c fr /\ exists body, Encodes (FrameBody_Marshal (Body fr)) body /\ p = frame_bytes fr body
  | TxKeepalive => p = if keepaliveInterval c >? 0 then keepaliveFrame else []
  | TxExit => False
  end.

(** What matters of a connection to the writer. *)
Definition same_writer (c c' : Conn) : Prop :=
  cn_peerMaxFrameSize c' = cn_peerMaxFrameSize c /\ cn_peerIdleTimeout c' = cn_peerIdleTimeout c /\
  cn_netWrites c' = [].

Lemma fits_same c c' fr : same_writer c c' -> fits c' fr -> fits c fr.
Proof. intros (E & _ & _). unfold fits. by rewrite E. Qed.
Lemma piece_same c c' ev p : same_writer c c' -> piece c' ev p -> piece c ev p.
Proof.
  intros Hs. destruct ev; cbn; [|destruct Hs as (_ & E & _); unfold keepaliveInterval; by rewrite E|done].
  intros [Hf Hb]. split; [by eapply fits_same|done].
Qed.
Lemma sends_same c c' ev : same_writer c c' -> sends c ev -> sends c' ev.
Proof. intros (E & _ & _). destruct ev; try done. cbn. unfold fits. by rewrite E. Qed.

Lemma written_snoc (ws : list bytes) p : concat (ws ++ [p]) = concat ws ++ p.
Proof. rewrite concat_app. cbn. by rewrite app_nil_r. Qed.

Lemma connWriter_step_sends ev c :
  cn_netWrites c = [] -> sends c ev ->
  exists p c', connWriter_step ev c = (Ok (true, frame_of ev ≫= Done), c') /\ same_writer c c' /\
    piece c ev p /\ concat (cn_written c') = concat (cn_written c) ++ p.
Proof.
  intros Hw Hs. destruct ev as [fr| |]; cbn [sends] in Hs; [| |done].
  - pose proof Hs as (Hok & Ht & Hc & body & He & Hm). unfold MaxInt32 in Hm.
    exists (frame_bytes fr body), (wrote (frame_bytes fr body) c).
    cbn [connWriter_step]. rewrite (writeFrame_run fr body c He ltac:(lia) Hw), zlen_frame_bytes.
    replace (_ <=? _) with true by lia. split_and!; [done|by destruct c|by split; [|exists body]|].
    replace (cn_written (wrote _ c)) with (cn_written c ++ [frame_bytes fr body]) by (by destruct c).
    apply written_snoc.
  - cbn [connWriter_step piece]. destruct (keepaliveInterval c >? 0).
    + exists keepaliveFrame. eexists. unfold writeNet. rewrite Hw. split; [reflexivity|].
      destruct c. split_and!; [done|done|]. apply written_snoc.
    + exists [], c. by rewrite app_nil_r.
Qed.

Lemma connWriter_loop_sends evs c :
  cn_netWrites c = [] -> Forall (sends c) evs ->
  exists ps c', connWriter_loop evs c = (Ok (true, omap Done (omap frame_of evs)), c') /\
    Forall2 (piece c) evs ps /\ concat (cn_written c') = concat (cn_written c) ++ concat ps.
Proof.
  intros Hw Hs. revert c Hw Hs. induction evs as [|ev evs IH]; intros c Hw Hs.
  - exists [], c. by rewrite app_nil_r.
  - apply Forall_cons in Hs as [Hev Hs]. cbn [connWriter_loop].
    destruct (connWriter_step_sends ev c Hw Hev) as (p & c1 & -> & Hsame & Hp & Ew).
    destruct (IH c1) as (ps & c2 & -> & Hps & Ew2).
    { apply Hsame. } { eapply Forall_impl; [exact Hs|]. intros e. by apply sends_same. }
    exists (p :: ps), c2. split_and!.
    + destruct ev as [fr| |]; cbn; [destruct (Done fr)|..]; done.
    + constructor; [done|]. eapply Forall2_impl; [exact Hps|]. intros e q. by apply piece_same.
    + by rewrite Ew2, Ew, <- app_assoc.
Qed.

(** ** What is read *)

(** The frame as it arrives: type and Done channel are not transmitted. *)
Definition arrival (fr : Frame) : Frame := mkFrame 0 (Channel fr) (norm_body (Body fr)) None.

Lemma dispatch_io fr byRemote c pre un net :
  connReader_dispatch fr byRemote (io c pre un net) = connReader_dispatch fr byRemote c.
Proof. by destruct c. Qed.

Lemma frame_read c w fr p pre un qs tl k rest :
  piece w (TxFrame fr) p -> un ++ concat qs = concat (replicate k keepaliveFrame) ++ p ++ rest ->
  (forall body, Encodes (FrameBody_Marshal (Body fr)) body -> arrives body rest qs) ->
  exists pre' un' qs', readFrame (io c pre un (chunks qs ++ tl))
    = (Ok (arrival fr), io c pre' un' (chunks qs' ++ tl)) /\ un' ++ concat qs' = rest /\ qs' `suffix_of` qs.
Proof.
  intros [(Hok & Ht & Hc & body & He & Hm) (body' & He' & ->)] E Ha. unfold MaxInt32 in Hm.
  rewrite (Encodes_unique _ _ _ He' He) in E. unfold frame_bytes in E. rewrite <- app_assoc in E.
  pose proof (body_nonempty _ _ Hok He) as H0.
  destruct (body_rt (Body fr) Hok) as (body2 & He2 & Hp). rewrite (Encodes_unique _ _ _ He2 He) in Hp.
  apply (readFrame_io c pre un qs tl k (Type_ fr) (Channel fr) body rest (norm_body (Body fr)));
    [done|done|done|done|unfold MaxInt32; lia|by apply Ha|]. apply (Hp ltac:(lia) []).
Qed.

(** The end of what is written arrives: a frame has eight bytes of body, or
    another frame or eight more bytes [more] follow it, or its whole body comes
    with the network's last read, which also brings a part of its header. *)
Definition tail_arrives (evs : list tx_event) (more : bytes) (qs : list bytes) : Prop :=
  forall evs1 fr evs2 body, evs = evs1 ++ TxFrame fr :: evs2 -> Encodes (FrameBody_Marshal (Body fr)) body ->
    8 <= zlen body \/ 8 <= zlen more \/ (exists fr', TxFrame fr' ∈ evs2) \/
    match last qs with Some q => zlen (body ++ more) < zlen q | None => True end.

Lemma tail_arrives_cons ev evs more qs qs' :
  tail_arrives (ev :: evs) more qs -> qs' `suffix_of` qs -> tail_arrives evs more qs'.
Proof.
  intros H Hs evs1 fr evs2 body -> He.
  destruct (H (ev :: evs1) fr evs2 body eq_refl He) as [?|[?|[?|Hq]]]; [by left|by right; left|by right; right; left|].
  right. right. right. by destruct (last_suffix _ _ Hs) as [-> | ->].
Qed.

Lemma piece_frame_long w fr p : piece w (TxFrame fr) p -> 8 <= zlen p.
Proof. intros [_ (body & _ & ->)]. rewrite zlen_frame_bytes. pose proof (zlen_nonneg body). lia. Qed.

Lemma piece_keepalives w evs ps :
  Forall2 (piece w) evs ps -> (forall fr, TxFrame fr ∉ evs) -> concat ps = [] \/ 8 <= zlen (concat ps).
Proof.
  induction 1 as [|ev p evs ps Hp _ IH]; intros Hn; [by left|]. destruct ev as [fr| |]; [by destruct (Hn fr); left| |done].
  cbn in Hp |- *. rewrite zlen_app. pose proof (zlen_nonneg (concat ps)). subst p.
  destruct (keepaliveInterval w >? 0); [right; change (zlen keepaliveFrame) with 8; lia|].
  apply IH. intros fr Hf. apply (Hn fr). by right.
Qed.

Lemma piece_frames w evs ps :
  Forall2 (piece w) evs ps -> (forall fr, TxFrame fr ∉ evs) \/ 8 <= zlen (concat ps).
Proof.
  induction 1 as [|ev p evs ps Hp _ [IH|IH]]; [left; set_solver| |].
  - destruct ev as [fr| |]; [right|left; set_solver|done].
    cbn. rewrite zlen_app. apply piece_frame_long in Hp. pose proof (zlen_nonneg (concat ps)). lia.
  - right. cbn. rewrite zlen_app. pose proof (zlen_nonneg p). lia.
Qed.

(** The first frame of a sequence whose tail arrives does. *)
Lemma tail_arrives_frame w fr evs ps more qs body :
  tail_arrives (TxFrame fr :: evs) more qs -> Forall2 (piece w) evs ps ->
  Encodes (FrameBody_Marshal (Body fr)) body -> arrives body (concat ps ++ more) qs.
Proof.
  intros H Hp He. unfold arrives. rewrite !zlen_app.
  pose proof (zlen_nonneg body). pose proof (zlen_nonneg more). pose proof (zlen_nonneg (concat ps)).
  assert ((forall fr', TxFrame fr' ∉ evs) \/ 8 <= zlen (concat ps)) as [Hno|Hl]; [|destruct (piece_keepalives w evs ps Hp Hno) as [E|]|].
  { by eapply piece_frames. }
  - rewrite E. change (zlen (@nil Z)) with 0. destruct (H [] fr evs body eq_refl He) as [?|[?|[[fr' Hf]|Hq]]];
      [left; lia|left; lia|by destruct (Hno fr')|right]. destruct (last qs); [|done]. rewrite zlen_app in Hq. lia.
  - left. lia.
  - left. lia.
Qed.

(** However the bytes are split, reading them is dispatching the frames. *)
Lemma reader_dispatches c w tl more evs ps :
  Forall2 (piece w) evs ps -> forall k pre un qs byRemote,
  un ++ concat qs = concat (replicate k keepaliveFrame) ++ concat ps ++ more -> tail_arrives evs more qs ->
  let frs := map arrival (omap frame_of evs) in
  let '(out, table, err) := dispatch_all c frs byRemote in
  exists c', connReader_loop (replicate (length frs) true) byRemote (io c pre un (chunks qs ++ tl))
    = (Ok (out, bool_decide (table <> None)), c') /\ cn_rxErr c' = err.
Proof.
  induction 1 as [|ev p evs ps Hp Hps IH]; intros k pre un qs byRemote E Ha.
  { cbn. eexists. split; [done|]. by destruct c. }
  destruct ev as [fr| |]; [| |done].
  - cbn [omap list_omap frame_of map length replicate dispatch_all connReader_loop]. cbn [concat] in E.
    rewrite <- (app_assoc p) in E.
    destruct (frame_read c w fr p pre un qs tl k (concat ps ++ more) Hp E) as (pre' & un' & qs' & Er & E' & Hs).
    { intros body He. by eapply tail_arrives_frame. }
    unfold connReader_step. rewrite Er, dispatch_io.
    destruct (connReader_dispatch (arrival fr) byRemote c) as [[|e|q fr'] byRemote'].
    + eexists. split; [done|]. by destruct c.
    + eexists. split; [done|]. by destruct c.
    + specialize (IH 0%nat pre' un' qs' byRemote' E' (tail_arrives_cons _ _ _ _ _ Ha Hs)). cbn zeta in IH.
      destruct (dispatch_all c _ byRemote') as [[out table] err]. destruct IH as (c' & Ec & Ee).
      exists c'. by rewrite Ec.
  - cbn [omap list_omap frame_of]. cbn [concat piece] in Hp, E.
    apply (IH (if keepaliveInterval w >? 0 then S k else k) pre un qs);
      [|by apply (tail_arrives_cons _ _ _ _ _ Ha)].
    rewrite E, Hp. destruct (keepaliveInterval w >? 0); [|done]. rewrite replicate_S_end, concat_app. cbn [concat].
    by rewrite app_nil_r, <- !app_assoc.
Qed.

(** ** Two connections *)

(** C2: what one connection writes is what the sessions of the other get.  The
    writer takes frames and keepalives in any order; it writes all of them and
    closes the Done channels of the frames, in order.  When the bytes reach the
    other connection, behind each other but split and joined in any way, its
    reader hands over exactly those frames, in order and each once, to the
    sessions that the table of channels names, or stops where that table or a
    Close tells it to.  Only a frame with a body of less than eight bytes (an End
    or a Close without an error) at the very end of what arrives must not be
    split after its header ([tail_arrives]). *)
Theorem connection_transports c1 evs :
  cn_netWrites c1 = [] -> Forall (sends c1) evs ->
  exists sent c1',
    connWriter evs c1 = (Ok (true, omap Done (omap frame_of evs)), c1') /\
    concat (cn_written c1') = concat (cn_written c1) ++ sent /\
    forall c2 qs more tl, cn_rxBuf c2 = New [] -> cn_net c2 = chunks qs ++ tl -> concat qs = sent ++ more ->
      tail_arrives evs more qs ->
      let frs := map arrival (omap frame_of evs) in
      let '(out, table, err) := dispatch_all c2 frs ∅ in
      exists c2', connReader (replicate (length frs) true) c2 = (Ok (out, bool_decide (table <> None)), c2') /\
        cn_rxErr c2' = err.
Proof.
  intros Hw Hs. set (c0 := connWriter_start c1).
  assert (same_writer c1 c0 /\ cn_written c0 = cn_written c1) as [Hsame Ew0].
  { unfold c0, connWriter_start. case_match; by destruct c1. }
  destruct (connWriter_loop_sends evs c0) as (ps & c1' & Er & Hp & Ew).
  { apply Hsame. } { eapply Forall_impl; [exact Hs|]. intros e. by apply sends_same. }
  exists (concat ps), c1'. split; [exact Er|]. split; [by rewrite Ew, Ew0|].
  intros c2 qs more tl Hb Hn E Ha. pose proof (reader_dispatches c2 c0 tl more evs ps Hp 0%nat [] [] qs ∅ E Ha) as H.
  rewrite <- (io_eta c2 [] [] (chunks qs ++ tl) Hb Hn) in H. exact H.
Qed.

(** A flow, a keepalive, an End without an error and another flow. *)
Definition sample_flow_frame (ch : Z) : Frame :=
  mkFrame TypeAMQP ch (FFlow (mkFlow (Some 0) 7 0 7 None None None None false true [])) (Some (40 + ch)).
Definition sample_end_frame (ch : Z) : Frame := mkFrame TypeAMQP ch (FEnd (mkEnd None)) None.
Definition sample_events : list tx_event :=
  [TxFrame (sample_flow_frame 1); TxKeepalive; TxFrame (sample_end_frame 1); TxFrame (sample_flow_frame 2)].
Definition two_sessions : Conn := set_cn_peerIdleTimeout 10 (sample_conn []).

Definition sample_flow_bytes : bytes :=
  [0; 83; 19; 208; 0; 0; 0; 16; 0; 0; 0; 10; 67; 82; 7; 67; 82; 7; 64; 64; 64; 64; 64; 65].

Lemma sample_flow_encodes ch : Encodes (FrameBody_Marshal (Body (sample_flow_frame ch))) sample_flow_bytes.
Proof.
  destruct (body_rt (Body (sample_flow_frame ch)) eq_refl) as (body & He & _).
  apply (Encodes_eval _ body); [done|]. vm_compute. reflexivity.
Qed.
Lemma sample_end_encodes ch : Encodes (FrameBody_Marshal (Body (sample_end_frame ch))) [0; 83; 23; 69].
Proof.
  destruct (body_rt (Body (sample_end_frame ch)) eq_refl) as (body & He & _).
  apply (Encodes_eval _ body); [done|]. vm_compute. reflexivity.
Qed.

Lemma sample_sends : Forall (sends two_sessions) sample_events.
Proof.
  repeat constructor; try done; eexists; (split; [apply sample_flow_encodes || apply sample_end_encodes|by vm_compute]).
Qed.

Lemma sample_tail qs : tail_arrives sample_events [] qs.
Proof.
  intros evs1 fr evs2 body E He. unfold sample_events in E.
  assert (In (TxFrame (sample_flow_frame 2)) evs2 \/ fr = sample_flow_frame 2) as [Hi| ->].
  { destruct evs1 as [|? [|? [|? [|? [|]]]]]; cbn in E; simplify_eq; cbn; auto. }
  - right. right. left. eexists. by apply list_elem_of_In.
  - left. by rewrite (Encodes_unique _ _ _ He (sample_flow_encodes 2)).
Qed.

Lemma connection_transports_witness :
  exists sent c1',
    connWriter sample_events two_sessions = (Ok (true, [41; 42]), c1') /\
    concat (cn_written c1') = concat (cn_written two_sessions) ++ sent /\
    forall c2 qs, cn_rxBuf c2 = New [] -> cn_net c2 = chunks qs ++ [] -> concat qs = sent ++ [] ->
      let frs := map arrival [sample_flow_frame 1; sample_end_frame 1; sample_flow_frame 2] in
      let '(out, table, err) := dispatch_all c2 frs ∅ in
      exists c2', connReader (replicate (length frs) true) c2 = (Ok (out, bool_decide (table <> None)), c2') /\
        cn_rxErr c2' = err.
Proof.
  destruct (connection_transports two_sessions sample_events) as (sent & c1' & H1 & H2 & H3);
    [done|exact sample_sends|].
  exists sent, c1'. split; [exact H1|]. split; [exact H2|]. intros c2 qs Hb Hn E.
  apply (H3 c2 qs [] [] Hb Hn E (sample_tail qs)).
Defined.

(** ** Sessions do not see each other *)

(** The frames on one channel. *)
Definition on (ch : Z) (frs : list Frame) : list Frame := List.filter (fun fr => Channel fr =? ch) frs.
Definition got_on (ch : Z) (out : list (Z * Frame)) : list (Z * Frame) :=
  List.filter (fun x => Channel x.2 =? ch) out.

(** Dispatching a frame depends on its own channel only, and changes only the
    entry of that channel. *)
Lemma dispatch_local fr t c p fr' t' :
  connReader_dispatch fr t c = (RxToSession p fr', t') ->
  fr' = fr /\ (forall ch, ch <> Channel fr -> t' !! ch = t !! ch) /\
  forall t1, t1 !! Channel fr = t !! Channel fr ->
    exists t1', connReader_dispatch fr t1 c = (RxToSession p fr, t1') /\ t1' !! Channel fr = t' !! Channel fr.
Proof.
  intros E. unfold connReader_dispatch in *. destruct (Body fr);
    try (destruct (t !! Channel fr) as [q|] eqn:Et; simplify_eq; split_and!; [done|done|];
         intros t1 E1; rewrite E1; eexists; split; [reflexivity|]; congruence).
  - destruct (b_RemoteChannel _); [|done]. destruct (cn_sessionsByChannel c !! _); simplify_eq.
    split_and!; [done|intros ch Hne; by rewrite lookup_insert_ne by done|].
    intros t1 _. eexists. split; [reflexivity|]. by rewrite !lookup_insert_eq.
  - destruct (t !! Channel fr) as [q|] eqn:Et; simplify_eq.
    split_and!; [done|intros ch Hne; by rewrite lookup_delete_ne by done|].
    intros t1 ->. eexists. split; [reflexivity|]. by rewrite !lookup_delete_eq.
  - by destruct (c_Error _).
Qed.

(** As long as the reader goes on, what sessions get from one channel is what they
    would get if no frame had arrived on any other. *)
Lemma dispatch_isolated c ch frs : forall t t1 out t' e,
  dispatch_all c frs t = (out, Some t', e) -> t1 !! ch = t !! ch ->
  exists t1', dispatch_all c (on ch frs) t1 = (got_on ch out, Some t1', e) /\ t1' !! ch = t' !! ch /\
    map snd (got_on ch out) = on ch frs.
Proof.
  induction frs as [|fr frs IH]; intros t t1 out t' e E Ht; cbn [dispatch_all] in E.
  { simplify_eq. by exists t1. }
  destruct (connReader_dispatch fr t c) as [[|e'|p fr'] t2] eqn:Ed; [done|done|].
  destruct (dispatch_all c frs t2) as [[out2 t3] e2] eqn:E2. simplify_eq.
  apply dispatch_local in Ed as (-> & Hother & Hsame). cbn [on got_on List.filter snd].
  fold (on ch frs) (got_on ch out2).
  destruct (Z.eqb_spec (Channel fr) ch) as [Hch|Hne].
  - rewrite Hch in Hsame. destruct (Hsame t1 Ht) as (t1' & Ed1 & Et1). cbn [dispatch_all]. rewrite Ed1.
    destruct (IH _ _ _ _ _ E2 Et1) as (t1'' & -> & Et & Em). exists t1''. split_and!; [done|done|].
    cbn [map snd]. by rewrite Em.
  - apply (IH _ _ _ _ _ E2). rewrite Ht. symmetry. by apply Hother.
Qed.

(** A frame begins or ends a session. *)
Definition begins (c : Conn) (fr : Frame) (p : Z) : Prop :=
  exists b r, Body fr = FBegin b /\ b_RemoteChannel b = Some r /\ cn_sessionsByChannel c !! r = Some p.
Definition bounds (fr : Frame) : bool := match Body fr with FBegin _ | FEnd _ => true | _ => false end.

(** After the frames [before], the channel [ch] belongs to the session [p]: a Begin
    on [ch] named the local channel of [p], and since then there was neither an
    End nor another Begin on [ch]. *)
Definition open_on (c : Conn) (before : list Frame) (ch p : Z) : Prop :=
  exists bg mid a, before = a ++ bg :: mid /\ Channel bg = ch /\ begins c bg p /\
    forall f, f ∈ mid -> Channel f = ch -> bounds f = false.

(** The session a frame is for. *)
Definition recipient (c : Conn) (before : list Frame) (fr : Frame) (p : Z) : Prop :=
  match Body fr with
  | FClose _ => False
  | FBegin _ => begins c fr p
  | _ => open_on c before (Channel fr) p
  end.

Lemma open_on_snoc c before fr ch p :
  open_on c (before ++ [fr]) ch p <->
  (Channel fr = ch /\ begins c fr p) \/ ((Channel fr = ch -> bounds fr = false) /\ open_on c before ch p).
Proof.
  split.
  - intros (bg & mid & a & E & Hc & Hb & Hm). destruct mid as [|f mid _] using rev_ind.
    + apply app_inj_tail in E as [-> ->]. by left.
    + rewrite app_comm_cons, app_assoc in E. apply app_inj_tail in E as [-> ->]. right.
      split; [apply Hm; set_solver|]. exists bg, mid, a. split_and!; try done. intros x Hx. apply Hm. set_solver.
  - intros [[Hc Hb]|[Hf (bg & mid & a & -> & Hc & Hb & Hm)]].
    + exists fr, [], before. split_and!; try done. intros ? ?. set_solver.
    + exists bg, (mid ++ [fr]), a. split_and!; [by rewrite <- app_assoc|done|done|].
      intros f [Hx|Hx%list_elem_of_singleton]%elem_of_app; [by apply Hm|by subst].
Qed.

Lemma open_on_nil c ch p : ~ open_on c [] ch p.
Proof. intros (bg & mid & a & E & _). by destruct a. Qed.

(** The table of the reader holds exactly the open channels. *)
Definition table_ok (c : Conn) (before : list Frame) (t : gmap Z Z) : Prop :=
  forall ch p, t !! ch = Some p <-> open_on c before ch p.

(** Dispatching finds the recipient, or there is none and the reader stops. *)
Lemma dispatch_recipient c before t fr :
  table_ok c before t ->
  match connReader_dispatch fr t c with
  | (RxToSession p fr', t') => fr' = fr /\ recipient c before fr p /\ table_ok c (before ++ [fr]) t'
  | _ => forall p, ~ recipient c before fr p
  end.
Proof.
  intros Ht. unfold table_ok in Ht. unfold connReader_dispatch, recipient.
  assert (forall q, bounds fr = false -> t !! Channel fr = Some q ->
            fr = fr /\ open_on c before (Channel fr) q /\ table_ok c (before ++ [fr]) t) as Hplain.
  { intros q Hb E. split_and!; [done|by apply Ht|]. intros ch p'. rewrite open_on_snoc, (Ht ch p'). unfold begins, bounds in *.
    destruct (Body fr); naive_solver. }
  assert (t !! Channel fr = None -> forall p, ~ open_on c before (Channel fr) p) as Hnone.
  { intros E p Ho. apply Ht in Ho. congruence. }
  unfold bounds in Hplain. destruct (Body fr) eqn:Eb;
    try (destruct (t !! Channel fr) as [q|] eqn:E; [by apply Hplain|by apply Hnone]).
  - unfold begins. rewrite Eb. destruct (b_RemoteChannel b0) as [r|] eqn:Er; [|naive_solver].
    destruct (cn_sessionsByChannel c !! r) as [q|] eqn:Es; [|naive_solver].
    split; [done|]. split; [by eexists _, _|]. intros ch p'.
    rewrite lookup_insert_Some, open_on_snoc. rewrite (Ht ch p'). unfold begins, bounds. rewrite Eb.
    split; [naive_solver|]. intros [(? & ? & ? & ? & ? & ?)|[H ?]]; [left; naive_solver|right].
    split; [|done]. intros Hc. by specialize (H Hc).
  - destruct (t !! Channel fr) as [q|] eqn:E; [|by apply Hnone]. split_and!; [done|by apply Ht|].
    intros ch p'. rewrite lookup_delete_Some, open_on_snoc. rewrite (Ht ch p'). unfold begins, bounds. rewrite Eb. naive_solver.
  - destruct (c_Error c0); naive_solver.
Qed.

Lemma dispatch_all_recipients c frs : forall before t out t' e,
  table_ok c before t -> dispatch_all c frs t = (out, t', e) ->
  exists n, map snd out = take n frs /\
    (forall i p fr, out !! i = Some (p, fr) -> recipient c (before ++ take i frs) fr p) /\
    match t' with
    | Some _ => n = length frs
    | None => exists fr, frs !! n = Some fr /\ forall p, ~ recipient c (before ++ take n frs) fr p
    end.
Proof.
  induction frs as [|fr frs IH]; intros before t out t' e Ht E; cbn [dispatch_all] in E.
  { simplify_eq. exists 0%nat. split_and!; [done|done|done]. }
  pose proof (dispatch_recipient c before t fr Ht) as Hd.
  destruct (connReader_dispatch fr t c) as [[|e'|p fr'] t2].
  1,2: simplify_eq; exists 0%nat; split_and!; [done|done|]; exists fr; split; [done|];
    cbn; by rewrite app_nil_r.
  destruct Hd as (-> & Hr & Ht2). destruct (dispatch_all c frs t2) as [[out2 t3] e2] eqn:E2. simplify_eq.
  destruct (IH _ _ _ _ _ Ht2 E2) as (n & H1 & H2 & H3). exists (S n). split_and!.
  - cbn. by rewrite H1.
  - intros [|i] q f Hi; cbn in Hi; [simplify_eq; cbn; by rewrite app_nil_r|].
    cbn [take]. specialize (H2 i q f Hi). by rewrite <- app_assoc in H2.
  - destruct t'; [by cbn; f_equal|]. destruct H3 as (f & Hf & Hn). exists f. split; [done|].
    intros q Hq. apply (Hn q). rewrite <- app_assoc. exact Hq.
Qed.

(** What decides about a frame are the frames on its own channel. *)
Lemma open_on_local c before ch p : open_on c before ch p <-> open_on c (on ch before) ch p.
Proof.
  induction before as [|f before IH] using rev_ind; [done|]. unfold on. rewrite List.filter_app. cbn.
  destruct (Z.eqb_spec (Channel f) ch) as [E|E].
  - rewrite !open_on_snoc. fold (on ch before). naive_solver.
  - rewrite app_nil_r, open_on_snoc. fold (on ch before). naive_solver.
Qed.

Lemma recipient_local c before fr p : recipient c before fr p <-> recipient c (on (Channel fr) before) fr p.
Proof. unfold recipient. destruct (Body fr); try done; apply open_on_local. Qed.

(** C17: which session gets a frame.  The reader hands over the frames in order, up
    to the first one that no session is to get (a Close, a Begin that names no
    session, a frame on a channel that is not open), where it stops; without one
    it hands over all.  A Begin goes to the session whose local channel it names,
    and every other frame to the session that the last Begin on the same channel
    named, if no End came in between.  So the frames on other channels do not
    matter, except that one of them can stop the reader: as long as it goes on,
    what sessions get from the channel [ch] is what they would get if no frame
    had arrived on any other.  When two Begins name one session, it gets the
    frames of both channels.  The sessions are the ones that are registered in
    [c]; creating and deleting them is the subject of [channels_unique]. *)
Theorem sessions_isolated c frs out t e :
  dispatch_all c frs ∅ = (out, t, e) ->
  (exists n, map snd out = take n frs /\
    match t with
    | Some _ => n = length frs
    | None => exists fr, frs !! n = Some fr /\ forall p, ~ recipient c (take n frs) fr p
    end) /\
  (forall i p fr, out !! i = Some (p, fr) ->
     recipient c (take i frs) fr p /\ recipient c (on (Channel fr) (take i frs)) fr p) /\
  (forall ch, t <> None -> exists t1, dispatch_all c (on ch frs) ∅ = (got_on ch out, Some t1, e)).
Proof.
  intros E. destruct (dispatch_all_recipients c frs [] ∅ out t e) as (n & H1 & H2 & H3); [|done|].
  { intros ch p. rewrite lookup_empty. split; [done|]. by intros H%open_on_nil. }
  split_and!; [by exists n| |].
  - intros i p fr Hi. split; [by apply H2|]. apply (proj1 (recipient_local c (take i frs) fr p)). by apply H2.
  - intros ch Ht. destruct t as [t'|]; [|done].
    destruct (dispatch_isolated c ch frs ∅ ∅ out t' e E eq_refl) as (t1 & H & _). by exists t1.
Qed.

(** Begins on the remote channels 7 and 8, and flows on them. *)
Definition sample_begin_frame (ch remote : Z) : Frame :=
  mkFrame 0 ch (FBegin (mkBegin (Some remote) 0 9 9 9 [] [] None)) None.
Definition busy_conn : Conn := set_cn_sessionsByChannel (<[ 0 := 100 ]> {[ 1 := 101 ]}) (sample_conn []).
Definition busy_frames : list Frame :=
  [sample_begin_frame 7 0; sample_begin_frame 8 1; sample_flow_frame 8; sample_flow_frame 7].
Definition busy_out : list (Z * Frame) :=
  [(100, sample_begin_frame 7 0); (101, sample_begin_frame 8 1); (101, sample_flow_frame 8);
   (100, sample_flow_frame 7)].

Lemma sessions_isolated_witness :
  recipient busy_conn (take 3 busy_frames) (sample_flow_frame 7) 100 /\
  exists t1, dispatch_all busy_conn (on 7 busy_frames) ∅
    = ([(100, sample_begin_frame 7 0); (100, sample_flow_frame 7)], Some t1, None).
Proof.
  destruct (sessions_isolated busy_conn busy_frames busy_out (Some (<[ 8 := 101 ]> {[ 7 := 100 ]})) None)
    as (_ & H2 & H3); [vm_compute; reflexivity|].
  split; [exact (proj1 (H2 3%nat 100 (sample_flow_frame 7) eq_refl))|]. apply (H3 7). done.
Defined.

End Transport.
