(* ===== verification/Dial.v ===== *)
(** * Dial: connecting (the entry points of conn.go)

    Dial takes the address apart, completes the options with it, dials and starts
    the connection.  [net/url], the TCP and TLS dialers and the TLS handshake are
    library code: the parsed address is an argument, and so are the dialer, which
    gives the network of the connection or an error, and the handshake. *)

From S2P Require Import Prelude Bitmap Buffer Types Encode Frames Link Sasl Conn ConnSpec Establish.
Import Buffer Errors Link Sasl Conn ConnSpec Establish.

Module Dial.

(** What url.Parse gives; the password of the user part may be missing. *)
Record URL := mkURL {
  u_Scheme : bytes;
  u_Hostname : bytes;
  u_Port : bytes;
  u_User : option (bytes * option bytes)
}.

(** The fields of tls.Config that conn.go looks at. *)
Record tlsConfig := mkTLSConfig { ServerName : bytes; InsecureSkipVerify : bool }.

Definition initTLSConfig (hostname : bytes) (config : option tlsConfig) : tlsConfig :=
  let config := default (mkTLSConfig [] false) config in
  if (zlen (ServerName config) =? 0) && negb (InsecureSkipVerify config)
  then mkTLSConfig hostname (InsecureSkipVerify config) else config.

(** The two methods of the dialer interface, with what they are given. *)
Inductive dial_call :=
| NetDialerDial (host port : bytes)
| TLSDialWithDialer (host port : bytes) (config : tlsConfig).

Definition network : Type := list (bytes * option error).

Section Dialing.
Context (dialer : dial_call -> res network) (handshake : network -> res network).

Definition dial_port (u : URL) : bytes :=
  if zlen (u_Port u) =? 0 then
    if bool_decide (u_Scheme u = bytes_of_string "amqps") || bool_decide (u_Scheme u = bytes_of_string "amqp+ssl")
    then bytes_of_string "5671" else bytes_of_string "5672"
  else u_Port u.

(** The copy of the options that dialConn completes. *)
Definition dial_options (u : URL) (opts : option ConnOptions) : ConnOptions :=
  let cp := default (mkConnOptions [] [] 0 0 0 None None 0) opts in
  let sasl := match u_User u with
              | Some (user, pass) => Some (SASLTypePlain user (default [] pass))
              | None => co_SASLType cp
              end in
  let host := if zlen (co_HostName cp) =? 0 then u_Hostname u else co_HostName cp in
  mkConnOptions (co_ContainerID cp) host (co_IdleTimeout cp) (co_MaxFrameSize cp) (co_MaxSessions cp)
    (co_Properties cp) sasl (co_Timeout cp).

(** dialConn; [rnd] is the generated container id and [config] the TLS
    configuration of the options. *)
Definition dialConn (rnd : bytes) (u : URL) (opts : option ConnOptions) (config : option tlsConfig) : res Conn :=
  c ← newConn rnd [] (Some (dial_options u opts));
  if bool_decide (u_Scheme u = bytes_of_string "amqp") || (zlen (u_Scheme u) =? 0) then
    net ← dialer (NetDialerDial (u_Hostname u) (dial_port u));
    mret (set_cn_net net c)
  else if bool_decide (u_Scheme u = bytes_of_string "amqps") || bool_decide (u_Scheme u = bytes_of_string "amqp+ssl")
  then
    net ← dialer (TLSDialWithDialer (u_Hostname u) (dial_port u) (initTLSConfig (cn_hostname c) config));
    mret (set_cn_net net (set_cn_tlsNegotiation false c))
  else Err (Errorf "unsupported scheme %q" (u_Scheme u)).

(** The common end of Dial and NewConn. *)
Definition started (c : Conn) : res Conn :=
  match start handshake c with
  | (Ok _, c) => Ok c
  | (Err e, _) => Err e
  | (Panic p, _) => Panic p
  | (OutOfFuel, _) => OutOfFuel
  end.

Definition Dial (rnd : bytes) (u : URL) (opts : option ConnOptions) (config : option tlsConfig) : res Conn :=
  c ← dialConn rnd u opts config;
  started c.

Definition NewConn (rnd : bytes) (net : network) (opts : option ConnOptions) : res Conn :=
  c ← newConn rnd net opts;
  started c.

End Dialing.

(** ** What a dialled connection is *)

Definition plain (u : URL) : Prop := u_Scheme u = bytes_of_string "amqp" \/ u_Scheme u = [].
Definition secure (u : URL) : Prop :=
  u_Scheme u = bytes_of_string "amqps" \/ u_Scheme u = bytes_of_string "amqp+ssl".

(** The port: the one of the address, or the registered one of the scheme. *)
Definition port_for (u : URL) (port : bytes) : Prop :=
  (u_Port u <> [] -> port = u_Port u) /\
  (u_Port u = [] -> secure u -> port = bytes_of_string "5671") /\
  (u_Port u = [] -> ~ secure u -> port = bytes_of_string "5672").

(** The host name that the options give, or else the one of the address. *)
Definition host_for (u : URL) (opts : option ConnOptions) (host : bytes) : Prop :=
  match opts with
  | Some o => (co_HostName o <> [] -> host = co_HostName o) /\ (co_HostName o = [] -> host = u_Hostname u)
  | None => host = u_Hostname u
  end.

(** The TLS configuration: what the options give, with the host as the server name
    to verify when they name none and do not give up verification. *)
Definition config_for (host : bytes) (config : option tlsConfig) (cfg : tlsConfig) : Prop :=
  match config with
  | None => cfg = mkTLSConfig host false
  | Some given =>
      InsecureSkipVerify cfg = InsecureSkipVerify given /\
      (ServerName given <> [] -> ServerName cfg = ServerName given) /\
      (ServerName given = [] -> ServerName cfg = if InsecureSkipVerify given then [] else host)
  end.

(** The connection that is started: its network, its host name and who
    authenticates. *)
Record dialled (dialer : dial_call -> res network) (u : URL) (opts : option ConnOptions) (config : option tlsConfig)
  (c : Conn) : Prop := mkDialled {
  dl_scheme : plain u \/ secure u;
  dl_host : host_for u opts (cn_hostname c);
  dl_plain : plain u -> exists port, port_for u port /\
    dialer (NetDialerDial (u_Hostname u) port) = Ok (cn_net c);
  dl_secure : secure u -> exists port cfg, port_for u port /\ config_for (cn_hostname c) config cfg /\
    dialer (TLSDialWithDialer (u_Hostname u) port cfg) = Ok (cn_net c);
  dl_tls : cn_tlsNegotiation c = false;
  dl_fresh : cn_saslComplete c = false;
  dl_user user pass : u_User u = Some (user, pass) ->
    cn_saslHandlers c = Some {[ bytes_of_string "PLAIN" := HPlain user (default [] pass) ]}
}.

Lemma zlen_eqb_nil (l : bytes) : (zlen l =? 0) = bool_decide (l = []).
Proof. destruct l; [done|]. rewrite bool_decide_false by done. zlia. Qed.

Lemma dial_port_for u : port_for u (dial_port u).
Proof.
  unfold port_for, dial_port, secure. rewrite zlen_eqb_nil.
  case_bool_decide as Ep; [|by split_and!]. split; [done|].
  do 2 case_bool_decide; cbn; split; intros ? ?; try done; naive_solver.
Qed.

Lemma initTLSConfig_for host config : config_for host config (initTLSConfig host config).
Proof.
  destruct config as [[name skip]|]; [|done]. unfold initTLSConfig, config_for. cbn. rewrite zlen_eqb_nil.
  case_bool_decide; destruct skip; cbn; split_and!; try done; by intros.
Qed.

Lemma newConn_fields rnd net o c :
  newConn rnd net (Some o) = Ok c ->
  cn_hostname c = co_HostName o /\ cn_tlsNegotiation c = false /\ cn_saslComplete c = false /\
  match co_SASLType o with
  | Some t => t None = Ok (cn_saslHandlers c)
  | None => cn_saslHandlers c = None
  end.
Proof.
  unfold newConn, mbind, res_bind, mret, res_ret. cbn [default from_option id]. destruct (_ && _); [done|].
  destruct (co_SASLType o) as [t|]; [destruct (t None) as [h| | |] eqn:E; try done|];
    intros; by simplify_eq.
Qed.

Lemma dial_options_host u opts : host_for u opts (co_HostName (dial_options u opts)).
Proof.
  unfold host_for, dial_options. destruct opts as [o|]; cbn; [|done]. rewrite zlen_eqb_nil.
  case_bool_decide; by split.
Qed.

Lemma dialConn_ok dialer rnd u opts config c :
  dialConn dialer rnd u opts config = Ok c -> dialled dialer u opts config c.
Proof.
  unfold dialConn. destruct (newConn rnd [] (Some (dial_options u opts))) as [c0| | |] eqn:E; try done.
  apply newConn_fields in E as (Eh & Et & Ef & Es). pose proof (dial_options_host u opts) as Hh. rewrite <- Eh in Hh.
  assert (forall user pass, u_User u = Some (user, pass) ->
    cn_saslHandlers c0 = Some {[ bytes_of_string "PLAIN" := HPlain user (default [] pass) ]}) as Hu.
  { intros user pass Eu. unfold dial_options in Es. rewrite Eu in Es. cbn in Es. unfold SASLTypePlain in Es.
    by simplify_eq. }
  pose proof (dial_port_for u) as Hp. pose proof (initTLSConfig_for (cn_hostname c0) config) as Hc.
  unfold mbind, res_bind, mret, res_ret. rewrite zlen_eqb_nil, <- !bool_decide_or. case_bool_decide as H1.
  - destruct (dialer _) as [net| | |] eqn:Ed; try done. intros [= <-].
    assert (~ secure u) as Hn by (intros [H|H]; rewrite H in H1; by destruct H1).
    destruct c0; constructor; cbn in *; try done; [by left|intros _; by exists (dial_port u)].
  - case_bool_decide as H2; [|done]. destruct (dialer _) as [net| | |] eqn:Ed; try done. intros [= <-].
    destruct c0; constructor; cbn in *; try done; [by right|].
    intros _. by exists (dial_port u), (initTLSConfig cn_hostname0 config).
Qed.

(** C37: a dialled connection is the one the address asks for.  When Dial
    succeeds, the scheme was one of the documented ones; the host of the address
    was dialled, on its port or else on 5672 or, for the secure schemes, 5671,
    over TLS exactly for the secure schemes, and then with the host name as the
    server name to verify unless the configuration has one or gives up
    verification; the connection that came back was started; and with
    credentials in the address, PLAIN with these was the only mechanism it had,
    and the peer answered it with an outcome OK. *)
Theorem Dial_connects dialer handshake rnd u opts config c :
  Dial dialer handshake rnd u opts config = Ok c ->
  exists c0, dialled dialer u opts config c0 /\ start handshake c0 = (Ok tt, c) /\
    (u_User u <> None -> exists c1, accepted handshake c0 OpenAMQP c1) /\
    cn_channels c = Bitmap.New (cn_channelMax c).
Proof.
  unfold Dial, started. destruct (dialConn dialer rnd u opts config) as [c0| | |] eqn:E; try done.
  apply dialConn_ok in E. unfold mbind, res_bind.
  destruct (start handshake c0) as [[[]| | |] c1] eqn:Es; try done. intros; simplify_eq.
  exists c0. split; [done|]. split; [done|]. apply start_accepted in Es as (Hh & Hc & c1 & _ & _ & _ & _ & Ha & _).
  split; [|done]. intros Hu. exists c1. destruct (u_User u) as [[user pass]|] eqn:Eu; [|done].
  apply Ha; [|by destruct E]. by rewrite (dl_user _ _ _ _ _ E user pass).
Qed.

Definition sample_url : URL := mkURL (bytes_of_string "amqps") [104] [] (Some ([117], Some [112])).
Definition sample_dialer (d : dial_call) : res network :=
  match d with
  | TLSDialWithDialer [104] port (mkTLSConfig [104] false) =>
      if bool_decide (port = bytes_of_string "5671") then Ok plain_net else Err EOF
  | _ => Err EOF
  end.
Definition sample_dialled : Conn :=
  match Dial sample_dialer (fun net => Ok net) [99] sample_url None None with Ok c => c | _ => sample_conn [] end.

Lemma Dial_connects_witness :
  exists c0, dialled sample_dialer sample_url None None c0 /\ start (fun net => Ok net) c0 = (Ok tt, sample_dialled) /\
    (u_User sample_url <> None -> exists c1, accepted (fun net => Ok net) c0 OpenAMQP c1) /\
    cn_channels sample_dialled = Bitmap.New (cn_channelMax sample_dialled).
Proof.
  apply (Dial_connects sample_dialer (fun net => Ok net) [99] sample_url None None sample_dialled).
  vm_compute. reflexivity.
Defined.

End Dial.
