(* ===== verification/Lifecycle.v ===== *)
(** * Lifecycle: sessions and links are opened and closed

    NewSession over a connection, the closing of a session and of a link: what
    the callers of Close wait for, and what the two ends exchange. *)

From S2P Require Import Prelude Bitmap Buffer Types Encode Decode CodecSafety Frames Message Link Creditor Receiver ReceiverSpec Sender SenderSpec Session SessionSpec Sasl Conn ConnSpec Establish.
Import Buffer Encode Decode Frames Message Errors Link.
Import Conn(Conn, cn_sessionsByChannel, deleteSession, cn_channelMax).
Import ConnSpec(sample_conn).
Import Establish(channels_ok, newSession_run, deleteSession_ok, chan_step, chan_step_ok, bind_inv).
Import Receiver(Receiver, r_l, rstate, RSelect, RExit, revent, RClose, no_out, fail_with).
Import ReceiverSpec(sample_receiver).
Import Sender SenderSpec.
Import Session SessionSpec.

Module Lifecycle.

(** ** Sessions *)

(** NewSession: a channel is allocated, Begin is sent and the answer awaited;
    the connection forgets the session when it asks for that.  The session and
    the variables of its mux, or the error. *)
Definition NewSession (p : Z) (opts : option SessionOptions) (ev : begin_event)
  : M Conn (list action * (state + goerr)) :=
  channel ← Conn.newSession p;
  let s := newSession channel opts in
  let '(acts, r) := begin_wait ev in
  (if existsb is_delete acts then deleteSession channel else mret tt);;
  mret (ATxFrame (FBegin (begin_frame s)) None :: acts,
        match r with
        | BeginMux remoteBegin => inl (new_state channel opts remoteBegin)
        | BeginErr e => inr e
        end).

(** An event that does not end the wait for the peer's End. *)
Definition keeps_waiting (ev : event) : Prop :=
  match ev with EConnDone _ | ERxSelect _ (FEnd _) => False | _ => True end.

Lemma keeps_waiting_conn ev : keeps_waiting ev -> conn_event ev.
Proof. by destruct ev. Qed.

(** The frames among what a session did. *)
Definition frames_sent (out : list action) : list FrameBody :=
  omap (fun a => match a with ATxFrame body _ => Some body | _ => None end) out.

Lemma frames_sent_app o o' : frames_sent (o ++ o') = frames_sent o ++ frames_sent o'.
Proof. apply omap_app. Qed.

Lemma link_step_sent st st' : link_step st st' -> frames_sent (st_out st') = frames_sent (st_out st).
Proof.
  intros [p l s _ _ _|p x s s' E|p l s s' _ _ E|p l l' s _ _ _ _]; [by destruct s| | |by destruct s].
  - pose proof (allocateHandle_out p s) as (_ & Eo & _). rewrite E in Eo. cbn in Eo. by rewrite Eo.
  - pose proof (deallocateHandle_out p s) as (_ & Eo & _). rewrite E in Eo. cbn in Eo.
    destruct Eo as [-> | ->]; [done|]. rewrite frames_sent_app. apply app_nil_r.
Qed.

(** While the mux waits for the peer's End, it sends nothing and does not return,
    whatever links do. *)
Lemma waiting x y :
  rtc (life_step keeps_waiting) x y -> x.1 = MuxEnding ->
  y.1 = MuxEnding /\ frames_sent (st_out y.2) = frames_sent (st_out x.2).
Proof.
  induction 1 as [x|x y z [ph ev ph' st st' Hev E|ph st st' E] _ IH]; intros Hx; [done|..]; cbn in *; subst ph.
  - assert (ph' = MuxEnding /\ st' = st) as [-> ->]; [|by apply IH].
    unfold mux_step in E. destruct ev as [| |? []| |]; try done; unfold mret, M_ret in E; by simplify_eq.
  - destruct (IH eq_refl) as [H1 H2]. split; [done|]. rewrite H2. by apply link_step_sent.
Qed.

(** C18: a session lives and ends properly.  NewSession on a connection sends one
    Begin and registers the session under a channel that was free.  Whatever its
    mux and its links have done since, when the caller closes the session the
    mux sends an End; while it waits, whatever else arrives and whatever its links
    do, it sends nothing and does not return; and when the peer's End is there it
    returns: the session is done without an error, Close returns nil, and the
    connection has been asked exactly once to delete the session, which makes its
    channel free again, whatever other sessions were created and deleted
    meanwhile. *)
Theorem session_lifecycle p opts rb c acts st c1 st1 :
  channels_ok c -> NewSession p opts (BRx (FBegin rb)) c = (Ok (acts, inl st), c1) ->
  rtc (life_step conn_event) (MuxRunning, st) (MuxRunning, st1) ->
  let ch := ss_channel (st_s st) in
  acts = [ATxFrame (FBegin (begin_frame (st_s st))) None] /\
  cn_sessionsByChannel c !! ch = None /\ cn_sessionsByChannel c1 !! ch = Some p /\
  (exists st2, mux_step MuxRunning EClose st1 = (Ok MuxEnding, st2) /\
     st_out st2 = st_out st1 ++ [ATxFrame (FEnd (mkEnd None)) None] /\
     forall ph st3, rtc (life_step keeps_waiting) (MuxEnding, st2) (ph, st3) ->
       ph = MuxEnding /\ frames_sent (st_out st3) = frames_sent (st_out st2) /\
       forall skip e, exists st4, mux_step MuxEnding (ERxSelect skip (FEnd e)) st3 = (Ok MuxExited, st4) /\
         st_out st4 = st_out st3 ++ [ADeleteSession] /\ deletes (st_out st4) = 1 /\
         Close_wait WaitDone (st_s st4) = Some None) /\
  forall c2, rtc chan_step c1 c2 -> cn_sessionsByChannel c2 !! ch = Some p ->
    channels_ok (deleteSession ch c2).2 /\ cn_sessionsByChannel (deleteSession ch c2).2 !! ch = None.
Proof.
  intros Hok E Er. unfold NewSession in E. apply bind_inv in E as (ch & c0 & E0 & E).
  pose proof (newSession_run p c Hok) as Hn. rewrite E0 in Hn. destruct Hn as (H1 & _ & H3 & H4).
  unfold begin_wait in E. cbn in E. unfold mbind, M_bind, mret, M_ret in E. simplify_eq. cbn zeta.
  assert (forall o, ss_channel (newSession ch o) = ch) as Ech by done. cbn [st_s new_state]. rewrite Ech.
  split_and!; [done|done|by rewrite H3, lookup_insert_eq| |].
  - set (st2 := set_st_out (st_out st1 ++ [ATxFrame (FEnd (mkEnd None)) None]) st1).
    assert (mux_step MuxRunning EClose st1 = (Ok MuxEnding, st2)) as Ec by done.
    exists st2. split; [done|]. split; [by destruct st1|]. intros ph st3 Hw.
    destruct (waiting _ _ Hw eq_refl) as [Eph Eo]. cbn in Eph, Eo. subst ph. split; [done|]. split; [done|].
    assert (rtc (life_step conn_event) (MuxRunning, new_state ch opts rb) (MuxEnding, st3)) as Hr.
    { etrans; [exact Er|]. eapply rtc_l; [by apply (lf_mux _ MuxRunning EClose MuxEnding)|].
      clear - Hw. induction Hw as [|x y z Hs _ IH]; [done|].
      eapply rtc_l; [|exact IH]. eapply life_step_weaken; [apply keeps_waiting_conn|exact Hs]. }
    apply life_ends in Hr; [|done|done]. rewrite decide_False in Hr by done. destruct Hr as (L1 & L2 & L3).
    intros skip e. eexists. split; [reflexivity|]. destruct st3 as [[] ? ? ? ?]. cbn in *. subst.
    split_and!; [done|by rewrite deletes_app, L3|done].
  - intros c2 Hst Hc2. split.
    + apply (deleteSession_ok ch p); [|done]. clear -H4 Hst. induction Hst; eauto using chan_step_ok.
    + replace (cn_sessionsByChannel (deleteSession ch c2).2) with (delete ch (cn_sessionsByChannel c2))
        by (by destruct c2). apply lookup_delete_eq.
Qed.

(** The session has two links, sends a transfer and is closed; a transfer comes too
    late, and one of the links is detached meanwhile. *)
Lemma session_lifecycle_witness :
  exists st2 st4, mux_step MuxRunning EClose sent_one = (Ok MuxEnding, st2) /\
    mux_step MuxEnding (ERx (FEnd (mkEnd None))) (deallocateHandle 1 st2).2 = (Ok MuxExited, st4) /\
    deletes (st_out st4) = 1 /\ Close_wait WaitDone (st_s st4) = Some None.
Proof.
  destruct (session_lifecycle 10 None sample_begin (sample_conn [])
    [ATxFrame (FBegin (begin_frame (newSession 0 None))) None] (new_state 0 None sample_begin)
    (NewSession 10 None (BRx (FBegin sample_begin)) (sample_conn [])).2 sent_one)
    as (_ & _ & _ & (st2 & H1 & _ & H2) & _).
  - apply Establish.fresh_channels; [reflexivity|by vm_compute|reflexivity].
  - vm_compute; reflexivity.
  - eapply rtc_r; [apply two_links_reached|].
    apply (lf_mux _ MuxRunning (ETxTransfer (sample_transfer 0 1))); [done|vm_compute; reflexivity].
  - assert (st2 = (mux_step MuxRunning EClose sent_one).2) as -> by (by rewrite H1).
    destruct (H2 MuxEnding (deallocateHandle 1 (mux_step MuxRunning EClose sent_one).2).2) as (_ & _ & H3).
    + eapply rtc_l; [apply (lf_mux _ MuxEnding (ERx (FTransfer (sample_transfer 0 2))) MuxEnding); done|].
      apply rtc_once, lf_link. eapply (ls_deallocate 1); vm_compute; reflexivity.
    + destruct (H3 taken (mkEnd None)) as (st4 & E4 & _ & Hd & Hc).
      exists (mux_step MuxRunning EClose sent_one).2, st4. by split_and!.
Defined.

(** ** Links *)

(** Once the mux has ended with an error, detaching does not change it. *)
Lemma muxDetach_keeps_err evs st l e :
  l_err l = Some e -> l_err (muxDetach_run st evs l).1.1 = Some e.
Proof.
  revert st l. induction evs as [|ev evs IH]; intros st l He; [done|]. cbn [muxDetach_run].
  assert (l_err (muxDetach_step st ev l).1.1 = Some e) as H1.
  { unfold muxDetach_step, detach_exit. destruct l. cbn in *. by repeat case_match; simplify_eq. }
  destruct (muxDetach_step st ev l) as [[l1 o1] st1]. cbn in H1. specialize (IH st1 l1 H1).
  by destruct (muxDetach_run st1 evs l1) as [[l2 o2] st2].
Qed.

(** An event that neither sends nor receives a Detach. *)
Definition other_event (ev : detach_event) : Prop :=
  undisturbed ev /\ closing ev = false /\ sent_detach ev = false.

Lemma other_events evs :
  Forall other_event evs -> Forall undisturbed evs /\ existsb closing evs = false /\ existsb sent_detach evs = false.
Proof.
  induction 1 as [|ev evs (H1 & H2 & H3) _ (I1 & I2 & I3)]; [done|]. cbn. rewrite H2, H3, I2, I3. by split; [constructor|].
Qed.

(** The end that starts: its Detach goes out, and then the peer's arrives. *)
Lemma detach_starts junk1 junk2 d l e :
  Forall other_event junk1 -> Forall other_event junk2 -> dt_Closed d = true -> l_err l = Some (EDetach e None) ->
  let '(l', os, st) := muxDetach_run (muxDetach_start l) (junk1 ++ DTx :: junk2 ++ [DRx (FDetach d)]) l in
  st = DetachExited /\ all_sent os = [FDetach (mkDetach (l_handle l) true (l_detachError l))] /\
  deallocs os = 1%nat /\ closeLink_wait WaitDone l' = Some None.
Proof.
  intros (U1 & C1 & S1)%other_events (U2 & C2 & S2)%other_events Hd He.
  set (evs := junk1 ++ DTx :: junk2 ++ [DRx (FDetach d)]).
  assert (Forall undisturbed evs) as Hu.
  { unfold evs. apply Forall_app. split; [done|]. constructor; [done|]. apply Forall_app. by repeat constructor. }
  assert (existsb sent_detach evs = true /\ existsb closing evs = true) as [Es Ec].
  { unfold evs. rewrite !existsb_app. cbn. rewrite !existsb_app. cbn. by rewrite Hd, !orb_true_r. }
  pose proof (muxDetach_sending (mkDetach (l_handle l) true (l_detachError l)) evs l Hu) as H.
  pose proof (muxDetach_keeps_err evs (muxDetach_start l) l _ He) as H2. unfold muxDetach_start in *.
  destruct (muxDetach_run _ evs l) as [[l' os] st]. rewrite Es, Ec, orb_true_r in H. cbn in H, H2.
  destruct H as (H3 & -> & H4 & H5). split_and!; [done|done|done|]. cbn. rewrite H4. unfold closeLink_result.
  by rewrite H2.
Qed.

(** The end that has got the peer's Detach answers and is done. *)
Lemma detach_answers l :
  l_detachReceived l = true ->
  exists l' o, muxDetach_run (muxDetach_start l) [DTx] l = (l', [o], DetachExited) /\
    do_sent o = [FDetach (mkDetach (l_handle l) true (l_detachError l))] /\ do_deallocate o = true /\
    l_detached l' = true.
Proof. intros Hr. cbn. rewrite Hr. eexists _, _. split; [reflexivity|]. by destruct l. Qed.

(** C19: both ends of a link shut down when one is closed.  Close of a receiver ends
    its mux without an error and its Detach goes out; this makes the mux of the
    sender at the other end return, which answers with a Detach and is done; and
    when the answer arrives, whatever else has arrived before, the receiver is
    done too and Close returns nil.  Each end sends exactly one Detach, closing,
    with its own handle, and gives its handle back exactly once. *)
Theorem close_handshake rst r sst s junk1 junk2 :
  rst <> RExit -> sst <> SExit -> Forall other_event junk1 -> Forall other_event junk2 ->
  let d1 := mkDetach (l_handle (r_l r)) true (l_detachError (r_l r)) in
  let d2 := mkDetach (l_handle (s_l s)) true (l_detachError (s_l s)) in
  exists r1 s1,
    Receiver.mux_step rst RClose (Receiver.on_l closeLink_start r) = (Ok tt, no_out, r1, RExit) /\
    sender_mux_step sst (SRx (FDetach d1)) s = (Ok tt, no_sout, s1, SExit) /\
    (exists ls o, muxDetach_run (muxDetach_start (s_l s1)) [DTx] (s_l s1) = (ls, [o], DetachExited) /\
       do_sent o = [FDetach d2] /\ do_deallocate o = true /\ l_detached ls = true) /\
    let '(lr, os, st) := muxDetach_run (muxDetach_start (r_l r1))
                           (junk1 ++ DTx :: junk2 ++ [DRx (FDetach d2)]) (r_l r1) in
    st = DetachExited /\ all_sent os = [FDetach d1] /\ deallocs os = 1%nat /\ closeLink_wait WaitDone lr = Some None.
Proof.
  intros Hr Hs H1 H2 d1 d2.
  exists (fail_with (Some (EDetach None None)) (Receiver.on_l closeLink_start r)),
    (sfail (Some (match l_detachError (r_l r) with Some e => EDetach (Some e) None | None => EDetach None None end))
       (on_sl (set_l_detachReceived true) s)).
  split; [|split; [|split]].
  - destruct r as [[]]. by destruct rst.
  - unfold d1. destruct s. destruct sst; [| |done]; cbn; by destruct (l_detachError (r_l r)).
  - destruct (detach_answers (s_l (sfail (Some (match l_detachError (r_l r) with
        Some e => EDetach (Some e) None | None => EDetach None None end)) (on_sl (set_l_detachReceived true) s))))
      as (ls & o & E & E1 & E2 & E3); [by destruct s as [[]]|].
    exists ls, o. split; [exact E|]. split; [|done]. rewrite E1. unfold d2. by destruct s as [[]].
  - pose proof (detach_starts junk1 junk2 d2 (r_l (fail_with (Some (EDetach None None)) (Receiver.on_l closeLink_start r))) None
      H1 H2 eq_refl) as H. unfold d1. destruct r as [[]]. apply H. done.
Qed.

Lemma close_handshake_witness :
  let d2 := mkDetach 0 true None in
  exists r1 s1,
    Receiver.mux_step RSelect RClose (Receiver.on_l closeLink_start sample_receiver) = (Ok tt, no_out, r1, RExit) /\
    sender_mux_step SSelect (SRx (FDetach (mkDetach 0 true None))) sample_sender = (Ok tt, no_sout, s1, SExit) /\
    (exists ls o, muxDetach_run (muxDetach_start (s_l s1)) [DTx] (s_l s1) = (ls, [o], DetachExited) /\
       do_sent o = [FDetach d2] /\ do_deallocate o = true /\ l_detached ls = true) /\
    let '(lr, os, st) := muxDetach_run (muxDetach_start (r_l r1))
      ([DRx (FTransfer last_frame)] ++ DTx :: [DRx (grant 1 1)] ++ [DRx (FDetach d2)]) (r_l r1) in
    st = DetachExited /\ all_sent os = [FDetach (mkDetach 0 true None)] /\ deallocs os = 1%nat /\
    closeLink_wait WaitDone lr = Some None.
Proof.
  apply (close_handshake RSelect sample_receiver SSelect sample_sender [DRx (FTransfer last_frame)] [DRx (grant 1 1)]);
    [done|done|by repeat constructor|by repeat constructor].
Defined.

End Lifecycle.
