(* ===== verification/TestConn.v ===== *)
(** * TestConn: the network of the package's tests (internal/testconn)

    A connection that gives out canned data, in the chunks that a separator in
    the data marks, and swallows what is written; and the recorder that makes
    such data of the traffic of a real connection.  The other files take the
    network as the list of the results of its reads; this one is an instance. *)

From S2P Require Import Prelude Buffer.

Module TestConn.

(** "SPLIT\n" *)
Definition separator : bytes := [83; 80; 76; 73; 84; 10].

Fixpoint has_prefix (sep s : bytes) : bool :=
  match sep, s with
  | [], _ => true
  | x :: sep, y :: s => (x =? y) && has_prefix sep s
  | _, [] => false
  end.

(** bytes.Split: the pieces between the occurrences of a separator that is not
    empty, which are looked for from the left and do not overlap. *)
Fixpoint split_fuel (fuel : nat) (sep s : bytes) : list bytes :=
  match fuel with
  | O => [s]
  | S fuel =>
      if has_prefix sep s then [] :: split_fuel fuel sep (drop (length sep) s)
      else match s with
           | [] => [[]]
           | x :: s => match split_fuel fuel sep s with
                       | p :: ps => (x :: p) :: ps
                       | [] => [[x]]
                       end
           end
  end.
Definition Split (s sep : bytes) : list bytes := split_fuel (length s) sep s.

(** Conn: [done] says whether the channel is closed, [err] is the channel of
    capacity one, [readDeadline] says whether a timer is armed. *)
Record Conn := mkConn {
  data : list bytes;
  done : bool;
  err : option error;
  readDeadline : bool
}.

Definition New (d : bytes) : Conn := mkConn (Split d separator) false None false.

(** The cases of the [select] in which Read waits when there is no data. *)
Inductive wait := WaitDone | WaitErr.

(** Read into a slice of [room] bytes; [None] while it waits. *)
Definition Read (room : Z) (w : wait) (c : Conn) : option (res bytes) * Conn :=
  match data c with
  | [] =>
      match w with
      | WaitDone => if done c then (Some (Err (Errorf "connection closed" [])), c) else (None, c)
      | WaitErr =>
          match err c with
          | Some e => (Some (Err e), mkConn (data c) (done c) None (readDeadline c))
          | None => (None, c)
          end
      end
  | chunk :: rest =>
      let n := Z.min room (zlen chunk) in
      let data := if n =? zlen chunk then rest else drop (Z.to_nat n) chunk :: rest in
      (Some (Ok (take (Z.to_nat n) chunk)), mkConn data (done c) (err c) (readDeadline c))
  end.

Definition Write (b : bytes) (c : Conn) : res Z * Conn := (Ok (zlen b), c).

(** Closing a channel twice panics. *)
Definition Close (c : Conn) : res unit * Conn :=
  if done c then (Panic ClosedChannel, c) else (Ok tt, mkConn (data c) true (err c) (readDeadline c)).

(** SetReadDeadline; [zero] is the time that disarms the timer. *)
Definition SetReadDeadline (zero : bool) (c : Conn) : res unit * Conn :=
  (Ok tt, mkConn (data c) (done c) (err c) (negb zero)).
Definition SetDeadline := SetReadDeadline.

(** The timer elapses: the time-out is put into the channel unless it is full.
    When the connection is closed too, the [select] takes either case. *)
Definition deadline_elapsed (takes_done : bool) (c : Conn) : Conn :=
  mkConn (data c) (done c)
    (match err c with
     | Some e => Some e
     | None => if done c && takes_done then None else Some (Errorf "timeout" [])
     end) false.

Definition SetWriteDeadline (c : Conn) : res unit * Conn :=
  (Err (Errorf "testconn.SetWriteDeadline NYI" []), c).

(** ** What the client under test reads *)

Fixpoint join (sep : bytes) (ps : list bytes) : bytes :=
  match ps with
  | [] => []
  | [p] => p
  | p :: ps => p ++ sep ++ join sep ps
  end.

Lemma has_prefix_split sep s : has_prefix sep s = true -> s = sep ++ drop (length sep) s.
Proof.
  revert s. induction sep as [|x sep IH]; intros s H; [done|]. destruct s as [|y s]; [done|].
  cbn in *. apply andb_prop in H as [->%Z.eqb_eq H]. f_equal. by apply IH.
Qed.

Lemma split_not_nil fuel sep s : split_fuel fuel sep s <> [].
Proof. destruct fuel; cbn; [done|]. repeat case_match; done. Qed.

Lemma join_cons sep p ps : ps <> [] -> join sep (p :: ps) = p ++ sep ++ join sep ps.
Proof. by destruct ps. Qed.

Lemma split_join fuel sep s : join sep (split_fuel fuel sep s) = s.
Proof.
  revert s. induction fuel as [|fuel IH]; intros s; [done|]. cbn [split_fuel].
  destruct (has_prefix sep s) eqn:E.
  - rewrite join_cons by apply split_not_nil. rewrite IH. symmetry. by apply has_prefix_split.
  - destruct s as [|x s]; [done|]. specialize (IH s). destruct (split_fuel fuel sep s) as [|p ps]; [by cbn in *; subst|].
    destruct ps; cbn in *; by rewrite IH.
Qed.

(** The reads of a client, one for every element of [rooms]: what they return
    and the connection afterwards. *)
Fixpoint reads (rooms : list Z) (w : wait) (c : Conn) : list (option (res bytes)) * Conn :=
  match rooms with
  | [] => ([], c)
  | room :: rooms =>
      let '(x, c) := Read room w c in
      let '(xs, c) := reads rooms w c in (x :: xs, c)
  end.

(** The bytes of a read, as the entry of the list that the connection takes for its network. *)
Definition given (x : option (res bytes)) : bytes := match x with Some (Ok p) => p | _ => [] end.

(** The reads that are needed at most. *)
Definition left (c : Conn) : Z := zlen (concat (data c)) + zlen (data c).

Lemma Read_gives room w c :
  0 < room -> data c <> [] ->
  exists p c', Read room w c = (Some (Ok p), c') /\ zlen p <= room /\
    p ++ concat (data c') = concat (data c) /\ left c' < left c.
Proof.
  intros Hr Hd. destruct c as [[|chunk rest] dn er rd]; [done|]. clear Hd.
  unfold Read. cbn [data]. eexists _, _. split; [reflexivity|]. unfold left. cbn [data].
  pose proof (zlen_nonneg chunk). destruct (Z.eqb_spec (Z.min room (zlen chunk)) (zlen chunk)) as [E|E]; cbn [concat].
  - rewrite E, firstn_all2 by (unfold zlen; lia). rewrite zlen_app, zlen_cons. split; [lia|]. split; [done|lia].
  - replace (Z.min room (zlen chunk)) with room by lia.
    rewrite app_assoc, firstn_skipn, !zlen_app, !zlen_cons. unfold zlen in *. rewrite length_take, length_drop.
    split; [lia|]. split; [done|lia].
Qed.

(** Whatever the sizes of its buffers, a client of the test connection reads the
    chunks of the canned data one after the other, nothing left out and nothing
    twice, and no read crosses the end of a chunk.  The chunks, joined with
    the separator, are the data. *)
Theorem testconn_stream d rooms w :
  Forall (fun room => 0 < room) rooms -> left (New d) <= zlen rooms ->
  join separator (data (New d)) = d /\
  concat (map given (reads rooms w (New d)).1) = concat (data (New d)) /\
  data (reads rooms w (New d)).2 = [].
Proof.
  intros Hr Hl. split; [apply split_join|]. revert Hl. generalize (New d) as c.
  induction Hr as [|room rooms Hroom _ IH]; intros c Hl.
  - unfold left in Hl. pose proof (zlen_nonneg (concat (data c))).
    change (zlen []) with 0 in Hl. cbn [reads fst snd map concat].
    destruct (data c) as [|x l]; [done|]. rewrite zlen_cons in Hl. pose proof (zlen_nonneg l). lia.
  - cbn [reads]. destruct (decide (data c = [])) as [E|E].
    + assert ((Read room w c).1 = None \/ exists e, (Read room w c).1 = Some (Err e)) as Hx
        by (unfold Read; rewrite E; repeat case_match; eauto).
      assert (data (Read room w c).2 = []) as Hc by (unfold Read; rewrite E; repeat case_match; done).
      destruct (Read room w c) as [x c1]. cbn [fst snd] in *.
      destruct (IH c1) as [IH1 IH2]; [unfold left; rewrite Hc; cbn; apply zlen_nonneg|].
      destruct (reads rooms w c1) as [xs c2]. cbn [fst snd map concat] in *. rewrite IH1, Hc, E.
      split; [by destruct Hx as [-> | [e ->]]|done].
    + destruct (Read_gives room w c Hroom E) as (p & c1 & Ec & _ & Ep & Hlt). rewrite Ec.
      destruct (IH c1) as [IH1 IH2]; [rewrite zlen_cons in Hl; lia|].
      destruct (reads rooms w c1) as [xs c2]. cbn [fst snd map concat given] in *. by rewrite IH1.
Qed.

Lemma testconn_stream_witness :
  concat (map given (reads [2; 1; 5; 1; 1; 1] WaitDone (New ([1; 2; 3] ++ separator ++ [4]))).1) = [1; 2; 3; 4].
Proof.
  destruct (testconn_stream ([1; 2; 3] ++ separator ++ [4]) [2; 1; 5; 1; 1; 1] WaitDone) as (_ & E & _);
    [by repeat constructor|by vm_compute|]. rewrite E. reflexivity.
Defined.

(** ** Recording and replay (recorder.go) *)

(** Recorder.Read: what the connection under it gives is written to the
    recording, followed by the separator, also when there is an error. *)
Definition Recorder_Read (x : bytes * option error) (recording : bytes) : (bytes * option error) * bytes :=
  (x, recording ++ x.1 ++ separator).

Fixpoint record (xs : list (bytes * option error)) (recording : bytes) : bytes :=
  match xs with
  | [] => recording
  | x :: xs => record xs (Recorder_Read x recording).2
  end.

(** Recorder.Close closes the connection and then the recording, whatever the
    first returns; the result is that of the first.  Both are interfaces. *)
Definition Recorder_Close {C W} (conn_Close : C -> res unit * C) (w_Close : W -> res unit * W) (s : C * W)
  : res unit * (C * W) :=
  let '(err, c) := conn_Close s.1 in
  match err with
  | Panic p => (Panic p, (c, s.2))
  | err =>
      match w_Close s.2 with
      | (Panic p, w) => (Panic p, (c, w))
      | (_, w) => (err, (c, w))
      end
  end.

(** The separator does not occur. *)
Fixpoint separator_free (p : bytes) : bool :=
  negb (has_prefix separator p) && match p with [] => true | _ :: p => separator_free p end.

Lemma record_spec xs recording :
  record xs recording = recording ++ concat (map (fun x => x.1 ++ separator) xs).
Proof.
  revert recording. induction xs as [|x xs IH]; intros rec; cbn [record map concat]; [by rewrite app_nil_r|].
  rewrite IH. cbn [Recorder_Read snd]. by rewrite <- !app_assoc.
Qed.

(** The separator has no border, so what precedes it does not hide it. *)
Lemma separator_no_border p rest :
  p <> [] -> has_prefix separator p = false -> has_prefix separator (p ++ separator ++ rest) = false.
Proof.
  intros Hne H. destruct p as [|x1 [|x2 [|x3 [|x4 [|x5 [|x6 p]]]]]]; [done|..];
    cbn [separator has_prefix app] in *; rewrite ?andb_false_r; try done;
    repeat (destruct (_ =? _) eqn:?; cbn in * ); done.
Qed.

Lemma split_piece p rest fuel :
  separator_free p = true -> (length (p ++ separator ++ rest) <= fuel)%nat ->
  exists fuel', (length rest <= fuel')%nat /\
    split_fuel fuel separator (p ++ separator ++ rest) = p :: split_fuel fuel' separator rest.
Proof.
  revert fuel. induction p as [|x p IH]; intros fuel Hf Hl.
  - destruct fuel as [|fuel]; [cbn in Hl; lia|]. exists fuel. cbn in Hl |- *. split; [lia|done].
  - destruct fuel as [|fuel]; [cbn in Hl; lia|]. cbn [separator_free] in Hf.
    apply andb_prop in Hf as [H1%negb_true_iff H2]. destruct (IH fuel H2) as (fuel' & Hr & E); [cbn [app length] in Hl; lia|].
    exists fuel'. split; [done|]. cbn [split_fuel]. rewrite separator_no_border by done.
    cbn [app]. by rewrite E.
Qed.

(** A recording is replayed: the test connection splits it into exactly the reads
    that were recorded, and an empty one at the end, unless the traffic contains
    the separator. *)
Theorem recording_replays xs :
  Forall (fun x => separator_free x.1 = true) xs ->
  data (New (record xs [])) = map fst xs ++ [[]].
Proof.
  intros Hf. rewrite record_spec. cbn [New data app]. unfold Split.
  generalize (Nat.le_refl (length (concat (map (fun x => x.1 ++ separator) xs)))).
  generalize (length (concat (map (fun x => x.1 ++ separator) xs))) at 2 3 as fuel. revert Hf.
  induction 1 as [|[p e] xs Hp _ IH]; intros fuel Hl; [by destruct fuel|].
  cbn [map concat fst] in *. rewrite <- app_assoc in *.
  destruct (split_piece p _ fuel Hp Hl) as (fuel' & Hr & ->). by rewrite (IH fuel').
Qed.

Lemma recording_replays_witness :
  data (New (record [([1; 83; 80], None); ([76; 73; 84; 10], None)] [])) = [[1; 83; 80]; [76; 73; 84; 10]; []].
Proof. apply (recording_replays [([1; 83; 80], None); ([76; 73; 84; 10], None)]). by repeat constructor. Defined.

End TestConn.
