(* ===== verification/Printing.v ===== *)
(** * Printing: the texts of enumerations, identifiers and SASL frames

    The String methods whose text the package determines itself (internal/encoding/types.go
    and internal/frames/frames.go).  They appear in errors and logs.  Those
    of the other frames are in [Texts]. *)

From stdpp Require Import pretty.
From S2P Require Import Prelude Types Frames.
Import Frames.

Module Printing.

Definition text (s : String.string) : bytes := bytes_of_string s.
Arguments text s%_string.

(** %d, and strconv.FormatUint with base ten. *)
Definition decimal (n : Z) : bytes := bytes_of_string (pretty n).

(** A nil pointer prints as "<nil>". *)
Definition nil_text : bytes := text "<nil>".

Definition Durability_String (d : option Z) : bytes :=
  match d with
  | None => nil_text
  | Some d =>
      if d =? DurabilityNone then text "none"
      else if d =? DurabilityConfiguration then text "configuration"
      else if d =? DurabilityUnsettledState then text "unsettled-state"
      else text "unknown durability " ++ decimal d
  end.

Definition ExpiryPolicy_String (e : option bytes) : bytes := default nil_text e.

Definition SenderSettleMode_String (m : option Z) : bytes :=
  match m with
  | None => nil_text
  | Some m =>
      if m =? SenderSettleModeUnsettled then text "unsettled"
      else if m =? SenderSettleModeSettled then text "settled"
      else if m =? SenderSettleModeMixed then text "mixed"
      else text "unknown sender mode " ++ decimal m
  end.

Definition ReceiverSettleMode_String (m : option Z) : bytes :=
  match m with
  | None => nil_text
  | Some m =>
      if m =? ReceiverSettleModeFirst then text "first"
      else if m =? ReceiverSettleModeSecond then text "second"
      else text "unknown receiver mode " ++ decimal m
  end.

Definition Role_String (rl : bool) : bytes := if rl then text "Receiver" else text "Sender".

Definition formatUint16Ptr (p : option Z) : bytes := from_option decimal nil_text p.
Definition formatUint32Ptr (p : option Z) : bytes := from_option decimal nil_text p.

(** hex.Encode: two lower-case digits for every byte. *)
Definition hex_digit (n : Z) : Z := if n <? 10 then 48 + n else 87 + n.
Definition hex_Encode (src : bytes) : bytes :=
  concat (map (fun c => [hex_digit (Z.shiftr c 4); hex_digit (Z.land c 15)]) src).

(** [u[i:j]] *)
Definition slice (i j : nat) (u : bytes) : bytes := take (j - i) (drop i u).

Definition dash : Z := 45.
Definition UUID_String (u : bytes) : bytes :=
  hex_Encode (slice 0 4 u) ++ [dash] ++ hex_Encode (slice 4 6 u) ++ [dash] ++
  hex_Encode (slice 6 8 u) ++ [dash] ++ hex_Encode (slice 8 10 u) ++ [dash] ++ hex_Encode (drop 10 u).

Definition SASLInit_String (si : SASLInit) : bytes :=
  text "SaslInit{Mechanism : " ++ si_Mechanism si ++ text ", InitialResponse: ********, Hostname: "
    ++ si_Hostname si ++ text "}".
Definition SASLChallenge_String (sc : SASLChallenge) : bytes := text "Challenge{Challenge: ********}".
Definition SASLResponse_String (sr : SASLResponse) : bytes := text "Response{Response: ********}".

(** ** Names *)

Lemma bytes_of_string_inj a b : bytes_of_string a = bytes_of_string b -> a = b.
Proof.
  revert b. induction a as [|x a IH]; intros [|y b]; cbn; try done. intros [= Hx Hab%IH]. subst b. f_equal.
  apply N2Z.inj, (f_equal Ascii.ascii_of_N) in Hx. by rewrite !Ascii.ascii_N_embedding in Hx.
Qed.

Lemma decimal_inj n m : decimal n = decimal m -> n = m.
Proof. intros H%bytes_of_string_inj. by apply pretty_Z_inj in H. Qed.

(** Two values of an enumeration, valid or not, never print alike; neither does a
    missing one. *)
Theorem names_distinct :
  (forall a b, Durability_String a = Durability_String b -> a = b) /\
  (forall a b, SenderSettleMode_String a = SenderSettleMode_String b -> a = b) /\
  (forall a b, ReceiverSettleMode_String a = ReceiverSettleMode_String b -> a = b).
Proof.
  split_and!; intros [a|] [b|];
    unfold Durability_String, SenderSettleMode_String, ReceiverSettleMode_String;
    repeat (case_match; try done);
    rewrite ?Z.eqb_eq in *; intros H'; try done; try congruence;
    apply app_inv_head, decimal_inj in H'; congruence.
Qed.

(** ** Identifiers *)

(** The digits of a text, two by two; dashes are skipped. *)
Definition digit_value (c : Z) : option Z :=
  if (48 <=? c) && (c <=? 57) then Some (c - 48)
  else if (97 <=? c) && (c <=? 102) then Some (c - 87)
  else None.
Fixpoint parse_hex (s : bytes) : option bytes :=
  match s with
  | [] => Some []
  | c :: s' =>
      if c =? dash then parse_hex s'
      else match s' with
           | [] => None
           | d :: s'' =>
               match digit_value c, digit_value d, parse_hex s'' with
               | Some x, Some y, Some l => Some (16 * x + y :: l)
               | _, _, _ => None
               end
           end
  end.

Lemma digit_value_hex n : 0 <= n < 16 -> digit_value (hex_digit n) = Some n /\ hex_digit n <> dash.
Proof.
  intros H. unfold digit_value, hex_digit, dash. destruct (Z.ltb_spec n 10); split; try lia.
  - replace (_ && _) with true by lia. f_equal. lia.
  - replace ((48 <=? 87 + n) && (87 + n <=? 57)) with false by lia.
    replace (_ && _) with true by lia. f_equal. lia.
Qed.

Lemma parse_hex_Encode src rest :
  bytes_ok src -> parse_hex (hex_Encode src ++ rest) = (app src) <$> parse_hex rest.
Proof.
  induction 1 as [|c src Hc _ IH]; [cbn [hex_Encode map concat app]; by destruct (parse_hex rest)|].
  unfold hex_Encode in *. cbn [map concat app parse_hex].
  assert (0 <= Z.shiftr c 4 < 16 /\ 0 <= Z.land c 15 < 16 /\ 16 * Z.shiftr c 4 + Z.land c 15 = c) as (H1 & H2 & E).
  { change 15 with (Z.ones 4). rewrite Z.land_ones, Z.shiftr_div_pow2 by lia. change (2 ^ 4) with 16.
    unfold is_byte in Hc. ilia. }
  destruct (digit_value_hex _ H1) as [-> Hd], (digit_value_hex _ H2) as [-> _].
  replace (_ =? dash) with false by lia. rewrite IH, E. by destruct (parse_hex rest).
Qed.

Lemma parse_hex_dash rest : parse_hex ([dash] ++ rest) = parse_hex rest.
Proof. done. Qed.

Lemma zlen_hex src : zlen (hex_Encode src) = 2 * zlen src.
Proof.
  induction src as [|c src IH]; [done|]. unfold hex_Encode in *. cbn [map concat].
  rewrite zlen_app, IH, (zlen_cons c). change (zlen [_; _]) with 2. lia.
Qed.

(** The text of a UUID has the 36 characters of RFC 4122 and determines it. *)
Theorem UUID_String_parses u :
  bytes_ok u -> zlen u = 16 -> zlen (UUID_String u) = 36 /\ parse_hex (UUID_String u) = Some u.
Proof.
  intros Hok Hl. unfold zlen in Hl. split.
  - unfold UUID_String. rewrite !zlen_app, !zlen_hex. unfold slice, zlen.
    rewrite !length_take, !length_drop. cbn [length]. lia.
  - assert (forall i j, bytes_ok (slice i j u)) as Hs by (intros; by apply Forall_take, Forall_drop).
    assert (bytes_ok (drop 10 u)) as Hd by (by apply Forall_drop).
    unfold UUID_String. rewrite <- (app_nil_r (hex_Encode (drop 10 u))).
    repeat (rewrite parse_hex_Encode by done; rewrite ?parse_hex_dash). cbn [parse_hex fmap option_fmap option_map].
    f_equal. unfold slice. rewrite app_nil_r. do 16 (destruct u as [|? u]; [cbn in Hl; lia|]).
    destruct u; [done|cbn in Hl; lia].
Qed.

Definition sample_uuid : bytes := [0; 17; 34; 51; 68; 85; 102; 119; 136; 153; 170; 187; 204; 221; 238; 255].
Lemma UUID_String_parses_witness :
  UUID_String sample_uuid = text "00112233-4455-6677-8899-aabbccddeeff" /\
  parse_hex (UUID_String sample_uuid) = Some sample_uuid.
Proof.
  split; [reflexivity|]. apply (UUID_String_parses sample_uuid); [|reflexivity].
  repeat constructor; unfold_ints; cbn; lia.
Defined.

(** ** Secrets *)

(** The texts of the SASL frames do not depend on the credentials in them. *)
Theorem sasl_texts_hide_secrets :
  (forall si secret, SASLInit_String (mkSASLInit (si_Mechanism si) secret (si_Hostname si)) = SASLInit_String si) /\
  (forall sc secret, SASLChallenge_String (mkSASLChallenge secret) = SASLChallenge_String sc) /\
  (forall sr secret, SASLResponse_String (mkSASLResponse secret) = SASLResponse_String sr).
Proof. split_and!; by intros []. Qed.

End Printing.
