(* ===== verification/Texts.v ===== *)
(** * Texts: how frames and errors print

    The String methods of the performatives (internal/frames/frames.go) and of the
    delivery states (internal/encoding/types.go), and the Error methods of errors.go.
    What fmt prints for values of open types (maps, [any], durations, errors of
    other packages) is a parameter, the class [Fmt]. *)

From S2P Require Import Prelude Types Frames Link Printing.
Import Frames Errors Link Printing.

Module Texts.

(** The texts that fmt gives to values of open types: %v, and %+v for [fmt_map_plus]. *)
Class Fmt := mkFmt {
  fmt_any : value -> bytes;
  fmt_map : list (bytes * value) -> bytes;
  fmt_map_plus : list (bytes * value) -> bytes;
  fmt_annotations : option (list (value * value)) -> bytes;
  fmt_filter : list (bytes * option DescribedType) -> bytes;
  fmt_unsettled : list (bytes * option DeliveryState) -> bytes;
  fmt_duration : Z -> bytes;
  fmt_error : goerr -> bytes
}.

(** %t *)
Definition bool_text (x : bool) : bytes := if x then text "true" else text "false".

(** %v of a slice: its elements between brackets, separated by spaces. *)
Fixpoint spaced (l : list bytes) : bytes :=
  match l with
  | [] => []
  | [x] => x
  | x :: l => x ++ text " " ++ spaced l
  end.
Definition slice_text (l : list bytes) : bytes := text "[" ++ spaced l ++ text "]".

(** %X of a byte slice. *)
Definition hex_upper (src : bytes) : bytes :=
  map (fun c => if c >=? 97 then c - 32 else c) (hex_Encode src).

Section Formatting.
Context `{!Fmt}.

Definition Error_String (e : option Error) : bytes :=
  match e with
  | None => text "*Error(nil)"
  | Some e =>
      text "*Error{Condition: " ++ Condition e ++ text ", Description: " ++ Description e ++
      text ", Info: " ++ fmt_map (Info e) ++ text "}"
  end.

Definition StateAccepted_String : bytes := text "Accepted".
Definition StateRejected_String (e : option Error) : bytes := text "Rejected{Error: " ++ Error_String e ++ text "}".
Definition StateReleased_String : bytes := text "Released".
Definition StateModified_String (failed undeliverable : bool) (annotations : option (list (value * value))) : bytes :=
  text "Modified{DeliveryFailed: " ++ bool_text failed ++ text ", UndeliverableHere: " ++
  bool_text undeliverable ++ text ", MessageAnnotations: " ++ fmt_annotations annotations ++ text "}".

(** %v of a delivery state.  StateReceived has no String method. *)
Definition DeliveryState_String (s : DeliveryState) : bytes :=
  match s with
  | StateReceived number offset => text "&{" ++ decimal number ++ text " " ++ decimal offset ++ text "}"
  | StateAccepted => StateAccepted_String
  | StateRejected e => StateRejected_String e
  | StateReleased => StateReleased_String
  | StateModified failed undeliverable annotations => StateModified_String failed undeliverable annotations
  end.
Definition state_v (s : option DeliveryState) : bytes := from_option DeliveryState_String nil_text s.

(** %s, which reports nil and the numbers of StateReceived as of the wrong type. *)
Definition state_s (s : option DeliveryState) : bytes :=
  match s with
  | None => text "%!s(<nil>)"
  | Some (StateReceived number offset) =>
      text "&{%!s(uint32=" ++ decimal number ++ text ") %!s(uint64=" ++ decimal offset ++ text ")}"
  | Some s => DeliveryState_String s
  end.

Definition DescribedType_String (t : DescribedType) : bytes :=
  text "DescribedType{descriptor: " ++ fmt_any (Descriptor t) ++ text ", value: " ++ fmt_any (DValue t) ++ text "}".

(** ** Performatives *)

Definition Source_String (s : Source) : bytes :=
  text "source{Address: " ++ s_Address s ++ text ", Durable: " ++ decimal (s_Durable s) ++
  text ", ExpiryPolicy: " ++ s_ExpiryPolicy s ++ text ", Timeout: " ++ decimal (s_Timeout s) ++
  text ", Dynamic: " ++ bool_text (s_Dynamic s) ++
  text ", DynamicNodeProperties: " ++ fmt_map (s_DynamicNodeProperties s) ++
  text ", DistributionMode: " ++ s_DistributionMode s ++ text ", Filter: " ++ fmt_filter (s_Filter s) ++
  text ", DefaultOutcome: " ++ fmt_any (s_DefaultOutcome s) ++
  text "Outcomes: " ++ slice_text (s_Outcomes s) ++ text ", Capabilities: " ++ slice_text (s_Capabilities s) ++ text "}".

Definition Target_String (t : Target) : bytes :=
  text "source{Address: " ++ t_Address t ++ text ", Durable: " ++ decimal (t_Durable t) ++
  text ", ExpiryPolicy: " ++ t_ExpiryPolicy t ++ text ", Timeout: " ++ decimal (t_Timeout t) ++
  text ", Dynamic: " ++ bool_text (t_Dynamic t) ++
  text ", DynamicNodeProperties: " ++ fmt_map (t_DynamicNodeProperties t) ++
  text ", Capabilities: " ++ slice_text (t_Capabilities t) ++ text "}".

Definition PerformOpen_String (o : PerformOpen) : bytes :=
  text "Open{ContainerID : " ++ o_ContainerID o ++ text ", Hostname: " ++ o_Hostname o ++
  text ", MaxFrameSize: " ++ decimal (o_MaxFrameSize o) ++ text ", ChannelMax: " ++ decimal (o_ChannelMax o) ++
  text ", IdleTimeout: " ++ fmt_duration (o_IdleTimeout o) ++
  text ", OutgoingLocales: " ++ slice_text (o_OutgoingLocales o) ++
  text ", IncomingLocales: " ++ slice_text (o_IncomingLocales o) ++
  text ", OfferedCapabilities: " ++ slice_text (o_OfferedCapabilities o) ++
  text ", DesiredCapabilities: " ++ slice_text (o_DesiredCapabilities o) ++
  text ", Properties: " ++ fmt_map (o_Properties o) ++ text "}".

Definition PerformBegin_String (b : PerformBegin) : bytes :=
  text "Begin{RemoteChannel: " ++ formatUint16Ptr (b_RemoteChannel b) ++
  text ", NextOutgoingID: " ++ decimal (b_NextOutgoingID b) ++
  text ", IncomingWindow: " ++ decimal (b_IncomingWindow b) ++
  text ", OutgoingWindow: " ++ decimal (b_OutgoingWindow b) ++ text ", HandleMax: " ++ decimal (b_HandleMax b) ++
  text ", OfferedCapabilities: " ++ slice_text (b_OfferedCapabilities b) ++
  text ", DesiredCapabilities: " ++ slice_text (b_DesiredCapabilities b) ++
  text ", Properties: " ++ fmt_map (default [] (b_Properties b)) ++ text "}".

(** %v of a pointer calls String, and prints "<nil>" when that panics on nil. *)
Definition PerformAttach_String (a : PerformAttach) : bytes :=
  text "Attach{Name: " ++ a_Name a ++ text ", Handle: " ++ decimal (a_Handle a) ++
  text ", Role: " ++ Role_String (a_Role a) ++
  text ", SenderSettleMode: " ++ SenderSettleMode_String (a_SenderSettleMode a) ++
  text ", ReceiverSettleMode: " ++ ReceiverSettleMode_String (a_ReceiverSettleMode a) ++
  text ", Source: " ++ from_option Source_String nil_text (a_Source a) ++
  text ", Target: " ++ from_option Target_String nil_text (a_Target a) ++
  text ", Unsettled: " ++ fmt_unsettled (a_Unsettled a) ++
  text ", IncompleteUnsettled: " ++ bool_text (a_IncompleteUnsettled a) ++
  text ", InitialDeliveryCount: " ++ decimal (a_InitialDeliveryCount a) ++
  text ", MaxMessageSize: " ++ decimal (a_MaxMessageSize a) ++
  text ", OfferedCapabilities: " ++ slice_text (a_OfferedCapabilities a) ++
  text ", DesiredCapabilities: " ++ slice_text (a_DesiredCapabilities a) ++
  text ", Properties: " ++ fmt_map (a_Properties a) ++ text "}".

Definition PerformFlow_String (f : PerformFlow) : bytes :=
  text "Flow{NextIncomingID: " ++ formatUint32Ptr (f_NextIncomingID f) ++
  text ", IncomingWindow: " ++ decimal (f_IncomingWindow f) ++
  text ", NextOutgoingID: " ++ decimal (f_NextOutgoingID f) ++
  text ", OutgoingWindow: " ++ decimal (f_OutgoingWindow f) ++
  text ", Handle: " ++ formatUint32Ptr (f_Handle f) ++ text ", DeliveryCount: " ++ formatUint32Ptr (f_DeliveryCount f) ++
  text ", LinkCredit: " ++ formatUint32Ptr (f_LinkCredit f) ++ text ", Available: " ++ formatUint32Ptr (f_Available f) ++
  text ", Drain: " ++ bool_text (f_Drain f) ++ text ", Echo: " ++ bool_text (f_Echo f) ++
  text ", Properties: " ++ fmt_map_plus (f_Properties f) ++ text "}".

Definition PerformTransfer_String (t : PerformTransfer) : bytes :=
  let deliveryTag := from_option hex_upper nil_text (tr_DeliveryTag t) in
  text "Transfer{Handle: " ++ decimal (tr_Handle t) ++ text ", DeliveryID: " ++ formatUint32Ptr (tr_DeliveryID t) ++
  text ", DeliveryTag: " ++ deliveryTag ++ text ", MessageFormat: " ++ formatUint32Ptr (tr_MessageFormat t) ++
  text ", Settled: " ++ bool_text (tr_Settled t) ++ text ", More: " ++ bool_text (tr_More t) ++
  text ", ReceiverSettleMode: " ++ ReceiverSettleMode_String (tr_ReceiverSettleMode t) ++
  text ", State: " ++ state_v (tr_State t) ++ text ", Resume: " ++ bool_text (tr_Resume t) ++
  text ", Aborted: " ++ bool_text (tr_Aborted t) ++ text ", Batchable: " ++ bool_text (tr_Batchable t) ++
  text ", Payload [size]: " ++ decimal (zlen (tr_Payload t)) ++ text "}".

Definition PerformDisposition_String (d : PerformDisposition) : bytes :=
  text "Disposition{Role: " ++ Role_String (dp_Role d) ++ text ", First: " ++ decimal (dp_First d) ++
  text ", Last: " ++ formatUint32Ptr (dp_Last d) ++ text ", Settled: " ++ bool_text (dp_Settled d) ++
  text ", State: " ++ state_s (dp_State d) ++ text ", Batchable: " ++ bool_text (dp_Batchable d) ++ text "}".

Definition PerformDetach_String (d : PerformDetach) : bytes :=
  text "Detach{Handle: " ++ decimal (dt_Handle d) ++ text ", Closed: " ++ bool_text (dt_Closed d) ++
  text ", Error: " ++ Error_String (dt_Error d) ++ text "}".

Definition PerformClose_String (c : PerformClose) : bytes :=
  text "Close{Error: " ++ Error_String (c_Error c) ++ text "}".

Definition SASLMechanisms_String (sm : SASLMechanisms) : bytes :=
  text "SaslMechanisms{Mechanisms : " ++ slice_text (sm_Mechanisms sm) ++ text "}".

Definition SASLOutcome_String (so : SASLOutcome) : bytes :=
  text "SaslOutcome{Code : " ++ decimal (so_Code so) ++ text ", AdditionalData: " ++
  slice_text (map decimal (so_AdditionalData so)) ++ text "}".

(** ** Errors *)

(** The Error methods.  The errors of other packages print as they do. *)
Fixpoint Error_text (e : goerr) : bytes :=
  match e with
  | EAmqp e => Error_String (Some e)
  | EAmqpNil => Error_String None
  | EDetach None None => text "amqp: link closed"
  | EConn None None => text "amqp: connection closed"
  | ESession None None => text "amqp: session closed"
  | EDetach (Some e) _ | EConn (Some e) _ | ESession (Some e) _ => Error_String (Some e)
  | EDetach None (Some e) | EConn None (Some e) | ESession None (Some e) => Error_text e
  | e => fmt_error e
  end.

(** ** What the texts say *)

(** The error at the end of a chain: the one that the peer gave, or the innermost. *)
Fixpoint root (e : goerr) : goerr :=
  match e with
  | EDetach (Some e) _ | EConn (Some e) _ | ESession (Some e) _ => EAmqp e
  | EDetach None (Some e) | EConn None (Some e) | ESession None (Some e) => root e
  | e => e
  end.

(** The error of a link, session or connection prints as its cause, however often it
    was wrapped on the way from the connection to the caller. *)
Theorem Error_text_root e : Error_text e = Error_text (root e).
Proof.
  revert e. fix IH 1. intros [?| |[?|] [x|]|[?|] [x|]|[?|] [x|]| | | |]; try reflexivity; exact (IH x).
Qed.

(** The text of a transfer does not depend on the bytes that it carries. *)
Theorem transfer_text_hides_payload t payload :
  zlen payload = zlen (tr_Payload t) -> PerformTransfer_String (set_tr_Payload payload t) = PerformTransfer_String t.
Proof. intros Hz. destruct t. cbn in Hz. unfold PerformTransfer_String. cbn -[decimal text app]. by rewrite Hz. Qed.

End Formatting.

(** A formatter that prints nothing for open values. *)
Definition silent : Fmt :=
  mkFmt (fun _ => []) (fun _ => []) (fun _ => []) (fun _ => []) (fun _ => []) (fun _ => []) (fun _ => []) (fun _ => []).

Definition hello_frame : PerformTransfer :=
  mkTransfer 0 (Some 1) (Some [171]) (Some 0) true false None None false false false [104; 105] None.

Lemma transfer_text_hides_payload_witness :
  @PerformTransfer_String silent (set_tr_Payload [0; 0] hello_frame)
  = text "Transfer{Handle: 0, DeliveryID: 1, DeliveryTag: AB, MessageFormat: 0, Settled: true, More: false, ReceiverSettleMode: <nil>, State: <nil>, Resume: false, Aborted: false, Batchable: false, Payload [size]: 2}".
Proof. rewrite (transfer_text_hides_payload hello_frame [0; 0]) by reflexivity. vm_compute. reflexivity. Defined.

(** The source and the target of a link print under the same name. *)
Theorem target_prints_as_source `{!Fmt} s t : take 7 (Target_String t) = take 7 (Source_String s).
Proof. reflexivity. Qed.

End Texts.
